(* ===== verification/_CoqProject ===== *)
-Q . S2P
Prelude.v
PyStr.v
PyFloat.v
Frame.v
Damage.v
Binary64.v
Loader.v
Fips.v
Merge.v
Pipeline.v
Groupby.v
GroupSum64.v
Dashboards.v
Csv.v
Pages.v
Tests.v
System.v
