(* ===== verification/Prelude.v ===== *)
(** * Storm-data ETL pipeline: a verification development

    ** The program

    The repository cleans a raw NOAA storm-event table and serves three
    dashboards over the cleaned table.  All data transformation lives in
    [src/code/get_data.py]:
    - [load_and_filter_storm_data] (lines 6-24) reads the raw CSV and
      keeps eleven required columns, raising one [ValueError] that names
      every missing column;
    - [filter_valid_state_fips] (lines 67-78) coerces [STATE_FIPS] to a
      number and keeps the rows with a code in [1, 53];
    - [convert_damage_column] and its [parse_value] (lines 40-64) turn
      damage strings such as "150.00K" or "1.2M" into floats;
    - [merge_state_coordinates] (lines 81-103) upper-cases the state
      table's [name] and left-joins it on [STATE];
    - [get_storm_data_pipeline] (lines 106-140) runs these in order and
      saves the result with [save_filtered_data] (lines 27-37); the
      module's last line (144) runs it whenever the module is imported.
    The dashboards ([map_dashboard.py], [storm_dashboard.py],
    [states_dashboard.py]) read the saved CSV, offer the distinct event
    types or states, keep the selected rows, and chart group-by sums of
    a chosen metric (per month and in total, or per state on a map);
    they write nothing, and draw the summaries with altair or plotly
    under streamlit widgets.  The two programs interact only through
    the saved table.  The tests ([src/tests/test_get_data.py]) import
    the module, which runs the pipeline on the cached files, then check
    the file it wrote and one conversion.

    ** The files

    - [Prelude] (this file): the Python exceptions that escape the code
      ([Exn]), the result monad [Result] with [raise] and
      [try! ... except], the list comprehension [mapM], the hint database
      [etl], the [result_inv] and [decide_true] tactics, and shared list
      lemmas.
    - [PyStr]: [str.strip], [str.upper], [str.endswith], [s[:-1]],
      [str.replace] of one character and [str.title] (CPython's rule)
      on strings of code points below 256, and the order of strings.
    - [PyFloat]: Python floats ([PFin] exact rational, [PInf], [PNaN]),
      their setoid equality [≡], and [float(str)] after Python's
      documented grammar ([py_float]), with the round trip of decimal
      literals ([py_float_fixed]); pandas' number parser [floatify]
      ([xstrtod]) used by [pd.to_numeric] and [read_csv].
    - [Frame]: cells, [Series] and [DataFrame] as pandas keeps them
      (index labels plus named columns), and the operations the code
      calls: [df[c]], [df[cols]], [df[mask]], [pd.Series(list)], and
      [df[c] = s] with pandas' index alignment ([set_col]); the key
      lemma [set_col_fresh_series] says that assigning a fresh Series
      reads it by label.
    - [Damage] (Module [Convert]): [parse_value], [convert_damage_column].
    - [Binary64] (Module [Binary64]): IEEE 754 round-to-nearest-even
      ([round64], overflow to [inf]), [float(s)] and [x * n] as CPython
      computes them, and [parse_value64], [parse_value] in binary64.
    - [Loader] (Module [Load]): [load_and_filter_storm_data].
    - [Fips] (Module [Fips]): [filter_valid_state_fips].
    - [Merge] (Module [Merge]): [.str.upper()], pandas' left merge and
      [merge_state_coordinates].
    - [Pipeline] (Module [Pipeline]): [get_storm_data_pipeline], split
      as the code is into steps 1-3 ([clean_storm_data]) and the merge.
    - [Groupby] (Module [Groupby]): the pandas and Python operations the
      dashboards share: [sorted] ([py_sorted]), [Series.unique()]
      ([uniques]), [isin], [sum] with [skipna] ([nansum]),
      [pd.Categorical] codes ([cat_code]), and [groupby(keys)[c].sum()]
      ([groupby_sum] on a float64 column, [groupby_sum_col] dispatching
      on the column's dtype to the object path [obj_sum], which
      concatenates strings) in a Section generic in the key type, with the
      lemmas that each present key falls in exactly one group
      ([count_group_keys]) and that the group sums add up to the rows
      with a present key ([groupby_sum_total]).
    - [GroupSum64] (Module [GroupSum64]): pandas' [group_sum] as it runs
      on a float64 column: Kahan-compensated summation in row order with
      every operation rounded ([kahan_step], [kahan_sum],
      [groupby_sum64]).
    - [Dashboards] (Module [Dashboards]): [save_and_reload] (the saved
      table read back), the shared lines 21-46 of the storm and states
      scripts ([summaries]: [select_rows], [monthly_summary],
      [total_summary]), the scripts [storm_dashboard],
      [states_dashboard] (with their option lists) and [map_dashboard].
    - [Csv] (Module [Csv]): the text of the saved file.  The writer
      [to_csv_text] is [df.to_csv(path, index=False)] (get_data.py line
      36): Python's [csv.writer] with [QUOTE_MINIMAL] ([quote_field],
      [write_record]), floats by [repr] ([float_repr]: shortest decimal,
      fixed or scientific notation), missing values as ''.  The reader
      [read_csv_text] is [pd.read_csv(path)] (line 6 of each
      dashboard): the C tokenizer's state machine ([tok] over
      [tstate]), the default missing-value strings, the inference of a
      column's type ([read_column]), empty header names and pandas'
      renaming of duplicate names ([dedup_names], a [while] loop over a
      [defaultdict] kept as a [gmap]).
    - [Pages] (Module [Pages]): each dashboard script as a whole: its
      streamlit widgets ([st_multiselect], which refuses a default that
      is not an option, and [st_selectbox]), the summaries of
      [Dashboards], and the page it emits ([storm_page], [states_page],
      [map_page]): titles, headings, and the altair and plotly chart
      specifications as records.
    - [Tests] (Module [Tests]): the files as a map from path to text
      ([gmap]) read with [Csv.read_csv_text] and written with
      [Csv.to_csv_text], the pipeline with its reads and write ([run_pipeline]),
      the two tests with [assert] and [pd.testing.assert_series_equal],
      and a pytest session ([test_session]): the import runs the
      pipeline, then the tests run on the files it left.
    - [System] (Module [System]): the pipeline followed by the
      dashboards: the columns of the saved table by name through the
      join ([pipeline_column]), and the specification's scenario.
    Each operation is one definition that follows the source function
    line by line; state is passed explicitly (a frame in, a frame or an
    exception out), and the mutation of the caller's frame by
    [filter_valid_state_fips] (line 77) is not observable in the
    pipeline, which rebinds the name.

    ** What is proved

    - The pipeline (C1, C2, C12, C15, C16): the damage columns of the
      cleaned data are read by label after the FIPS filter has left
      gaps in the labels, so a row gets the damage of another row or
      NaN (C1); as soon as a row before a surviving row was dropped, the
      last surviving row's two damages are NaN (C2; on the
      specification's own scenario the malformed row also shows its
      neighbour's 1500.0 instead of 0.0,
      [Pipeline.spec_scenario_misaligned]); the values are the rows'
      own when the surviving labels are 0..k-1 (C12); a schema error
      aborts before any other step (C15); the saved table has one row
      per kept raw row and matching state name, so exactly one per raw
      row with a valid code when no STATE matches two names (C16).
    - The damage parser (C3-C7): in binary64, as CPython computes it, a
      shorthand amount "I.FK"/"I.FM" in any case and padding is
      [float('I.F')] times 1000/1000000, rounded (C3); [parse_value]
      raises exactly on a number that is not NaN and on a malformed K/M
      prefix (C4: [ValueError], contrary to the specification's
      "never raises"); the column conversion is positional with a fresh
      index (C5); the binary64 [parse_value] refines the exact one (C6):
      the same exceptions and special values, finite amounts within two
      roundings ([2^-52 + 2^-106] relative, [2^-1054] absolute), or
      [inf] from an exact amount of at least [2^1022]; a negative
      amount comes only from a text with a leading minus sign (C7),
      which is where the specification's non-negative amounts fail
      ([Convert.parse_value_not_nonneg]: "-1.5K", "nan", "inf").
      "1.005K" gives 1004.9999999999999 where the exact model reads
      1005 ([Binary64.parse_value64_1005K]); the unit test's amounts are
      exact in binary64 ([Binary64.parse_value64_test_amounts]).
    - The loader (C8, C9): the error names every missing column, in
      order; on success the result has exactly the required columns.
    - The FIPS filter (C10, C11): exact row selection with labels and
      order kept, well-formedness and the range invariant of the result;
      the boundary cases in [Fips.filter_valid_state_fips_boundary] (a
      fractional code is kept).
    - The join (C13, C14): no storm row is lost, rows multiply only on
      duplicate reference names, storm rows stay in order; the case
      asymmetry of the key and NaN-to-NaN matching in
      [Merge.merge_state_coordinates_example]; when the suffixes
      would make two columns of one side equal, pandas 2 raises
      [MergeError] ([Merge.merge_state_coordinates_suffix_clash]).
    - The files (C17): running the pipeline twice leaves the files as
      one run does, the idempotence the specification asks for.
    - The dashboards (C18-C24): the totals chart lists the present
      selected types, sorted, with exact skipna sums adding up to the
      selected rows (C18); the monthly chart has twelve rows per type in
      calendar order (C19); the two charts differ by exactly the rows
      whose month name is not one of the twelve (C20); the options are
      the sorted distinct types (C21); a missing event type makes
      [sorted] raise [TypeError] (C22); an empty table raises
      [IndexError] (C23); the map drops rows with a missing code (C24).
    - The pages (C25, C26): on a table whose metric columns hold no
      string, every page is well formed (each chart field is a column
      of its data, the quantitative channels are numeric, each
      multiselect default is an option, C25;
      [Pages.object_sum_concatenates] shows a string column summed to
      "12" by concatenation); the map's heading and legend,
      [replace('_', ' ').title()], capitalize each word of a metric
      (C26).
    - The tests (C27, C28): the outcome of a test session in every case:
      the import's pipeline error stops it; otherwise the loading test
      passes exactly when the output has 63096 rows and the state table
      shares no column name with the required ones, and the conversion
      test passes (C27); a shared name makes the loading test fail with
      the loader's [ValueError] naming exactly those columns (C28).
    - The two programs together (C29, C30): the saved table's damage
      columns hold floats only, one per row (C29), so the dashboards
      run on the saved table for a damage metric raise nothing (C30):
      the states dashboard always, the storm dashboard when every raw
      event type is a string, the map when the state table has its
      [state] column; both under the condition that the state table
      shares no column name with the ones read (which [pd.merge] would
      suffix, C28).
    - Results on the models of Python and pandas that the claims rest
      on: [Binary64.round64_nearest] ([round64] returns a double and no
      double is nearer: the IEEE specification of the rounding);
      [GroupSum64.groupby_sum64_exact] (on whole-number columns whose
      magnitudes add up to less than [2^53], such as casualty counts,
      pandas' Kahan-compensated binary64 [groupby(...).sum()] gives
      exactly the exact sums of [groupby_sum] that C18-C24 use);
      [Groupby.py_sorted_merge_sort] (the two sorts agree on strings);
      [Pages.pages_refine_dashboards] (each page charts what its
      dashboard function computes); [System.scenario_states_dashboard]
      (the misaligned damages reach the states dashboard on the
      specification's scenario); and in [Csv]: reading back the text
      [to_csv] writes gives [save_and_reload] of the table under
      conditions on the columns ([Csv.to_csv_read_csv]), a float's
      [repr] reads back as the same number ([Csv.float_repr_roundtrip]),
      the tokenizer reads back what the writer writes
      ([Csv.tokenize_write_lines]), the renaming of duplicate names ends
      within its fuel with distinct names ([Csv.dedup_names_total]), and
      every table [read_csv] returns is well formed
      ([Csv.read_csv_text_wf]).

    ** Choices and limits

    - Floats are exact rationals everywhere but in [Binary64]:
      [float("1.2")] is 6/5 and the products by 1000 and 1000000 are
      exact.  [Binary64] models the rounding of [parse_value]'s [float]
      and [*] and bounds the difference (C6); the concrete values of
      the other theorems (the scenario's 1500.0, the unit test's
      amounts) are doubles, so they hold in binary64 as well.  The sums
      of [groupby] are exact rationals in [Groupby] and Kahan's binary64
      algorithm in [GroupSum64]; they agree on whole numbers below
      [2^53] ([GroupSum64.groupby_sum64_exact]).  Not modelled in binary64: pandas' [xstrtod] (not
      correctly rounded, modelled as the exact decimal) and the shortest
      [repr] of a double that is not a short decimal; nor the sign of
      -0.0.
    - Strings are byte strings (Latin-1 code points); [upper] of [µ] and
      [ÿ], whose upper case lies outside Latin-1, is not modelled.
    - [pd.to_numeric] and [read_csv] read numbers with pandas' own
      parser ([floatify]: [xstrtod] and the infinity words), which
      differs from [float]'s grammar ([py_float], used for the damage
      strings): no underscores, only C white space, no [nan].
    - [groupby] follows pandas 2: [sort=True], [dropna=True], and for a
      categorical key the default [observed=False] (every category is a
      group, an empty group sums to 0).  [sort_values] is modelled as a
      stable sort; pandas' default sort is not stable, so rows of the
      same month may be ordered differently, and no theorem depends on
      that order.  [sorted] is an insertion sort: it agrees with CPython
      on strings and wherever a comparison raises, not on lists of
      numbers holding NaN (never the case for the event types).  The
      sum of a column holding a string (dtype object) takes pandas'
      object path: a group's strings are concatenated, a string next to
      a number raises [TypeError] ([Groupby.obj_sum]).
    - Widgets are arguments: the multiselect's value ([None] before the
      user touches it, then its default) and the index the user picked
      in the selectbox (0 before any choice).
    - [str.title] follows CPython on Latin-1 (cased characters, [ß]
      title-cased to "Ss"); the title case of [µ] and [ÿ], outside
      Latin-1, is not modelled.
    - [assert_series_equal] uses [math.isclose] with pandas' defaults
      [rtol=1e-5] and [atol=1e-8] on exact rationals; its messages are
      reduced to their first line.
    - Fuel is used only in [Csv], each time with a bound shown to be
      enough: the digits of an integer [m] take at most
      [1 + log2 m] divisions by ten ([z_digits_spec]), as do the
      trailing zeros ([strip_zeros]); the scale of a decimal is
      searched up to [repr_scale_bound] = 342 places, which covers
      every double's shortest [repr] (17 digits, exponent at least
      -324; [decimal_of_exists]); the renaming loop needs at most one
      turn per name already seen, so [1 + length names] turns suffice
      ([Csv.dedup_names_total]).  Everything else is structurally recursive.
    - [repr] of a float is modelled as the exact decimal of its value,
      which is the shortest [repr] for every value the pipeline makes
      (finite decimals); binary64 rounding is not modelled.  [read_csv]
      reads booleans ([True]/[False] columns) as strings and does not
      take a first column as the index when the first data line has
      one field more than the header; [to_csv] writes neither.  Its
      number parser is [float]'s grammar without underscores.
    - In [Tests] files hold text: [read_csv] parses it with [Csv] and
      [save_filtered_data] writes the text of [to_csv].  The dashboards
      are stated on [save_and_reload] of the saved table (fresh labels,
      cells unchanged); [Csv.to_csv_read_csv] gives the conditions under which this is
      what the text round trip of [Csv] yields.  Not modelled:
      [os.makedirs], and the drawing of pages ([streamlit], [plotly],
      [altair] are modelled by the arguments the scripts pass them).

    ** Not modelled, and why

    - [os.makedirs] and the drawing of pages: I/O and rendering by
      [streamlit], [plotly] and [altair], modelled by the arguments the
      scripts pass them.
    - Binary64 in pandas' [xstrtod] (C code of pandas, not of the
      repository): its exact-decimal model is what that routine
      approximates; and the sums of fractional amounts, where Kahan's
      result is within a bound of the exact sum that is not proved here.
    - The dashboards on [read_csv_text] of the saved file in general:
      it is not [save_and_reload] of the saved table when the FIPS
      filter has dropped the only non-numeric string of a column
      ([Csv.reload_changes_values]); [Csv.to_csv_read_csv] states when
      it is.  Booleans: a column of the strings [True] and [False] is
      read back by pandas as booleans, which the cells of [Frame] do not
      have; [read_column] keeps them as strings.
*)

From Stdlib Require Import QArith Ascii String.
From stdpp Require Import base list strings decidable.

(** ** Python exceptions raised by the code *)

(** The exceptions that can escape the pipeline.  Each constructor names
    the Python exception and carries what the code puts in it. *)
Inductive Exn : Type :=
  | ValueError_missing_columns (cols : list string)
      (** [raise ValueError(f"Missing expected columns in data: ...")] *)
  | ValueError_float (s : string)
      (** [float(s)]: "could not convert string to float" *)
  | AttributeError_strip
      (** [.strip()] called on a non-string, non-missing value *)
  | AttributeError_str_accessor
      (** [.str] on a column that holds no strings *)
  | KeyError_column (c : string)
      (** [df[c]] for a column [c] that does not exist *)
  | ValueError_duplicate_labels
      (** aligning a [Series] whose index has duplicate labels *)
  | TypeError_compare
      (** [<] between a [str] and a non-[str] (in [sorted]) *)
  | TypeError_sum
      (** [+] between a number and a [str] (in [.sum()]) *)
  | IndexError_list
      (** [xs[0]] on an empty list *)
  | StreamlitAPIException_default
      (** [st.multiselect] given a default value that is not an option *)
  | StreamlitAPIException_index
      (** [st.selectbox] asked for an option index out of range *)
  | AssertionError (msg : string)
      (** a failed [assert] or [pd.testing] assertion in the tests *)
  | FileNotFoundError (path : string)
      (** [pd.read_csv(path)] on a file that does not exist *)
  | ParserError_fields (expected seen : nat)
      (** [read_csv]: a line with more fields than the header *)
  | MergeError_suffix (cols : list string)
      (** [pd.merge]: the suffixes make two columns of one side equal *)
  | ParserError_eof
      (** [read_csv]: the text ends inside a quoted field *)
  | EmptyDataError
      (** [read_csv] on a text without any line: "No columns to parse" *).

#[export] Instance Exn_eq_dec : EqDecision Exn.
Proof. solve_decision. Defined.

(** ** The result monad *)

(** A computation that returns a value or raises a Python exception. *)
Inductive Result (A : Type) : Type :=
  | Ok (a : A)
  | Err (e : Exn).
Arguments Ok {A} a.
Arguments Err {A} e.

#[export] Instance Result_ret : MRet Result := fun _ a => Ok a.
#[export] Instance Result_bind : MBind Result :=
  fun _ _ f m => match m with Ok a => f a | Err e => Err e end.
#[export] Instance Result_fmap : FMap Result :=
  fun _ _ f m => match m with Ok a => Ok (f a) | Err e => Err e end.

Declare Scope py_scope.
Delimit Scope py_scope with py.
(** [raise e] is Python's [raise]; [try! m except e => h] recovers. *)
Notation "'raise' e" := (Err e) (at level 10) : py_scope.
Notation "'try!' m 'except' e => h" :=
  (match m with Ok a => Ok a | Err e => h end)
  (at level 10, m at level 100, e name, h at level 200) : py_scope.
Open Scope py_scope.

(** [mapM f xs] is the list comprehension [[f(v) for v in xs]]: [f] is
    applied left to right and the first exception aborts the whole
    comprehension. *)
Fixpoint mapM {A B} (f : A -> Result B) (xs : list A) : Result (list B) :=
  match xs with
  | [] => Ok []
  | x :: xs' =>
      match f x with
      | Ok y => match mapM f xs' with Ok ys => Ok (y :: ys) | Err e => Err e end
      | Err e => Err e
      end
  end.

Create HintDb etl discriminated.
Create Rewrite HintDb etl.

(** ** Shared lemmas on the result monad *)

Lemma bind_Ok_inv {A B} (m : Result A) (f : A -> Result B) (b : B) :
  (m ≫= f) = Ok b -> exists a, m = Ok a /\ f a = Ok b.
Proof. destruct m; simpl; [eauto | discriminate]. Qed.

Lemma bind_Err_inv {A B} (m : Result A) (f : A -> Result B) (e : Exn) :
  (m ≫= f) = Err e -> m = Err e \/ exists a, m = Ok a /\ f a = Err e.
Proof. destruct m; simpl; [eauto | intros [= ->]; auto]. Qed.

Lemma bind_Ok {A B} (a : A) (f : A -> Result B) : (Ok a ≫= f) = f a.
Proof. reflexivity. Qed.

Lemma bind_Err {A B} (e : Exn) (f : A -> Result B) : (Err e ≫= f) = Err e.
Proof. reflexivity. Qed.

#[export] Hint Rewrite @bind_Ok @bind_Err : etl.

(** Destruct every [Ok]-equation on a bind or a [match] of a result. *)
Ltac result_inv :=
  repeat match goal with
  | H : (_ ≫= _) = Ok _ |- _ =>
      let a := fresh "a" in let Ha := fresh "Ha" in
      apply bind_Ok_inv in H as [a [Ha H]]
  | H : match ?m with Ok _ => _ | Err _ => _ end = Ok _ |- _ =>
      let E := fresh "E" in destruct m eqn:E; [|discriminate H]
  | H : Ok _ = Ok _ |- _ => injection H as H
  | H : mret _ = Ok _ |- _ => injection H as H
  | H : Err _ = Ok _ |- _ => discriminate H
  end; subst.

(** ** The list comprehension [mapM] *)

Section MapM.
Context {A B : Type} (f : A -> Result B).

Lemma mapM_cons x xs :
  mapM f (x :: xs) = (y ← f x; ys ← mapM f xs; mret (y :: ys)).
Proof. simpl. destruct (f x); simpl; [destruct (mapM f xs)|]; reflexivity. Qed.

(** The comprehension succeeds exactly when every element succeeds, and
    then the outputs are the elements' outputs, position by position. *)
Lemma mapM_Ok_iff xs ys :
  mapM f xs = Ok ys <-> Forall2 (fun x y => f x = Ok y) xs ys.
Proof.
  revert ys; induction xs as [|x xs IH]; intros ys; simpl.
  - split; [intros [= <-]; constructor | intros H; inversion H; reflexivity].
  - split.
    + intros H. result_inv. constructor; [assumption | by apply IH].
    + intros H. inversion H as [|? y ? ys' Hx Hrest]; subst.
      rewrite Hx. apply IH in Hrest. by rewrite Hrest.
Qed.

Lemma mapM_length xs ys : mapM f xs = Ok ys -> length ys = length xs.
Proof. intros H%mapM_Ok_iff. symmetry. by eapply Forall2_length. Qed.

Lemma mapM_lookup xs ys i x :
  mapM f xs = Ok ys -> xs !! i = Some x ->
  exists y, ys !! i = Some y /\ f x = Ok y.
Proof.
  intros H%mapM_Ok_iff Hx.
  destruct (Forall2_lookup_l _ _ _ _ _ H Hx) as (y & Hy & Hf). eauto.
Qed.

(** A comprehension that raises raises the exception of the first
    element that raises; the elements before it all succeeded. *)
Lemma mapM_Err_first xs e :
  mapM f xs = Err e ->
  exists i x, xs !! i = Some x /\ f x = Err e /\
    forall j x', j < i -> xs !! j = Some x' -> exists y, f x' = Ok y.
Proof.
  induction xs as [|x xs IH]; simpl; [discriminate|].
  destruct (f x) as [y|e'] eqn:Hx.
  - destruct (mapM f xs) eqn:Hm; [discriminate|]. intros [= <-].
    destruct (IH eq_refl) as (i & x' & Hi & Hf & Hbefore).
    exists (S i), x'. repeat split; [done|done|].
    intros [|j] x'' Hj Hl; simpl in Hl; [injection Hl as <-; eauto|].
    apply (Hbefore j); [lia|done].
  - intros [= <-]. exists 0, x. repeat split; [done|]. lia.
Qed.

(** The comprehension fails when some element fails. *)
Lemma mapM_Err_of_elem xs x e :
  x ∈ xs -> f x = Err e -> exists e', mapM f xs = Err e'.
Proof.
  intros Hin Hf. induction xs as [|x0 xs IH]; [by apply elem_of_nil in Hin|].
  apply elem_of_cons in Hin as [->|Hin]; simpl.
  - rewrite Hf. eauto.
  - destruct (f x0); [|eauto]. destruct (IH Hin) as [e' ->]. eauto.
Qed.
(** A comprehension whose every call returns, returns. *)
Lemma mapM_total xs : (forall x, x ∈ xs -> exists y, f x = Ok y) -> exists ys, mapM f xs = Ok ys.
Proof.
  induction xs as [|x xs IH]; intros H; [by exists []|].
  destruct (H x) as [y Hy]; [by apply elem_of_cons; left|].
  destruct IH as [ys Hys]; [intros x' Hx'; apply H, elem_of_cons; by right|].
  rewrite mapM_cons, Hy, bind_Ok, Hys, bind_Ok. by eexists.
Qed.

End MapM.

#[export] Hint Resolve mapM_length : etl.

(** ** Shared list lemmas *)

(** A relation whose right side is always an image under [g] factors
    through [g]. *)
(** A property of the second components holds of a [zip]. *)
Lemma Forall_zip_snd {A B} (P : B -> Prop) (a : list A) (b : list B) :
  Forall P b -> Forall (fun c => P c.2) (zip a b).
Proof.
  intros Hb. revert a. induction Hb as [|y b Hy _ IH]; intros [|x a]; cbn; constructor; auto.
Qed.

Lemma Forall2_exists_fmap {A B C} (P : A -> B -> Prop) (g : B -> C) (xs : list A) (zs : list C) :
  Forall2 (fun x z => exists y, P x y /\ z = g y) xs zs <->
  exists ys, Forall2 P xs ys /\ zs = g <$> ys.
Proof.
  split.
  - induction 1 as [|x z xs zs (y & Hy & ->) _ (ys & Hys & ->)]; [by exists []|].
    exists (y :: ys). split; [by constructor|done].
  - intros (ys & Hys & ->). induction Hys; constructor; eauto.
Qed.

(** ** Equivalence of results

    Two results are equivalent when both return equivalent values, or
    both raise the same exception. *)
Definition result_equiv {A} `{Equiv A} (r1 r2 : Result A) : Prop :=
  match r1, r2 with
  | Ok a, Ok b => a ≡ b
  | Err e, Err e' => e = e'
  | _, _ => False
  end.

#[export] Instance Result_equiv {A} `{Equiv A} : Equiv (Result A) := result_equiv.

#[export] Instance Result_equiv_Equivalence {A} `{Equiv A} `{!Equivalence (≡@{A})} :
  Equivalence (≡@{Result A}).
Proof.
  split.
  - intros [a|e]; cbn; [reflexivity|done].
  - intros [a|e] [b|e']; cbn; intros Hab; try done; by symmetry.
  - intros [a|e] [b|e'] [c|e'']; cbn; intros H1 H2; try done; [by etrans|congruence].
Qed.

Lemma Ok_equiv {A} `{Equiv A} (a b : A) : Ok a ≡ Ok b <-> a ≡ b.
Proof. reflexivity. Qed.

(** Close a decidable proposition about concrete data by evaluation. *)
(** Case analysis on the 256 values of a character, each case closed
    by computation. *)
Ltac ascii_cases c :=
  destruct c as [[] [] [] [] [] [] [] []]; vm_compute; intros; try congruence; try tauto.

Ltac decide_true :=
  match goal with |- ?P => apply (bool_decide_eq_true_1 P); vm_compute; reflexivity end.

(** Counting rows that appear at least once each. *)
(** [filter] depends only on the predicate on the list's elements. *)
Lemma filter_ext_in {A} (P1 P2 : A -> Prop) `{!forall x, Decision (P1 x), !forall x, Decision (P2 x)}
    (l : list A) :
  (forall x, x ∈ l -> P1 x <-> P2 x) -> filter P1 l = filter P2 l.
Proof.
  induction l as [|a l IH]; intros HP; [done|]. rewrite !filter_cons.
  rewrite IH by (intros x Hx; apply HP, elem_of_cons; by right).
  specialize (HP a ltac:(by apply elem_of_cons; left)).
  destruct (decide (P1 a)), (decide (P2 a)); naive_solver.
Qed.

Lemma sum_list_max1_ge {A} (f : A -> nat) (l : list A) :
  length l <= sum_list ((fun x => max 1 (f x)) <$> l).
Proof. induction l as [|x l IH]; cbn; lia. Qed.

Lemma sum_list_max1_eq {A} (f : A -> nat) (l : list A) :
  (forall x, x ∈ l -> f x <= 1) -> sum_list ((fun x => max 1 (f x)) <$> l) = length l.
Proof.
  induction l as [|x l IH]; intros Hle; cbn; [done|].
  rewrite IH by (intros y Hy; apply Hle; by right).
  pose proof (Hle x (list_elem_of_here _ _)). lia.
Qed.

(** A sublist of the labels [a..a+n-1] is either an initial segment
    [a..a+k-1] or its last label is at least [a + k], [k] its length:
    some label before it was skipped. *)
Lemma sublist_seq_last (a n : nat) (l : list nat) :
  l `sublist_of` seq a n ->
  l = seq a (length l) \/ exists x, list.last l = Some x /\ a + length l <= x.
Proof.
  revert a l. induction n as [|n IH]; intros a l Hl.
  - apply sublist_nil_r in Hl as ->. by left.
  - cbn in Hl. apply sublist_cons_r in Hl as [Hl|(l' & -> & Hl)].
    + destruct (IH (S a) l Hl) as [Hs|(x & Hx & Hle)]; [|right; exists x; split; [done|lia]].
      destruct (length l) as [|m] eqn:Hm; [left; by apply nil_length_inv|right].
      exists (a + S m). rewrite Hs, seq_S, last_snoc. split; [f_equal; lia|lia].
    + destruct (IH (S a) l' Hl) as [Hs|(x & Hx & Hle)]; [left; cbn; by f_equal|right].
      exists x. rewrite last_cons, Hx. cbn. split; [done|lia].
Qed.
