(* ===== verification/PyStr.v ===== *)
(** * PyStr: the Python [str] methods the pipeline calls

    A Python [str] whose code points are all below 256 is modelled as a
    Rocq [string], one [ascii] byte per code point (Latin-1).  The storm
    data and the state table are ASCII, so this loses nothing on the
    inputs the pipeline sees.  Modelled: [str.isspace] on one character,
    [str.strip()], [str.upper()], [str.endswith(c)] for one character
    [c], the slice [s[:-1]], [str.replace(a, b)] for one-character [a]
    and [b], and [str.title()] (map_dashboard.py line 28); then the
    order of strings by code points. *)

From Stdlib Require Import QArith Ascii String.
From stdpp Require Import base list strings decidable.
From S2P Require Import Prelude.

(** ** Character classes *)

(** [c.isspace()] for a code point below 256: the ASCII controls
    \t \n \v \f \r (9-13), the separators \x1c-\x1f (28-31), the space
    (32), NEL \x85 (133) and NO-BREAK SPACE \xa0 (160). *)
Definition py_isspace (c : ascii) : bool :=
  let n := nat_of_ascii c in
  ((9 <=? n) && (n <=? 13)) || ((28 <=? n) && (n <=? 32)) || (n =? 133) || (n =? 160).

(** [str.upper()] on one code point, when the result is again one code
    point below 256: ASCII a-z, and Latin-1 U+00E0..U+00FE except the
    division sign U+00F7, map 32 code points down.  [ß] (U+00DF) is
    handled by [py_upper] below, where it becomes the two characters
    "SS".  The two code points whose upper case lies above U+00FF, [µ]
    (U+00B5) and [ÿ] (U+00FF), are left unchanged: a byte string cannot
    hold their image. *)
Definition upper_char (c : ascii) : ascii :=
  let n := nat_of_ascii c in
  if ((97 <=? n) && (n <=? 122)) || ((224 <=? n) && (n <=? 254) && negb (n =? 247))
  then ascii_of_nat (n - 32) else c.

(** ** Methods *)

Fixpoint py_lstrip (s : string) : string :=
  match s with
  | EmptyString => EmptyString
  | String c s' => if py_isspace c then py_lstrip s' else s
  end.

Fixpoint py_rstrip (s : string) : string :=
  match s with
  | EmptyString => EmptyString
  | String c s' =>
      let r := py_rstrip s' in
      match r with
      | EmptyString => if py_isspace c then EmptyString else String c EmptyString
      | _ => String c r
      end
  end.

(** [s.strip()] removes leading and trailing whitespace. *)
Definition py_strip (s : string) : string := py_rstrip (py_lstrip s).

(** [s.upper()]. *)
Fixpoint py_upper (s : string) : string :=
  match s with
  | EmptyString => EmptyString
  | String c s' =>
      if nat_of_ascii c =? 223 then String "S"%char (String "S"%char (py_upper s'))
      else String (upper_char c) (py_upper s')
  end.

(** [s.endswith(c)] for a one-character suffix [c]. *)
Fixpoint py_endswith (s : string) (c : ascii) : bool :=
  match s with
  | EmptyString => false
  | String d EmptyString => bool_decide (d = c)
  | String _ s' => py_endswith s' c
  end.

(** The slice [s[:-1]]: everything but the last character ([""] stays
    [""]). *)
Fixpoint drop_last (s : string) : string :=
  match s with
  | EmptyString => EmptyString
  | String _ EmptyString => EmptyString
  | String c s' => String c (drop_last s')
  end.

(** [str_all p s]: every character of [s] satisfies [p]. *)
Fixpoint str_all (p : ascii -> bool) (s : string) : bool :=
  match s with
  | EmptyString => true
  | String c s' => p c && str_all p s'
  end.

(** A character [upper] leaves alone. *)
Definition upper_fixed (c : ascii) : bool :=
  negb (nat_of_ascii c =? 223) && bool_decide (upper_char c = c).

(** [str.lower()] on one code point: ASCII A-Z and Latin-1
    U+00C0..U+00DE except the multiplication sign U+00D7 map 32 code
    points up. *)
Definition lower_char (c : ascii) : ascii :=
  let n := nat_of_ascii c in
  if ((65 <=? n) && (n <=? 90)) || ((192 <=? n) && (n <=? 222) && negb (n =? 215))
  then ascii_of_nat (n + 32) else c.

(** Python's "cased" characters below 256 (letters with a case, and the
    ordinal indicators [ª] and [º], which Unicode counts as lower case). *)
Definition is_cased (c : ascii) : bool :=
  let n := nat_of_ascii c in
  ((65 <=? n) && (n <=? 90)) || ((97 <=? n) && (n <=? 122)) ||
  (n =? 170) || (n =? 181) || (n =? 186) ||
  ((192 <=? n) && (n <=? 214)) || ((216 <=? n) && (n <=? 246)) || (248 <=? n).

(** [s.title()] as CPython computes it: a character that follows a
    cased character is lower-cased, any other is title-cased (for a
    code point below 256 its upper case, except [ß], whose title case is
    "Ss"). *)
Fixpoint title_from (prev_cased : bool) (s : string) : string :=
  match s with
  | EmptyString => EmptyString
  | String c s' =>
      let rest := title_from (is_cased c) s' in
      if prev_cased then String (lower_char c) rest
      else if nat_of_ascii c =? 223 then String "S"%char (String "s"%char rest)
      else String (upper_char c) rest
  end.

Definition py_title (s : string) : string := title_from false s.

(** [s.replace(a, b)] for one-character [a] and [b]. *)
Fixpoint py_replace_char (a b : ascii) (s : string) : string :=
  match s with
  | EmptyString => EmptyString
  | String c s' => String (if bool_decide (c = a) then b else c) (py_replace_char a b s')
  end.

(** Lower-casing every character (a helper for the statements below). *)
Fixpoint lower_all (s : string) : string :=
  match s with
  | EmptyString => EmptyString
  | String c s' => String (lower_char c) (lower_all s')
  end.

(** An ASCII capital letter. *)
Definition ascii_upper (c : ascii) : bool := (65 <=? nat_of_ascii c) && (nat_of_ascii c <=? 90).

(** [s.capitalize()]: the first character in title case, the others
    in lower case. *)
Definition py_capitalize (s : string) : string :=
  match s with
  | EmptyString => EmptyString
  | String c s' =>
      if nat_of_ascii c =? 223 then String "S"%char (String "s"%char (lower_all s'))
      else String (upper_char c) (lower_all s')
  end.

(** A non-empty word of ASCII capital letters, such as [DAMAGE]. *)
Definition upper_word (w : string) : bool :=
  match w with
  | EmptyString => false
  | String c s => ascii_upper c && str_all ascii_upper s
  end.

(** ** Lemmas *)

Lemma str_app_cons c s t : (String c s ++ t)%string = String c (s ++ t)%string.
Proof. reflexivity. Qed.

Lemma str_app_nil_l t : (EmptyString ++ t)%string = t.
Proof. reflexivity. Qed.

Lemma str_app_assoc s t u : (s ++ (t ++ u))%string = ((s ++ t) ++ u)%string.
Proof. induction s as [|c s IH]; [done|]. by rewrite !str_app_cons, IH. Qed.

Lemma str_app_nil_r t : (t ++ EmptyString)%string = t.
Proof. induction t as [|c t IH]; [done|]. by rewrite str_app_cons, IH. Qed.

Lemma str_all_app p s t : str_all p (s ++ t)%string = str_all p s && str_all p t.
Proof. induction s as [|c s IH]; simpl; [done|]. by rewrite IH, andb_assoc. Qed.

Lemma py_lstrip_id s c s' : s = String c s' -> py_isspace c = false -> py_lstrip s = s.
Proof. intros -> H. simpl. by rewrite H. Qed.

(** [rstrip] leaves a string alone when its last character is not
    whitespace. *)
Lemma py_rstrip_app_nonspace s c :
  py_isspace c = false -> py_rstrip (s ++ String c EmptyString)%string = (s ++ String c EmptyString)%string.
Proof.
  intros Hc. induction s as [|d s IH]; simpl; [by rewrite Hc|].
  rewrite IH. by destruct s.
Qed.

Lemma py_rstrip_all_space t : str_all py_isspace t = true -> py_rstrip t = EmptyString.
Proof.
  induction t as [|c t IH]; simpl; [done|].
  intros [Hc Ht]%andb_prop. by rewrite IH, Hc.
Qed.

Lemma py_rstrip_app_space s t :
  str_all py_isspace t = true -> py_rstrip (s ++ t)%string = py_rstrip s.
Proof.
  intros Ht. induction s as [|d s IH]; simpl; [|by rewrite IH].
  by rewrite py_rstrip_all_space.
Qed.

Lemma py_lstrip_app_space s t :
  str_all py_isspace s = true -> py_lstrip (s ++ t)%string = py_lstrip t.
Proof.
  induction s as [|c s IH]; simpl; [done|].
  intros [Hc Hs]%andb_prop. rewrite Hc. by apply IH.
Qed.

(** [strip] removes exactly the surrounding whitespace: a string with
    non-space first and last characters, padded with whitespace on both
    sides, strips to itself. *)
Lemma py_strip_padded w1 c s d w2 :
  str_all py_isspace w1 = true -> str_all py_isspace w2 = true ->
  py_isspace c = false -> py_isspace d = false ->
  py_strip (w1 ++ String c (s ++ String d EmptyString) ++ w2)%string
  = String c (s ++ String d EmptyString)%string.
Proof.
  intros H1 H2 Hc Hd. unfold py_strip.
  rewrite py_lstrip_app_space by done. simpl. rewrite Hc.
  exact (eq_trans (py_rstrip_app_space (String c (s ++ String d EmptyString)) w2 H2)
                  (py_rstrip_app_nonspace (String c s) d Hd)).
Qed.

Lemma py_upper_fixed s : str_all upper_fixed s = true -> py_upper s = s.
Proof.
  induction s as [|c s IH]; simpl; [done|].
  intros [Hc Hs]%andb_prop. unfold upper_fixed in Hc.
  apply andb_prop in Hc as [H223 Hup]. apply negb_true_iff in H223.
  rewrite H223. apply bool_decide_eq_true in Hup. by rewrite Hup, IH.
Qed.

Lemma py_upper_app s t : py_upper (s ++ t)%string = (py_upper s ++ py_upper t)%string.
Proof.
  induction s as [|c s IH]; simpl; [done|].
  by destruct (nat_of_ascii c =? 223); rewrite IH.
Qed.

Lemma py_endswith_app_char s d c :
  py_endswith (s ++ String d EmptyString)%string c = bool_decide (d = c).
Proof.
  induction s as [|d' s IH]; simpl; [done|].
  by destruct (s ++ String d EmptyString)%string eqn:E; [destruct s; discriminate|].
Qed.

Lemma py_endswith_app s c : py_endswith (s ++ String c EmptyString)%string c = true.
Proof. rewrite py_endswith_app_char. by apply bool_decide_eq_true. Qed.

Lemma drop_last_app s c : drop_last (s ++ String c EmptyString)%string = s.
Proof.
  induction s as [|d s IH]; simpl; [done|].
  rewrite IH. by destruct s.
Qed.

(** [s.endswith(c)] holds exactly when [s] is some [p] followed by [c],
    and then [s[:-1]] is that [p]. *)
Lemma py_endswith_spec s c :
  py_endswith s c = true <-> exists p, s = (p ++ String c EmptyString)%string.
Proof.
  split.
  - induction s as [|d s IH]; simpl; [discriminate|].
    destruct s as [|d' s'].
    + intros ->%bool_decide_eq_true. by exists EmptyString.
    + intros [p Hp]%IH. exists (String d p). by rewrite Hp.
  - intros [p ->]. apply py_endswith_app.
Qed.

Lemma drop_last_endswith s c :
  py_endswith s c = true -> s = (drop_last s ++ String c EmptyString)%string.
Proof. intros [p ->]%py_endswith_spec. by rewrite drop_last_app. Qed.

(** The last character of a string. *)
Fixpoint last_char (s : string) : option ascii :=
  match s with
  | EmptyString => None
  | String c EmptyString => Some c
  | String _ s' => last_char s'
  end.

Lemma py_rstrip_id s :
  (forall c, last_char s = Some c -> py_isspace c = false) -> py_rstrip s = s.
Proof.
  induction s as [|c s IH]; intros Hl; simpl; [done|].
  destruct s as [|c' s'].
  - by rewrite (Hl c eq_refl).
  - rewrite IH by exact Hl. done.
Qed.

(** [strip] is the identity on a string whose first and last characters
    are not whitespace. *)
Lemma py_strip_id s :
  (forall c s', s = String c s' -> py_isspace c = false) ->
  (forall c, last_char s = Some c -> py_isspace c = false) ->
  py_strip s = s.
Proof.
  intros Hf Hl. unfold py_strip.
  destruct s as [|c s']; [done|]. rewrite (py_lstrip_id _ c s' eq_refl (Hf c s' eq_refl)).
  by apply py_rstrip_id.
Qed.

Lemma last_char_app s c : last_char (s ++ String c EmptyString)%string = Some c.
Proof.
  induction s as [|d s IH]; simpl; [done|].
  rewrite IH. by destruct s.
Qed.

Lemma last_char_app_r s t : t <> EmptyString -> last_char (s ++ t)%string = last_char t.
Proof.
  intros Ht. induction s as [|d s IH]; simpl; [done|].
  rewrite IH. destruct s; simpl; [by destruct t|]. done.
Qed.

Lemma last_char_all p s c : str_all p s = true -> last_char s = Some c -> p c = true.
Proof.
  induction s as [|d s IH]; simpl; [discriminate|].
  intros [Hd Hs]%andb_prop. destruct s as [|d' s'].
  - by intros [= <-].
  - by apply IH.
Qed.

(** [strip] is the identity on a string with no whitespace at all. *)
Lemma py_strip_nospace s :
  str_all (fun c => negb (py_isspace c)) s = true -> py_strip s = s.
Proof.
  intros H. apply py_strip_id.
  - intros c s' ->. simpl in H. apply andb_prop in H as [Hc _]. by apply negb_true_iff.
  - intros c Hc. apply negb_true_iff. exact (last_char_all _ _ _ H Hc).
Qed.

(** ** The first character of a stripped string *)

Lemma py_lstrip_head s c r : py_lstrip s = String c r -> py_isspace c = false.
Proof.
  induction s as [|d s IH]; cbn; [discriminate|].
  destruct (py_isspace d) eqn:Hd; [exact IH|]. by intros [= <- _].
Qed.

Lemma py_rstrip_head s c r : py_rstrip s = String c r -> exists r', s = String c r'.
Proof.
  destruct s as [|d s]; cbn; [discriminate|].
  destruct (py_rstrip s); [destruct (py_isspace d); [discriminate|]|]; intros [= <- _]; eauto.
Qed.

(** A stripped string starts with a character that is not whitespace. *)
Lemma py_strip_head s c r : py_strip s = String c r -> py_isspace c = false.
Proof.
  unfold py_strip. intros (r' & Hr)%py_rstrip_head. exact (py_lstrip_head _ _ _ Hr).
Qed.

(** Stripping keeps a first character that is not whitespace. *)
Lemma py_strip_cons c s : py_isspace c = false -> exists r, py_strip (String c s) = String c r.
Proof.
  intros Hc. unfold py_strip. cbn. rewrite Hc. cbn.
  destruct (py_rstrip s); [rewrite Hc|]; eauto.
Qed.

(** [s[:-1]] starts where [s] starts. *)
Lemma drop_last_head s c w : drop_last s = String c w -> exists s', s = String c s'.
Proof.
  destruct s as [|d s]; cbn; [discriminate|]. destruct s; [discriminate|]. intros [= <- _]; eauto.
Qed.

Lemma upper_char_nonspace c : py_isspace c = false -> py_isspace (upper_char c) = false.
Proof. ascii_cases c. Qed.

Lemma upper_char_minus c : upper_char c = "-"%char -> c = "-"%char.
Proof. ascii_cases c. Qed.

(** The first character of [s.upper()] is the upper case of the first
    character of [s], or the [S] of [ß]. *)
Lemma py_upper_head c s d r :
  py_upper (String c s) = String d r -> d = upper_char c \/ d = "S"%char.
Proof. cbn. case_match; intros [= <- _]; auto. Qed.

(** ** [title] and [replace] on words of capital letters *)

Lemma ascii_upper_facts c :
  ascii_upper c = true ->
  upper_char c = c /\ is_cased c = true /\ nat_of_ascii c <> 223 /\ c <> "_"%char.
Proof. ascii_cases c; repeat split; congruence. Qed.

Lemma title_from_cased_upper s t :
  str_all ascii_upper s = true -> title_from true (s ++ t)%string = (lower_all s ++ title_from true t)%string.
Proof.
  induction s as [|c s IH]; [done|]. cbn [str_all]. intros [Hc Hs]%andb_prop.
  destruct (ascii_upper_facts c Hc) as (_ & Hcased & _).
  rewrite !str_app_cons. cbn [title_from lower_all]. by rewrite Hcased, IH.
Qed.

(** A word of capital letters is title-cased to its first letter and
    the rest in lower case. *)
Lemma title_from_word c s t :
  ascii_upper c = true -> str_all ascii_upper s = true ->
  title_from false (String c s ++ t)%string = String c (lower_all s ++ title_from true t)%string.
Proof.
  intros Hc Hs. destruct (ascii_upper_facts c Hc) as (Hu & Hcased & H223 & _).
  rewrite str_app_cons. cbn [title_from]. rewrite Hcased.
  destruct (Nat.eqb_spec (nat_of_ascii c) 223); [done|]. rewrite Hu.
  by rewrite title_from_cased_upper.
Qed.

Lemma py_replace_char_app a b s t :
  py_replace_char a b (s ++ t)%string = (py_replace_char a b s ++ py_replace_char a b t)%string.
Proof.
  induction s as [|c s IH]; [done|]. rewrite !str_app_cons. cbn [py_replace_char]. by rewrite IH.
Qed.

Lemma py_replace_char_none a b s :
  str_all (fun c => negb (bool_decide (c = a))) s = true -> py_replace_char a b s = s.
Proof.
  induction s as [|c s IH]; cbn; [done|]. intros [Hc Hs]%andb_prop.
  rewrite IH by done. apply negb_true_iff in Hc. by rewrite Hc.
Qed.

Lemma str_all_impl (p q : ascii -> bool) s :
  (forall c, p c = true -> q c = true) -> str_all p s = true -> str_all q s = true.
Proof.
  intros Hpq. induction s as [|c s IH]; cbn; [done|]. rewrite !andb_true_iff. naive_solver.
Qed.

Lemma upper_word_no_underscore w :
  upper_word w = true -> str_all (fun c => negb (bool_decide (c = "_"%char))) w = true.
Proof.
  destruct w as [|c s]; [done|]. cbn. intros [Hc Hs]%andb_prop. apply andb_true_iff; split.
  - destruct (ascii_upper_facts c Hc) as (_ & _ & _ & ?). by rewrite bool_decide_false.
  - refine (str_all_impl _ _ _ _ Hs). intros d Hd.
    destruct (ascii_upper_facts d Hd) as (_ & _ & _ & ?). by rewrite bool_decide_false.
Qed.

Lemma concat_cons sep w ws :
  ws <> [] -> String.concat sep (w :: ws) = (w ++ sep ++ String.concat sep ws)%string.
Proof. by destruct ws. Qed.

(** [replace("_", " ")] on words joined by underscores joins them by
    spaces. *)
Lemma py_replace_char_concat ws :
  Forall (fun w => upper_word w = true) ws ->
  py_replace_char "_" " " (String.concat "_" ws) = String.concat " " ws.
Proof.
  induction 1 as [|w ws Hw Hws IH]; [done|]. destruct ws as [|w' ws].
  - by apply py_replace_char_none, upper_word_no_underscore.
  - rewrite !concat_cons, !py_replace_char_app, IH, py_replace_char_none
      by (done || by apply upper_word_no_underscore). reflexivity.
Qed.

(** [title()] on words of capital letters joined by spaces capitalizes
    each word. *)
Lemma title_concat_words ws :
  Forall (fun w => upper_word w = true) ws ->
  py_title (String.concat " " ws) = String.concat " " (py_capitalize <$> ws).
Proof.
  unfold py_title. induction 1 as [|w ws Hw Hws IH]; [done|].
  destruct w as [|c s]; [done|]. apply andb_prop in Hw as [Hc Hs].
  destruct (ascii_upper_facts c Hc) as (Hu & _ & H223 & _).
  cbn [fmap list_fmap py_capitalize]. destruct (Nat.eqb_spec (nat_of_ascii c) 223); [done|].
  rewrite Hu. destruct ws as [|w' ws].
  - cbn [String.concat]. rewrite <-(str_app_nil_r (String c s)), title_from_word by done.
    by rewrite str_app_nil_r.
  - rewrite concat_cons, title_from_word by done.
    rewrite (concat_cons " " (String c (lower_all s))), <-IH by done. reflexivity.
Qed.

(** ** The order of strings, by code points *)

Lemma string_compare_le_trans a b c :
  (a ?= b)%string <> Gt -> (b ?= c)%string <> Gt -> (a ?= c)%string <> Gt.
Proof.
  revert b c. induction a as [|x a IH]; intros [|y b] [|z c]; cbn; try done.
  unfold Ascii.compare.
  destruct (N.compare_spec (N_of_ascii x) (N_of_ascii y));
  destruct (N.compare_spec (N_of_ascii y) (N_of_ascii z));
  destruct (N.compare_spec (N_of_ascii x) (N_of_ascii z)); try done; try lia. apply IH.
Qed.

Lemma string_compare_antisym a b : (a ?= b)%string <> Gt -> (b ?= a)%string <> Gt -> a = b.
Proof.
  rewrite (String.compare_antisym b a). destruct (a ?= b)%string eqn:E; try done.
  intros _ _. by apply String.compare_eq_iff.
Qed.

#[export] Hint Rewrite drop_last_app py_endswith_app py_upper_app str_all_app last_char_app : etl.
