(* ===== verification/PyFloat.v ===== *)
(** * PyFloat: Python [float] values and the conversion [float(str)]

    A Python float is modelled as [PFin q] (a finite value, kept as the
    exact rational [q]), [PInf neg] (plus or minus infinity) or [PNaN].
    [float(s)] for a string [s] follows the grammar of the Python
    reference ("floatvalue", the accepted input of the [float]
    constructor):

      floatvalue ::= [sign] (floatnumber | "inf" | "infinity" | "nan")
      floatnumber ::= number [exponent]
      number     ::= [digitpart] "." digitpart | digitpart ["."]
      exponent   ::= ("e" | "E") [sign] digitpart
      digitpart  ::= digit (["_"] digit)*

    with surrounding whitespace allowed and the keywords compared without
    case.  A string outside the grammar makes [float] raise [ValueError];
    here [py_float] returns [None].

    [PFin] holds the exact decimal value the string denotes, and
    multiplying by 1000 or 1000000 is exact.  CPython rounds both to
    the nearest double; [Binary64] models that rounding ([round64]) and
    bounds the difference it makes to [parse_value].  The sign of
    [-0.0] is not represented. *)

From Stdlib Require Import QArith Qfield ZArith Ascii String.
From stdpp Require Import base list strings decidable.
From S2P Require Import Prelude PyStr.

(** ** Values *)

Inductive PyFloat : Type :=
  | PFin (q : Q)
  | PInf (neg : bool)
  | PNaN.

(** [pd.isna(x)] on a float. *)
Definition pf_isnan (x : PyFloat) : bool :=
  match x with PNaN => true | _ => false end.

(** [x * n] for an [int] [n] (Python converts [n] to float first;
    [inf * 0] is [nan]). *)
Definition pf_mul_int (x : PyFloat) (n : Z) : PyFloat :=
  match x with
  | PFin q => PFin (q * inject_Z n)
  | PInf neg => if Z.eqb n 0 then PNaN else PInf (xorb neg (Z.ltb n 0))
  | PNaN => PNaN
  end.

(** [lo <= x <= hi], false on [nan] as in IEEE comparison. *)
Definition pf_between (lo hi : Q) (x : PyFloat) : bool :=
  match x with
  | PFin q => Qle_bool lo q && Qle_bool q hi
  | PInf _ | PNaN => false
  end.

(** [x < 0] ([-inf] included; [nan] is not negative). *)
Definition pf_negative (x : PyFloat) : bool :=
  match x with
  | PFin q => negb (Qle_bool 0 q)
  | PInf neg => neg
  | PNaN => false
  end.

(** ** The [float(str)] grammar *)

Definition is_digit (c : ascii) : bool :=
  (48 <=? nat_of_ascii c)%nat && (nat_of_ascii c <=? 57)%nat.

Definition digit_val (c : ascii) : Z := Z.of_nat (nat_of_ascii c - 48).

(** The tail of a [digitpart] after its first digit: digits, each
    possibly preceded by one underscore.  Returns the accumulated value,
    the number of digits read and the rest of the input. *)
Fixpoint digits_rest (acc : Z) (k : nat) (s : string) : Z * nat * string :=
  match s with
  | String c s' =>
      if is_digit c then digits_rest (acc * 10 + digit_val c) (S k) s'
      else if bool_decide (c = "_"%char) then
        match s' with
        | String d s'' =>
            if is_digit d then digits_rest (acc * 10 + digit_val d) (S k) s''
            else (acc, k, s)
        | EmptyString => (acc, k, s)
        end
      else (acc, k, s)
  | EmptyString => (acc, k, EmptyString)
  end.

Definition digitpart (s : string) : option (Z * nat * string) :=
  match s with
  | String c s' => if is_digit c then Some (digits_rest (digit_val c) 1 s') else None
  | EmptyString => None
  end.

(** [s] with its first character removed, when that character is [c]. *)
Definition skip_char (c : ascii) (s : string) : option string :=
  match s with
  | String d r => if bool_decide (d = c) then Some r else None
  | EmptyString => None
  end.

(** [number]: the mantissa as an integer [m] and a power of ten [e] with
    value [m * 10^e], and the rest of the input. *)
Definition parse_number (s : string) : option (Z * Z * string) :=
  match digitpart s with
  | Some (ip, _, r) =>
      match skip_char "." r with
      | Some r' =>
          match digitpart r' with
          | Some (fp, k, r'') => Some (ip * 10 ^ Z.of_nat k + fp, - Z.of_nat k, r'')%Z
          | None => Some (ip, 0%Z, r')
          end
      | None => Some (ip, 0%Z, r)
      end
  | None =>
      match skip_char "." s with
      | Some r' =>
          match digitpart r' with
          | Some (fp, k, r'') => Some (fp, - Z.of_nat k, r'')%Z
          | None => None
          end
      | None => None
      end
  end.

(** An optional sign: [true] for a minus sign. *)
Definition parse_sign (s : string) : bool * string :=
  match skip_char "+" s with
  | Some r => (false, r)
  | None => match skip_char "-" s with Some r => (true, r) | None => (false, s) end
  end.

(** An optional exponent; [None] when an [e] is not followed by a valid
    exponent. *)
Definition parse_exponent (s : string) : option (Z * string) :=
  match s with
  | String c r =>
      if bool_decide (c = "e"%char) || bool_decide (c = "E"%char) then
        let '(neg, r') := parse_sign r in
        match digitpart r' with
        | Some (v, _, r'') => Some (if neg then - v else v, r'')%Z
        | None => None
        end
      else Some (0%Z, s)
  | EmptyString => Some (0%Z, EmptyString)
  end.

(** [m * 10^e] as a rational. *)
Definition dec_to_Q (m e : Z) : Q :=
  if (0 <=? e)%Z then inject_Z (m * 10 ^ e) else Qmake m (Z.to_pos (10 ^ (- e))).

(** ASCII-only lower case, used for the keywords [inf], [infinity] and
    [nan], which CPython compares without case. *)
Definition lower_ascii (c : ascii) : ascii :=
  let n := nat_of_ascii c in
  if (65 <=? n)%nat && (n <=? 90)%nat then ascii_of_nat (n + 32) else c.

Fixpoint str_lower_ascii (s : string) : string :=
  match s with
  | EmptyString => EmptyString
  | String c s' => String (lower_ascii c) (str_lower_ascii s')
  end.

(** The grammar on an already stripped string. *)
Definition py_float_body (s : string) : option PyFloat :=
  let '(neg, r) := parse_sign s in
  let kw := str_lower_ascii r in
  if bool_decide (kw = "inf"%string) || bool_decide (kw = "infinity"%string)
  then Some (PInf neg)
  else if bool_decide (kw = "nan"%string) then Some PNaN
  else
    match parse_number r with
    | Some (m, e1, r1) =>
        match parse_exponent r1 with
        | Some (e2, EmptyString) =>
            Some (PFin (dec_to_Q (if neg then - m else m) (e1 + e2)))
        | _ => None
        end
    | None => None
    end.

(** [float(s)]: surrounding whitespace is ignored. *)
Definition py_float (s : string) : option PyFloat := py_float_body (py_strip s).

(** ** pandas' number parser

    [pd.to_numeric] ([maybe_convert_numeric], through [floatify] of
    [pandas/_libs/include/pandas/parser/parse_helper.h]) and the C
    parser of [read_csv] ([_try_double]) read a string with [xstrtod]:
    C white space skipped before and after, an optional sign, digits
    with an optional fraction (at least one digit in all), an optional
    exponent, and nothing else.  Where that fails, the whole string may
    still be one of the words [inf], [+inf], [-inf], [infinity],
    [+infinity], [-infinity] in any case.  Unlike [float], no
    underscores between digits, no other white space, no [nan], and no
    white space around the words. *)

(** [isspace_ascii]: space, tab, newline, vertical tab, form feed,
    carriage return. *)
Definition c_isspace (c : ascii) : bool :=
  let n := nat_of_ascii c in (n =? 32)%nat || ((9 <=? n)%nat && (n <=? 13)%nat).

Fixpoint c_skip_space (s : string) : string :=
  match s with
  | String c s' => if c_isspace c then c_skip_space s' else s
  | EmptyString => EmptyString
  end.

(** [xstrtod] with [skip_trailing], and the check of [to_double] that
    it stopped at the end.  An underscore stops [xstrtod] wherever it
    is, so a string holding one is refused; without one, the digit
    parts of [parse_number] are plain digits. *)
Definition xstrtod (s : string) : option PyFloat :=
  if negb (str_all (fun c => negb (bool_decide (c = "_"%char))) s) then None
  else
    let '(neg, r) := parse_sign (c_skip_space s) in
    match parse_number r with
    | Some (m, e1, r1) =>
        match parse_exponent r1 with
        | Some (e2, r2) =>
            if bool_decide (c_skip_space r2 = EmptyString)
            then Some (PFin (dec_to_Q (if neg then - m else m) (e1 + e2)))
            else None
        | None => None
        end
    | None => None
    end.

Definition floatify (s : string) : option PyFloat :=
  match xstrtod s with
  | Some x => Some x
  | None =>
      let l := str_lower_ascii s in
      if bool_decide (l ∈ ["inf"; "+inf"; "infinity"; "+infinity"]%string) then Some (PInf false)
      else if bool_decide (l ∈ ["-inf"; "-infinity"]%string) then Some (PInf true)
      else None
  end.

(** ** Equivalence of float values

    Two finite values are equivalent when they are equal as rationals
    ([150.00] and [150] are the same float); [nan] is equivalent to
    itself, as in [pandas.testing.assert_series_equal], which treats NaN
    positions as equal. *)
Definition pf_equiv (x y : PyFloat) : Prop :=
  match x, y with
  | PFin a, PFin b => a == b
  | PInf s, PInf t => s = t
  | PNaN, PNaN => True
  | _, _ => False
  end.

#[export] Instance PyFloat_equiv : Equiv PyFloat := pf_equiv.

#[export] Instance pf_equiv_Equivalence : Equivalence (≡@{PyFloat}).
Proof.
  split.
  - intros [q|b|]; cbn; [reflexivity|done|done].
  - intros [q|b|] [q'|b'|]; cbn; intros H; try done; by symmetry.
  - intros [q|b|] [q'|b'|] [q''|b''|]; cbn; intros H1 H2; try done.
    + by rewrite H1.
    + congruence.
Qed.

Lemma PFin_equiv a b : PFin a ≡ PFin b <-> a == b.
Proof. reflexivity. Qed.

#[export] Instance PFin_Proper : Proper (Qeq ==> (≡)) PFin.
Proof. intros a b H. exact H. Qed.

#[export] Instance pf_mul_int_Proper : Proper ((≡) ==> eq ==> (≡)) pf_mul_int.
Proof.
  intros [a|s|] [b|t|] H n ? <-; cbn in *; try done.
  - apply PFin_equiv. by rewrite H.
  - subst t. destruct (Z.eqb n 0); reflexivity.
Qed.

Lemma Qle_bool_compat a a' b b' : a == a' -> b == b' -> Qle_bool a b = Qle_bool a' b'.
Proof.
  intros Ha Hb. apply Bool.eq_iff_eq_true. rewrite !Qle_bool_iff, Ha, Hb. done.
Qed.

#[export] Instance pf_between_Proper : Proper (Qeq ==> Qeq ==> (≡) ==> eq) pf_between.
Proof.
  intros lo lo' Hlo hi hi' Hhi [a|s|] [b|t|] H; cbn in *; try done.
  by rewrite (Qle_bool_compat lo lo' a b), (Qle_bool_compat a b hi hi').
Qed.

(** ** Printing decimal literals, and parsing them back *)

(** The character of a decimal digit [d < 10]. *)
Definition digit_char (d : nat) : ascii := ascii_of_nat (48 + d).
Arguments digit_char : simpl never.

(** A list of decimal digits, most significant first, as a string. *)
Fixpoint digits_str (ds : list nat) : string :=
  match ds with
  | [] => EmptyString
  | d :: ds' => String (digit_char d) (digits_str ds')
  end.

(** The value of a digit list, continuing from an accumulator. *)
Definition digits_val (acc : Z) (ds : list nat) : Z :=
  fold_left (fun a d => a * 10 + Z.of_nat d)%Z ds acc.

(** Where a [digitpart] ends: at the end of input, or at a character that
    is neither a digit nor an underscore followed by a digit. *)
Definition starts_digit (s : string) : bool :=
  match s with String c _ => is_digit c | EmptyString => false end.

Definition digit_boundary (s : string) : bool :=
  match s with
  | EmptyString => true
  | String c s' => negb (is_digit c) && negb (bool_decide (c = "_"%char) && starts_digit s')
  end.

Definition is_digits (ds : list nat) : Prop := Forall (fun d => d < 10) ds.

#[export] Instance is_digits_dec ds : Decision (is_digits ds).
Proof. unfold is_digits. apply _. Defined.

Lemma is_digit_char d : d < 10 -> is_digit (digit_char d) = true.
Proof.
  intros Hd. unfold is_digit, digit_char.
  rewrite nat_ascii_embedding by lia. apply andb_true_intro; split; apply Nat.leb_le; lia.
Qed.

Lemma digit_val_char d : d < 10 -> digit_val (digit_char d) = Z.of_nat d.
Proof.
  intros Hd. unfold digit_val, digit_char.
  rewrite nat_ascii_embedding by lia. f_equal. lia.
Qed.

Lemma digits_rest_boundary acc k s :
  digit_boundary s = true -> digits_rest acc k s = (acc, k, s).
Proof.
  destruct s as [|c s']; simpl; [done|].
  intros [Hc Hu]%andb_prop. apply negb_true_iff in Hc, Hu. rewrite Hc.
  destruct (bool_decide (c = "_"%char)); [|done].
  destruct s' as [|d s'']; [done|]. simpl in Hu. by rewrite Hu.
Qed.

Lemma digits_rest_str acc k ds rest :
  is_digits ds -> digit_boundary rest = true ->
  digits_rest acc k (digits_str ds ++ rest)%string = (digits_val acc ds, k + length ds, rest).
Proof.
  intros Hds Hb. revert acc k.
  induction Hds as [|d ds Hd Hds IH]; intros acc k; cbn [digits_str].
  - rewrite str_app_nil_l, digits_rest_boundary by done. by rewrite Nat.add_0_r.
  - rewrite str_app_cons. cbn [digits_rest]. rewrite is_digit_char, digit_val_char by done.
    rewrite IH. cbn [length]. do 2 f_equal. lia.
Qed.

Lemma digitpart_str d ds rest :
  is_digits (d :: ds) -> digit_boundary rest = true ->
  digitpart (digits_str (d :: ds) ++ rest)%string
  = Some (digits_val 0 (d :: ds), S (length ds), rest).
Proof.
  intros Hds Hb. inversion Hds as [|? ? Hd Hds']; subst. cbn [digits_str]. rewrite str_app_cons. cbn [digitpart].
  rewrite is_digit_char, digit_val_char by done.
  by rewrite digits_rest_str.
Qed.

(** The value of digits read after an accumulator. *)
Lemma digits_val_app acc ds fs :
  digits_val acc (ds ++ fs) = digits_val (digits_val acc ds) fs.
Proof. unfold digits_val. by rewrite fold_left_app. Qed.

Lemma digits_val_acc acc ds :
  digits_val acc ds = (acc * 10 ^ Z.of_nat (length ds) + digits_val 0 ds)%Z.
Proof.
  revert acc. induction ds as [|d ds IH]; intros acc; simpl; [lia|].
  unfold digits_val in *. simpl. rewrite (IH (acc * 10 + Z.of_nat d)%Z), (IH (0 * 10 + Z.of_nat d)%Z).
  rewrite Nat2Z.inj_succ, Z.pow_succ_r by lia. lia.
Qed.

Lemma digits_val_nonneg ds : (0 <= digits_val 0 ds)%Z.
Proof.
  assert (H : forall acc, (0 <= acc)%Z -> (0 <= digits_val acc ds)%Z).
  { induction ds as [|d ds IH]; intros acc Hacc; simpl; [done|]. apply IH. lia. }
  by apply H.
Qed.


(** Facts about single characters are decided over all 256 of them. *)
(** A digit is not whitespace, not a sign, not a dot, and not the first
    letter of a keyword. *)
Lemma digit_char_facts c :
  is_digit c = true ->
  py_isspace c = false /\ c <> "+"%char /\ c <> "-"%char /\ c <> "."%char /\
  lower_ascii c <> "i"%char /\ lower_ascii c <> "n"%char.
Proof. ascii_cases c; repeat split; congruence. Qed.

Lemma dot_not_space : py_isspace "." = false.
Proof. reflexivity. Qed.

Lemma skip_char_other c d r : d <> c -> skip_char c (String d r) = None.
Proof. intros H. simpl. by rewrite bool_decide_false. Qed.

Lemma skip_char_same c r : skip_char c (String c r) = Some r.
Proof. simpl. by rewrite bool_decide_true. Qed.

Lemma parse_sign_digit c r : is_digit c = true -> parse_sign (String c r) = (false, String c r).
Proof.
  intros (_ & Hp & Hm & _)%digit_char_facts. unfold parse_sign.
  by rewrite !skip_char_other.
Qed.

(** A string that starts with a digit is no keyword. *)
Lemma keyword_digit c r (kw : string) :
  is_digit c = true -> kw ∈ ["inf"; "infinity"; "nan"]%string ->
  bool_decide (str_lower_ascii (String c r) = kw) = false.
Proof.
  intros (_ & _ & _ & _ & Hi & Hn)%digit_char_facts Hkw. apply bool_decide_false.
  repeat (apply elem_of_cons in Hkw as [->|Hkw]; [simpl; congruence|]).
  by apply elem_of_nil in Hkw.
Qed.

Lemma digits_str_digits ds : is_digits ds -> str_all is_digit (digits_str ds) = true.
Proof.
  induction 1 as [|d ds Hd _ IH]; [reflexivity|].
  change (is_digit (digit_char d) && str_all is_digit (digits_str ds) = true).
  rewrite (is_digit_char d Hd). exact IH.
Qed.

Lemma digits_str_nospace ds :
  is_digits ds -> str_all (fun c => negb (py_isspace c)) (digits_str ds) = true.
Proof.
  intros H. apply (str_all_impl is_digit); [|by apply digits_str_digits].
  intros c Hc. apply negb_true_iff. apply digit_char_facts, Hc.
Qed.

(** ** Fixed-point literals *)

(** The literal [I.F] with integer digits [ds] and fraction digits [fs],
    as the NOAA data writes damage amounts ("150.00", "1.2"). *)
Definition fixed_literal (ds fs : list nat) : string :=
  (digits_str ds ++ String "." (digits_str fs))%string.

Definition fixed_value (ds fs : list nat) : Q :=
  inject_Z (digits_val 0 ds) + inject_Z (digits_val 0 fs) / inject_Z (10 ^ Z.of_nat (length fs)).

Lemma dec_to_Q_neg m k :
  (0 < k)%Z -> dec_to_Q m (- k) == inject_Z m / inject_Z (10 ^ k).
Proof.
  intros Hk. unfold dec_to_Q.
  destruct (Z.leb_spec 0 (- k)); [lia|]. rewrite Z.opp_involutive.
  assert (Hp : (0 < 10 ^ k)%Z) by (apply Z.pow_pos_nonneg; lia).
  unfold Qdiv, Qeq, Qmult, Qinv, inject_Z. simpl.
  destruct (10 ^ k)%Z as [|p|p] eqn:E; [lia| |lia]. simpl. lia.
Qed.

Lemma fixed_literal_nospace ds fs :
  is_digits ds -> is_digits fs ->
  str_all (fun c => negb (py_isspace c)) (fixed_literal ds fs) = true.
Proof.
  intros Hd Hf. unfold fixed_literal. rewrite str_all_app. simpl.
  by rewrite !digits_str_nospace.
Qed.


(** [float] reads back a fixed-point literal: [float("I.F")] is the
    number [I + F / 10^|F|]. *)
Theorem py_float_fixed ds fs :
  ds <> [] -> fs <> [] -> is_digits ds -> is_digits fs ->
  py_float (fixed_literal ds fs) = Some (PFin (dec_to_Q (digits_val 0 (ds ++ fs)) (- Z.of_nat (length fs))))
  /\ dec_to_Q (digits_val 0 (ds ++ fs)) (- Z.of_nat (length fs)) == fixed_value ds fs.
Proof.
  intros Hds Hfs Dds Dfs.
  destruct ds as [|d ds']; [done|]. destruct fs as [|f fs']; [done|].
  inversion Dds as [|? ? Hd _]; inversion Dfs as [|? ? Hf _]; subst.
  split.
  - unfold py_float. rewrite py_strip_nospace by by apply fixed_literal_nospace.
    unfold py_float_body, fixed_literal.
    change (digits_str (d :: ds')) with (String (digit_char d) (digits_str ds')).
    rewrite str_app_cons.
    rewrite parse_sign_digit by by apply is_digit_char.
    cbv zeta.
    rewrite !keyword_digit by (apply is_digit_char; assumption) || (apply list_elem_of_In; simpl; tauto).
    cbn [orb].
    change (String (digit_char d) (digits_str ds' ++ String "." (digits_str (f :: fs'))))%string
      with (digits_str (d :: ds') ++ String "." (digits_str (f :: fs')))%string.
    unfold parse_number. rewrite (digitpart_str d ds') by done.
    rewrite skip_char_same.
    rewrite <- (str_app_nil_r (digits_str (f :: fs'))).
    rewrite (digitpart_str f fs') by done.
    cbn [parse_exponent].
    rewrite digits_val_app, (digits_val_acc (digits_val 0 (d :: ds'))).
    cbn [length]. do 3 f_equal; lia.
  - rewrite dec_to_Q_neg by (cbn [length]; lia).
    rewrite digits_val_app, digits_val_acc. unfold fixed_value.
    rewrite inject_Z_plus, inject_Z_mult.
    assert (Hp : (0 < 10 ^ Z.of_nat (length (f :: fs')))%Z) by (apply Z.pow_pos_nonneg; lia).
    field. unfold Qeq; simpl. lia.
Qed.

Lemma pf_between_PFin lo hi x :
  pf_between lo hi x = true -> exists q, x = PFin q /\ (lo <= q <= hi)%Q.
Proof.
  destruct x as [q| |]; cbn; try discriminate.
  intros [H1 H2]%andb_prop. exists q. split; [done|]. by rewrite <- !Qle_bool_iff.
Qed.

(** ** Only a minus sign makes [float] negative *)

Lemma digits_rest_nonneg acc k s m k' r :
  (0 <= acc)%Z -> digits_rest acc k s = (m, k', r) -> (0 <= m)%Z.
Proof.
  revert acc k. induction s as [|c s IH]; intros acc k Hacc; cbn; [by intros [= <- _ _]|].
  assert (Hd : forall c, (0 <= digit_val c)%Z) by (intros; unfold digit_val; lia).
  destruct (is_digit c); [apply IH; specialize (Hd c); lia|].
  case_bool_decide; [|by intros [= <- _ _]].
  destruct s as [|d s']; [by intros [= <- _ _]|].
  destruct (is_digit d) eqn:E; [|by intros [= <- _ _]].
  intros Hr. apply (IH acc k Hacc). cbn. by rewrite E.
Qed.

Lemma digitpart_nonneg s m k r : digitpart s = Some (m, k, r) -> (0 <= m)%Z.
Proof.
  destruct s as [|c s]; cbn; [discriminate|]. destruct (is_digit c); [|discriminate].
  intros [= H]. eapply digits_rest_nonneg; [|exact H]. unfold digit_val; lia.
Qed.

Lemma parse_number_nonneg s m e r : parse_number s = Some (m, e, r) -> (0 <= m)%Z.
Proof.
  unfold parse_number. destruct (digitpart s) as [[[ip k0] r0]|] eqn:Hd.
  - apply digitpart_nonneg in Hd. destruct (skip_char "." r0) as [r'|]; [|by intros [= <- _ _]].
    destruct (digitpart r') as [[[fp k] r'']|] eqn:Hf; [|by intros [= <- _ _]].
    apply digitpart_nonneg in Hf. intros [= <- _ _].
    assert (0 <= 10 ^ Z.of_nat k)%Z by (apply Z.pow_nonneg; lia). nia.
  - destruct (skip_char "." s) as [r'|]; [|discriminate].
    destruct (digitpart r') as [[[fp k] r'']|] eqn:Hf; [|discriminate].
    apply digitpart_nonneg in Hf. by intros [= <- _ _].
Qed.

Lemma dec_to_Q_nonneg m e : (0 <= m)%Z -> (0 <= dec_to_Q m e)%Q.
Proof.
  intros Hm. unfold dec_to_Q. destruct (0 <=? e)%Z eqn:He.
  - assert (0 <= 10 ^ e)%Z by (apply Z.pow_nonneg; lia). unfold Qle; cbn. nia.
  - unfold Qle; cbn. lia.
Qed.

Lemma skip_char_Some c s r : skip_char c s = Some r -> s = String c r.
Proof.
  destruct s as [|d s]; cbn; [discriminate|]. case_bool_decide; [|discriminate].
  intros [= ->]. by subst.
Qed.

Lemma parse_sign_neg s r : parse_sign s = (true, r) -> s = String "-" r.
Proof.
  unfold parse_sign. destruct (skip_char "+" s); [discriminate|].
  destruct (skip_char "-" s) eqn:E; [intros [= <-]; by apply skip_char_Some|discriminate].
Qed.

(** [float] reads a negative number (or [-inf]) only from a text that
    starts with a minus sign. *)
Lemma py_float_body_negative w y :
  py_float_body w = Some y -> pf_negative y = true -> exists r, w = String "-" r.
Proof.
  unfold py_float_body.
  destruct (parse_sign w) as [[|] r] eqn:Hs; [intros _ _; exists r; by apply parse_sign_neg|].
  case_match; [by intros [= <-]|]. case_match; [by intros [= <-]|].
  destruct (parse_number r) as [[[m e1] r1]|] eqn:Hn; [|discriminate].
  destruct (parse_exponent r1) as [[e2 [|]]|]; try discriminate.
  intros [= <-]. cbn. apply parse_number_nonneg in Hn.
  by rewrite (proj2 (Qle_bool_iff _ _)) by (by apply dec_to_Q_nonneg).
Qed.
