(* ===== verification/Frame.v ===== *)
(** * Frame: the pandas [Series]/[DataFrame] operations the pipeline uses

    A [DataFrame] is kept column by column, as pandas keeps it: an index
    (the row labels, natural numbers: [read_csv] gives the labels
    0..n-1 and filtering keeps the surviving labels) and a list of named
    columns, each a list of cells, one per row.  A [Series] is an index
    with one list of cells.

    Modelled operations, with the pandas code path they follow:
    - [df[c]] ([get_col]): the column as a Series carrying the frame's
      index, [KeyError] when absent;
    - [df[cols]] ([select_cols]): the columns in the order given;
    - [df[mask]] ([filter_rows]): keep the rows whose mask entry is true,
      with their labels;
    - [pd.Series(list)] ([series_of_list]): labels 0..n-1;
    - [df[c] = s] ([set_col]): pandas' [_set_item] /
      [_reindex_for_setitem]: when the Series' index equals the frame's
      index (or the frame has no rows) the values are taken by position;
      otherwise the Series is reindexed on the frame's labels, a label the
      Series lacks giving NaN, and a Series with duplicate labels raising
      [ValueError]. *)

From Stdlib Require Import QArith ZArith Ascii String.
From stdpp Require Import base list strings decidable.
From S2P Require Import Prelude PyStr PyFloat.

(** ** Cells *)

(** A value of an object column: [None], a number (an [int] column's
    values are kept as integral floats), or a string.  [read_csv] turns
    an empty field into [NaN], i.e. [CFloat PNaN]. *)
Inductive Cell : Type :=
  | CNone
  | CFloat (x : PyFloat)
  | CStr (s : string).

(** [pd.isna(v)]. *)
Definition cell_isna (v : Cell) : bool :=
  match v with
  | CNone => true
  | CFloat x => pf_isnan x
  | CStr _ => false
  end.

Definition NaN : Cell := CFloat PNaN.

(** ** Series and frames *)

Record Series : Type := mkSeries {
  s_index : list nat;
  s_values : list Cell
}.

Record Frame : Type := mkFrame {
  f_index : list nat;
  f_cols : list (string * list Cell)
}.

(** Every column has one cell per row, and column names are distinct. *)
Definition frame_wf (df : Frame) : Prop :=
  Forall (fun c => length c.2 = length df.(f_index)) df.(f_cols) /\
  NoDup (fst <$> df.(f_cols)).

Definition col_names (df : Frame) : list string := fst <$> df.(f_cols).

#[export] Instance frame_wf_dec df : Decision (frame_wf df).
Proof. unfold frame_wf. apply _. Defined.

(** The value of the first entry with key [k]. *)
Fixpoint assoc {K V} `{EqDecision K} (k : K) (l : list (K * V)) : option V :=
  match l with
  | [] => None
  | (k', v) :: l' => if bool_decide (k = k') then Some v else assoc k l'
  end.

(** [df[c]]. *)
Definition get_col (df : Frame) (c : string) : Result Series :=
  match assoc c df.(f_cols) with
  | Some vs => Ok (mkSeries df.(f_index) vs)
  | None => raise (KeyError_column c)
  end.

(** [df[cols]] for a list of names: the columns in that order.  A name
    that is absent raises [KeyError]. *)
Definition select_cols (df : Frame) (cols : list string) : Result Frame :=
  vss ← mapM (fun c => match assoc c df.(f_cols) with
                       | Some vs => Ok vs
                       | None => raise (KeyError_column c)
                       end) cols;
  mret (mkFrame df.(f_index) (zip cols vss)).

(** Keep the elements whose mask entry is [true]. *)
Fixpoint mask_filter {A} (mask : list bool) (l : list A) : list A :=
  match mask, l with
  | b :: mask', x :: l' => if b then x :: mask_filter mask' l' else mask_filter mask' l'
  | _, _ => []
  end.

(** [df[mask]] for a boolean mask computed from the frame's own columns
    (so it carries the frame's index and is applied by position). *)
Definition filter_rows (df : Frame) (mask : list bool) : Frame :=
  mkFrame (mask_filter mask df.(f_index))
          ((fun c => (c.1, mask_filter mask c.2)) <$> df.(f_cols)).

(** The cell at position [i], NaN past the end. *)
Definition cell_at (vs : list Cell) (i : nat) : Cell := default NaN (vs !! i).

(** A float cell (NaN included): a value of a [float64] column. *)
Definition is_float (v : Cell) : bool := match v with CFloat _ => true | _ => false end.

(** [pd.Series(values)]: a fresh [RangeIndex]. *)
Definition series_of_list (vs : list Cell) : Series :=
  mkSeries (seq 0 (length vs)) vs.

(** [s.reindex(index)]: the value at each label, NaN for a label the
    Series does not have. *)
Definition reindex (s : Series) (index : list nat) : Result (list Cell) :=
  if bool_decide (NoDup s.(s_index)) then
    Ok ((fun l => match assoc l (zip s.(s_index) s.(s_values)) with
                  | Some v => v | None => NaN end) <$> index)
  else raise ValueError_duplicate_labels.

(** [_reindex_for_setitem(value, index)]: the values by position when the
    indexes are equal or the frame has no rows, else reindexed. *)
Definition align_for_setitem (s : Series) (index : list nat) : Result (list Cell) :=
  if bool_decide (s.(s_index) = index) || bool_decide (index = []) then Ok s.(s_values)
  else reindex s index.

(** Replace the column named [c] in place, or append it when absent. *)
Fixpoint put_col (c : string) (vs : list Cell) (cols : list (string * list Cell))
  : list (string * list Cell) :=
  match cols with
  | [] => [(c, vs)]
  | (c', vs') :: cols' =>
      if bool_decide (c = c') then (c, vs) :: cols' else (c', vs') :: put_col c vs cols'
  end.

(** [df[c] = s].  A frame without rows first takes the index of a
    non-empty Series, its other columns filled with NaN
    ([_ensure_valid_index]). *)
Definition set_col (df : Frame) (c : string) (s : Series) : Result Frame :=
  if bool_decide (df.(f_index) = []) && negb (bool_decide (s.(s_values) = [])) then
    Ok (mkFrame s.(s_index)
          (put_col c s.(s_values)
             ((fun cc => (cc.1, (fun _ => NaN) <$> s.(s_index))) <$> df.(f_cols))))
  else
    vs ← align_for_setitem s df.(f_index);
    mret (mkFrame df.(f_index) (put_col c vs df.(f_cols))).

(** The frame a computation returned, or [d] when it raised (used to
    name concrete results in statements). *)
Definition result_or {A} (d : A) (r : Result A) : A :=
  match r with Ok f => f | Err _ => d end.

(** ** Equivalence of cells and series

    Cells are compared as pandas' testing functions compare them: floats
    up to [≡] (so [150.00K] parsed and [150000.0] agree, and NaN equals
    NaN), everything else by equality. *)
Definition cell_equiv (u v : Cell) : Prop :=
  match u, v with
  | CFloat x, CFloat y => x ≡ y
  | _, _ => u = v
  end.

#[export] Instance Cell_equiv : Equiv Cell := cell_equiv.

#[export] Instance Cell_equiv_Equivalence : Equivalence (≡@{Cell}).
Proof.
  split.
  - intros [|x|s]; cbn; reflexivity.
  - intros [|x|s] [|y|t]; cbn; intros H; try done; by symmetry.
  - intros [|x|s] [|y|t] [|z|u]; cbn; intros H1 H2; try done; [by etrans|congruence].
Qed.

#[export] Instance CFloat_Proper : Proper ((≡) ==> (≡)) CFloat.
Proof. intros x y H. exact H. Qed.

Definition series_equiv (s t : Series) : Prop :=
  s.(s_index) = t.(s_index) /\ s.(s_values) ≡ t.(s_values).

#[export] Instance Series_equiv : Equiv Series := series_equiv.

#[export] Instance Series_equiv_Equivalence : Equivalence (≡@{Series}).
Proof.
  split.
  - intros s. split; reflexivity.
  - intros s t [H1 H2]. split; by symmetry.
  - intros s t u [H1 H2] [H3 H4]. split; [congruence|by etrans].
Qed.

(** ** Lemmas *)

Lemma assoc_Some {K V} `{EqDecision K} (k : K) (l : list (K * V)) v :
  assoc k l = Some v -> (k, v) ∈ l.
Proof.
  induction l as [|[k' v'] l IH]; cbn; [discriminate|].
  case_bool_decide as Hk; [intros [= ->]; subst; left|intros Ha; right; auto].
Qed.

Lemma assoc_None {K V} `{EqDecision K} (k : K) (l : list (K * V)) :
  assoc k l = None <-> k ∉ l.*1.
Proof.
  induction l as [|[k' v'] l IH]; cbn; [split; [intros _; apply not_elem_of_nil|done]|].
  rewrite not_elem_of_cons. case_bool_decide; [split; [discriminate|intros [? _]; done]|].
  rewrite IH. tauto.
Qed.

Lemma assoc_is_Some {K V} `{EqDecision K} (k : K) (l : list (K * V)) :
  k ∈ l.*1 -> exists v, assoc k l = Some v.
Proof.
  intros Hk. destruct (assoc k l) eqn:E; [eauto|]. by apply assoc_None in E.
Qed.

(** [df[cols]] with every name present: the named source columns, in the
    order of [cols]. *)
Lemma select_cols_Ok df cols :
  (forall c, c ∈ cols -> c ∈ col_names df) ->
  exists vss, select_cols df cols = Ok (mkFrame df.(f_index) (zip cols vss)) /\
    Forall2 (fun c vs => assoc c df.(f_cols) = Some vs) cols vss.
Proof.
  intros Hin. unfold select_cols.
  assert (Hm : exists vss, mapM (fun c => match assoc c df.(f_cols) with
                                         | Some vs => Ok vs
                                         | None => raise (KeyError_column c) end) cols = Ok vss /\
                 Forall2 (fun c vs => assoc c df.(f_cols) = Some vs) cols vss).
  { induction cols as [|c cols IH]; [by exists []|].
    destruct (assoc_is_Some c df.(f_cols)) as [vs Hvs]; [apply Hin; left|].
    destruct IH as (vss & Hm & Hf); [intros c' ?; apply Hin; by right|].
    exists (vs :: vss). cbn. rewrite Hvs, Hm. split; [done|by constructor]. }
  destruct Hm as (vss & Hm & Hf). exists vss. rewrite Hm. split; [done|exact Hf].
Qed.

(** Selecting distinct names of a well-formed frame gives a well-formed
    frame. *)
Lemma select_cols_wf df cols vss :
  frame_wf df -> NoDup cols ->
  Forall2 (fun c vs => assoc c df.(f_cols) = Some vs) cols vss ->
  frame_wf (mkFrame df.(f_index) (zip cols vss)).
Proof.
  intros [Hlen _] Hnd Hf. split; cbn.
  - rewrite Forall_forall in Hlen.
    induction Hf as [|c vs cols' vss' Ha _ IH]; cbn; constructor.
    + apply (Hlen (c, vs)), list_elem_of_In, assoc_Some, Ha.
    + apply IH. by inversion Hnd.
  - by rewrite fst_zip by (by rewrite (Forall2_length Hf)).
Qed.

(** *** Row filtering *)

Lemma mask_filter_fmap {A B} (f : A -> B) mask (l : list A) :
  mask_filter mask (f <$> l) = f <$> mask_filter mask l.
Proof.
  revert l. induction mask as [|b mask IH]; intros [|x l]; cbn; try done.
  destruct b; cbn; by rewrite IH.
Qed.

Lemma mask_filter_sublist {A} mask (l : list A) : mask_filter mask l `sublist_of` l.
Proof.
  revert l. induction mask as [|b mask IH]; intros [|x l]; cbn; try by constructor.
  - apply sublist_nil_l.
  - destruct b; [by apply sublist_skip|by apply sublist_cons].
Qed.

Lemma length_mask_filter {A B} mask (l : list A) (l' : list B) :
  length l = length l' -> length (mask_filter mask l) = length (mask_filter mask l').
Proof.
  revert l l'. induction mask as [|b mask IH]; intros [|x l] [|y l'] Hl; cbn in *; try done.
  injection Hl as Hl. destruct b; cbn; auto.
Qed.

(** A mask computed from a column keeps as many rows as the column has
    cells passing the test. *)
Lemma length_mask_filter_count {A B} (f : B -> bool) (l : list A) (l' : list B) :
  length l = length l' -> length (mask_filter (f <$> l') l) = length (List.filter f l').
Proof.
  revert l. induction l' as [|y l' IH]; intros [|x l] Hl; cbn in *; try done.
  injection Hl as Hl. destruct (f y); cbn; auto.
Qed.

Lemma filter_rows_wf df mask : frame_wf df -> frame_wf (filter_rows df mask).
Proof.
  intros [Hlen Hnd]. split; cbn.
  - rewrite Forall_fmap. apply (list.Forall_impl _ _ _ Hlen).
    intros [c vs] H; cbn in *. by apply length_mask_filter.
  - rewrite <- list_fmap_compose. exact Hnd.
Qed.

(** *** Column assignment *)

Lemma assoc_put_col c vs cols : assoc c (put_col c vs cols) = Some vs.
Proof.
  induction cols as [|[c' vs'] cols IH]; cbn; [by rewrite bool_decide_true|].
  case_bool_decide as Hc; cbn; [by rewrite bool_decide_true|].
  by rewrite bool_decide_false.
Qed.

Lemma assoc_put_col_ne c c' vs cols : c' <> c -> assoc c' (put_col c vs cols) = assoc c' cols.
Proof.
  intros Hne. induction cols as [|[c'' vs'] cols IH]; cbn.
  - by rewrite bool_decide_false.
  - case_bool_decide as Hc; cbn.
    + subst c''. by rewrite !bool_decide_false.
    + case_bool_decide; [done|]. exact IH.
Qed.

Lemma put_col_names c vs cols :
  c ∈ cols.*1 -> (put_col c vs cols).*1 = cols.*1.
Proof.
  induction cols as [|[c' vs'] cols IH]; cbn; [by intros ?%not_elem_of_nil|].
  case_bool_decide as Hc; cbn; [by subst|].
  intros [->|Hin]%elem_of_cons; [done|]. by rewrite IH.
Qed.

Lemma put_col_wf df c vs :
  frame_wf df -> c ∈ col_names df -> length vs = length df.(f_index) ->
  frame_wf (mkFrame df.(f_index) (put_col c vs df.(f_cols))).
Proof.
  intros [Hlen Hnd] Hin Hvs. split; cbn; [|by rewrite put_col_names].
  clear Hnd Hin. induction Hlen as [|[c' vs'] cols Hc Hcols IH]; cbn; [by repeat constructor|].
  case_bool_decide; constructor; done.
Qed.

(** Assigning a Series that carries the frame's own index (as
    [df[c] = f(df[c])] does) writes its values by position. *)
Lemma set_col_same_index df c vs :
  length vs = length df.(f_index) ->
  set_col df c (mkSeries df.(f_index) vs) = Ok (mkFrame df.(f_index) (put_col c vs df.(f_cols))).
Proof.
  intros Hl. unfold set_col; cbn.
  destruct (f_index df) as [|i idx] eqn:E.
  - destruct vs; [|discriminate]. cbn. unfold align_for_setitem. cbn. by rewrite bool_decide_true.
  - rewrite (bool_decide_false (_ :: _ = [])) by done. cbn.
    unfold align_for_setitem. cbn. by rewrite bool_decide_true.
Qed.

(** Filtering with a mask computed from the list keeps only elements
    that pass the test. *)
Lemma mask_filter_self {A} (p : A -> bool) (l : list A) :
  Forall (fun x => p x = true) (mask_filter (p <$> l) l).
Proof.
  induction l as [|x l IH]; cbn; [constructor|].
  destruct (p x) eqn:Hp; [by constructor|done].
Qed.

Lemma assoc_fmap_snd {V W} (g : V -> W) c (cols : list (string * V)) :
  assoc c ((fun p => (p.1, g p.2)) <$> cols) = g <$> assoc c cols.
Proof.
  induction cols as [|[c' v] cols IH]; cbn; [done|].
  case_bool_decide; [done|exact IH].
Qed.

Lemma assoc_Some_key {K V} `{EqDecision K} (k : K) (l : list (K * V)) v :
  assoc k l = Some v -> k ∈ l.*1.
Proof. intros H%assoc_Some. exact (list_elem_of_fmap_2 fst _ _ H). Qed.

(** Whatever branch [df[c] = s] takes, the column [c] afterwards holds the
    values of a Series that carries the frame's own index. *)
Lemma set_col_own_index df c vs df' :
  set_col df c (mkSeries df.(f_index) vs) = Ok df' -> assoc c df'.(f_cols) = Some vs.
Proof.
  unfold set_col; cbn. destruct (_ && _).
  - intros [= <-]. apply assoc_put_col.
  - unfold align_for_setitem; cbn. rewrite bool_decide_true by done. cbn.
    intros [= <-]. apply assoc_put_col.
Qed.

Lemma cell_at_float vs i :
  Forall (fun v => is_float v = true) vs -> is_float (cell_at vs i) = true.
Proof.
  unfold cell_at. intros H. destruct (vs !! i) as [v|] eqn:E; cbn; [|done].
  exact (Forall_lookup_1 _ _ _ _ H E).
Qed.

Lemma Forall_mask_filter {A} (P : A -> Prop) mask l :
  Forall P l -> Forall P (mask_filter mask l).
Proof.
  revert l. induction mask as [|b mask IH]; intros [|x l] H; cbn; try constructor.
  inversion H; subst. destruct b; [constructor|]; auto.
Qed.

Lemma fmap_fst_pair {A B C} (g : A * B -> C) (l : list (A * B)) :
  ((fun p => (p.1, g p)) <$> l).*1 = l.*1.
Proof. induction l as [|p l IH]; cbn; [done|]. by rewrite IH. Qed.

(** Setting an existing column keeps the column names and their order. *)
Lemma set_col_own_index_names df c vs df' :
  c ∈ col_names df -> set_col df c (mkSeries df.(f_index) vs) = Ok df' ->
  col_names df' = col_names df.
Proof.
  unfold set_col, col_names; cbn. intros Hc. destruct (_ && _).
  - intros [= <-]; cbn. rewrite put_col_names; rewrite fmap_fst_pair; done.
  - unfold align_for_setitem; cbn. rewrite bool_decide_true by done. cbn.
    intros [= <-]. by apply put_col_names.
Qed.

Lemma assoc_zip_seq {V} (vs : list V) i l :
  assoc l (zip (seq i (length vs)) vs) = if decide (i <= l) then vs !! (l - i) else None.
Proof.
  revert i. induction vs as [|v vs IH]; intros i; cbn.
  - by destruct (decide (i <= l)); [destruct (l - i)|].
  - rewrite IH. case_bool_decide as Hl.
    + subst l. rewrite decide_True by lia. by rewrite Nat.sub_diag.
    + destruct (decide (S i <= l)), (decide (i <= l)); try lia; [|done].
      by replace (l - i) with (S (l - S i)) by lia.
Qed.

Lemma cell_at_seq vs : cell_at vs <$> seq 0 (length vs) = vs.
Proof.
  apply list_eq. intros i. rewrite list_lookup_fmap.
  destruct (decide (i < length vs)) as [Hi|Hi].
  - rewrite lookup_seq_lt by done. cbn. unfold cell_at.
    destruct (lookup_lt_is_Some_2 vs i Hi) as [v ->]. done.
  - rewrite lookup_seq_ge by lia. rewrite lookup_ge_None_2 by lia. done.
Qed.

(** Assigning a fresh Series ([pd.Series(values)], index 0..n-1) to a
    frame with [n] rows: pandas aligns the Series on the frame's labels,
    so the row labelled [l] receives the [l]-th value, or NaN when
    [l >= n].  Only a frame whose labels are exactly 0..n-1 receives the
    values in order. *)
Lemma set_col_fresh_series df c vs :
  length vs = length df.(f_index) ->
  set_col df c (series_of_list vs) = Ok (mkFrame df.(f_index) (put_col c (cell_at vs <$> df.(f_index)) df.(f_cols))).
Proof.
  intros Hl. unfold set_col, series_of_list; cbn.
  destruct (f_index df) as [|i idx] eqn:E.
  - destruct vs; [|discriminate]. cbn. unfold align_for_setitem. cbn. by rewrite bool_decide_true.
  - rewrite (bool_decide_false (_ :: _ = [])) by done. cbn.
    unfold align_for_setitem; cbn.
    case_bool_decide as Hs; cbn.
    + replace (cell_at vs i :: (cell_at vs <$> idx)) with (cell_at vs <$> (i :: idx)) by reflexivity.
      rewrite <- Hs, cell_at_seq. done.
    + unfold reindex; cbn. rewrite bool_decide_true by apply NoDup_seq. cbn.
      assert (Hpt : forall l, match assoc l (zip (seq 0 (length vs)) vs) with
                              | Some v => v | None => NaN end = cell_at vs l).
      { intros l. rewrite assoc_zip_seq, decide_True, Nat.sub_0_r by lia.
        unfold cell_at. by destruct (vs !! l). }
      do 4 f_equal; [apply Hpt|]. apply list_fmap_ext. intros _ l _. apply Hpt.
Qed.
