(* ===== verification/Damage.v ===== *)
(** * Damage: [convert_damage_column] and its inner [parse_value]

    [src/code/get_data.py], lines 40-64.  [parse_value] turns one damage
    cell ("150.00K", "1.2M", blank) into a float:
    - a missing value ([pd.isna]) gives [0.0];
    - otherwise the value is stripped and upper-cased ([value.strip()]
      fails with [AttributeError] on a number);
    - a [K] or [M] suffix multiplies [float] of the rest by 1000 or
      1000000, and here [float] is NOT guarded: a malformed prefix
      raises [ValueError] out of the whole pipeline;
    - any other string goes through [float] inside
      [try ... except ValueError: return 0.0].
    [convert_damage_column] is the list comprehension over the column,
    wrapped in a fresh [pd.Series] (index 0..n-1).  Floats are exact
    rationals here; [Binary64] computes [parse_value] in binary64 and
    states what the amounts are. *)

From Stdlib Require Import QArith ZArith Ascii String.
From stdpp Require Import base list strings decidable.
From S2P Require Import Prelude PyStr PyFloat Frame.

Module Convert.

(** [float(s)], raising [ValueError] on a string outside the grammar. *)
Definition float_of_str (s : string) : Result PyFloat :=
  match py_float s with
  | Some x => Ok x
  | None => raise (ValueError_float s)
  end.

(** The [except ValueError] clause matches this exception. *)
Definition is_value_error (e : Exn) : bool :=
  match e with
  | ValueError_missing_columns _ | ValueError_float _ | ValueError_duplicate_labels => true
  | _ => false
  end.

Definition zero : PyFloat := PFin 0.

(** [parse_value(value)], get_data.py lines 50-62. *)
Definition parse_value (value : Cell) : Result PyFloat :=
  if cell_isna value then Ok zero
  else
    match value with
    | CStr s =>
        let value := py_upper (py_strip s) in
        if py_endswith value "K" then
          x ← float_of_str (drop_last value); mret (pf_mul_int x 1000)
        else if py_endswith value "M" then
          x ← float_of_str (drop_last value); mret (pf_mul_int x 1000000)
        else
          try! float_of_str value
          except e => if is_value_error e then Ok zero else Err e
    | _ => raise AttributeError_strip
    end.

(** [convert_damage_column(col)], get_data.py lines 40-64: iterating a
    Series yields its values in order; the result is a new Series with a
    fresh index. *)
Definition convert_damage_column (col : list Cell) : Result Series :=
  vs ← mapM parse_value col;
  mret (series_of_list (CFloat <$> vs)).

(** ** Helper lemmas *)

(** Digits and the dot are left alone by [upper]. *)
Lemma upper_fixed_digit c : is_digit c = true -> upper_fixed c = true.
Proof. ascii_cases c. Qed.

Lemma fixed_literal_upper ds fs :
  is_digits ds -> is_digits fs -> py_upper (fixed_literal ds fs) = fixed_literal ds fs.
Proof.
  intros Hd Hf. apply py_upper_fixed. unfold fixed_literal.
  rewrite str_all_app. cbn [str_all].
  rewrite !(str_all_impl is_digit upper_fixed); [done| |by apply digits_str_digits| |by apply digits_str_digits];
    exact upper_fixed_digit.
Qed.

(** The four suffix letters and their multipliers. *)
Definition suffix_mult (c : ascii) (mult : Z) : Prop :=
  (c = "K"%char \/ c = "k"%char) /\ mult = 1000%Z \/
  (c = "M"%char \/ c = "m"%char) /\ mult = 1000000%Z.

Definition is_blank (w : string) : Prop := str_all py_isspace w = true.

(** A shorthand amount [I.F] with a suffix, padded with whitespace, is
    normalised by [strip().upper()] to the literal followed by the
    upper-case suffix. *)
Lemma strip_upper_shorthand w1 w2 ds fs c mult :
  is_blank w1 -> is_blank w2 -> ds <> [] -> is_digits ds -> is_digits fs ->
  suffix_mult c mult ->
  py_upper (py_strip (w1 ++ fixed_literal ds fs ++ String c w2))%string
  = (fixed_literal ds fs ++ String (upper_char c) EmptyString)%string.
Proof.
  intros H1 H2 Hne Hd Hf Hc.
  destruct ds as [|d ds']; [done|]. inversion Hd as [|? ? Hd0 _]; subst.
  assert (Hcs : py_isspace c = false /\ nat_of_ascii c <> 223%nat)
    by (destruct Hc as [[[-> | ->] _] | [[-> | ->] _]]; split; done).
  unfold fixed_literal.
  change (digits_str (d :: ds')) with (String (digit_char d) (digits_str ds')).
  set (Y := (digits_str ds' ++ String "." (digits_str fs))%string).
  assert (E : (w1 ++ (String (digit_char d) (digits_str ds') ++ String "." (digits_str fs)) ++ String c w2)%string
              = (w1 ++ String (digit_char d) (Y ++ String c EmptyString) ++ w2)%string).
  { f_equal. subst Y. rewrite !str_app_cons, <- !str_app_assoc. reflexivity. }
  rewrite E, py_strip_padded; [| done | done | apply digit_char_facts, is_digit_char; done | apply Hcs].
  replace (String (digit_char d) (Y ++ String c EmptyString))%string
    with (fixed_literal (d :: ds') fs ++ String c EmptyString)%string by reflexivity.
  rewrite py_upper_app, fixed_literal_upper by done. cbn [py_upper].
  destruct (Nat.eqb_spec (nat_of_ascii c) 223); [by destruct Hcs|]. reflexivity.
Qed.

Lemma suffix_mult_cases c mult :
  suffix_mult c mult ->
  upper_char c = "K"%char /\ mult = 1000%Z \/ upper_char c = "M"%char /\ mult = 1000000%Z.
Proof. intros [[[-> | ->] ->] | [[-> | ->] ->]]; [left|left|right|right]; done. Qed.

Lemma float_of_str_Ok s x : py_float s = Some x -> float_of_str s = Ok x.
Proof. unfold float_of_str. by intros ->. Qed.

Lemma float_of_str_Err s : py_float s = None -> float_of_str s = Err (ValueError_float s).
Proof. unfold float_of_str. by intros ->. Qed.

Lemma cell_isna_str s : cell_isna (CStr s) = false.
Proof. reflexivity. Qed.

(** ** Theorems *)

(** C4: [parse_value] raises exactly in two cases: on a number that is
    not NaN ([.strip()] of a float: [AttributeError]), and on a string
    whose stripped upper-case form is [p] followed by [K] or [M] where
    [p] is not a float literal ([ValueError] from the unguarded
    [float(value[:-1])]).  Every other input, however malformed, gives
    a float. *)
Theorem parse_value_raises_iff v e :
  parse_value v = Err e <->
  (exists x, v = CFloat x /\ pf_isnan x = false /\ e = AttributeError_strip) \/
  (exists s p c, v = CStr s /\ (c = "K"%char \/ c = "M"%char) /\
     py_upper (py_strip s) = (p ++ String c EmptyString)%string /\
     py_float p = None /\ e = ValueError_float p).
Proof.
  unfold parse_value. destruct v as [|x|s]; cbn [cell_isna].
  - split; [discriminate|]. intros [(x & ? & _)|(s & p & c & ? & _)]; discriminate.
  - destruct (pf_isnan x) eqn:Hx.
    + split; [discriminate|]. intros [(x' & [= <-] & Hx' & _)|(s & p & c & ? & _)]; congruence.
    + split; [intros [= <-]; left; eauto|].
      intros [(x' & _ & _ & ->)|(s & p & c & ? & _)]; [done|discriminate].
  - cbv zeta. set (u := py_upper (py_strip s)).
    split.
    + destruct (py_endswith u "K") eqn:HK; [|destruct (py_endswith u "M") eqn:HM].
      * destruct (py_float (drop_last u)) eqn:Hf; [by rewrite (float_of_str_Ok _ _ Hf)|].
        rewrite (float_of_str_Err _ Hf). intros [= <-]. right.
        exists s, (drop_last u), "K"%char. repeat split; auto. by apply drop_last_endswith.
      * destruct (py_float (drop_last u)) eqn:Hf; [by rewrite (float_of_str_Ok _ _ Hf)|].
        rewrite (float_of_str_Err _ Hf). intros [= <-]. right.
        exists s, (drop_last u), "M"%char. repeat split; auto. by apply drop_last_endswith.
      * unfold float_of_str. by destruct (py_float u).
    + intros [(x & ? & _)|(s' & p & c & [= <-] & Hc & Hu & Hp & ->)]; [discriminate|].
      fold u in Hu. rewrite Hu, py_endswith_app_char, drop_last_app, (float_of_str_Err _ Hp).
      destruct Hc as [-> | ->]; [by rewrite bool_decide_true|].
      rewrite bool_decide_false by done. by rewrite py_endswith_app_char, bool_decide_true.
Qed.

(** C5: [convert_damage_column] is a positional transform: it succeeds
    with a Series exactly when every cell parses, and that Series has the
    fresh index [0..n-1] and, at each position, the float parsed from the
    cell at the same position. *)
Theorem convert_damage_column_spec col s :
  convert_damage_column col = Ok s <->
  s.(s_index) = seq 0 (length col) /\
  Forall2 (fun v c => exists x, parse_value v = Ok x /\ c = CFloat x) col s.(s_values).
Proof.
  unfold convert_damage_column. split.
  - intros H. result_inv. unfold series_of_list; cbn.
    rewrite length_fmap, (mapM_length _ _ _ Ha). split; [done|].
    apply Forall2_exists_fmap. exists a. split; [by apply mapM_Ok_iff|done].
  - intros [Hidx (xs & Hxs & Hvals)%Forall2_exists_fmap].
    destruct s as [idx vals]; cbn in *.
    rewrite (proj2 (mapM_Ok_iff _ _ _) Hxs). cbn.
    unfold series_of_list. rewrite length_fmap, <- (Forall2_length Hxs). by subst.
Qed.

(** Converted damage values are not always non-negative floats: a
    leading minus sign is accepted ("-1.5K" is -1500.0), and the
    keywords of [float] pass through ("nan" is NaN, "inf" is +inf). *)
Example parse_value_not_nonneg :
  parse_value (CStr "-1.5K") ≡ Ok (PFin (-1500)) /\
  parse_value (CStr "nan") = Ok PNaN /\ parse_value (CStr "inf") = Ok (PInf false).
Proof. vm_compute. repeat split; reflexivity. Qed.

End Convert.
