(* ===== verification/Binary64.v ===== *)
(** * Binary64: Python's float arithmetic in [parse_value], rounded

    The rest of the development keeps a finite float as the exact
    rational it denotes ([PyFloat]).  CPython computes in IEEE 754
    binary64: [float(s)] returns the double nearest to the decimal value
    of [s] (correctly rounded, ties to even, [inf] beyond the largest
    double), and [x * 1000] returns the double nearest to the exact
    product.  This file models that rounding and the function that uses
    it, [parse_value] of [src/code/get_data.py] (lines 50-62):
    - [round64]: round-to-nearest-even of a rational to a double, with
      overflow to [inf], computed on the integers (the binade by
      [Z.log2], the quantum [2^u], the scaled value rounded by [rne]);
    - [is_double]: the doubles, [m * 2^e] with [|m| < 2^53] and
      [-1074 <= e <= 971];
    - [float64_of_str], [pf_mul64]: [float(s)] and [x * n] in binary64;
    - [parse_value64]: [parse_value] with those two operations.

    The theorems show that [round64] returns a double and that no double
    is nearer (the IEEE specification of the rounding), the error bound
    [|round64 q - q| <= 2^-53 |q| + 2^-1075], and that [parse_value64]
    refines the exact [parse_value] of [Damage]: the same exceptions,
    the same special values, and finite results within two roundings
    ([2^-52 + 2^-106] relative, [2^-1054] absolute), or [inf] from an
    exact value of at least [2^1022].  On the strings themselves: a
    shorthand amount [I.F] with a [K] or [M] suffix is [float('I.F')]
    times the multiplier, rounded ([parse_value64_shorthand]), and a
    negative amount comes only from a text that starts with a minus sign
    ([parse_value64_negative]).  The rounding is exact on doubles
    ([round64_double]), which [GroupSum64] uses.  The sign of a zero
    ([-0.0]) is not represented. *)

From Stdlib Require Import QArith Qabs Qpower Qround ZArith Lia Lqa Ascii String.
From stdpp Require Import base list strings decidable.
From S2P Require Import Prelude PyStr PyFloat Frame Damage.

Module Binary64.
Import Damage.Convert.

Local Open Scope Q_scope.

(** ** The binary64 format *)

(** Rounding of [n / d] ([d > 0]) to the nearest integer, ties to the
    even one. *)
Definition rne (n d : Z) : Z :=
  let '(f, r) := Z.div_eucl n d in
  match Z.compare (2 * r) d with
  | Lt => f
  | Gt => f + 1
  | Eq => if Z.even f then f else f + 1
  end.

(** The exponent [e] with [2^e <= a < 2^(e+1)], for [a > 0]: the
    difference of the logarithms of numerator and denominator, or one
    less. *)
Definition qlog2 (a : Q) : Z :=
  let e := (Z.log2 (Qnum a) - Z.log2 (Zpos (Qden a)))%Z in
  if Qle_bool (2 ^ e) a then e else (e - 1)%Z.

(** The quantum of the doubles around [a]: [2^(e-52)] in the binade of
    [a], never below the quantum [2^-1074] of the subnormals. *)
Definition quantum (a : Q) : Z := Z.max (qlog2 a - 52) (-1074).

(** [a / 2^u] as a fraction of integers. *)
Definition scaled (a : Q) (u : Z) : Z * Z :=
  if (0 <=? u)%Z then (Qnum a, (Zpos (Qden a) * 2 ^ u)%Z)
  else ((Qnum a * 2 ^ (- u))%Z, Zpos (Qden a)).

(** The mantissa of [a > 0] rounded at its quantum. *)
Definition round_mant (a : Q) : Z :=
  let '(n, d) := scaled a (quantum a) in rne n d.

(** [round64 q]: the double nearest to [q], ties to even, from the
    rounded magnitude [round_mag |q|]; a magnitude that rounds to
    [2^1024] or more overflows to [inf]. *)
Definition round_mag (a : Q) : Q := inject_Z (round_mant a) * 2 ^ quantum a.

Definition round64 (q : Q) : PyFloat :=
  if Qeq_bool q 0 then PFin 0
  else
    let r := round_mag (Qabs q) in
    if Qle_bool (2 ^ 1024) r then PInf (negb (Qle_bool 0 q))
    else PFin (if Qle_bool 0 q then r else - r).

(** Rounding applied to a float result: finite values are rounded,
    [inf] and [nan] are left alone. *)
Definition round_pf (x : PyFloat) : PyFloat :=
  match x with PFin q => round64 q | _ => x end.

(** The doubles. *)
Definition is_double (r : Q) : Prop :=
  exists m e, (Z.abs m < 2 ^ 53)%Z /\ (-1074 <= e <= 971)%Z /\ r == inject_Z m * 2 ^ e.

(** ** [float(s)] and [x * n] in binary64 *)

(** [float(s)]: the grammar of [py_float], the value correctly rounded. *)
Definition float64_of_str (s : string) : Result PyFloat :=
  match py_float s with
  | Some x => Ok (round_pf x)
  | None => raise (ValueError_float s)
  end.

(** [x * n] for an [int] [n] that is a double (1000, 1000000): the
    exact product, rounded. *)
Definition pf_mul64 (x : PyFloat) (n : Z) : PyFloat := round_pf (pf_mul_int x n).

(** [parse_value(value)], get_data.py lines 50-62, in binary64. *)
Definition parse_value64 (value : Cell) : Result PyFloat :=
  if cell_isna value then Ok zero
  else
    match value with
    | CStr s =>
        let value := py_upper (py_strip s) in
        if py_endswith value "K" then
          x ← float64_of_str (drop_last value); mret (pf_mul64 x 1000)
        else if py_endswith value "M" then
          x ← float64_of_str (drop_last value); mret (pf_mul64 x 1000000)
        else
          try! float64_of_str value
          except e => if is_value_error e then Ok zero else Err e
    | _ => raise AttributeError_strip
    end.

(** ** Rounding to an integer *)

Lemma rne_cases n d :
  (0 < d)%Z ->
  let f := (n / d)%Z in let r := (n mod d)%Z in
  n = (d * f + r)%Z /\ (0 <= r < d)%Z /\
  (rne n d = f /\ (2 * r <= d)%Z \/ rne n d = (f + 1)%Z /\ (d <= 2 * r)%Z).
Proof.
  intros Hd f r. pose proof (Z_div_mod n d ltac:(lia)) as Hdm.
  unfold rne, f, r, Z.div, Z.modulo in *. destruct (Z.div_eucl n d) as [f0 r0].
  destruct Hdm as [Hn Hr]. split; [exact Hn|]. split; [exact Hr|].
  destruct (Z.compare_spec (2 * r0) d); [destruct (Z.even f0)| |]; lia.
Qed.

(** [rne n d] is an integer nearest to [n / d]. *)
Lemma rne_nearest n d k :
  (0 < d)%Z -> (Z.abs (n - rne n d * d) <= Z.abs (n - k * d))%Z.
Proof.
  intros Hd. destruct (rne_cases n d Hd) as (Hn & Hr & [[-> H2] | [-> H2]]);
    destruct (Z.le_gt_cases k (n / d)); nia.
Qed.

Lemma rne_half n d : (0 < d)%Z -> (2 * Z.abs (n - rne n d * d) <= d)%Z.
Proof. intros Hd. destruct (rne_cases n d Hd) as (Hn & Hr & [[-> H2] | [-> H2]]); nia. Qed.

Lemma rne_mono_lo n d k : (0 < d)%Z -> (k * d <= n)%Z -> (k <= rne n d)%Z.
Proof.
  intros Hd Hk. destruct (rne_cases n d Hd) as (Hn & Hr & [[-> _] | [-> _]]);
    assert (k <= n / d)%Z by (apply Z.div_le_lower_bound; lia); lia.
Qed.

Lemma rne_mono_hi n d k : (0 < d)%Z -> (n <= k * d)%Z -> (rne n d <= k)%Z.
Proof.
  intros Hd Hk. destruct (rne_cases n d Hd) as (Hn & Hr & [[-> _] | [-> H2]]).
  - destruct (Z.le_gt_cases (n / d) k); [lia|]. nia.
  - destruct (Z.le_gt_cases (n / d + 1) k); [lia|].
    assert (k * d <= n / d * d)%Z by (apply Z.mul_le_mono_nonneg_r; lia). lia.
Qed.

(** ** Powers of two *)

Lemma pow2_pos e : 0 < 2 ^ e.
Proof. apply Qpower_0_lt. lra. Qed.

Lemma pow2_add a b : 2 ^ (a + b) == 2 ^ a * 2 ^ b.
Proof. apply Qpower_plus. lra. Qed.

Lemma pow2_succ e : 2 ^ (e + 1) == 2 ^ e * 2.
Proof. by rewrite pow2_add. Qed.

Lemma pow2_le a b : (a <= b)%Z -> 2 ^ a <= 2 ^ b.
Proof. intros H. apply Qpower_le_compat_l; [exact H | lra]. Qed.

Lemma pow2_lt a b : (a < b)%Z -> 2 ^ a < 2 ^ b.
Proof. intros H. apply Qpower_lt_compat_l; [exact H | lra]. Qed.

Lemma pow2_Z e : (0 <= e)%Z -> inject_Z (2 ^ e) == 2 ^ e.
Proof. intros H. by rewrite Zpower_Qpower. Qed.

Lemma inject_Z_abs z : Qabs (inject_Z z) == inject_Z (Z.abs z).
Proof.
  destruct (Z.le_gt_cases 0 z).
  - rewrite Qabs_pos, Z.abs_eq; [reflexivity|lia|]. change 0 with (inject_Z 0). by rewrite <- Zle_Qle.
  - rewrite Qabs_neg, Z.abs_neq, inject_Z_opp; [reflexivity|lia|].
    change 0 with (inject_Z 0). rewrite <- Zle_Qle. lia.
Qed.

Lemma inject_Z_pos z : (0 < z)%Z -> 0 < inject_Z z.
Proof. intros H. change 0 with (inject_Z 0). by rewrite <- Zlt_Qlt. Qed.

Lemma inject_Z_nonneg z : (0 <= z)%Z -> 0 <= inject_Z z.
Proof. intros H. change 0 with (inject_Z 0). by rewrite <- Zle_Qle. Qed.

(** ** The binade and the quantum *)

Lemma qlog2_spec a : 0 < a -> 2 ^ qlog2 a <= a < 2 ^ (qlog2 a + 1).
Proof.
  intros Ha. destruct a as [n d]. unfold Qlt in Ha; cbn in Ha.
  unfold qlog2; cbn [Qnum Qden].
  set (ln := Z.log2 n). set (ld := Z.log2 (Z.pos d)).
  pose proof (Z.log2_spec n ltac:(lia)) as [Hn1 Hn2].
  pose proof (Z.log2_spec (Z.pos d) ltac:(lia)) as [Hd1 Hd2].
  fold ln in Hn1, Hn2. fold ld in Hd1, Hd2.
  pose proof (Z.log2_nonneg n). pose proof (Z.log2_nonneg (Z.pos d)).
  assert (Ha' : n # d == inject_Z n / inject_Z (Z.pos d)) by (unfold Qeq, Qdiv; cbn; lia).
  assert (Hdp : 0 < inject_Z (Z.pos d)) by (apply inject_Z_pos; lia).
  assert (HN1 : 2 ^ ln <= inject_Z n) by (rewrite <- pow2_Z, <- Zle_Qle; lia).
  assert (HN2 : inject_Z n < 2 ^ ln * 2) by
    (rewrite <- pow2_succ, <- pow2_Z, <- Zlt_Qlt by lia; exact Hn2).
  assert (HD1 : 2 ^ ld <= inject_Z (Z.pos d)) by (rewrite <- pow2_Z, <- Zle_Qle; lia).
  assert (HD2 : inject_Z (Z.pos d) < 2 ^ ld * 2) by
    (rewrite <- pow2_succ, <- pow2_Z, <- Zlt_Qlt by lia; exact Hd2).
  assert (He : 2 ^ (ln - ld) * 2 ^ ld == 2 ^ ln) by (rewrite <- pow2_add; f_equiv; lia).
  assert (Hs1 : 2 ^ (ln - ld + 1) == 2 ^ (ln - ld) * 2) by apply pow2_succ.
  assert (Hs0 : 2 ^ (ln - ld - 1 + 1) == 2 ^ (ln - ld - 1) * 2) by apply pow2_succ.
  replace (ln - ld - 1 + 1)%Z with (ln - ld)%Z in Hs0 by lia.
  pose proof (pow2_pos (ln - ld)). pose proof (pow2_pos (ln - ld - 1)). pose proof (pow2_pos ld).
  rewrite Ha'.
  destruct (Qle_bool _ _) eqn:E.
  - apply Qle_bool_iff in E. split; [exact E|].
    rewrite Hs1. apply Qlt_shift_div_r; [exact Hdp|]. nra.
  - apply not_true_iff_false in E. rewrite Qle_bool_iff in E. apply Qnot_le_lt in E.
    split; [|by replace (ln - ld - 1 + 1)%Z with (ln - ld)%Z by lia].
    apply Qle_shift_div_l; [exact Hdp|]. nra.
Qed.

Lemma quantum_spec a :
  0 < a ->
  (-1074 <= quantum a)%Z /\ a < 2 ^ (quantum a + 53) /\
  (quantum a = (-1074)%Z \/ 2 ^ (quantum a + 52) <= a).
Proof.
  intros Ha. destruct (qlog2_spec a Ha) as [H1 H2]. unfold quantum.
  split; [lia|]. split.
  - eapply Qlt_le_trans; [exact H2|]. apply pow2_le. lia.
  - destruct (Z.max_spec (qlog2 a - 52) (-1074)) as [[_ ->] | [_ ->]]; [left; done|right].
    by replace (qlog2 a - 52 + 52)%Z with (qlog2 a) by lia.
Qed.

Lemma scaled_spec a u :
  0 < a -> let '(n, d) := scaled a u in
  (0 < n)%Z /\ (0 < d)%Z /\ a * inject_Z d == inject_Z n * 2 ^ u.
Proof.
  intros Ha. destruct a as [an ad]. unfold Qlt in Ha; cbn in Ha.
  assert (Had : (an # ad) * inject_Z (Z.pos ad) == inject_Z an) by (unfold Qeq; cbn; lia).
  unfold scaled; cbn [Qnum Qden]. destruct (Z.leb_spec 0 u).
  - split; [lia|]. split; [apply Z.mul_pos_pos; [lia | apply Z.pow_pos_nonneg; lia]|].
    rewrite inject_Z_mult, pow2_Z by lia. rewrite Qmult_assoc, Had. reflexivity.
  - split; [apply Z.mul_pos_pos; [lia | apply Z.pow_pos_nonneg; lia]|]. split; [lia|].
    rewrite inject_Z_mult, pow2_Z by lia. rewrite Had, <- Qmult_assoc, <- pow2_add.
    replace (- u + u)%Z with 0%Z by lia. cbn. ring.
Qed.

(** Distances to the points [k * 2^u] of the grid, scaled by [d]. *)
Lemma grid_dist a u n d k :
  (0 < d)%Z -> a * inject_Z d == inject_Z n * 2 ^ u ->
  Qabs (inject_Z k * 2 ^ u - a) * inject_Z d == inject_Z (Z.abs (k * d - n)) * 2 ^ u.
Proof.
  intros Hd H.
  assert (E : (inject_Z k * 2 ^ u - a) * inject_Z d == inject_Z (k * d - n) * 2 ^ u).
  { rewrite <- Z.add_opp_r, inject_Z_plus, inject_Z_opp, inject_Z_mult.
    transitivity (inject_Z k * inject_Z d * 2 ^ u - a * inject_Z d); [ring|]. rewrite H. ring. }
  rewrite <- (Qabs_pos (inject_Z d)) by (apply inject_Z_nonneg; lia).
  rewrite <- Qabs_Qmult, E, Qabs_Qmult, inject_Z_abs, (Qabs_pos (2 ^ u)); [reflexivity|].
  apply Qlt_le_weak, pow2_pos.
Qed.

(** The facts on [a > 0] that the rounding rests on, at its quantum [u]
    and rounded mantissa [m]. *)
Lemma round_mant_spec a :
  0 < a ->
  let u := quantum a in let m := round_mant a in
  (forall k, Qabs (inject_Z m * 2 ^ u - a) <= Qabs (inject_Z k * 2 ^ u - a)) /\
  Qabs (inject_Z m * 2 ^ u - a) * 2 <= 2 ^ u /\
  (0 <= m <= 2 ^ 53)%Z /\ (u = (-1074)%Z \/ (2 ^ 52 <= m)%Z).
Proof.
  intros Ha u m. destruct (quantum_spec a Ha) as (Hu & Hhi & Hlo). fold u in Hu, Hhi, Hlo.
  pose proof (scaled_spec a u Ha) as Hs. unfold m, round_mant. fold u.
  destruct (scaled a u) as [n d]. destruct Hs as (Hn & Hd & H).
  pose proof (pow2_pos u) as Hp.
  assert (HD : 0 < inject_Z d) by (apply inject_Z_pos; lia).
  split; [|split; [|split]].
  - intros k. apply (Qmult_le_r _ _ (inject_Z d) HD). rewrite !(grid_dist a u n d) by done.
    apply Qmult_le_compat_r; [|lra]. rewrite <- Zle_Qle. pose proof (rne_nearest n d k Hd). lia.
  - apply (Qmult_le_r _ _ (inject_Z d) HD).
    rewrite <- Qmult_assoc, (Qmult_comm 2), Qmult_assoc, (grid_dist a u n d) by done.
    assert (Hh : inject_Z (2 * Z.abs (rne n d * d - n)) <= inject_Z d)
      by (rewrite <- Zle_Qle; pose proof (rne_half n d Hd); lia).
    rewrite inject_Z_mult in Hh. change (inject_Z 2) with 2 in Hh. nra.
  - rewrite pow2_add in Hhi. change (2 ^ 53) with (inject_Z (2 ^ 53)) in Hhi.
    assert (inject_Z n < inject_Z (2 ^ 53 * d)) by (rewrite inject_Z_mult; nra).
    rewrite <- Zlt_Qlt in H0.
    split; [apply rne_mono_lo; lia | apply rne_mono_hi; lia].
  - destruct Hlo as [-> | Hlo]; [by left|right].
    rewrite pow2_add in Hlo. change (2 ^ 52) with (inject_Z (2 ^ 52)) in Hlo.
    assert (inject_Z (2 ^ 52 * d) <= inject_Z n) by (rewrite inject_Z_mult; nra).
    rewrite <- Zle_Qle in H0. apply rne_mono_lo; lia.
Qed.

(** ** The doubles around a value *)

(** A double at least [2^(u+52)] in magnitude (any double when [u] is
    the least quantum) is a multiple of [2^u]. *)
Lemma double_grid x u :
  is_double x -> (-1074 <= u)%Z -> (u = (-1074)%Z \/ 2 ^ (u + 52) <= Qabs x) ->
  exists k, x == inject_Z k * 2 ^ u.
Proof.
  intros (m & e & Hm & He & Hx) Hu Hbig. destruct (Z.le_gt_cases u e).
  - exists (m * 2 ^ (e - u))%Z. rewrite Hx, inject_Z_mult, pow2_Z by lia.
    rewrite <- Qmult_assoc, <- pow2_add. by replace (e - u + u)%Z with e by lia.
  - exfalso. destruct Hbig as [-> | Hbig]; [lia|].
    assert (Ha : Qabs x == inject_Z (Z.abs m) * 2 ^ e)
      by (rewrite Hx, Qabs_Qmult, inject_Z_abs, (Qabs_pos (2 ^ e)); [reflexivity | apply Qlt_le_weak, pow2_pos]).
    assert (Hm' : inject_Z (Z.abs m) < 2 ^ 53) by (change (2 ^ 53) with (inject_Z (2 ^ 53)); by rewrite <- Zlt_Qlt).
    assert (Hp : 2 ^ 53 * 2 ^ e <= 2 ^ (u + 52)) by (rewrite <- pow2_add; apply pow2_le; lia).
    pose proof (pow2_pos e). nra.
Qed.

#[export] Instance is_double_proper : Proper (Qeq ==> iff) is_double.
Proof.
  intros x y Hxy. split; intros (m & e & Hm & He & H); exists m, e; (split; [done|split; [done|]]);
    [rewrite <- Hxy | rewrite Hxy]; exact H.
Qed.

Lemma is_double_opp x : is_double x -> is_double (- x).
Proof.
  intros (m & e & Hm & He & Hx). exists (- m)%Z, e.
  split; [lia|]. split; [done|]. rewrite Hx, inject_Z_opp. ring.
Qed.

(** A rounded magnitude below [2^1024] is a double. *)
Lemma is_double_grid m u :
  (0 <= m <= 2 ^ 53)%Z -> (-1074 <= u)%Z -> (u = (-1074)%Z \/ (2 ^ 52 <= m)%Z) ->
  inject_Z m * 2 ^ u < 2 ^ 1024 -> is_double (inject_Z m * 2 ^ u).
Proof.
  intros Hm Hu Hn Ho. pose proof (pow2_pos u).
  assert (Hlt : forall k, (0 <= k)%Z -> inject_Z (2 ^ k) <= inject_Z m ->
                (k + u < 1024)%Z).
  { intros k Hk Hkm. apply (Qpower_lt_compat_l_inv 2); [|lra].
    rewrite pow2_add, <- pow2_Z by done. nra. }
  destruct (Z.eq_dec m (2 ^ 53)%Z) as [-> | Hm53].
  - exists (2 ^ 52)%Z, (u + 1)%Z. split; [lia|]. split.
    + pose proof (Hlt 53%Z ltac:(lia) (Qle_refl _)). lia.
    + rewrite !pow2_Z, pow2_succ by lia. ring.
  - exists m, u. split; [lia|]. split; [|reflexivity]. split; [done|].
    destruct Hn as [-> | Hn]; [lia|].
    pose proof (Hlt 52%Z ltac:(lia) ltac:(by rewrite <- Zle_Qle)). lia.
Qed.

(** For [a > 0], the rounded magnitude is at least as near to [a] as
    any double. *)
Lemma round_pos_nearest a x :
  0 < a -> is_double x ->
  Qabs (inject_Z (round_mant a) * 2 ^ quantum a - a) <= Qabs (x - a).
Proof.
  intros Ha Hx. destruct (round_mant_spec a Ha) as (Hk & _ & _ & _).
  destruct (quantum_spec a Ha) as (Hu & _ & Hlo).
  destruct (Qlt_le_dec (Qabs x) (2 ^ (quantum a + 52))) as [Hsmall | Hbig].
  - destruct Hlo as [Hu0 | Hlo].
    + destruct (double_grid x _ Hx Hu (or_introl Hu0)) as [k ->]. apply Hk.
    + eapply Qle_trans; [apply (Hk (2 ^ 52)%Z)|].
      rewrite pow2_Z, <- pow2_add, Z.add_comm by lia.
      rewrite Qabs_neg by lra. rewrite Qabs_Qminus.
      pose proof (Qle_Qabs (a - x)). pose proof (Qle_Qabs x). lra.
  - destruct (double_grid x _ Hx Hu (or_intror Hbig)) as [k ->]. apply Hk.
Qed.

(** ** The rounding *)

Lemma Qabs_pos_neq q : ~ q == 0 -> 0 < Qabs q.
Proof.
  intros Hq. destruct (Qlt_le_dec q 0).
  - rewrite Qabs_neg by lra. lra.
  - rewrite Qabs_pos by lra. destruct (Qeq_dec q 0); [done | lra].
Qed.

(** A finite result: [0] for [0], otherwise the rounded magnitude below
    [2^1024] with the sign [s] of [q]. *)
Lemma round64_PFin q r :
  round64 q = PFin r ->
  (q == 0 /\ r == 0) \/
  (0 < Qabs q /\ round_mag (Qabs q) < 2 ^ 1024 /\
   exists s, (s == 1 \/ s == -1) /\ q == s * Qabs q /\ r == s * round_mag (Qabs q)).
Proof.
  unfold round64. destruct (Qeq_bool q 0) eqn:Hq0.
  - intros [= <-]. left. split; [by apply Qeq_bool_eq | reflexivity].
  - apply Qeq_bool_neq, Qabs_pos_neq in Hq0 as Ha.
    destruct (Qle_bool (2 ^ 1024) _) eqn:Ho; [discriminate|].
    apply not_true_iff_false in Ho. rewrite Qle_bool_iff in Ho. apply Qnot_le_lt in Ho.
    intros [= <-]. right. split; [done|]. split; [done|].
    destruct (Qle_bool 0 q) eqn:Hs; [apply Qle_bool_iff in Hs | apply not_true_iff_false in Hs;
      rewrite Qle_bool_iff in Hs; apply Qnot_le_lt in Hs].
    + exists 1. split; [by left|]. split; [rewrite (Qabs_pos q Hs)|]; ring.
    + exists (-1). split; [by right|]. split; [rewrite (Qabs_neg q ltac:(lra))|]; ring.
Qed.

Lemma round64_PInf q b :
  round64 q = PInf b ->
  0 < Qabs q /\ 2 ^ 1024 <= round_mag (Qabs q) /\ b = negb (Qle_bool 0 q).
Proof.
  unfold round64. destruct (Qeq_bool q 0) eqn:Hq0; [discriminate|].
  apply Qeq_bool_neq, Qabs_pos_neq in Hq0.
  destruct (Qle_bool (2 ^ 1024) _) eqn:Ho; [|discriminate].
  intros [= <-]. by rewrite Qle_bool_iff in Ho.
Qed.

Lemma round64_not_nan q : round64 q <> PNaN.
Proof. unfold round64. by repeat case_match. Qed.

Lemma sign_sq s : s == 1 \/ s == -1 -> s * s == 1.
Proof. intros [-> | ->]; reflexivity. Qed.

Lemma sign_abs s x : s == 1 \/ s == -1 -> Qabs (s * x) == Qabs x.
Proof. intros [-> | ->]; [by rewrite Qmult_1_l | by rewrite <- Qabs_opp; f_equiv; ring]. Qed.

(** The rounded magnitude is within half a quantum of [a]: at most
    [2^-53 a] in the binades of the normal doubles, at most [2^-1075]
    among the subnormals. *)
Lemma round_mag_error a :
  0 < a -> Qabs (round_mag a - a) <= 2 ^ (-53) * a + 2 ^ (-1075).
Proof.
  intros Ha. destruct (round_mant_spec a Ha) as (_ & Hh & _ & _).
  destruct (quantum_spec a Ha) as (_ & _ & Hlo). fold (round_mag a) in Hh.
  pose proof (Qabs_nonneg (round_mag a - a)). pose proof (pow2_pos (-53)). pose proof (pow2_pos (-1075)).
  destruct Hlo as [Hu | Hlo].
  - rewrite Hu in Hh. assert (E : 2 ^ (-1074) == 2 ^ (-1075) * 2) by (rewrite <- pow2_succ; reflexivity).
    nra.
  - assert (E : 2 ^ (quantum a) == 2 ^ (quantum a + 52) * 2 ^ (-53) * 2)
      by (rewrite <- pow2_add, <- pow2_succ; f_equiv; lia).
    pose proof (pow2_pos (quantum a + 52)). nra.
Qed.

Lemma round_mag_nonneg a : 0 < a -> 0 <= round_mag a.
Proof.
  intros Ha. destruct (round_mant_spec a Ha) as (_ & _ & Hm & _). unfold round_mag.
  apply Qmult_le_0_compat; [apply inject_Z_nonneg; lia | apply Qlt_le_weak, pow2_pos].
Qed.

Lemma round_mag_double a : 0 < a -> round_mag a < 2 ^ 1024 -> is_double (round_mag a).
Proof.
  intros Ha Ho. destruct (round_mant_spec a Ha) as (_ & _ & Hm & Hn).
  destruct (quantum_spec a Ha) as (Hu & _ & _). by apply is_double_grid.
Qed.

(** [round64] implements IEEE round-to-nearest on binary64: a
    finite result is a double, and no double is nearer to the exact
    value. *)
Theorem round64_nearest q r :
  round64 q = PFin r -> is_double r /\ forall x, is_double x -> Qabs (r - q) <= Qabs (x - q).
Proof.
  intros H. destruct (round64_PFin q r H) as [[Hq Hr] | (Ha & Ho & s & Hs & Hq & Hr)].
  - split; [exists 0%Z, 0%Z; split; [lia|split; [lia|]]; rewrite Hr; reflexivity|].
    intros x _. assert (E : Qabs (r - q) == 0) by (rewrite Hr, Hq; reflexivity).
    rewrite E. apply Qabs_nonneg.
  - set (a := Qabs q) in *.
    assert (Hd : is_double (s * round_mag a)).
    { destruct Hs as [-> | ->]; [rewrite Qmult_1_l | apply is_double_opp]; by apply round_mag_double. }
    split; [by rewrite Hr|]. intros x Hx.
    assert (E1 : r - q == s * (round_mag a - a)) by (rewrite Hr, Hq; ring).
    assert (E2 : x - q == s * (s * x - a)) by (rewrite Hq; pose proof (sign_sq s Hs); nra).
    rewrite E1, E2, !sign_abs by done. apply round_pos_nearest; [done|].
    destruct Hs as [-> | ->]; [by rewrite Qmult_1_l|].
    assert (E : -1 * x == - x) by ring. rewrite E. by apply is_double_opp.
Qed.

(** The rounding error: at most [2^-53] of the value plus [2^-1075]. *)
Lemma round64_error q r :
  round64 q = PFin r -> Qabs (r - q) <= 2 ^ (-53) * Qabs q + 2 ^ (-1075).
Proof.
  intros H. pose proof (pow2_pos (-53)). pose proof (pow2_pos (-1075)). pose proof (Qabs_nonneg q).
  destruct (round64_PFin q r H) as [[Hq Hr] | (Ha & Ho & s & Hs & Hq & Hr)].
  - assert (E : Qabs (r - q) == 0) by (rewrite Hr, Hq; reflexivity). rewrite E. nra.
  - set (a := Qabs q) in *.
    assert (E1 : r - q == s * (round_mag a - a)) by (rewrite Hr, Hq; ring).
    rewrite E1, sign_abs by done. by apply round_mag_error.
Qed.

(** A finite result has the sign of the exact value. *)
Lemma round64_sign q r : round64 q = PFin r -> (0 <= q -> 0 <= r) /\ (q <= 0 -> r <= 0).
Proof.
  intros H. destruct (round64_PFin q r H) as [[Hq Hr] | (Ha & Ho & s & Hs & Hq & Hr)].
  - rewrite Hr. split; intros; lra.
  - pose proof (round_mag_nonneg _ Ha).
    destruct Hs as [Hs | Hs]; rewrite Hs in Hq, Hr; split; intros; nra.
Qed.

(** Overflow: [inf] only for values of magnitude at least [2^1023],
    with their sign. *)
Lemma round64_overflow q b :
  round64 q = PInf b -> 2 ^ 1023 <= Qabs q /\ b = negb (Qle_bool 0 q).
Proof.
  intros H. destruct (round64_PInf q b H) as (Ha & Ho & ->). split; [|done].
  pose proof (round_mag_error _ Ha). pose proof (Qle_Qabs (round_mag (Qabs q) - Qabs q)).
  assert (E : 2 ^ 1024 == 2 ^ 1023 * 2) by exact (pow2_succ 1023).
  assert (Hu : 2 ^ (-53) <= 1 # 4) by (apply Qle_bool_imp_le; vm_compute; reflexivity).
  assert (He : 2 ^ (-1075) <= 1) by (apply Qle_bool_imp_le; vm_compute; reflexivity).
  assert (Hb : 4 <= 2 ^ 1023) by (apply Qle_bool_imp_le; vm_compute; reflexivity).
  pose proof (pow2_pos (-53)). destruct (Qlt_le_dec (Qabs q) (2 ^ 1023)); [|done]. nra.
Qed.

(** ** [parse_value] in binary64 against the exact [parse_value] *)

(** [approx64 x y]: the binary64 result [y] is within the error of two
    roundings of the exact result [x] (relative [2 u + u^2] with
    [u = 2^-53], absolute [2^-1054] for the subnormals), or overflowed
    to the infinity of its sign from a magnitude of at least
    [2^1022]; infinities and NaN are kept. *)
Definition approx64 (x y : PyFloat) : Prop :=
  match x, y with
  | PFin p, PFin r => Qabs (r - p) <= (2 * 2 ^ (-53) + 2 ^ (-106)) * Qabs p + 2 ^ (-1054)
  | PFin p, PInf b => 2 ^ 1022 <= Qabs p /\ b = negb (Qle_bool 0 p)
  | PInf b, PInf b' => b = b'
  | PNaN, PNaN => True
  | _, _ => False
  end.

(** The arithmetic of two successive roundings, the second of a
    product by [N]. *)
Lemma two_roundings p r1 r N u eta :
  0 <= u <= 1 -> 0 <= eta -> 1 <= N -> u * N <= 1 ->
  Qabs (r1 - p) <= u * Qabs p + eta ->
  Qabs (r - r1 * N) <= u * Qabs (r1 * N) + eta ->
  Qabs (r - p * N) <= (2 * u + u * u) * Qabs (p * N) + (N + 2) * eta.
Proof.
  intros Hu He HN HuN H1 H2.
  assert (HN0 : Qabs N == N) by (apply Qabs_pos; lra).
  rewrite Qabs_Qmult, HN0 in H2 |- *.
  assert (Ht : Qabs (r - p * N) <= Qabs (r - r1 * N) + Qabs (r1 - p) * N).
  { assert (E3 : Qabs ((r1 - p) * N) == Qabs (r1 - p) * N) by (rewrite Qabs_Qmult, HN0; reflexivity).
    assert (E4 : r - p * N == (r - r1 * N) + (r1 - p) * N) by ring.
    rewrite <- E3, E4. apply Qabs_triangle. }
  assert (HR : Qabs r1 <= Qabs p + Qabs (r1 - p)).
  { assert (E5 : Qabs r1 == Qabs (p + (r1 - p))) by (f_equiv; ring).
    rewrite E5. apply Qabs_triangle. }
  pose proof (Qabs_nonneg p). pose proof (Qabs_nonneg (r1 - p)).
  assert (HuN0 : 0 <= u * N) by nra. assert (HuN1 : 0 <= (1 + u) * N) by nra.
  assert (S1 : u * Qabs r1 * N <= u * (Qabs p + Qabs (r1 - p)) * N) by nra.
  assert (S2 : (1 + u) * N * Qabs (r1 - p) <= (1 + u) * N * (u * Qabs p + eta)) by nra.
  assert (S3 : u * N * eta <= eta) by nra.
  nra.
Qed.

Lemma Qle_bool_mul_pos p N : 0 < N -> Qle_bool 0 (p * N) = Qle_bool 0 p.
Proof.
  intros HN. apply eq_bool_prop_intro. rewrite !Is_true_true, !Qle_bool_iff. split; intros; nra.
Qed.

Lemma pow_facts :
  2 ^ (-53) <= 1 # 4 /\ 2 ^ (-1075) <= 2 ^ (-1054) /\ 2 ^ 1023 == 2 ^ 1022 * 2 /\ 4 <= 2 ^ 1022 /\
  2 ^ (-1054) == 2 ^ 21 * 2 ^ (-1075) /\ 2 ^ (-106) == 2 ^ (-53) * 2 ^ (-53) /\
  1000000 * 2 ^ (-53) <= 1 /\ 1000000 + 2 <= 2 ^ 21 /\ 1000000 * 2 ^ (-1075) <= 1.
Proof. repeat split; apply Qle_bool_imp_le || apply Qeq_bool_eq; vm_compute; reflexivity. Qed.

(** One rounding of an exact value. *)
Lemma approx_round p : approx64 (PFin p) (round64 p).
Proof.
  destruct (pow_facts) as (F1 & F2 & F3 & F4 & F5 & F6 & _).
  pose proof (pow2_pos (-53)). pose proof (pow2_pos (-1075)). pose proof (Qabs_nonneg p).
  destruct (round64 p) as [r|b|] eqn:E; cbn [approx64].
  - pose proof (round64_error p r E). rewrite F6. nra.
  - destruct (round64_overflow p b E) as [Hp ->]. split; [|done]. pose proof (pow2_pos 1022). lra.
  - by apply round64_not_nan in E.
Qed.

(** [float(s) * n] against the exact [s * n], for a multiplier
    [1 <= n <= 1000000]. *)
Lemma approx_mul p n :
  (1 <= n <= 1000000)%Z -> approx64 (PFin (p * inject_Z n)) (pf_mul64 (round64 p) n).
Proof.
  intros Hn. destruct (pow_facts) as (F1 & F2 & F3 & F4 & F5 & F6 & F7 & F8 & F9).
  assert (HN : 1 <= inject_Z n <= 1000000)
    by (split; [change 1 with (inject_Z 1) | change 1000000 with (inject_Z 1000000)]; rewrite <- Zle_Qle; lia).
  pose proof (pow2_pos (-53)). pose proof (pow2_pos (-1075)). pose proof (Qabs_nonneg p).
  destruct (round64 p) as [r1|b1|] eqn:E1; [| |by apply round64_not_nan in E1].
  - unfold pf_mul64, pf_mul_int, round_pf. destruct (round64 (r1 * inject_Z n)) as [r|b|] eqn:E2;
      [| |by apply round64_not_nan in E2]; cbn [approx64].
    + pose proof (two_roundings p r1 r (inject_Z n) (2 ^ (-53)) (2 ^ (-1075)) ltac:(lra) ltac:(lra)
        ltac:(lra) ltac:(nra) (round64_error p r1 E1) (round64_error _ _ E2)) as Htwo.
      rewrite F5, F6. nra.
    + destruct (round64_overflow _ _ E2) as [Ho ->]. pose proof (round64_error p r1 E1) as Her.
      destruct (round64_sign p r1 E1) as [Hs1 Hs2].
      rewrite Qabs_Qmult, (Qabs_pos (inject_Z n)) in Ho by lra.
      rewrite Qabs_Qmult, (Qabs_pos (inject_Z n)) by lra.
      pose proof (Qabs_triangle p (r1 - p)) as Htri.
      assert (E5 : p + (r1 - p) == r1) by ring. rewrite E5 in Htri.
      split; [nra|]. rewrite !Qle_bool_mul_pos by lra. f_equal.
      destruct (Qle_bool 0 p) eqn:Hp; [apply Qle_bool_iff in Hp; apply Qle_bool_iff; auto|].
      apply not_true_iff_false in Hp. apply not_true_iff_false. rewrite Qle_bool_iff in Hp |- *. intros Hr1.
      assert (Hz : r1 == 0) by (apply Qle_antisym; [apply Hs2|]; lra).
      rewrite Hz in Ho. pose proof (pow2_pos 1023). assert (Qabs 0 * inject_Z n == 0) by reflexivity. lra.
  - destruct (round64_overflow p b1 E1) as [Hp ->].
    unfold pf_mul64, pf_mul_int, round_pf.
    replace (n =? 0)%Z with false by lia. replace (n <? 0)%Z with false by lia. cbn [approx64].
    rewrite xorb_false_r, Qle_bool_mul_pos by lra. split; [|done].
    rewrite Qabs_Qmult, (Qabs_pos (inject_Z n)) by lra. pose proof (pow2_pos 1022). nra.
Qed.

Lemma approx_pf x : approx64 x (round_pf x).
Proof. destruct x as [p|b|]; [apply approx_round | done | done]. Qed.

Lemma approx_mul_pf x n :
  (1 <= n <= 1000000)%Z -> approx64 (pf_mul_int x n) (pf_mul64 (round_pf x) n).
Proof.
  intros Hn. destruct x as [p|b|]; [by apply approx_mul| |done].
  unfold pf_mul64, pf_mul_int, round_pf. by destruct (n =? 0)%Z.
Qed.

Lemma approx_zero : approx64 zero zero.
Proof.
  unfold zero; cbn [approx64]. pose proof (pow2_pos (-53)). pose proof (pow2_pos (-106)).
  pose proof (pow2_pos (-1054)). assert (Qabs (0 - 0) == 0) by reflexivity.
  assert (Qabs 0 == 0) by reflexivity. nra.
Qed.

(** C6: [parse_value] computed in binary64, as CPython does, refines
    the exact [parse_value]: on every cell both raise the same
    exception or both return, the binary64 amount within two roundings
    of the exact one ([2^-52 + 2^-106] relative, [2^-1054] absolute) or
    [inf] with the sign of an exact amount of at least [2^1022]; NaN
    and the infinities are the same. *)
Theorem parse_value64_refines v :
  match parse_value v, parse_value64 v with
  | Err e, Err e' => e = e'
  | Ok x, Ok y => approx64 x y
  | _, _ => False
  end.
Proof.
  unfold parse_value, parse_value64. destruct v as [|x|s]; cbn [cell_isna].
  - apply approx_zero.
  - destruct (pf_isnan x); [apply approx_zero | reflexivity].
  - cbv zeta. set (u := py_upper (py_strip s)).
    destruct (py_endswith u "K"); [|destruct (py_endswith u "M")]; unfold float_of_str, float64_of_str;
      destruct (py_float _) as [x|]; rewrite ?bind_Ok; try reflexivity;
      [apply approx_mul_pf; lia | apply approx_mul_pf; lia | apply approx_pf | apply approx_zero].
Qed.

(** ** Exact operations *)

Lemma is_double_abs x : is_double x -> is_double (Qabs x).
Proof.
  intros Hx. destruct (Qlt_le_dec x 0).
  - rewrite Qabs_neg by lra. by apply is_double_opp.
  - by rewrite Qabs_pos.
Qed.

Lemma is_double_int z : (Z.abs z < 2 ^ 53)%Z -> is_double (inject_Z z).
Proof. intros Hz. exists z, 0%Z. split; [done|]. split; [lia|]. cbn. ring. Qed.

Lemma double_lt x : is_double x -> Qabs x < 2 ^ 1024.
Proof.
  intros (m & e & Hm & He & Hx). rewrite Hx, Qabs_Qmult, inject_Z_abs, (Qabs_pos (2 ^ e))
    by apply Qlt_le_weak, pow2_pos.
  assert (Hm' : inject_Z (Z.abs m) < 2 ^ 53) by (change (2 ^ 53) with (inject_Z (2 ^ 53)); by rewrite <- Zlt_Qlt).
  assert (Hp : 2 ^ 53 * 2 ^ e <= 2 ^ 1024) by (rewrite <- pow2_add; apply pow2_le; lia).
  pose proof (pow2_pos e). pose proof (inject_Z_nonneg (Z.abs m) ltac:(lia)). nra.
Qed.

Lemma round_mag_exact a : 0 < a -> is_double a -> round_mag a == a.
Proof.
  intros Ha Hd. pose proof (round_pos_nearest a a Ha Hd) as H. fold (round_mag a) in H.
  assert (E : Qabs (a - a) == 0) by (rewrite Qabs_pos; ring || lra). rewrite E in H.
  pose proof (Qabs_nonneg (round_mag a - a)). pose proof (Qle_Qabs (round_mag a - a)).
  pose proof (Qle_Qabs (- (round_mag a - a))). rewrite Qabs_opp in *. apply Qle_antisym; lra.
Qed.

(** Rounding a double gives it back: [float] and [+], [-], [*] are
    exact when the exact result is a double. *)
Lemma round64_double q : is_double q -> exists r, round64 q = PFin r /\ r == q.
Proof.
  intros Hq. destruct (round64 q) as [r|b|] eqn:E.
  - exists r. split; [done|]. destruct (round64_PFin q r E) as [[H0 Hr] | (Ha & Ho & s & Hs & H1 & Hr)].
    + by rewrite Hr, H0.
    + rewrite Hr, (round_mag_exact _ Ha (is_double_abs _ Hq)). symmetry. exact H1.
  - destruct (round64_PInf q b E) as (Ha & Ho & _).
    rewrite (round_mag_exact _ Ha (is_double_abs _ Hq)) in Ho. pose proof (double_lt q Hq). lra.
  - by apply round64_not_nan in E.
Qed.

(** ** The rounding depends on the value only *)

(** Two fractions of the same value round to the same integer. *)
Lemma rne_scale n d k : (0 < d)%Z -> (0 < k)%Z -> rne (n * k) (d * k) = rne n d.
Proof.
  intros Hd Hk. unfold rne.
  assert (E : forall a b, Z.div_eucl a b = (a / b, a mod b)%Z)
    by (intros; unfold Z.div, Z.modulo; by destruct (Z.div_eucl a b)).
  rewrite !E, Z.div_mul_cancel_r, Z.mul_mod_distr_r by lia.
  by rewrite Z.mul_assoc, <- Zmult_compare_compat_r by lia.
Qed.

Lemma rne_eq_frac n d n' d' :
  (0 < d)%Z -> (0 < d')%Z -> (n * d' = n' * d)%Z -> rne n d = rne n' d'.
Proof.
  intros Hd Hd' E. rewrite <- (rne_scale n d d'), <- (rne_scale n' d' d) by lia.
  by rewrite E, (Z.mul_comm d d').
Qed.

Lemma pow2_exp_unique a e e' :
  2 ^ e <= a < 2 ^ (e + 1) -> 2 ^ e' <= a < 2 ^ (e' + 1) -> e = e'.
Proof.
  intros [H1 H2] [H3 H4]. destruct (Z.lt_trichotomy e e') as [Hl|[->|Hl]]; [|done|].
  - assert (2 ^ (e + 1) <= 2 ^ e') by (apply pow2_le; lia). lra.
  - assert (2 ^ (e' + 1) <= 2 ^ e) by (apply pow2_le; lia). lra.
Qed.

Lemma qlog2_Qeq a a' : 0 < a -> a == a' -> qlog2 a = qlog2 a'.
Proof.
  intros Ha E. assert (Ha' : 0 < a') by (by rewrite <- E).
  pose proof (qlog2_spec a Ha) as S. pose proof (qlog2_spec a' Ha') as S'.
  apply (pow2_exp_unique a _ _ S). destruct S'. split; lra.
Qed.

Lemma round_mag_Qeq a a' : 0 < a -> a == a' -> round_mag a = round_mag a'.
Proof.
  intros Ha E. assert (Ha' : 0 < a') by (by rewrite <- E).
  assert (Hu : quantum a = quantum a') by (unfold quantum; by rewrite (qlog2_Qeq a a')).
  unfold round_mag, round_mant. rewrite <- Hu.
  pose proof (scaled_spec a (quantum a) Ha) as S1. pose proof (scaled_spec a' (quantum a) Ha') as S2.
  destruct (scaled a (quantum a)) as [n d], (scaled a' (quantum a)) as [n' d'].
  destruct S1 as (Hn & Hd & H1), S2 as (Hn' & Hd' & H2). rewrite <- E in H2.
  rewrite (rne_eq_frac n d n' d'); [reflexivity|lia|lia|].
  apply inject_Z_injective. rewrite !inject_Z_mult.
  pose proof (pow2_pos (quantum a)) as Hp.
  apply (Qmult_inj_r _ _ (2 ^ quantum a)); [lra|].
  transitivity (a * inject_Z d * inject_Z d'); [rewrite H1; ring|].
  transitivity (a * inject_Z d' * inject_Z d); [ring|]. rewrite H2. ring.
Qed.

(** [round64] is a function of the value of its argument. *)
Lemma round64_Qeq q q' : q == q' -> round64 q = round64 q'.
Proof.
  intros E. unfold round64.
  assert (Z0 : Qeq_bool q 0 = Qeq_bool q' 0)
    by (apply Bool.eq_iff_eq_true; rewrite !Qeq_bool_iff, E; done).
  rewrite Z0. destruct (Qeq_bool q' 0) eqn:Hz; [done|].
  assert (Hq : 0 < Qabs q) by (apply Qabs_pos_neq; rewrite E; intros H; by apply Qeq_bool_iff in H; congruence).
  rewrite (round_mag_Qeq (Qabs q) (Qabs q')) by (done || by rewrite E).
  by rewrite (Qle_bool_compat 0 0 q q') by (reflexivity || done).
Qed.

(** ** Shorthand amounts *)

(** C3: A shorthand amount [I.F] followed by [K] or [M], in either case
    and with any whitespace around it, is read as [float('I.F')] (the
    double nearest the decimal [I.F]) times 1000 or 1000000, rounded
    again to a double, as get_data.py lines 53-57 compute it. *)
Theorem parse_value64_shorthand w1 w2 ds fs c mult :
  is_blank w1 -> is_blank w2 -> ds <> [] -> fs <> [] -> is_digits ds -> is_digits fs ->
  suffix_mult c mult ->
  parse_value64 (CStr (w1 ++ fixed_literal ds fs ++ String c w2)%string)
  = Ok (pf_mul64 (round64 (fixed_value ds fs)) mult).
Proof.
  intros H1 H2 Hds Hfs Dds Dfs Hc.
  destruct (py_float_fixed ds fs Hds Hfs Dds Dfs) as [Hfl Hval].
  rewrite <- (round64_Qeq _ _ Hval). unfold parse_value64. rewrite cell_isna_str. cbv zeta.
  rewrite (strip_upper_shorthand w1 w2 ds fs c mult) by done.
  unfold float64_of_str. destruct (suffix_mult_cases c mult Hc) as [[-> ->] | [-> ->]].
  - by rewrite py_endswith_app, drop_last_app, Hfl.
  - rewrite py_endswith_app_char, bool_decide_false by done.
    by rewrite py_endswith_app, drop_last_app, Hfl.
Qed.

(** ** The sign of an amount *)

Lemma Qle_bool_false x y : Qle_bool x y = false <-> ~ (x <= y)%Q.
Proof. rewrite <- Qle_bool_iff. destruct (Qle_bool x y); split; congruence. Qed.

(** Rounding keeps the sign: a negative double comes from a negative
    exact value. *)
Lemma round_pf_negative y : pf_negative (round_pf y) = true -> pf_negative y = true.
Proof.
  destruct y as [q| |]; cbn; [|done|done].
  destruct (round64 q) as [r|b|] eqn:E; cbn.
  - intros Hr. apply negb_true_iff, Qle_bool_false in Hr.
    apply negb_true_iff, Qle_bool_false. intros Hq.
    apply Hr, (proj1 (round64_sign q r E)), Hq.
  - intros ->. by destruct (round64_PInf q true E) as (_ & _ & ->).
  - by apply round64_not_nan in E.
Qed.

Lemma pf_mul64_negative y n : (0 < n)%Z -> pf_negative (pf_mul64 y n) = true -> pf_negative y = true.
Proof.
  intros Hn Hneg%round_pf_negative. destruct y as [q|b|]; cbn in *; [| |done].
  2: { rewrite (proj2 (Z.ltb_ge n 0)) in Hneg by lia. destruct (n =? 0)%Z; [done|by destruct b]. }
  apply negb_true_iff, Qle_bool_false in Hneg. apply negb_true_iff, Qle_bool_false. intros Hq.
  apply Hneg. apply Qmult_le_0_compat; [done|]. unfold Qle; cbn; lia.
Qed.

(** [float(u)] on a text that starts with a character other than
    whitespace is negative only when that character is a minus sign. *)
Lemma float64_of_str_negative u y :
  float64_of_str u = Ok y -> pf_negative y = true ->
  (forall c u', u = String c u' -> py_isspace c = false) -> exists u', u = String "-" u'.
Proof.
  unfold float64_of_str, py_float. destruct (py_float_body (py_strip u)) as [y0|] eqn:E; [|discriminate].
  intros [= <-] Hneg%round_pf_negative Hns.
  destruct (py_float_body_negative _ _ E Hneg) as [r Hr].
  destruct u as [|c u']; [discriminate|].
  destruct (py_strip_cons c u' (Hns c u' eq_refl)) as [r' Hr']. rewrite Hr' in Hr.
  injection Hr as -> _. eauto.
Qed.

(** The stripped, upper-cased text of a cell starts with a character
    other than whitespace, and with a minus sign only when the cell's
    stripped text does. *)
Lemma strip_upper_head s c u' :
  py_upper (py_strip s) = String c u' ->
  py_isspace c = false /\ (c = "-"%char -> exists t, py_strip s = String "-" t).
Proof.
  destruct (py_strip s) as [|c0 s0] eqn:Hs; [discriminate|].
  intros Hu. pose proof (py_strip_head _ _ _ Hs) as Hc0.
  destruct (py_upper_head _ _ _ _ Hu) as [->| ->]; [split; [by apply upper_char_nonspace|]|by split].
  intros ->%upper_char_minus. eauto.
Qed.

(** C7: Amounts are not always non-negative, as the data model of the
    specification says: but the binary64 [parse_value] returns a
    negative amount (or [-inf]) only for a string cell whose text,
    stripped of surrounding whitespace, starts with a minus sign; a
    missing value, a malformed number, and every text without a leading
    minus give [0.0], a non-negative number, [inf] or NaN. *)
Theorem parse_value64_negative v x :
  parse_value64 v = Ok x -> pf_negative x = true ->
  exists s t, v = CStr s /\ py_strip s = String "-" t.
Proof.
  unfold parse_value64. destruct v as [|x0|s]; cbn [cell_isna]; [by intros [= <-]| |].
  { destruct (pf_isnan x0); [by intros [= <-]|discriminate]. }
  cbv zeta. intros H Hneg. exists s.
  enough (exists t, py_strip s = String "-" t) as [t Ht] by eauto.
  assert (Hns : forall c u', py_upper (py_strip s) = String c u' -> py_isspace c = false)
    by (intros c u' Hu; exact (proj1 (strip_upper_head _ _ _ Hu))).
  assert (Hmin : forall u', py_upper (py_strip s) = String "-" u' -> exists t, py_strip s = String "-" t)
    by (intros u' Hu; exact (proj2 (strip_upper_head _ _ _ Hu) eq_refl)).
  destruct (py_endswith _ "K"); [|destruct (py_endswith _ "M")].
  1,2: destruct (float64_of_str _) as [y|] eqn:Hy; [|discriminate]; injection H as <-;
    apply pf_mul64_negative in Hneg; [|lia];
    destruct (float64_of_str_negative _ _ Hy Hneg) as [w Hw];
      [intros c u' (u'' & Hu)%drop_last_head; exact (Hns c u'' Hu)|];
    destruct (drop_last_head _ _ _ Hw) as [u'' Hu]; exact (Hmin u'' Hu).
  destruct (float64_of_str _) as [y|e] eqn:Hy; [injection H as <-|].
  - destruct (float64_of_str_negative _ _ Hy Hneg Hns) as [w Hw]. exact (Hmin w Hw).
  - destruct (is_value_error e); [injection H as <-; discriminate|discriminate].
Qed.

(** [float('1.005') * 1000] is [1004.9999999999999] in CPython: the
    nearest double to [1.005] is below it, and the product rounds to
    the double below [1005]; the exact model reads [1005]. *)
Lemma parse_value64_shorthand_witness :
  parse_value64 (CStr (" " ++ fixed_literal [1; 5; 0]%nat [0; 0]%nat ++ String "k" " ")%string)
  = Ok (pf_mul64 (round64 (fixed_value [1; 5; 0]%nat [0; 0]%nat)) 1000).
Proof.
  apply (parse_value64_shorthand " " " " [1; 5; 0]%nat [0; 0]%nat "k" 1000);
    [reflexivity | reflexivity | discriminate | discriminate | decide_true | decide_true |].
  left. split; [right|]; reflexivity.
Defined.

Lemma parse_value64_negative_witness :
  exists s t, CStr " -1.5k" = CStr s /\ py_strip s = String "-" t.
Proof.
  apply (parse_value64_negative (CStr " -1.5k") (result_or zero (parse_value64 (CStr " -1.5k"))));
    vm_compute; reflexivity.
Defined.

Example parse_value64_1005K :
  parse_value64 (CStr "1.005K") = Ok (PFin (inject_Z 8840073487319039 * 2 ^ (-43))) /\
  parse_value (CStr "1.005K") ≡ Ok (PFin 1005) /\
  ~ inject_Z 8840073487319039 * 2 ^ (-43) == 1005.
Proof.
  split; [vm_compute; reflexivity|]. split; [vm_compute; reflexivity|].
  intros H. apply Qeq_bool_iff in H. vm_compute in H. discriminate.
Qed.

(** The amounts of [tests/test_get_data.py::test_convert_damage_column]
    are exact in binary64 too. *)
Example parse_value64_test_amounts :
  Forall2 (fun v q => parse_value64 v ≡ Ok (PFin (inject_Z q)))
    [CStr "150.00K"; CStr "1.2M"; CStr "0.00K"; CNone; CStr "750.5K"; CStr "3.1M"; CStr ""]
    [150000; 1200000; 0; 0; 750500; 3100000; 0]%Z.
Proof. repeat (apply Forall2_cons; [vm_compute; reflexivity|]). apply Forall2_nil. Qed.

End Binary64.
