(* ===== verification/Loader.v ===== *)
(** * Loader: [load_and_filter_storm_data]

    [src/code/get_data.py], lines 6-24.  The function reads the CSV
    ([pd.read_csv], modelled in [Csv] and applied by the callers in
    [Tests]: the frame it returns is the argument [df]), computes the
    required columns that are absent, raises one
    [ValueError] naming all of them if there are any, and otherwise
    returns [df[columns]]. *)

From Stdlib Require Import QArith ZArith Ascii String.
From stdpp Require Import base list strings decidable.
From S2P Require Import Prelude PyStr PyFloat Frame.

Module Load.

(** [[col for col in columns if col not in df.columns]], line 20. *)
Definition missing_columns (df : Frame) (columns : list string) : list string :=
  filter (fun col => col ∉ col_names df) columns.

(** [load_and_filter_storm_data(csv_path, columns)], lines 6-24, on the
    frame [read_csv] returned. *)
Definition load_and_filter_storm_data (df : Frame) (columns : list string) : Result Frame :=
  match missing_columns df columns with
  | [] => select_cols df columns
  | missing_cols => raise (ValueError_missing_columns missing_cols)
  end.

(** ** Lemmas *)

Lemma missing_columns_nil df columns :
  missing_columns df columns = [] <-> forall c, c ∈ columns -> c ∈ col_names df.
Proof.
  unfold missing_columns. split.
  - intros H c Hc. destruct (decide (c ∈ col_names df)) as [|Hn]; [done|].
    exfalso. by apply (filter_nil_not_elem_of _ _ c H Hn).
  - intros H. induction columns as [|c cs IH]; [done|].
    rewrite filter_cons_False by (intros Hn; apply Hn, H; left).
    apply IH. intros c' ?. apply H. by right.
Qed.

(** The frame the loader returns, when it returns one. *)
Lemma load_and_filter_storm_data_Ok df columns sel :
  load_and_filter_storm_data df columns = Ok sel ->
  exists vss, sel = mkFrame df.(f_index) (zip columns vss) /\
    Forall2 (fun c vs => assoc c df.(f_cols) = Some vs) columns vss.
Proof.
  unfold load_and_filter_storm_data.
  destruct (missing_columns df columns) eqn:Hm; [|discriminate].
  destruct (select_cols_Ok df columns (proj1 (missing_columns_nil df columns) Hm)) as (vss & -> & Hf).
  intros [= <-]. eauto.
Qed.

Lemma load_and_filter_storm_data_wf df columns sel :
  frame_wf df -> NoDup columns -> load_and_filter_storm_data df columns = Ok sel -> frame_wf sel.
Proof.
  intros Hwf Hnd (vss & -> & Hf)%load_and_filter_storm_data_Ok. by apply select_cols_wf.
Qed.

(** ** Theorems *)

(** C8: Schema validation.  The loader raises exactly when a required
    column is absent, and then raises one [ValueError] listing every
    absent required column (not only the first), in the order of the
    required list; no other exception is possible. *)
Theorem load_and_filter_storm_data_error df columns e :
  load_and_filter_storm_data df columns = Err e <->
  missing_columns df columns <> [] /\ e = ValueError_missing_columns (missing_columns df columns).
Proof.
  unfold load_and_filter_storm_data.
  destruct (missing_columns df columns) as [|m ms] eqn:Hm.
  - split; [|by intros []].
    destruct (select_cols_Ok df columns (proj1 (missing_columns_nil df columns) Hm))
      as (vss & -> & _). discriminate.
  - split; [intros [= <-]; done|]. by intros [_ ->].
Qed.

(** The missing list holds exactly the required names the frame lacks. *)
Lemma missing_columns_spec df columns c :
  c ∈ missing_columns df columns <-> c ∈ columns /\ c ∉ col_names df.
Proof. unfold missing_columns. rewrite list_elem_of_filter. tauto. Qed.

(** C9: When every required column is present, the loader returns the
    frame's rows with exactly the required columns, in the required
    order, each the source column of that name; a well-formed frame and
    distinct required names give a well-formed result. *)
Theorem load_and_filter_storm_data_ok df columns :
  (forall c, c ∈ columns -> c ∈ col_names df) ->
  exists df', load_and_filter_storm_data df columns = Ok df' /\
    df'.(f_index) = df.(f_index) /\ col_names df' = columns /\
    Forall2 (fun c cv => assoc c df.(f_cols) = Some cv.2) columns df'.(f_cols) /\
    (frame_wf df -> NoDup columns -> frame_wf df').
Proof.
  intros Hin. unfold load_and_filter_storm_data.
  rewrite (proj2 (missing_columns_nil df columns) Hin).
  destruct (select_cols_Ok df columns Hin) as (vss & -> & Hf).
  eexists. split; [reflexivity|]. cbn. split; [done|].
  assert (Hl : length columns = length vss) by exact (Forall2_length Hf).
  split; [unfold col_names; cbn; by rewrite fst_zip by lia|].
  split; [|intros; by apply select_cols_wf].
  clear Hin Hl. induction Hf; cbn; by constructor.
Qed.

(** ** Witnesses *)

Definition two_col_frame : Frame :=
  mkFrame [0; 1] [("A", [CStr "a0"; CStr "a1"]); ("B", [CStr "b0"; CStr "b1"]);
                  ("C", [CStr "c0"; CStr "c1"])].

Lemma load_and_filter_storm_data_ok_witness :
  exists df', load_and_filter_storm_data two_col_frame ["C"; "A"] = Ok df' /\
    df'.(f_index) = two_col_frame.(f_index) /\ col_names df' = ["C"; "A"] /\
    Forall2 (fun c cv => assoc c two_col_frame.(f_cols) = Some cv.2) ["C"; "A"] df'.(f_cols) /\
    (frame_wf two_col_frame -> NoDup ["C"; "A"] -> frame_wf df').
Proof.
  apply load_and_filter_storm_data_ok. apply list.Forall_forall. decide_true.
Defined.

End Load.
