(* ===== verification/Fips.v ===== *)
(** * Fips: [filter_valid_state_fips]

    [src/code/get_data.py], lines 67-78.  The function overwrites the
    [STATE_FIPS] column with [pd.to_numeric(..., errors='coerce')]
    (so the caller's frame is mutated: the assignment is made on [df]
    itself), then keeps the rows with [1 <= STATE_FIPS <= 53] and
    returns a copy.  A value that does not coerce becomes NaN, and NaN
    fails both comparisons, so such rows are dropped.

    [to_numeric] on a string is pandas' own number parser [floatify]
    of [PyFloat]; a string it refuses becomes NaN ([errors='coerce']),
    as does the empty string. *)

From Stdlib Require Import QArith ZArith Ascii String.
From stdpp Require Import base list strings decidable.
From S2P Require Import Prelude PyStr PyFloat Frame.

Module Fips.

Definition STATE_FIPS : string := "STATE_FIPS".

(** [pd.to_numeric(v, errors='coerce')] on one cell. *)
Definition to_numeric_cell (v : Cell) : PyFloat :=
  match v with
  | CNone => PNaN
  | CFloat x => x
  | CStr s => match floatify s with Some x => x | None => PNaN end
  end.

(** [pd.to_numeric(s, errors='coerce')]: same index, float values. *)
Definition to_numeric (s : Series) : Series :=
  mkSeries s.(s_index) ((fun v => CFloat (to_numeric_cell v)) <$> s.(s_values)).

(** [s >= 1] and [s <= 53] on a numeric column, element by element. *)
Definition cell_ge (lo : Q) (v : Cell) : bool :=
  match v with CFloat (PFin q) => Qle_bool lo q | CFloat (PInf neg) => negb neg | _ => false end.

Definition cell_le (hi : Q) (v : Cell) : bool :=
  match v with CFloat (PFin q) => Qle_bool q hi | CFloat (PInf neg) => neg | _ => false end.

(** [(df['STATE_FIPS'] >= 1) & (df['STATE_FIPS'] <= 53)]. *)
Definition fips_mask (vs : list Cell) : list bool :=
  (fun v => cell_ge 1 v && cell_le 53 v) <$> vs.

(** [filter_valid_state_fips(df)], lines 77-78. *)
Definition filter_valid_state_fips (df : Frame) : Result Frame :=
  col ← get_col df STATE_FIPS;
  df ← set_col df STATE_FIPS (to_numeric col);
  col ← get_col df STATE_FIPS;
  mret (filter_rows df (fips_mask col.(s_values))).

(** ** Lemmas *)

(** The two comparisons together are [pf_between 1 53]: NaN and the
    infinities fail. *)
Lemma fips_mask_between x : cell_ge 1 (CFloat x) && cell_le 53 (CFloat x) = pf_between 1 53 x.
Proof. by destruct x as [q|[]|]. Qed.

Definition coerce (vs : list Cell) : list Cell := (fun v => CFloat (to_numeric_cell v)) <$> vs.

Definition keep (vs : list Cell) : list bool := (fun v => pf_between 1 53 (to_numeric_cell v)) <$> vs.

Lemma fips_mask_coerce vs : fips_mask (coerce vs) = keep vs.
Proof.
  unfold fips_mask, coerce, keep. rewrite <- list_fmap_compose.
  apply list_fmap_ext. intros _ v _. apply fips_mask_between.
Qed.

Lemma wf_col_length df c vs :
  frame_wf df -> assoc c df.(f_cols) = Some vs -> length vs = length df.(f_index).
Proof.
  intros [Hlen _] Ha%assoc_Some. rewrite list.Forall_forall in Hlen. exact (Hlen _ Ha).
Qed.

(** ** Theorems *)

(** The filter as one equation: coerce the column, then mask the rows. *)
Lemma filter_valid_state_fips_eq df vs :
  frame_wf df -> assoc STATE_FIPS df.(f_cols) = Some vs ->
  filter_valid_state_fips df =
  Ok (filter_rows (mkFrame df.(f_index) (put_col STATE_FIPS (coerce vs) df.(f_cols))) (keep vs)).
Proof.
  intros Hwf Hvs. unfold filter_valid_state_fips, get_col.
  rewrite Hvs. cbn [mbind Result_bind]. unfold to_numeric; cbn [s_index s_values].
  rewrite set_col_same_index by (rewrite length_fmap; by apply (wf_col_length df STATE_FIPS)).
  cbn. rewrite assoc_put_col. cbn. fold (coerce vs). by rewrite fips_mask_coerce.
Qed.

Lemma filter_valid_state_fips_wf df df' :
  frame_wf df -> filter_valid_state_fips df = Ok df' -> frame_wf df'.
Proof.
  intros Hwf H.
  destruct (assoc STATE_FIPS df.(f_cols)) as [vs|] eqn:Hvs;
    [|unfold filter_valid_state_fips, get_col in H; rewrite Hvs in H; discriminate].
  rewrite (filter_valid_state_fips_eq df vs Hwf Hvs) in H. injection H as <-.
  apply filter_rows_wf, put_col_wf; [done|exact (assoc_Some_key _ _ _ Hvs)|].
  unfold coerce. rewrite length_fmap. by apply (wf_col_length df STATE_FIPS).
Qed.

(** The filter keeps a subsequence of the input's labels. *)
Lemma filter_valid_state_fips_index df df' :
  frame_wf df -> filter_valid_state_fips df = Ok df' -> df'.(f_index) `sublist_of` df.(f_index).
Proof.
  intros Hwf H.
  destruct (assoc STATE_FIPS df.(f_cols)) as [vs|] eqn:Hvs;
    [|unfold filter_valid_state_fips, get_col in H; rewrite Hvs in H; discriminate].
  rewrite (filter_valid_state_fips_eq df vs Hwf Hvs) in H. injection H as <-.
  apply mask_filter_sublist.
Qed.

(** C10: On a well-formed frame with a [STATE_FIPS] column,
    [filter_valid_state_fips] keeps exactly the rows whose coerced
    [STATE_FIPS] value is a finite number in [1, 53], with their labels
    and in their order: each column of the result is the input column
    restricted to those rows, the [STATE_FIPS] column holding the
    coerced values. *)
Theorem filter_valid_state_fips_rows df vs :
  frame_wf df -> assoc STATE_FIPS df.(f_cols) = Some vs ->
  exists df', filter_valid_state_fips df = Ok df' /\
    df'.(f_index) = mask_filter (keep vs) df.(f_index) /\
    assoc STATE_FIPS df'.(f_cols) = Some (mask_filter (keep vs) (coerce vs)) /\
    (forall c col, c <> STATE_FIPS -> assoc c df.(f_cols) = Some col ->
       assoc c df'.(f_cols) = Some (mask_filter (keep vs) col)).
Proof.
  intros Hwf Hvs. eexists. split; [exact (filter_valid_state_fips_eq df vs Hwf Hvs)|]. cbn.
  split; [done|]. split.
  - by rewrite assoc_fmap_snd, assoc_put_col.
  - intros c col Hc Hcol. by rewrite assoc_fmap_snd, assoc_put_col_ne, Hcol.
Qed.

(** C11: The filter's result is well formed, holds a subsequence of the
    input's rows (labels in their original order, none added), and every
    [STATE_FIPS] value in it is a finite number between 1 and 53. *)
Theorem filter_valid_state_fips_safe df df' :
  frame_wf df -> filter_valid_state_fips df = Ok df' ->
  frame_wf df' /\ df'.(f_index) `sublist_of` df.(f_index) /\
  exists vs', assoc STATE_FIPS df'.(f_cols) = Some vs' /\
    Forall (fun v => exists q, v = CFloat (PFin q) /\ (1 <= q <= 53)%Q) vs'.
Proof.
  intros Hwf H. split; [exact (filter_valid_state_fips_wf df df' Hwf H)|].
  destruct (assoc STATE_FIPS df.(f_cols)) as [vs|] eqn:Hvs;
    [|unfold filter_valid_state_fips, get_col in H; rewrite Hvs in H; discriminate].
  rewrite (filter_valid_state_fips_eq df vs Hwf Hvs) in H. injection H as <-.
  split; [apply mask_filter_sublist|].
  - cbn. rewrite assoc_fmap_snd, assoc_put_col. eexists. split; [reflexivity|].
    unfold coerce, keep.
    rewrite (list_fmap_compose to_numeric_cell CFloat), (list_fmap_compose to_numeric_cell (pf_between 1 53)).
    rewrite mask_filter_fmap. apply Forall_fmap.
    eapply list.Forall_impl; [apply (mask_filter_self (pf_between 1 53))|].
    intros v Hv. cbn in *. destruct (pf_between_PFin _ _ _ Hv) as (q & -> & Hq). eauto.
Qed.

(** A frame with one [STATE_FIPS] value per row and a row tag. *)
Definition fips_frame (vs : list Cell) : Frame :=
  mkFrame (seq 0 (length vs))
          [("STATE", (fun i => CStr (String (ascii_of_nat (65 + i)) EmptyString)) <$> seq 0 (length vs));
           (STATE_FIPS, vs)].

Definition boundary_values : list Cell :=
  [CFloat (PFin 1); CFloat (PFin 53); CFloat (PFin 0); CFloat (PFin 54);
   CStr "abc"; CStr " 26.5 "; CNone; CStr "12"].

(** The range boundary.  Of the codes 1, 53, 0, 54, "abc", " 26.5 ",
    a missing value and "12", the filter keeps 1 and 53 (both ends
    inclusive) and "12" (a numeric string is coerced), drops 0, 54, the
    non-numeric string and the missing value, and also keeps " 26.5 ":
    a fractional code inside the range is not rejected. *)
Theorem filter_valid_state_fips_boundary :
  exists df', filter_valid_state_fips (fips_frame boundary_values) = Ok df' /\
    df'.(f_index) = [0; 1; 5; 7] /\
    assoc STATE_FIPS df'.(f_cols) ≡
      Some [CFloat (PFin 1); CFloat (PFin 53); CFloat (PFin (53 # 2)); CFloat (PFin 12)].
Proof.
  eexists. split; [vm_compute; reflexivity|]. split; [reflexivity|].
  vm_compute. repeat constructor.
Qed.

(** ** Witnesses *)

Lemma filter_valid_state_fips_rows_witness :
  exists df', filter_valid_state_fips (fips_frame boundary_values) = Ok df' /\
    df'.(f_index) = mask_filter (keep boundary_values) (fips_frame boundary_values).(f_index) /\
    assoc STATE_FIPS df'.(f_cols) = Some (mask_filter (keep boundary_values) (coerce boundary_values)) /\
    (forall c col, c <> STATE_FIPS -> assoc c (fips_frame boundary_values).(f_cols) = Some col ->
       assoc c df'.(f_cols) = Some (mask_filter (keep boundary_values) col)).
Proof. apply filter_valid_state_fips_rows; [decide_true | reflexivity]. Defined.

Definition boundary_result : Frame :=
  result_or (fips_frame []) (filter_valid_state_fips (fips_frame boundary_values)).

Lemma filter_valid_state_fips_safe_witness :
  frame_wf boundary_result /\ boundary_result.(f_index) `sublist_of` (fips_frame boundary_values).(f_index) /\
  exists vs', assoc STATE_FIPS boundary_result.(f_cols) = Some vs' /\
    Forall (fun v => exists q, v = CFloat (PFin q) /\ (1 <= q <= 53)%Q) vs'.
Proof.
  apply (filter_valid_state_fips_safe (fips_frame boundary_values) boundary_result);
    [decide_true | vm_compute; reflexivity].
Defined.

End Fips.
