(* ===== verification/Merge.v ===== *)
(** * Merge: [merge_state_coordinates]

    [src/code/get_data.py], lines 81-103.  The reference table (the frame
    [pd.read_csv(state_csv_path)] returns, an argument here) has its
    [name] column upper-cased with [.str.upper()], then
    [pd.merge(storm_df, state_df, how="left", left_on="STATE",
    right_on="name")] joins it to the storm rows.

    The left join follows pandas ([how="left"], [sort=False]): the
    left rows in their order, each followed by its matching right rows
    in their order, or by one row of NaN when none matches; the result
    has a fresh index 0..n-1; its columns are the left columns then the
    right columns, a name present on both sides taking the suffix [_x]
    on the left and [_y] on the right; when a suffix makes two names of
    one side equal, pandas 2 raises [MergeError] ([suffix_dups]).  Keys
    match when they are equal
    strings or equal numbers, and a missing key matches a missing key
    (pandas' merge pairs NaN with NaN).

    [.str.upper()] raises [AttributeError] on a non-empty column with no
    string (pandas infers a numeric or all-NaN column, for which the
    [.str] accessor is refused), and maps a non-string cell of a string
    column to NaN. *)

From Stdlib Require Import QArith ZArith Ascii String.
From stdpp Require Import base list strings decidable.
From S2P Require Import Prelude PyStr PyFloat Frame.

Module Merge.

Definition is_str (v : Cell) : bool := match v with CStr _ => true | _ => false end.

(** The element-wise result of [.str.upper()]. *)
Definition upper_keys (vs : list Cell) : list Cell :=
  (fun v => match v with CStr s => CStr (py_upper s) | _ => NaN end) <$> vs.

(** [s.str.upper()] on the values of a Series. *)
Definition str_upper (vs : list Cell) : Result (list Cell) :=
  if negb (bool_decide (vs = [])) && negb (existsb is_str vs)
  then raise AttributeError_str_accessor
  else Ok (upper_keys vs).

(** Join-key equality of pandas' merge. *)
Definition key_eq (u v : Cell) : bool :=
  match u, v with
  | CStr a, CStr b => bool_decide (a = b)
  | CFloat (PFin a), CFloat (PFin b) => Qeq_bool a b
  | CFloat (PInf s), CFloat (PInf t) => Bool.eqb s t
  | _, _ => cell_isna u && cell_isna v
  end.

(** The positions of the right keys that match [u], in order. *)
Definition matches (u : Cell) (rkeys : list Cell) : list nat :=
  fst <$> filter (fun p => key_eq u p.2 = true) (zip (seq 0 (length rkeys)) rkeys).

(** The row pairs of a left join: for each left row [i], its matching
    right rows, or [None] when there is none. *)
Fixpoint join_pairs (i : nat) (lkeys rkeys : list Cell) : list (nat * option nat) :=
  match lkeys with
  | [] => []
  | u :: lk =>
      match matches u rkeys with
      | [] => [(i, None)]
      | ms => (fun j => (i, Some j)) <$> ms
      end ++ join_pairs (S i) lk rkeys
  end.

(** The output names: [_x]/[_y] on the names both sides have. *)
Definition left_names (left right : list string) : list string :=
  (fun c => if decide (c ∈ right) then (c ++ "_x")%string else c) <$> left.

Definition right_names (left right : list string) : list string :=
  (fun c => if decide (c ∈ left) then (c ++ "_y")%string else c) <$> right.

Definition gather_left (pairs : list (nat * option nat)) (vs : list Cell) : list Cell :=
  (fun p => cell_at vs p.1) <$> pairs.

Definition gather_right (pairs : list (nat * option nat)) (vs : list Cell) : list Cell :=
  (fun p => match p.2 with Some j => cell_at vs j | None => NaN end) <$> pairs.

(** The new names of one side that a suffix made equal to an earlier
    new name of that side, the old name not being a repeat itself
    ([llabels[llabels.duplicated() & ~left.duplicated()]] in pandas'
    [_items_overlap_with_suffix]). *)
Fixpoint suffix_dups (seen_old seen_new old new : list string) : list string :=
  match old, new with
  | o :: old', n :: new' =>
      (if bool_decide (n ∈ seen_new) && negb (bool_decide (o ∈ seen_old)) then [n] else [])
      ++ suffix_dups (o :: seen_old) (n :: seen_new) old' new'
  | _, _ => []
  end.

(** [pd.merge(left, right, how="left", left_on=lk, right_on=rk)]: the key
    columns are looked up, then the overlapping names are suffixed,
    which raises when it makes two names of one side equal. *)
Definition merge_left (left right : Frame) (lk rk : string) : Result Frame :=
  lcol ← get_col left lk;
  rcol ← get_col right rk;
  let ln := left_names (col_names left) (col_names right) in
  let rn := right_names (col_names left) (col_names right) in
  match suffix_dups [] [] (col_names left) ln ++ suffix_dups [] [] (col_names right) rn with
  | [] =>
      let pairs := join_pairs 0 lcol.(s_values) rcol.(s_values) in
      mret (mkFrame (seq 0 (length pairs))
              (zip ln ((fun c => gather_left pairs c.2) <$> left.(f_cols)) ++
               zip rn ((fun c => gather_right pairs c.2) <$> right.(f_cols))))
  | dups => raise (MergeError_suffix dups)
  end.

(** [merge_state_coordinates(storm_df, state_csv_path)], lines 92-103,
    on the reference frame [read_csv] returned. *)
Definition merge_state_coordinates (storm_df state_df : Frame) : Result Frame :=
  names ← get_col state_df "name";
  up ← str_upper names.(s_values);
  state_df ← set_col state_df "name" (mkSeries names.(s_index) up);
  merge_left storm_df state_df "STATE" "name".

(** ** Lemmas on the join *)

Lemma elem_of_zip_seq {A} (l : list A) i k x :
  (k, x) ∈ zip (seq i (length l)) l <-> i <= k /\ l !! (k - i) = Some x.
Proof.
  revert i. induction l as [|y l IH]; intros i; cbn.
  - split; [by intros ?%not_elem_of_nil|]. intros [_ ?]. by destruct (k - i).
  - rewrite elem_of_cons, IH. split.
    + intros [[= -> ->]|[Hi Hl]]; [by rewrite Nat.sub_diag|].
      split; [lia|]. by replace (k - i) with (S (k - S i)) by lia.
    + intros [Hi Hl]. destruct (decide (k = i)) as [->|Hne].
      * rewrite Nat.sub_diag in Hl. injection Hl as ->. by left.
      * right. split; [lia|]. by replace (k - i) with (S (k - S i)) in Hl by lia.
Qed.

(** [j] is a match of [u] exactly when the right key at [j] equals [u]. *)
Lemma elem_of_matches u rkeys j :
  j ∈ matches u rkeys <-> exists v, rkeys !! j = Some v /\ key_eq u v = true.
Proof.
  unfold matches. rewrite list_elem_of_fmap. split.
  - intros ([k v] & -> & [Hk Hin]%list_elem_of_filter). cbn in *.
    apply elem_of_zip_seq in Hin as [_ Hl]. rewrite Nat.sub_0_r in Hl. eauto.
  - intros (v & Hl & Hk). exists (j, v). split; [done|].
    apply list_elem_of_filter. split; [done|]. apply elem_of_zip_seq. split; [lia|by rewrite Nat.sub_0_r].
Qed.

Lemma length_join_pairs i lk rk :
  length (join_pairs i lk rk) = sum_list ((fun u => max 1 (length (matches u rk))) <$> lk).
Proof.
  revert i. induction lk as [|u lk IH]; intros i; cbn; [done|].
  rewrite length_app, IH. f_equal.
  destruct (matches u rk) as [|j ms]; cbn; [done|]. by rewrite length_fmap.
Qed.

(** Each left row [k] appears once per match, at least once, and the
    rows appear in their order. *)
Lemma join_pairs_fst i lk rk :
  fst <$> join_pairs i lk rk =
  concat (zip_with (fun k u => replicate (max 1 (length (matches u rk))) k) (seq i (length lk)) lk).
Proof.
  revert i. induction lk as [|u lk IH]; intros i; cbn; [done|].
  rewrite fmap_app, IH. f_equal.
  destruct (matches u rk) as [|j ms]; cbn; [done|].
  f_equal. rewrite <- list_fmap_compose. by apply const_fmap.
Qed.

(** A joined right row matches its left row's key; a row without a
    right partner has a key that matches no right row. *)
Lemma join_pairs_sound i lk rk k o :
  (k, o) ∈ join_pairs i lk rk ->
  exists u, i <= k /\ lk !! (k - i) = Some u /\
    match o with
    | Some j => exists v, rk !! j = Some v /\ key_eq u v = true
    | None => matches u rk = []
    end.
Proof.
  revert i. induction lk as [|u lk IH]; intros i; cbn; [by intros ?%not_elem_of_nil|].
  rewrite elem_of_app. intros [Hin|Hin].
  - exists u. destruct (matches u rk) as [|j ms] eqn:Hm.
    + apply list_elem_of_singleton in Hin. injection Hin as -> ->.
      rewrite Nat.sub_diag. auto.
    + change ((k, o) ∈ (fun j => (i, Some j)) <$> (j :: ms)) in Hin.
      apply list_elem_of_fmap in Hin as (j' & [= -> ->] & Hj'). rewrite Nat.sub_diag.
      split; [done|]. split; [done|]. apply elem_of_matches. by rewrite Hm.
  - destruct (IH (S i) Hin) as (u' & Hi & Hl & Ho). exists u'.
    split; [lia|]. replace (k - i) with (S (k - S i)) by lia. auto.
Qed.

Lemma str_upper_Ok vs up : str_upper vs = Ok up -> up = upper_keys vs.
Proof. unfold str_upper. destruct (_ && _); [discriminate|]. by intros [= <-]. Qed.

(** The join rows of the storm keys against the upper-cased names. *)
Definition join_rows (lks names : list Cell) : list (nat * option nat) :=
  join_pairs 0 lks (upper_keys names).

(** What a successful [merge_state_coordinates] computed: the storm
    keys [lks], the reference names, the join rows, and the columns. *)
Lemma merge_state_coordinates_Ok storm states m :
  merge_state_coordinates storm states = Ok m ->
  exists names lks st',
    assoc "name" states.(f_cols) = Some names /\ assoc "STATE" storm.(f_cols) = Some lks /\
    set_col states "name" (mkSeries states.(f_index) (upper_keys names)) = Ok st' /\
    m = mkFrame (seq 0 (length (join_rows lks names)))
          (zip (left_names (col_names storm) (col_names st'))
               ((fun c => gather_left (join_rows lks names) c.2) <$> storm.(f_cols)) ++
           zip (right_names (col_names storm) (col_names st'))
               ((fun c => gather_right (join_rows lks names) c.2) <$> st'.(f_cols))).
Proof.
  unfold merge_state_coordinates, get_col. intros H.
  destruct (assoc "name" states.(f_cols)) as [names|] eqn:Hn; [|discriminate]. cbn in H.
  destruct (str_upper names) as [up|e] eqn:Hup; [|discriminate]. cbn in H.
  apply str_upper_Ok in Hup as ->.
  destruct (set_col _ _ _) as [st'|e] eqn:Hst; [|discriminate]. cbn in H.
  unfold merge_left, get_col in H.
  destruct (assoc "STATE" storm.(f_cols)) as [lks|] eqn:Hl; [|discriminate]. cbn in H.
  rewrite (set_col_own_index _ _ _ _ Hst) in H. cbn [mbind Result_bind] in H.
  match type of H with
  | (match ?d with [] => _ | _ :: _ => _ end) = _ => destruct d; [|discriminate]
  end.
  injection H as <-.
  exists names, lks, st'. split; [done|]. split; [done|]. split; [exact Hst|]. reflexivity.
Qed.

(** The merged frame's columns: the storm columns, then the reference
    columns, a name present on both sides suffixed. *)
Lemma merge_state_coordinates_names storm states m :
  merge_state_coordinates storm states = Ok m ->
  col_names m = left_names (col_names storm) (col_names states) ++
                right_names (col_names storm) (col_names states).
Proof.
  intros (names & lks & st' & Hn & Hl & Hst & ->)%merge_state_coordinates_Ok.
  pose proof (set_col_own_index_names _ _ _ _ (assoc_Some_key _ _ _ Hn) Hst) as Hsn.
  unfold col_names at 1. cbn [f_cols]. rewrite fmap_app, !fst_zip; rewrite ?Hsn; [done| |].
  - unfold right_names. rewrite <-Hsn. unfold col_names. by rewrite !length_fmap.
  - unfold left_names, col_names. by rewrite !length_fmap.
Qed.

(** A storm column keeps its name in the merged frame exactly when the
    reference table has no column of that name (for a name that does
    not end in [x] or [y], which no suffixed name can equal). *)
Lemma elem_of_merged_names L R c :
  c ∈ L -> last_char c <> Some "x"%char -> last_char c <> Some "y"%char ->
  c ∈ left_names L R ++ right_names L R <-> c ∉ R.
Proof.
  intros HcL Hx Hy. unfold left_names, right_names. rewrite elem_of_app, !list_elem_of_fmap. split.
  - intros [(d & -> & Hd)|(e & -> & He)].
    + destruct (decide (d ∈ R)); [|done].
      exfalso. apply Hx. rewrite last_char_app_r by discriminate. reflexivity.
    + destruct (decide (e ∈ L)); [|done].
      exfalso. apply Hy. rewrite last_char_app_r by discriminate. reflexivity.
  - intros HnR. left. exists c. split; [by rewrite decide_False|done].
Qed.

(** A name renamed by a suffix equals [c] exactly when it was [c], for a
    [c] that cannot carry the suffix and is not itself renamed. *)
Lemma rename_iff (S : list string) sfx c d :
  sfx <> EmptyString -> last_char c <> last_char sfx -> c ∉ S \/ d <> c ->
  (if decide (d ∈ S) then (d ++ sfx)%string else d) = c <-> d = c.
Proof.
  intros Hs Hl Hcd. destruct (decide (d ∈ S)) as [Hd|]; [|done]. split.
  - intros <-. exfalso. apply Hl. by rewrite last_char_app_r.
  - intros ->. naive_solver.
Qed.

(** Looking up [c] among renamed columns. *)
Lemma assoc_zip_renamed (f : string -> string) (cols : list (string * list Cell))
    (g : list Cell -> list Cell) c rest :
  (forall d, d ∈ cols.*1 -> f d = c <-> d = c) ->
  assoc c (zip (f <$> cols.*1) ((fun p => g p.2) <$> cols) ++ rest) =
  match assoc c cols with Some v => Some (g v) | None => assoc c rest end.
Proof.
  induction cols as [|[d v] cols IH]; intros H; [done|]. cbn.
  assert (Hd : f d = c <-> d = c) by (apply H; left).
  destruct (decide (c = d)) as [->|Hne].
  - rewrite !bool_decide_true; try done. symmetry. by apply Hd.
  - rewrite (bool_decide_false (c = f d)) by (intros Heq; apply Hne; symmetry; apply Hd; by symmetry).
    rewrite (bool_decide_false (c = d)) by done.
    apply IH. intros d' ?. apply H. by right.
Qed.

(** The columns of the merged frame by name: a storm column whose name
    the reference table does not have, and a reference column whose name
    the storm frame does not have, keep their names and carry the values
    of the join rows. *)
Lemma merge_state_coordinates_assoc storm states m :
  merge_state_coordinates storm states = Ok m ->
  exists lks names st', assoc "STATE" storm.(f_cols) = Some lks /\
    m.(f_index) = seq 0 (length (join_rows lks names)) /\ col_names st' = col_names states /\
    forall c, last_char c <> Some "x"%char -> last_char c <> Some "y"%char ->
      (c ∉ col_names states ->
       assoc c m.(f_cols) = gather_left (join_rows lks names) <$> assoc c storm.(f_cols)) /\
      (c ∉ col_names storm ->
       assoc c m.(f_cols) = gather_right (join_rows lks names) <$> assoc c st'.(f_cols)).
Proof.
  intros (names & lks & st' & Hn & Hl & Hst & ->)%merge_state_coordinates_Ok.
  pose proof (set_col_own_index_names _ _ _ _ (assoc_Some_key _ _ _ Hn) Hst) as Hsn.
  exists lks, names, st'. split; [done|]. split; [done|]. split; [done|].
  intros c Hx Hy. cbn [f_cols]. unfold left_names, right_names, col_names in *.
  split; intros Hc; rewrite assoc_zip_renamed.
  - destruct (assoc c storm.(f_cols)) eqn:E; [done|].
    rewrite <-(app_nil_r (zip _ ((fun c => gather_right _ c.2) <$> st'.(f_cols)))).
    rewrite (assoc_zip_renamed _ _ _ _ []) by (intros d Hd; apply rename_iff; [done|done|];
      right; intros ->; apply Hc; rewrite <-Hsn; exact Hd).
    destruct (assoc c st'.(f_cols)) eqn:E'; [|done]. exfalso. apply Hc.
    rewrite <-Hsn. exact (assoc_Some_key _ _ _ E').
  - intros d Hd. apply rename_iff; [done|done|]. left. by rewrite Hsn.
  - destruct (assoc c storm.(f_cols)) eqn:E.
    + exfalso. apply Hc. exact (assoc_Some_key _ _ _ E).
    + rewrite <-(app_nil_r (zip _ ((fun c => gather_right _ c.2) <$> st'.(f_cols)))).
      rewrite (assoc_zip_renamed _ _ _ _ []) by (intros d Hd; apply rename_iff; [done|done|by left]).
      by destruct (assoc c st'.(f_cols)).
  - intros d Hd. apply rename_iff; [done|done|]. right. intros ->. by apply Hc.
Qed.

(** The merged frame has one cell per row in each column. *)
Lemma merge_state_coordinates_lengths storm states m :
  merge_state_coordinates storm states = Ok m ->
  Forall (fun c => length c.2 = length m.(f_index)) m.(f_cols).
Proof.
  intros (names & lks & st' & _ & _ & _ & ->)%merge_state_coordinates_Ok.
  cbn [f_cols f_index]. rewrite length_seq. apply Forall_app_2.
  - apply (Forall_zip_snd (fun v => length v = _)), Forall_fmap, Forall_forall.
    intros c _. apply length_fmap.
  - apply (Forall_zip_snd (fun v => length v = _)), Forall_fmap, Forall_forall.
    intros c _. apply length_fmap.
Qed.

(** No merged name is empty when no name of either side is. *)
Lemma merged_names_nonempty L R :
  Forall (fun c => c <> EmptyString) L -> Forall (fun c => c <> EmptyString) R ->
  Forall (fun c => c <> EmptyString) (left_names L R ++ right_names L R).
Proof.
  intros HL HR. unfold left_names, right_names.
  apply Forall_app_2; apply Forall_fmap, Forall_forall; intros d Hd; cbn.
  - pose proof (proj1 (Forall_forall _ _) HL d Hd) as Hne.
    destruct (decide (d ∈ R)); [|done]. destruct d; [done|]. by rewrite str_app_cons.
  - pose proof (proj1 (Forall_forall _ _) HR d Hd) as Hne.
    destruct (decide (d ∈ L)); [|done]. destruct d; [done|]. by rewrite str_app_cons.
Qed.

(** Each join row points at a storm row. *)
Lemma join_pairs_fst_bound i lk rk :
  Forall (fun p => i <= p.1 < i + length lk) (join_pairs i lk rk).
Proof.
  revert i. induction lk as [|u lk IH]; intros i; cbn; [constructor|].
  apply Forall_app. split.
  - destruct (matches u rk) as [|j ms]; cbn.
    + constructor; [cbn; lia|constructor].
    + constructor; [cbn; lia|]. apply Forall_fmap, Forall_forall. intros ? _. cbn; lia.
  - pose proof (IH (S i)) as H. rewrite Forall_forall in H |- *.
    intros p Hp. specialize (H p Hp). cbn in *. lia.
Qed.

(** A storm column as long as the key column is gathered from its own
    values: whatever holds of every value holds of the merged column. *)
Lemma gather_left_Forall (P : Cell -> Prop) lks names col :
  length col = length lks -> Forall P col -> Forall P (gather_left (join_rows lks names) col).
Proof.
  intros Hl HP. apply Forall_fmap, Forall_forall. intros p Hp.
  pose proof (proj1 (Forall_forall _ _) (join_pairs_fst_bound 0 lks (upper_keys names)) p Hp) as Hb.
  cbn in Hb. change (P (cell_at col p.1)). unfold cell_at. destruct (lookup_lt_is_Some_2 col p.1) as [v Hv]; [lia|].
  rewrite Hv. cbn. exact (Forall_lookup_1 _ _ _ _ HP Hv).
Qed.

Lemma gather_left_float pairs col :
  Forall (fun v => is_float v = true) col -> Forall (fun v => is_float v = true) (gather_left pairs col).
Proof. intros H. apply Forall_fmap, Forall_forall. intros p _. by apply cell_at_float. Qed.

Lemma snd_take_zip_app {A B} (ns : list A) (vs : list B) rest :
  length ns = length vs ->
  snd <$> take (length vs) (zip ns vs ++ rest) = vs.
Proof.
  intros Hl. rewrite take_app_length' by (rewrite length_zip; lia).
  by rewrite snd_zip by lia.
Qed.

Lemma gather_left_fst pairs vs : gather_left pairs vs = cell_at vs <$> (fst <$> pairs).
Proof. unfold gather_left. by rewrite <- list_fmap_compose. Qed.

(** ** Theorems *)

(** The merged table has one row per (storm row, matching reference row)
    pair, and one for a storm row nothing matches. *)
Lemma merge_state_coordinates_length storm states m lks names :
  merge_state_coordinates storm states = Ok m ->
  assoc "STATE" storm.(f_cols) = Some lks -> assoc "name" states.(f_cols) = Some names ->
  length m.(f_index) = sum_list ((fun u => max 1 (length (matches u (upper_keys names)))) <$> lks).
Proof.
  intros H Hl Hn.
  destruct (merge_state_coordinates_Ok _ _ _ H) as (names' & lks' & st' & Hn' & Hl' & _ & ->).
  rewrite Hn in Hn'. rewrite Hl in Hl'. injection Hn' as <-. injection Hl' as <-.
  cbn. rewrite length_seq. unfold join_rows. by rewrite length_join_pairs.
Qed.

(** C13: Join completeness.  Every storm row survives the merge: the
    merged table has one row per match of each storm row, and one row
    for a storm row with no match, so it never has fewer rows than the
    storm table, and has exactly as many when no storm key matches two
    reference names. *)
Theorem merge_state_coordinates_rows storm states m lks names :
  merge_state_coordinates storm states = Ok m ->
  assoc "STATE" storm.(f_cols) = Some lks -> assoc "name" states.(f_cols) = Some names ->
  length m.(f_index) = sum_list ((fun u => max 1 (length (matches u (upper_keys names)))) <$> lks) /\
  length lks <= length m.(f_index) /\
  ((forall u, u ∈ lks -> length (matches u (upper_keys names)) <= 1) -> length m.(f_index) = length lks).
Proof.
  intros H Hl Hn. rewrite (merge_state_coordinates_length _ _ _ _ _ H Hl Hn).
  split; [done|]. split; [apply sum_list_max1_ge|]. apply sum_list_max1_eq.
Qed.

(** C14: The merged table lists the storm rows in their order, each
    repeated once per matching reference row and kept once when nothing
    matches: its storm columns are the storm columns read at those
    rows. *)
Theorem merge_state_coordinates_left_rows storm states m lks names :
  merge_state_coordinates storm states = Ok m ->
  assoc "STATE" storm.(f_cols) = Some lks -> assoc "name" states.(f_cols) = Some names ->
  snd <$> take (length storm.(f_cols)) m.(f_cols) =
  (fun c => cell_at c.2 <$>
     concat (zip_with (fun k u => replicate (max 1 (length (matches u (upper_keys names)))) k)
                      (seq 0 (length lks)) lks)) <$> storm.(f_cols).
Proof.
  intros H Hl Hn.
  destruct (merge_state_coordinates_Ok _ _ _ H) as (names' & lks' & st' & Hn' & Hl' & _ & ->).
  rewrite Hn in Hn'. rewrite Hl in Hl'. injection Hn' as <-. injection Hl' as <-. cbn.
  rewrite <- (length_fmap (fun c => gather_left (join_rows lks names) c.2) storm.(f_cols)).
  rewrite snd_take_zip_app by (unfold left_names, col_names; by rewrite !length_fmap).
  apply list_fmap_ext. intros _ c _. rewrite gather_left_fst. unfold join_rows.
  by rewrite join_pairs_fst.
Qed.

(** A state table with both a [EVENT_TYPE] column and an [EVENT_TYPE_y]
    column: suffixing the shared name gives the right side two
    [EVENT_TYPE_y] columns, and pandas refuses the merge. *)
Example merge_state_coordinates_suffix_clash :
  merge_state_coordinates
    (mkFrame [0] [("STATE", [CStr "OHIO"]); ("EVENT_TYPE", [CStr "Hail"])])
    (mkFrame [0] [("name", [CStr "Ohio"]); ("EVENT_TYPE", [CStr "x"]); ("EVENT_TYPE_y", [CStr "y"])])
  = Err (MergeError_suffix ["EVENT_TYPE_y"]).
Proof. vm_compute. reflexivity. Qed.

(** ** A join on the real shape of the data *)

Definition storm_example : Frame :=
  mkFrame [1; 2; 4] [("STATE", [CStr "TEXAS"; CStr "Ohio"; NaN]);
                     ("EVENT_TYPE", [CStr "Hail"; CStr "Flood"; CStr "Wind"])].

Definition states_example : Frame :=
  mkFrame [0; 1; 2; 3] [("state", [CStr "TX"; CStr "OH"; CStr "??"; CStr "T2"]);
                        ("name", [CStr "Texas"; CStr "ohio"; NaN; CStr "TEXAS"])].

(** Three behaviours of the join that the specification leaves
    open.  Two reference names that differ only in case ("Texas",
    "TEXAS") both match the storm key TEXAS, so that storm row appears
    twice; a storm key not in upper case ("Ohio") matches nothing,
    because only the reference side is upper-cased, and gets NaN
    coordinates; a missing storm key matches the reference row whose
    name is missing. *)
Theorem merge_state_coordinates_example :
  exists m, merge_state_coordinates storm_example states_example = Ok m /\
    m.(f_index) = [0; 1; 2; 3] /\
    assoc "STATE" m.(f_cols) = Some [CStr "TEXAS"; CStr "TEXAS"; CStr "Ohio"; NaN] /\
    assoc "state" m.(f_cols) = Some [CStr "TX"; CStr "T2"; NaN; CStr "??"].
Proof. eexists. split; [vm_compute; reflexivity|]. repeat split; reflexivity. Qed.

(** ** Witnesses *)

Definition merge_example_result : Frame :=
  result_or storm_example (merge_state_coordinates storm_example states_example).

Lemma merge_state_coordinates_rows_witness :
  length merge_example_result.(f_index) =
    sum_list ((fun u => max 1 (length (matches u (upper_keys [CStr "Texas"; CStr "ohio"; NaN; CStr "TEXAS"]))))
              <$> [CStr "TEXAS"; CStr "Ohio"; NaN]) /\
  length [CStr "TEXAS"; CStr "Ohio"; NaN] <= length merge_example_result.(f_index) /\
  ((forall u, u ∈ [CStr "TEXAS"; CStr "Ohio"; NaN] ->
      length (matches u (upper_keys [CStr "Texas"; CStr "ohio"; NaN; CStr "TEXAS"])) <= 1) ->
   length merge_example_result.(f_index) = length [CStr "TEXAS"; CStr "Ohio"; NaN]).
Proof.
  apply (merge_state_coordinates_rows storm_example states_example merge_example_result
           [CStr "TEXAS"; CStr "Ohio"; NaN] [CStr "Texas"; CStr "ohio"; NaN; CStr "TEXAS"]);
    vm_compute; reflexivity.
Defined.

Lemma merge_state_coordinates_left_rows_witness :
  snd <$> take (length storm_example.(f_cols)) merge_example_result.(f_cols) =
  (fun c => cell_at c.2 <$>
     concat (zip_with (fun k u => replicate (max 1 (length (matches u
                (upper_keys [CStr "Texas"; CStr "ohio"; NaN; CStr "TEXAS"])))) k)
              (seq 0 3) [CStr "TEXAS"; CStr "Ohio"; NaN])) <$> storm_example.(f_cols).
Proof.
  apply (merge_state_coordinates_left_rows storm_example states_example merge_example_result
           [CStr "TEXAS"; CStr "Ohio"; NaN] [CStr "Texas"; CStr "ohio"; NaN; CStr "TEXAS"]);
    vm_compute; reflexivity.
Defined.

End Merge.
