(* ===== verification/Pipeline.v ===== *)
(** * Pipeline: [get_storm_data_pipeline]

    [src/code/get_data.py], lines 106-140.  The steps, in order:
    + [load_and_filter_storm_data] keeps the eleven required columns;
    + [filter_valid_state_fips] keeps the rows with a FIPS code in
      [1, 53], and their labels;
    + [df[c] = convert_damage_column(df[c])] for the two damage
      columns;
    + [merge_state_coordinates] joins the state table;
    + [save_filtered_data] writes the result (not modelled: the frame
      [get_storm_data_pipeline] returns is the one written).

    The third step is where the code goes wrong.  The converted column
    is a new Series with index 0..k-1, but the filtered frame keeps the
    labels of the surviving rows; pandas aligns on labels, so the row
    labelled [l] receives the [l]-th converted value (or NaN when
    [l >= k]), not its own. *)

From Stdlib Require Import QArith ZArith Ascii String.
From stdpp Require Import base list strings decidable.
From S2P Require Import Prelude PyStr PyFloat Frame Damage Loader Fips Merge.

Module Pipeline.
Import Convert Load Fips Merge.

(** [required_columns], lines 120-124. *)
Definition required_columns : list string :=
  ["STATE"; "STATE_FIPS"; "YEAR"; "MONTH_NAME"; "EVENT_TYPE";
   "INJURIES_DIRECT"; "INJURIES_INDIRECT"; "DEATHS_DIRECT";
   "DEATHS_INDIRECT"; "DAMAGE_PROPERTY"; "DAMAGE_CROPS"].

Definition DAMAGE_PROPERTY : string := "DAMAGE_PROPERTY".
Definition DAMAGE_CROPS : string := "DAMAGE_CROPS".

(** [df_filtered[c] = convert_damage_column(df_filtered[c])], lines 133
    and 134. *)
Definition convert_in_place (df : Frame) (c : string) : Result Frame :=
  col ← get_col df c;
  s ← convert_damage_column col.(s_values);
  set_col df c s.

(** Steps 1 to 3, lines 126-134. *)
Definition clean_storm_data (raw : Frame) : Result Frame :=
  df ← load_and_filter_storm_data raw required_columns;
  df ← filter_valid_state_fips df;
  df ← convert_in_place df DAMAGE_PROPERTY;
  convert_in_place df DAMAGE_CROPS.

(** [get_storm_data_pipeline()], lines 106-140, on the frames [read_csv]
    returns for the raw file and the state table: the frame saved. *)
Definition get_storm_data_pipeline (raw states : Frame) : Result Frame :=
  df ← clean_storm_data raw;
  merge_state_coordinates df states.

(** ** Lemmas *)

(** Converting a damage column in place: the column becomes the parsed
    values read by label. *)
Lemma convert_in_place_Ok df c ds df' :
  frame_wf df -> assoc c df.(f_cols) = Some ds ->
  convert_in_place df c = Ok df' ->
  exists xs, mapM parse_value ds = Ok xs /\
    df' = mkFrame df.(f_index) (put_col c (cell_at (CFloat <$> xs) <$> df.(f_index)) df.(f_cols)).
Proof.
  intros Hwf Hds. unfold convert_in_place, get_col. rewrite Hds. cbn.
  unfold convert_damage_column. destruct (mapM parse_value ds) as [xs|e] eqn:Hm; [|discriminate].
  cbn. rewrite set_col_fresh_series.
  - intros [= <-]. eauto.
  - rewrite length_fmap, (mapM_length _ _ _ Hm). by apply (wf_col_length df c).
Qed.

Lemma required_columns_NoDup : NoDup required_columns.
Proof. decide_true. Qed.

Lemma frame_wf_put_col_same_index df c vs :
  frame_wf df -> c ∈ col_names df -> length vs = length df.(f_index) ->
  frame_wf (mkFrame df.(f_index) (put_col c vs df.(f_cols))).
Proof. apply put_col_wf. Qed.

(** What a successful [clean_storm_data] computed: the FIPS-filtered
    frame [flt] and the two damage columns, converted and read by
    label. *)
Lemma clean_storm_data_Ok raw df :
  frame_wf raw -> clean_storm_data raw = Ok df ->
  exists sel flt dp dc xp xc,
    load_and_filter_storm_data raw required_columns = Ok sel /\
    filter_valid_state_fips sel = Ok flt /\ frame_wf flt /\
    assoc DAMAGE_PROPERTY flt.(f_cols) = Some dp /\ assoc DAMAGE_CROPS flt.(f_cols) = Some dc /\
    mapM parse_value dp = Ok xp /\ mapM parse_value dc = Ok xc /\
    df.(f_index) = flt.(f_index) /\
    assoc DAMAGE_PROPERTY df.(f_cols) = Some (cell_at (CFloat <$> xp) <$> flt.(f_index)) /\
    assoc DAMAGE_CROPS df.(f_cols) = Some (cell_at (CFloat <$> xc) <$> flt.(f_index)).
Proof.
  intros Hwf H. unfold clean_storm_data in H. result_inv.
  rename a into sel, a0 into flt, a1 into df1, Ha into Hsel, Ha0 into Hflt, Ha1 into Hdf1.
  pose proof (load_and_filter_storm_data_wf _ _ _ Hwf required_columns_NoDup Hsel) as Hwsel.
  pose proof (filter_valid_state_fips_wf _ _ Hwsel Hflt) as Hwflt.
  destruct (assoc DAMAGE_PROPERTY flt.(f_cols)) as [dp|] eqn:Hdp;
    [|unfold convert_in_place, get_col in Hdf1; rewrite Hdp in Hdf1; discriminate].
  destruct (convert_in_place_Ok _ _ _ _ Hwflt Hdp Hdf1) as (xp & Hxp & ->).
  assert (Hdc : exists dc, assoc DAMAGE_CROPS flt.(f_cols) = Some dc).
  { unfold convert_in_place, get_col in H. cbn in H.
    rewrite assoc_put_col_ne in H by done.
    destruct (assoc DAMAGE_CROPS flt.(f_cols)); [eauto|discriminate]. }
  destruct Hdc as [dc Hdc].
  assert (Hwdf1 : frame_wf (mkFrame flt.(f_index) (put_col DAMAGE_PROPERTY
                    (cell_at (CFloat <$> xp) <$> flt.(f_index)) flt.(f_cols)))).
  { apply put_col_wf; [done|exact (assoc_Some_key _ _ _ Hdp)|by rewrite length_fmap]. }
  destruct (convert_in_place_Ok _ DAMAGE_CROPS dc df Hwdf1) as (xc & Hxc & ->);
    [cbn; by rewrite assoc_put_col_ne|exact H|].
  exists sel, flt, dp, dc, xp, xc. cbn.
  do 8 (split; [done|]). split.
  - rewrite assoc_put_col_ne by done. apply assoc_put_col.
  - apply assoc_put_col.
Qed.

Lemma convert_in_place_names df c df' :
  frame_wf df -> convert_in_place df c = Ok df' -> col_names df' = col_names df /\ frame_wf df'.
Proof.
  intros Hwf H. destruct (assoc c df.(f_cols)) as [ds|] eqn:Hds;
    [|unfold convert_in_place, get_col in H; rewrite Hds in H; discriminate].
  destruct (convert_in_place_Ok _ _ _ _ Hwf Hds H) as (xs & _ & ->).
  pose proof (assoc_Some_key _ _ _ Hds) as Hc.
  split; [by apply put_col_names|]. apply put_col_wf; [done|done|]. by rewrite length_fmap.
Qed.

Lemma filter_valid_state_fips_names df df' :
  frame_wf df -> filter_valid_state_fips df = Ok df' -> col_names df' = col_names df.
Proof.
  intros Hwf H. destruct (assoc STATE_FIPS df.(f_cols)) as [vs|] eqn:Hvs;
    [|unfold filter_valid_state_fips, get_col in H; rewrite Hvs in H; discriminate].
  rewrite (filter_valid_state_fips_eq df vs Hwf Hvs) in H. injection H as <-.
  unfold filter_rows, col_names; cbn. rewrite (fmap_fst_pair (fun c => mask_filter _ c.2)).
  exact (put_col_names _ _ _ (assoc_Some_key _ _ _ Hvs)).
Qed.

(** The cleaned frame has exactly the required columns, in their order. *)
Lemma clean_storm_data_names raw df :
  frame_wf raw -> clean_storm_data raw = Ok df -> col_names df = required_columns.
Proof.
  intros Hwf H. unfold clean_storm_data in H. result_inv.
  pose proof (load_and_filter_storm_data_wf _ _ _ Hwf required_columns_NoDup Ha) as Hw1.
  pose proof (filter_valid_state_fips_wf _ _ Hw1 Ha0) as Hw2.
  destruct (convert_in_place_names _ _ _ Hw2 Ha1) as [Hn3 Hw3].
  destruct (convert_in_place_names _ _ _ Hw3 H) as [Hn4 _].
  rewrite Hn4, Hn3, (filter_valid_state_fips_names _ _ Hw1 Ha0).
  destruct (load_and_filter_storm_data_Ok _ _ _ Ha) as (vss & -> & Hf).
  unfold col_names; cbn [f_cols]. apply fst_zip. apply Nat.eq_le_incl. eapply Forall2_length; exact Hf.
Qed.

(** No required column name ends in [x] or [y], so none of them is a
    name [pd.merge] suffixed. *)
Lemma required_no_suffix c :
  c ∈ required_columns -> last_char c <> Some "x"%char /\ last_char c <> Some "y"%char.
Proof.
  intros Hc. repeat (apply elem_of_cons in Hc as [->|Hc]; [split; intros H; vm_compute in H; congruence|]).
  by apply not_elem_of_nil in Hc.
Qed.

Lemma damage_required c : c = DAMAGE_PROPERTY \/ c = DAMAGE_CROPS -> c ∈ required_columns.
Proof. intros [-> | ->]; decide_true. Qed.

Lemma assoc_zip_Forall2 (df : Frame) cols vss c :
  Forall2 (fun c vs => assoc c df.(f_cols) = Some vs) cols vss -> c ∈ cols ->
  assoc c (zip cols vss) = assoc c df.(f_cols).
Proof.
  induction 1 as [|c' vs cols vss Hc' _ IH]; [by intros ?%not_elem_of_nil|].
  intros Hc. cbn. case_bool_decide as E; [by subst|].
  apply IH. by apply elem_of_cons in Hc as [?|?].
Qed.

Lemma convert_in_place_other df c df' c' :
  frame_wf df -> convert_in_place df c = Ok df' -> c' <> c -> assoc c' df'.(f_cols) = assoc c' df.(f_cols).
Proof.
  intros Hwf H Hne. destruct (assoc c df.(f_cols)) as [ds|] eqn:Hds;
    [|unfold convert_in_place, get_col in H; rewrite Hds in H; discriminate].
  destruct (convert_in_place_Ok _ _ _ _ Hwf Hds H) as (xs & _ & ->). cbn. by apply assoc_put_col_ne.
Qed.

Lemma clean_storm_data_wf raw df : frame_wf raw -> clean_storm_data raw = Ok df -> frame_wf df.
Proof.
  intros Hwf H. unfold clean_storm_data in H. result_inv.
  pose proof (load_and_filter_storm_data_wf _ _ _ Hwf required_columns_NoDup Ha) as Hw1.
  pose proof (filter_valid_state_fips_wf _ _ Hw1 Ha0) as Hw2.
  destruct (convert_in_place_names _ _ _ Hw2 Ha1) as [_ Hw3].
  by destruct (convert_in_place_names _ _ _ Hw3 H) as [_ Hw4].
Qed.

(** The columns steps 1-3 do not convert are the raw columns restricted
    to the rows whose code passed the filter. *)
Lemma clean_storm_data_other_col raw df c :
  frame_wf raw -> clean_storm_data raw = Ok df -> c ∈ required_columns ->
  c <> STATE_FIPS -> c <> DAMAGE_PROPERTY -> c <> DAMAGE_CROPS ->
  exists fips vs, assoc STATE_FIPS raw.(f_cols) = Some fips /\ assoc c raw.(f_cols) = Some vs /\
    assoc c df.(f_cols) = Some (mask_filter (keep fips) vs).
Proof.
  intros Hwf H Hc H1 H2 H3. unfold clean_storm_data in H. result_inv.
  rename a into sel, a0 into flt, a1 into df1, Ha into Hsel, Ha0 into Hflt, Ha1 into Hdf1.
  pose proof (load_and_filter_storm_data_wf _ _ _ Hwf required_columns_NoDup Hsel) as Hw1.
  pose proof (filter_valid_state_fips_wf _ _ Hw1 Hflt) as Hw2.
  destruct (convert_in_place_names _ _ _ Hw2 Hdf1) as [_ Hw3].
  rewrite (convert_in_place_other _ _ _ _ Hw3 H H3), (convert_in_place_other _ _ _ _ Hw2 Hdf1 H2).
  destruct (load_and_filter_storm_data_Ok _ _ _ Hsel) as (vss & Hs & Hf).
  assert (Hr : forall n, n ∈ required_columns -> assoc n sel.(f_cols) = assoc n raw.(f_cols))
    by (intros n Hn; rewrite Hs; by apply assoc_zip_Forall2).
  assert (Hsome : forall n, n ∈ required_columns -> exists v, assoc n raw.(f_cols) = Some v).
  { intros n Hn. rewrite <-(Hr n Hn). apply assoc_is_Some. rewrite Hs. cbn [f_cols].
    rewrite fst_zip; [done|]. apply Nat.eq_le_incl. eapply Forall2_length; exact Hf. }
  destruct (Hsome STATE_FIPS ltac:(decide_true)) as [fips Hfips].
  destruct (Hsome c Hc) as [vs Hvs].
  exists fips, vs. split; [done|]. split; [done|].
  assert (Hfs : assoc STATE_FIPS sel.(f_cols) = Some fips) by (rewrite Hr; [done|decide_true]).
  rewrite (filter_valid_state_fips_eq sel fips Hw1 Hfs) in Hflt. injection Hflt as <-.
  cbn [filter_rows f_cols]. rewrite assoc_fmap_snd, assoc_put_col_ne by done.
  by rewrite Hr, Hvs.
Qed.

(** The cleaned frame has both damage columns, holding floats only (NaN
    where the assignment found no value for a label). *)
Lemma clean_storm_data_damage_float raw df c :
  frame_wf raw -> clean_storm_data raw = Ok df -> c = DAMAGE_PROPERTY \/ c = DAMAGE_CROPS ->
  exists vs, assoc c df.(f_cols) = Some vs /\ Forall (fun v => is_float v = true) vs.
Proof.
  intros Hwf H Hc.
  destruct (clean_storm_data_Ok raw df Hwf H) as (_ & flt & _ & _ & xp & xc & _ & _ & _ & _ & _ & _ & _ & _ & Hp & Hcr).
  assert (Hf : forall xs, Forall (fun v => is_float v = true) (CFloat <$> xs))
    by (intros xs; apply Forall_fmap, Forall_true; done).
  destruct Hc as [->| ->]; eexists; (split; [done|]);
    apply Forall_fmap, Forall_forall; intros l _; apply cell_at_float, Hf.
Qed.

(** ** The end-to-end scenario of the specification

    Three raw rows: an out-of-range FIPS code (99), a malformed property
    damage ("abc"), and a fully valid row; the state table knows the two
    surviving states. *)
Definition scenario_row (st : string) (fips : Z) (dp dc : string) : list Cell :=
  [CStr st; CFloat (PFin (inject_Z fips)); CFloat (PFin 2024); CStr "May"; CStr "Hail";
   CFloat (PFin 0); CFloat (PFin 0); CFloat (PFin 0); CFloat (PFin 0); CStr dp; CStr dc].

(** A frame from rows, labelled 0..n-1 as [read_csv] labels them. *)
Definition frame_of_rows (cols : list string) (rows : list (list Cell)) : Frame :=
  mkFrame (seq 0 (length rows))
          (imap (fun i c => (c, (fun r => cell_at r i) <$> rows)) cols).

Definition scenario_raw : Frame :=
  frame_of_rows required_columns
    [scenario_row "TEXAS" 99 "10.00K" "0.00K";
     scenario_row "OHIO" 39 "abc" "2M";
     scenario_row "IOWA" 19 "1.50K" "0.00K"].

Definition scenario_states : Frame :=
  mkFrame [0; 1] [("name", [CStr "Ohio"; CStr "Iowa"]);
                  ("latitude", [CFloat (PFin 40); CFloat (PFin 42)])].

(** ** Theorems *)

(** C1: The damage columns of the cleaned data are read by label, not by
    position.  Let [flt] be the FIPS-filtered frame and [xp] the values
    parsed from its DAMAGE_PROPERTY cells, in row order.  The row at
    position [p] of the cleaned frame has label [l] (the label it had in
    the raw file), and its DAMAGE_PROPERTY is [xp[l]], or NaN when [l]
    is at least the number of surviving rows; its own value is [xp[p]].
    The same holds for DAMAGE_CROPS.  So once a row has been dropped,
    later rows carry another row's damage or NaN. *)
Theorem clean_storm_data_damage_by_label raw df :
  frame_wf raw -> clean_storm_data raw = Ok df ->
  exists flt dp dc xp xc,
    (load_and_filter_storm_data raw required_columns ≫= filter_valid_state_fips) = Ok flt /\
    assoc DAMAGE_PROPERTY flt.(f_cols) = Some dp /\ mapM parse_value dp = Ok xp /\
    assoc DAMAGE_CROPS flt.(f_cols) = Some dc /\ mapM parse_value dc = Ok xc /\
    df.(f_index) = flt.(f_index) /\
    forall p l, df.(f_index) !! p = Some l ->
      (exists col, assoc DAMAGE_PROPERTY df.(f_cols) = Some col /\
                   col !! p = Some (cell_at (CFloat <$> xp) l)) /\
      (exists col, assoc DAMAGE_CROPS df.(f_cols) = Some col /\
                   col !! p = Some (cell_at (CFloat <$> xc) l)).
Proof.
  intros Hwf H.
  destruct (clean_storm_data_Ok raw df Hwf H)
    as (sel & flt & dp & dc & xp & xc & Hsel & Hflt & _ & Hdp & Hdc & Hxp & Hxc & Hidx & Hp & Hc).
  exists flt, dp, dc, xp, xc. rewrite Hsel. cbn. do 6 (split; [done|]).
  intros p l Hl. rewrite Hidx in Hl.
  split; eexists; (split; [done|]); by rewrite list_lookup_fmap, Hl.
Qed.

(** C2: Once the filter has dropped a row that came before a surviving
    row (the surviving labels are not 0..k-1, [read_csv] having
    labelled the raw rows 0..n-1), the damage of the last surviving row
    is lost: its label is at least the number [k] of surviving rows, so
    the assignment finds no converted value for it, and both its
    DAMAGE_PROPERTY and its DAMAGE_CROPS are NaN, whatever its own
    damage cells held. *)
Theorem clean_storm_data_loses_damage raw flt df :
  frame_wf raw -> raw.(f_index) = seq 0 (length raw.(f_index)) ->
  (load_and_filter_storm_data raw required_columns ≫= filter_valid_state_fips) = Ok flt ->
  flt.(f_index) <> seq 0 (length flt.(f_index)) ->
  clean_storm_data raw = Ok df ->
  exists l colp colc, list.last df.(f_index) = Some l /\ length flt.(f_index) <= l /\
    assoc DAMAGE_PROPERTY df.(f_cols) = Some colp /\ list.last colp = Some NaN /\
    assoc DAMAGE_CROPS df.(f_cols) = Some colc /\ list.last colc = Some NaN.
Proof.
  intros Hwf Hseq Hf Hne H.
  destruct (clean_storm_data_Ok raw df Hwf H)
    as (sel & flt' & dp & dc & xp & xc & Hsel & Hflt & Hwflt & Hdp & Hdc & Hxp & Hxc & Hidx & Hp & Hc).
  rewrite Hsel in Hf. cbn in Hf. rewrite Hflt in Hf. injection Hf as <-.
  assert (Hsub : flt'.(f_index) `sublist_of` seq 0 (length raw.(f_index))).
  { rewrite <- Hseq. destruct (load_and_filter_storm_data_Ok _ _ _ Hsel) as (vss & -> & _).
    exact (filter_valid_state_fips_index _ _
             (load_and_filter_storm_data_wf _ _ _ Hwf required_columns_NoDup Hsel) Hflt). }
  destruct (sublist_seq_last 0 _ _ Hsub) as [Hs|(l & Hl & Hle)]; [done|].
  exists l, (cell_at (CFloat <$> xp) <$> flt'.(f_index)), (cell_at (CFloat <$> xc) <$> flt'.(f_index)).
  rewrite Hidx, Hp, Hc, !fmap_last, Hl. cbn.
  assert (Hlen : forall ds xs c, assoc c flt'.(f_cols) = Some ds -> mapM parse_value ds = Ok xs ->
                   cell_at (CFloat <$> xs) l = NaN).
  { intros ds xs c Hds Hxs. unfold cell_at. rewrite lookup_ge_None_2; [done|].
    rewrite length_fmap, (mapM_length _ _ _ Hxs), (wf_col_length flt' c ds Hwflt Hds). lia. }
  rewrite (Hlen dp xp DAMAGE_PROPERTY Hdp Hxp), (Hlen dc xc DAMAGE_CROPS Hdc Hxc).
  split; [done|]. split; [lia|]. done.
Qed.

(** C12: When the surviving rows are labelled 0..k-1 (no row before a
    surviving row was dropped; [read_csv] labels the rows 0..n-1), every
    row receives the value parsed from its own damage cell. *)
Theorem clean_storm_data_aligned raw df flt :
  frame_wf raw ->
  (load_and_filter_storm_data raw required_columns ≫= filter_valid_state_fips) = Ok flt ->
  flt.(f_index) = seq 0 (length flt.(f_index)) ->
  clean_storm_data raw = Ok df ->
  exists dp xp, assoc DAMAGE_PROPERTY flt.(f_cols) = Some dp /\ mapM parse_value dp = Ok xp /\
    assoc DAMAGE_PROPERTY df.(f_cols) = Some (CFloat <$> xp).
Proof.
  intros Hwf Hf Hseq H.
  destruct (clean_storm_data_Ok raw df Hwf H)
    as (sel & flt' & dp & dc & xp & xc & Hsel & Hflt & Hwflt & Hdp & Hdc & Hxp & Hxc & Hidx & Hp & Hc).
  rewrite Hsel in Hf. cbn in Hf. rewrite Hflt in Hf. injection Hf as <-.
  exists dp, xp. do 2 (split; [done|]). rewrite Hp.
  assert (Hlen : length (CFloat <$> xp) = length flt'.(f_index)).
  { rewrite length_fmap, (mapM_length _ _ _ Hxp). by apply (wf_col_length flt' DAMAGE_PROPERTY). }
  by rewrite Hseq, <- Hlen, cell_at_seq.
Qed.

(** C15: A missing required column aborts the whole pipeline with the
    loader's [ValueError] naming every missing column, whatever the data
    and the state table: no later step runs. *)
Theorem get_storm_data_pipeline_schema_error raw states :
  missing_columns raw required_columns <> [] ->
  get_storm_data_pipeline raw states =
  Err (ValueError_missing_columns (missing_columns raw required_columns)).
Proof.
  intros Hm. unfold get_storm_data_pipeline, clean_storm_data, load_and_filter_storm_data.
  by destruct (missing_columns raw required_columns).
Qed.

(** On the end-to-end scenario of the specification, the output has
    the two expected rows (OHIO, then IOWA), but the OHIO row, whose
    property damage "abc" should read 0.0, carries IOWA's 1500.0, and
    the IOWA row carries NaN; OHIO's crop damage "2M" is replaced by
    IOWA's 0.0, and IOWA's by NaN. *)
Example spec_scenario_misaligned :
  exists m, get_storm_data_pipeline scenario_raw scenario_states = Ok m /\
    m.(f_index) = [0; 1] /\
    assoc "STATE" m.(f_cols) = Some [CStr "OHIO"; CStr "IOWA"] /\
    assoc DAMAGE_PROPERTY m.(f_cols) ≡ Some [CFloat (PFin 1500); NaN] /\
    assoc DAMAGE_CROPS m.(f_cols) ≡ Some [CFloat (PFin 0); NaN].
Proof.
  eexists. split; [vm_compute; reflexivity|].
  split; [reflexivity|]. split; [reflexivity|].
  split; vm_compute; repeat constructor.
Qed.

(** C16: The saved table has one row per pair of a kept raw row and a
    state name matching its STATE, and one row for a kept raw row that
    no name matches; the kept raw rows are those whose STATE_FIPS
    coerces to a number in [1, 53].  When no kept STATE matches two
    names, the saved table has exactly one row per raw row with a valid
    code: the pipeline drops only the rows the range filter drops, and
    the join neither drops nor repeats a row. *)
Theorem get_storm_data_pipeline_rows raw states m fips sts names :
  frame_wf raw -> get_storm_data_pipeline raw states = Ok m ->
  assoc STATE_FIPS raw.(f_cols) = Some fips -> assoc "STATE" raw.(f_cols) = Some sts ->
  assoc "name" states.(f_cols) = Some names ->
  length m.(f_index) =
    sum_list ((fun u => max 1 (length (matches u (upper_keys names)))) <$> mask_filter (keep fips) sts) /\
  ((forall u, u ∈ mask_filter (keep fips) sts -> length (matches u (upper_keys names)) <= 1) ->
   length m.(f_index) = length (List.filter (fun v => pf_between 1 53 (to_numeric_cell v)) fips)).
Proof.
  intros Hwf H Hf Hs Hn. unfold get_storm_data_pipeline in H. result_inv.
  destruct (clean_storm_data_other_col raw a "STATE" Hwf Ha) as (fips' & vs & Hf' & Hs' & Ha_s);
    [decide_true..|].
  rewrite Hf in Hf'. injection Hf' as <-. rewrite Hs in Hs'. injection Hs' as <-.
  rewrite (merge_state_coordinates_length _ _ _ _ _ H Ha_s Hn). split; [done|].
  intros Hle. rewrite sum_list_max1_eq by done.
  apply length_mask_filter_count.
  by rewrite (wf_col_length raw _ _ Hwf Hs), (wf_col_length raw _ _ Hwf Hf).
Qed.

(** ** Witnesses *)

(** The scenario with the out-of-range row last: the survivors keep the
    labels 0 and 1. *)
Definition scenario_raw_tail : Frame :=
  frame_of_rows required_columns
    [scenario_row "OHIO" 39 "abc" "2M";
     scenario_row "IOWA" 19 "1.50K" "0.00K";
     scenario_row "TEXAS" 99 "10.00K" "0.00K"].

Lemma clean_storm_data_damage_by_label_witness :
  exists flt dp dc xp xc,
    (load_and_filter_storm_data scenario_raw required_columns ≫= filter_valid_state_fips) = Ok flt /\
    assoc DAMAGE_PROPERTY flt.(f_cols) = Some dp /\ mapM parse_value dp = Ok xp /\
    assoc DAMAGE_CROPS flt.(f_cols) = Some dc /\ mapM parse_value dc = Ok xc /\
    (result_or scenario_raw (clean_storm_data scenario_raw)).(f_index) = flt.(f_index) /\
    forall p l, (result_or scenario_raw (clean_storm_data scenario_raw)).(f_index) !! p = Some l ->
      (exists col, assoc DAMAGE_PROPERTY (result_or scenario_raw (clean_storm_data scenario_raw)).(f_cols) = Some col /\
                   col !! p = Some (cell_at (CFloat <$> xp) l)) /\
      (exists col, assoc DAMAGE_CROPS (result_or scenario_raw (clean_storm_data scenario_raw)).(f_cols) = Some col /\
                   col !! p = Some (cell_at (CFloat <$> xc) l)).
Proof.
  apply (clean_storm_data_damage_by_label scenario_raw
           (result_or scenario_raw (clean_storm_data scenario_raw)));
    [decide_true | vm_compute; reflexivity].
Defined.

Lemma clean_storm_data_aligned_witness :
  exists dp xp,
    assoc DAMAGE_PROPERTY (result_or scenario_raw_tail
      (load_and_filter_storm_data scenario_raw_tail required_columns ≫= filter_valid_state_fips)).(f_cols) = Some dp /\
    mapM parse_value dp = Ok xp /\
    assoc DAMAGE_PROPERTY (result_or scenario_raw_tail (clean_storm_data scenario_raw_tail)).(f_cols)
      = Some (CFloat <$> xp).
Proof.
  apply (clean_storm_data_aligned scenario_raw_tail
           (result_or scenario_raw_tail (clean_storm_data scenario_raw_tail))
           (result_or scenario_raw_tail
              (load_and_filter_storm_data scenario_raw_tail required_columns ≫= filter_valid_state_fips)));
    [decide_true | vm_compute; reflexivity | vm_compute; reflexivity | vm_compute; reflexivity].
Defined.

Lemma clean_storm_data_loses_damage_witness :
  exists l colp colc,
    list.last (result_or scenario_raw (clean_storm_data scenario_raw)).(f_index) = Some l /\
    length (result_or scenario_raw
      (load_and_filter_storm_data scenario_raw required_columns ≫= filter_valid_state_fips)).(f_index) <= l /\
    assoc DAMAGE_PROPERTY (result_or scenario_raw (clean_storm_data scenario_raw)).(f_cols) = Some colp /\
    list.last colp = Some NaN /\
    assoc DAMAGE_CROPS (result_or scenario_raw (clean_storm_data scenario_raw)).(f_cols) = Some colc /\
    list.last colc = Some NaN.
Proof.
  apply (clean_storm_data_loses_damage scenario_raw
           (result_or scenario_raw
              (load_and_filter_storm_data scenario_raw required_columns ≫= filter_valid_state_fips))
           (result_or scenario_raw (clean_storm_data scenario_raw)));
    [decide_true | reflexivity | vm_compute; reflexivity | vm_compute; discriminate
    | vm_compute; reflexivity].
Defined.

Lemma get_storm_data_pipeline_rows_witness :
  let m := result_or scenario_raw (get_storm_data_pipeline scenario_raw scenario_states) in
  let fips := default [] (assoc STATE_FIPS scenario_raw.(f_cols)) in
  let sts := default [] (assoc "STATE" scenario_raw.(f_cols)) in
  let names := default [] (assoc "name" scenario_states.(f_cols)) in
  length m.(f_index) =
    sum_list ((fun u => max 1 (length (matches u (upper_keys names)))) <$> mask_filter (keep fips) sts) /\
  ((forall u, u ∈ mask_filter (keep fips) sts -> length (matches u (upper_keys names)) <= 1) ->
   length m.(f_index) = length (List.filter (fun v => pf_between 1 53 (to_numeric_cell v)) fips)).
Proof.
  intros m fips sts names.
  apply (get_storm_data_pipeline_rows scenario_raw scenario_states m fips sts names);
    [decide_true | vm_compute; reflexivity ..].
Defined.

Lemma get_storm_data_pipeline_schema_error_witness :
  get_storm_data_pipeline (mkFrame [0] [("STATE", [CStr "OHIO"])]) scenario_states =
  Err (ValueError_missing_columns (missing_columns (mkFrame [0] [("STATE", [CStr "OHIO"])]) required_columns)).
Proof. apply get_storm_data_pipeline_schema_error. vm_compute. discriminate. Defined.

End Pipeline.
