(* ===== verification/Groupby.v ===== *)
(** * Groupby: the pandas operations the three dashboards share

    The dashboards ([src/code/storm_dashboard.py], [states_dashboard.py],
    [map_dashboard.py]) read the saved table and reduce it with a few
    pandas and Python operations; this file models them once:
    - [py_lt] and [py_sorted]: Python's [<] on the cells of a column and
      [sorted(...)] (storm dashboard, line 9);
    - [uniques]: [Series.unique()] (first appearances, in order);
    - [isin]: [Series.isin(values)] (the selection masks);
    - [pf_add], [nansum]: [Series.sum()] with [skipna=True] on a float64
      column;
    - [py_add], [obj_sum]: the object path of pandas' [group_sum], for a
      column holding a string: strings concatenate, a string and a
      number raise [TypeError];
    - Section [GroupBy]: [df.groupby(keys)[col].sum()] with the default
      [sort=True, dropna=True], over any key type: the group keys are the
      distinct non-missing keys, sorted; each group's value is the sum of
      the rows whose key equals it ([groupby_sum] on a float64 column,
      [groupby_sum_col] dispatching on the column's dtype);
    - [cat_code]: the code of a value in [pd.Categorical(values,
      categories=...)] ([None] for a value outside the categories).

    Numbers are exact rationals (as in [PyFloat]), so the order in which
    pandas adds a group's values does not change the sum; [GroupSum64]
    models pandas' binary64 Kahan summation and relates it to these
    exact sums. *)

From Stdlib Require Import QArith Qfield ZArith Ascii String.
From stdpp Require Import base list strings decidable sorting.
From S2P Require Import Prelude PyStr PyFloat Frame Merge.

Module Groupby.
Import Merge.Merge.

(** ** Python's [<] and [sorted] *)

(** [x < y] on floats: NaN compares false with everything. *)
Definition pf_lt (x y : PyFloat) : bool :=
  match x, y with
  | PFin p, PFin q => negb (Qle_bool q p)
  | PInf true, PFin _ | PInf true, PInf false | PFin _, PInf false => true
  | _, _ => false
  end.

(** [u < v] on two cells: strings compare by code points; a string and
    a number, or [None] and anything, raise [TypeError]. *)
Definition py_lt (u v : Cell) : Result bool :=
  match u, v with
  | CStr a, CStr b => Ok (bool_decide ((a ?= b)%string = Lt))
  | CFloat x, CFloat y => Ok (pf_lt x y)
  | _, _ => raise TypeError_compare
  end.

(** Insert [x] after the elements it is not smaller than. *)
Fixpoint py_insert (x : Cell) (l : list Cell) : Result (list Cell) :=
  match l with
  | [] => Ok [x]
  | y :: l' =>
      b ← py_lt x y;
      if (b : bool) then Ok (x :: l) else (l'' ← py_insert x l'; Ok (y :: l''))
  end.

(** [sorted(l)], as a stable insertion sort from the left.  CPython's
    sort is another comparison sort; on elements pairwise ordered by a
    strict total order (strings, numbers without NaN) every comparison
    sort gives the same list, and with a string and a non-string every
    comparison sort compares some such pair and raises.  The order of a
    list of numbers holding NaN depends on the algorithm and is the one
    place this model may differ. *)
Fixpoint py_sorted_acc (acc : list Cell) (l : list Cell) : Result (list Cell) :=
  match l with
  | [] => Ok acc
  | x :: l' => acc' ← py_insert x acc; py_sorted_acc acc' l'
  end.

Definition py_sorted (l : list Cell) : Result (list Cell) := py_sorted_acc [] l.

(** ** [unique] and [isin] *)

(** [Series.unique()] with a key equality [keq]: the values in order of
    first appearance, each class of equal values once. *)
Fixpoint uniques_from {K} (keq : K -> K -> bool) (seen : list K) (l : list K) : list K :=
  match l with
  | [] => []
  | x :: l' =>
      if existsb (keq x) seen then uniques_from keq seen l'
      else x :: uniques_from keq (x :: seen) l'
  end.

(** [s.unique()] on a column: all missing values count as one. *)
Definition uniques (l : list Cell) : list Cell := uniques_from key_eq [] l.

(** [s.isin(values)]: a missing value is in a list that holds a missing
    value. *)
Definition isin (vs values : list Cell) : list bool :=
  (fun v => existsb (key_eq v) values) <$> vs.

(** ** [sum] with [skipna=True] *)

(** [x + y] on floats. *)
Definition pf_add (x y : PyFloat) : PyFloat :=
  match x, y with
  | PNaN, _ | _, PNaN => PNaN
  | PInf a, PInf b => if Bool.eqb a b then PInf a else PNaN
  | PInf a, PFin _ => PInf a
  | PFin _, PInf b => PInf b
  | PFin p, PFin q => PFin (p + q)
  end.

(** One step of the sum: missing values are skipped, a string raises. *)
Definition add_cell (v : Cell) (s : PyFloat) : Result PyFloat :=
  match v with
  | CNone => Ok s
  | CFloat x => Ok (if pf_isnan x then s else pf_add x s)
  | CStr _ => raise TypeError_sum
  end.

(** [s.sum()]: 0 for an empty or all-missing column. *)
Fixpoint nansum (vs : list Cell) : Result PyFloat :=
  match vs with
  | [] => Ok (PFin 0)
  | v :: vs' => s ← nansum vs'; add_cell v s
  end.

(** [a + b] on two values of an object column: strings concatenate,
    numbers add, a string and a number raise [TypeError]. *)
Definition py_add (u v : Cell) : Result Cell :=
  match u, v with
  | CStr a, CStr b => Ok (CStr (a ++ b))
  | CFloat x, CFloat y => Ok (CFloat (pf_add x y))
  | _, _ => raise TypeError_sum
  end.

(** The object path of pandas' [group_sum] ([pandas/_libs/groupby.pyx])
    for one group, in row order: missing values ([checknull]) are
    skipped, the first value is taken as it is, each later one added
    with [+]; a group with no value sums to [0]. *)
Fixpoint obj_sum_from (acc : option Cell) (vs : list Cell) : Result Cell :=
  match vs with
  | [] => Ok (default (CFloat (PFin 0)) acc)
  | v :: vs' =>
      if cell_isna v then obj_sum_from acc vs'
      else match acc with
           | None => obj_sum_from (Some v) vs'
           | Some t => t' ← py_add t v; obj_sum_from (Some t') vs'
           end
  end.

Definition obj_sum (vs : list Cell) : Result Cell := obj_sum_from None vs.

(** [pd.Categorical(values, categories=cats)]: the code of each value,
    [None] (a missing value) outside the categories. *)
Definition cat_code (cats : list string) (v : Cell) : option nat :=
  match v with
  | CStr s => fst <$> list_find (fun c => c = s) cats
  | _ => None
  end.

(** ** [groupby(...)[col].sum()] *)

Section GroupBy.
Context {K : Type} (keq : K -> K -> bool) (kle : relation K) `{!RelDecision kle}
        (kna : K -> bool).

(** The group keys of [groupby(keys, sort=True, dropna=True)]: the
    distinct non-missing keys, sorted. *)
Definition group_keys (keys : list K) : list K :=
  merge_sort kle (uniques_from keq [] (filter (fun k => negb (kna k)) keys)).

(** The rows of group [k]. *)
Definition group_mask (keys : list K) (k : K) : list bool := keq k <$> keys.

Definition group_sum (keys : list K) (vals : list Cell) (k : K) : Result PyFloat :=
  nansum (mask_filter (group_mask keys k) vals).

(** [groupby(keys)[col].sum()] on a float64 column: each group key with
    its sum, in key order. *)
Definition groupby_sum (keys : list K) (vals : list Cell) : Result (list (K * PyFloat)) :=
  mapM (fun k => s ← group_sum keys vals k; mret (k, s)) (group_keys keys).

(** [group_sum] by the dtype of the column: a column holding a string
    has dtype object and takes the object path ([obj_sum]); a column of
    numbers and missing values is float64. *)
Definition group_sum_col (keys : list K) (vals : list Cell) (k : K) : Result Cell :=
  if existsb is_str vals then obj_sum (mask_filter (group_mask keys k) vals)
  else CFloat <$> group_sum keys vals k.

(** [groupby(keys)[col].sum()] on any column. *)
Definition groupby_sum_col (keys : list K) (vals : list Cell) : Result (list (K * Cell)) :=
  mapM (fun k => s ← group_sum_col keys vals k; mret (k, s)) (group_keys keys).

End GroupBy.

(** ** Group keys of one column and of two columns *)

(** The order in which pandas sorts distinct group keys ([safe_sort],
    falling back to [_sort_mixed] on mixed columns): numbers first in
    numeric order, then strings by code points.  On floats, [-inf] comes
    first and NaN last (NaN is never a group key). *)
Definition pf_le (x y : PyFloat) : bool :=
  match x, y with
  | PFin p, PFin q => Qle_bool p q
  | PInf true, _ => true
  | _, PInf true => false
  | PNaN, PNaN => true
  | PNaN, _ => false
  | _, PNaN => true
  | PInf false, PInf false => true
  | PInf false, _ => false
  | PFin _, PInf false => true
  end.

Definition key_rank (c : Cell) : nat := match c with CFloat _ => 0 | CStr _ => 1 | CNone => 2 end.

Definition key_le (u v : Cell) : Prop :=
  match u, v with
  | CFloat x, CFloat y => pf_le x y = true
  | CStr a, CStr b => String.le a b
  | _, _ => key_rank u <= key_rank v
  end.

#[export] Instance key_le_dec : RelDecision key_le.
Proof. intros [|x|a] [|y|b]; cbn; apply _. Defined.

(** Two key columns ([groupby([c1, c2])]): equal when both parts are
    equal, ordered lexicographically, missing when either part is. *)
Definition pair_eq (g r : Cell * Cell) : bool := key_eq g.1 r.1 && key_eq g.2 r.2.

Definition pair_le (g r : Cell * Cell) : Prop :=
  key_le g.1 r.1 /\ (key_le r.1 g.1 -> key_le g.2 r.2).

#[export] Instance pair_le_dec : RelDecision pair_le.
Proof. intros g r. unfold pair_le. apply _. Defined.

Definition pair_na (g : Cell * Cell) : bool := cell_isna g.1 || cell_isna g.2.

(** ** Sums of numeric columns *)

Local Open Scope Q_scope.

Definition qsum (l : list Q) : Q := foldr Qplus 0 l.

(** The value a numeric cell adds to a sum (missing values add 0). *)
Definition cell_q (v : Cell) : Q := match v with CFloat (PFin q) => q | _ => 0 end.

(** A cell of a numeric column of the saved table: a finite number or a
    missing value. *)
Definition num_cell (v : Cell) : bool :=
  match v with CNone | CFloat PNaN | CFloat (PFin _) => true | _ => false end.

Lemma qsum_cons q l : qsum (q :: l) = q + qsum l.
Proof. reflexivity. Qed.

Lemma qsum_app l1 l2 : qsum (l1 ++ l2) == qsum l1 + qsum l2.
Proof. unfold qsum. induction l1 as [|q l1 IH]; cbn; [ring|]. rewrite IH. ring. Qed.

Lemma qsum_fmap_ext {A} (f g : A -> Q) (l : list A) :
  (forall x, f x == g x) -> qsum (f <$> l) == qsum (g <$> l).
Proof. intros H. unfold qsum. induction l as [|x l IH]; cbn; [reflexivity|]. by rewrite H, IH. Qed.

Lemma qsum_fmap_plus {A} (f g : A -> Q) (l : list A) :
  qsum ((fun x => f x + g x) <$> l) == qsum (f <$> l) + qsum (g <$> l).
Proof. unfold qsum. induction l as [|x l IH]; cbn; [ring|]. rewrite IH. ring. Qed.

Lemma qsum_zeros {A} (l : list A) : qsum ((fun _ => 0) <$> l) == 0.
Proof. unfold qsum. induction l as [|x l IH]; cbn; [reflexivity|]. rewrite IH. ring. Qed.

(** Summing [c] over the elements that satisfy [p]. *)
Lemma qsum_indicator {A} (p : A -> bool) (c : Q) (l : list A) :
  qsum ((fun x => if p x then c else 0) <$> l) == inject_Z (Z.of_nat (length (filter (fun x => p x = true) l))) * c.
Proof.
  induction l as [|x l IH]; [cbn; unfold inject_Z; ring|].
  rewrite fmap_cons, filter_cons. unfold qsum at 1; cbn [foldr]; fold (qsum ((fun x => if p x then c else 0) <$> l)).
  destruct (p x); [rewrite decide_True by done|rewrite decide_False by done];
    cbn [length]; rewrite IH; [|ring].
  rewrite Nat2Z.inj_succ, <- Z.add_1_l, inject_Z_plus. change (inject_Z 1) with 1. ring.
Qed.

(** [nansum] on a numeric column is the exact sum of its numbers. *)
Lemma nansum_num vs :
  forallb num_cell vs = true -> exists q, nansum vs = Ok (PFin q) /\ q == qsum (cell_q <$> vs).
Proof.
  unfold qsum. induction vs as [|v vs IH]; cbn; [intros _; exists 0; split; reflexivity|].
  intros [Hv (q & -> & Hq)%IH]%andb_prop. cbn.
  destruct v as [|[q'| |]|]; try discriminate; cbn; eexists; (split; [reflexivity|]);
    rewrite Hq; ring.
Qed.

Lemma qsum_Forall2 {A} (f : A -> Q) (G : list A) qs :
  Forall2 (fun k q => q == f k) G qs -> qsum qs == qsum (f <$> G).
Proof. induction 1 as [|k q G qs Hq _ IH]; [reflexivity|]. rewrite fmap_cons, !qsum_cons, Hq, IH. reflexivity. Qed.

Lemma forallb_mask_filter {A} (p : A -> bool) mask l :
  forallb p l = true -> forallb p (mask_filter mask l) = true.
Proof.
  revert l. induction mask as [|b mask IH]; intros [|x l]; cbn; try done.
  intros [Hx Hl]%andb_prop. destruct b; cbn; [rewrite Hx|]; by apply IH.
Qed.

Lemma num_no_str vals : forallb num_cell vals = true -> existsb is_str vals = false.
Proof. induction vals as [|v vals IH]; [done|]. cbn. intros [Hv Hl]%andb_prop. rewrite IH by done. by destruct v as [|[]|]. Qed.

Local Close Scope Q_scope.

Section GroupByLemmas.
Context {K : Type} (keq : K -> K -> bool) (kle : relation K) `{!RelDecision kle}
        (kna : K -> bool).
Hypothesis keq_sym : forall a b, keq a b = keq b a.
Hypothesis keq_trans : forall a b c, keq a b = true -> keq b c = true -> keq a c = true.
Hypothesis keq_refl : forall a, kna a = false -> keq a a = true.
Hypothesis keq_na : forall a b, kna a = false -> kna b = true -> keq a b = false.

(** How many keys of [G] equal [x]. *)
Definition count_eq (G : list K) (x : K) : nat := length (filter (fun k => keq k x = true) G).

Lemma existsb_keq_trans x y seen :
  keq x y = true -> existsb (keq y) seen = true -> existsb (keq x) seen = true.
Proof.
  intros Hxy (s & Hin & Hs)%existsb_exists. apply existsb_exists.
  exists s. split; [exact Hin|]. eauto.
Qed.

Lemma uniques_from_sub seen l x : x ∈ uniques_from keq seen l -> x ∈ l.
Proof.
  revert seen; induction l as [|y l IH]; intros seen; cbn; [done|].
  destruct (existsb (keq y) seen); [intros ?%IH; by right|].
  intros [->|?%IH]%elem_of_cons; [left|by right].
Qed.

(** Each class of equal keys is kept once, unless already seen. *)
Lemma count_eq_uniques_from seen l x :
  count_eq (uniques_from keq seen l) x =
  if existsb (keq x) seen then 0 else if existsb (keq x) l then 1 else 0.
Proof.
  unfold count_eq. revert seen; induction l as [|y l IH]; intros seen; cbn.
  { by destruct (existsb (keq x) seen). }
  destruct (existsb (keq y) seen) eqn:Hy.
  - rewrite IH. destruct (existsb (keq x) seen) eqn:Hx; [done|].
    destruct (keq x y) eqn:Hxy; [|done].
    by rewrite (existsb_keq_trans x y seen Hxy Hy) in Hx.
  - rewrite filter_cons.
    destruct (existsb (keq x) seen) eqn:Hx.
    + assert (Hyx : keq y x = false).
      { destruct (keq y x) eqn:Hyx; [|done]. by rewrite (existsb_keq_trans y x seen Hyx Hx) in Hy. }
      rewrite decide_False by congruence. rewrite IH. cbn [existsb]. by rewrite Hx, orb_true_r.
    + rewrite (keq_sym x y). destruct (keq y x) eqn:Hyx.
      * rewrite decide_True by done. cbn [length]. rewrite IH. cbn [existsb].
        by rewrite (keq_sym x y), Hyx.
      * rewrite decide_False by congruence. rewrite IH. cbn [existsb].
        by rewrite (keq_sym x y), Hyx, Hx.
Qed.

Lemma count_eq_perm l1 l2 x : l1 ≡ₚ l2 -> count_eq l1 x = count_eq l2 x.
Proof. intros H. unfold count_eq. by rewrite H. Qed.

(** A group key is a non-missing key of the column. *)
Lemma group_keys_sub keys k : k ∈ group_keys keq kle kna keys -> k ∈ keys /\ kna k = false.
Proof.
  unfold group_keys. rewrite (merge_sort_Permutation kle _).
  intros Hk%uniques_from_sub%list_elem_of_filter. destruct Hk as [Hna Hk].
  split; [done|]. apply negb_true_iff. by apply Is_true_true.
Qed.

(** Exactly one group key equals a non-missing key of the column, and
    none equals a missing one. *)
Lemma count_group_keys keys x :
  x ∈ keys -> count_eq (group_keys keq kle kna keys) x = if kna x then 0 else 1.
Proof.
  intros Hx. unfold group_keys. rewrite (count_eq_perm _ _ x (merge_sort_Permutation kle _)).
  rewrite count_eq_uniques_from. cbn [existsb].
  destruct (kna x) eqn:Hna.
  - destruct (existsb (keq x) _) eqn:E; [|done].
    apply existsb_exists in E as (k & Hk%list_elem_of_In%list_elem_of_filter & Hxk).
    destruct Hk as [Hk _]. rewrite keq_sym, keq_na in Hxk; [done| |done].
    apply negb_true_iff. by apply Is_true_true.
  - replace (existsb (keq x) _) with true; [done|]. symmetry. apply existsb_exists.
    exists x. split; [|by apply keq_refl]. apply list_elem_of_In, list_elem_of_filter.
    split; [apply Is_true_true; by rewrite Hna|done].
Qed.

Local Open Scope Q_scope.

(** Summing the group sums counts each row once per group key equal to
    its key. *)
Lemma qsum_group_sums (G : list K) keys vals :
  length keys = length vals ->
  qsum ((fun k => qsum (cell_q <$> mask_filter (group_mask keq keys k) vals)) <$> G)
  == qsum (zip_with (fun x v => inject_Z (Z.of_nat (count_eq G x)) * cell_q v) keys vals).
Proof.
  revert vals. induction keys as [|x keys IH]; intros [|v vals] Hlen; try discriminate.
  - exact (qsum_zeros G).
  - injection Hlen as Hlen.
    rewrite (qsum_fmap_ext _ (fun k => (if keq k x then cell_q v else 0) +
               qsum (cell_q <$> mask_filter (group_mask keq keys k) vals))).
    + rewrite qsum_fmap_plus, qsum_indicator, IH by done. reflexivity.
    + intros k. unfold group_mask. rewrite fmap_cons. cbn [mask_filter].
      destruct (keq k x); [reflexivity|]. ring.
Qed.

(** With one group key per non-missing row key, that sum is the sum
    over the rows whose key is not missing. *)
Lemma qsum_counts (G : list K) keys vals :
  length keys = length vals ->
  (forall x, x ∈ keys -> count_eq G x = if kna x then 0%nat else 1%nat) ->
  qsum (zip_with (fun x v => inject_Z (Z.of_nat (count_eq G x)) * cell_q v) keys vals)
  == qsum (cell_q <$> mask_filter ((fun k => negb (kna k)) <$> keys) vals).
Proof.
  revert vals. induction keys as [|x keys IH]; intros [|v vals] Hlen Hc; try discriminate; [done|].
  injection Hlen as Hlen. cbn [zip_with fmap list_fmap mask_filter].
  rewrite qsum_cons, (Hc x) by (left).
  rewrite IH by (done || (intros; apply Hc; by right)).
  destruct (kna x); cbn [negb mask_filter]; [change (inject_Z (Z.of_nat 0)) with 0; ring|].
  rewrite fmap_cons, qsum_cons. change (inject_Z (Z.of_nat 1)) with 1. ring.
Qed.

(** On a numeric value column every group sum exists and is the exact
    sum of the group's rows; [h] maps a group to its key. *)
Lemma mapM_group_sums {G0} (h : G0 -> K) (G : list G0) keys vals :
  forallb num_cell vals = true ->
  exists qs, mapM (fun g => s ← group_sum_col keq keys vals (h g); mret (g, s)) G =
               Ok (zip G ((fun q => CFloat (PFin q)) <$> qs)) /\
    Forall2 (fun g q => q == qsum (cell_q <$> mask_filter (group_mask keq keys (h g)) vals)) G qs.
Proof.
  intros Hv. induction G as [|g G (qs & HG & Hqs)]; [exists []; split; [reflexivity|constructor]|].
  destruct (nansum_num (mask_filter (group_mask keq keys (h g)) vals)) as (q & Hq & Heq);
    [by apply forallb_mask_filter|].
  exists (q :: qs). split; [|by constructor].
  assert (Hg : group_sum_col keq keys vals (h g) = Ok (CFloat (PFin q)))
    by (unfold group_sum_col, group_sum; rewrite (num_no_str vals Hv), Hq; reflexivity).
  rewrite mapM_cons, Hg, !bind_Ok, HG, bind_Ok. reflexivity.
Qed.

(** The group sums add up to the sum of the rows whose key is not
    missing. *)
Lemma groupby_sum_total keys vals :
  length keys = length vals -> forallb num_cell vals = true ->
  exists qs, groupby_sum_col keq kle kna keys vals =
               Ok (zip (group_keys keq kle kna keys) ((fun q => CFloat (PFin q)) <$> qs)) /\
    Forall2 (fun k q => q == qsum (cell_q <$> mask_filter (group_mask keq keys k) vals))
            (group_keys keq kle kna keys) qs /\
    qsum qs == qsum (cell_q <$> mask_filter ((fun k => negb (kna k)) <$> keys) vals).
Proof.
  intros Hlen Hv. destruct (mapM_group_sums id (group_keys keq kle kna keys) keys vals Hv) as (qs & Hm & Hqs).
  exists qs. split; [exact Hm|]. split; [exact Hqs|].
  rewrite (qsum_Forall2 _ _ _ Hqs), qsum_group_sums by done.
  apply qsum_counts; [done|]. intros x Hx. by apply count_group_keys.
Qed.

Local Close Scope Q_scope.

(** The sorted order of the group keys. *)
Lemma group_keys_sorted `{!Total kle} keys : Sorted kle (group_keys keq kle kna keys).
Proof. by apply Sorted_merge_sort. Qed.

End GroupByLemmas.

(** ** [key_eq] and [pair_eq] are equivalences on present keys *)

Lemma key_eq_sym u v : key_eq u v = key_eq v u.
Proof.
  destruct u as [|[p|s|]|a], v as [|[q|t|]|b]; cbn; try reflexivity.
  - apply Qeq_bool_comm.
  - by destruct s, t.
  - apply bool_decide_ext. split; congruence.
Qed.

Lemma key_eq_trans u v w : key_eq u v = true -> key_eq v w = true -> key_eq u w = true.
Proof.
  destruct u as [|[p|s|]|a], v as [|[q|s'|]|b], w as [|[r|s''|]|c]; cbn; try done.
  - rewrite !Qeq_bool_iff. apply Qeq_trans.
  - by destruct s, s', s''.
  - rewrite !bool_decide_eq_true. congruence.
Qed.

Lemma key_eq_refl u : cell_isna u = false -> key_eq u u = true.
Proof.
  destruct u as [|[p|s|]|a]; cbn; try done.
  - intros _. apply Qeq_bool_refl.
  - by destruct s.
  - intros _. by apply bool_decide_eq_true.
Qed.

Lemma key_eq_na u v : cell_isna u = false -> cell_isna v = true -> key_eq u v = false.
Proof. destruct u as [|[p|s|]|a], v as [|[q|t|]|b]; cbn; done. Qed.

Lemma pair_eq_sym g r : pair_eq g r = pair_eq r g.
Proof. unfold pair_eq. by rewrite (key_eq_sym g.1), (key_eq_sym g.2). Qed.

Lemma pair_eq_trans g r h : pair_eq g r = true -> pair_eq r h = true -> pair_eq g h = true.
Proof.
  unfold pair_eq. intros [H1 H2]%andb_prop [H3 H4]%andb_prop.
  by rewrite (key_eq_trans _ _ _ H1 H3), (key_eq_trans _ _ _ H2 H4).
Qed.

Lemma pair_eq_refl g : pair_na g = false -> pair_eq g g = true.
Proof.
  unfold pair_na, pair_eq. intros [H1 H2]%orb_false_iff. by rewrite !key_eq_refl.
Qed.

Lemma pair_eq_na g r : pair_na g = false -> pair_na r = true -> pair_eq g r = false.
Proof.
  unfold pair_na, pair_eq. intros [H1 H2]%orb_false_iff [H3|H4]%orb_true_iff.
  - by rewrite key_eq_na.
  - by rewrite (key_eq_na g.2), andb_false_r.
Qed.

Lemma pf_le_total x y : pf_le x y = true \/ pf_le y x = true.
Proof.
  destruct x as [p|[]|], y as [q|[]|]; cbn; auto.
  rewrite !Qle_bool_iff. destruct (Qlt_le_dec p q); [left; by apply Qlt_le_weak|by right].
Qed.

#[export] Instance key_le_total : Total key_le.
Proof.
  intros [|x|a] [|y|b]; cbn; try lia.
  - apply pf_le_total.
  - apply String.le_total.
Qed.

Lemma pf_le_trans x y z : pf_le x y = true -> pf_le y z = true -> pf_le x z = true.
Proof.
  destruct x as [p|[]|], y as [q|[]|], z as [r|[]|]; cbn; try done.
  rewrite !Qle_bool_iff. apply Qle_trans.
Qed.

Lemma string_le_compare a b : String.le a b <-> (a ?= b)%string <> Gt.
Proof. unfold String.le, String.leb. by destruct (a ?= b)%string. Qed.

#[export] Instance key_le_trans : Transitive key_le.
Proof.
  intros [|x|a] [|y|b] [|z|c]; cbn; try lia.
  - apply pf_le_trans.
  - rewrite !string_le_compare. apply string_compare_le_trans.
Qed.

#[export] Instance pair_le_total : Total pair_le.
Proof.
  intros g r. unfold pair_le.
  destruct (decide (key_le g.1 r.1)), (decide (key_le r.1 g.1)), (total key_le g.2 r.2);
    try tauto; by destruct (total key_le g.1 r.1).
Qed.

(** ** [sorted] *)

Lemma py_lt_kind u v : is_str u <> is_str v -> py_lt u v = Err TypeError_compare.
Proof. destruct u as [|x|a], v as [|y|b]; cbn; congruence. Qed.

Lemma py_lt_err u v e : py_lt u v = Err e -> e = TypeError_compare.
Proof. destruct u as [|x|a], v as [|y|b]; cbn; congruence. Qed.

Lemma py_insert_err x l e : py_insert x l = Err e -> e = TypeError_compare.
Proof.
  induction l as [|y l IH]; cbn; [discriminate|].
  destruct (py_lt x y) as [[]|e'] eqn:E; cbn; [discriminate| |].
  - destruct (py_insert x l); cbn; [discriminate|]. intros [= <-]. by apply IH.
  - intros [= <-]. by apply (py_lt_err x y).
Qed.

Lemma py_insert_perm x l l' : py_insert x l = Ok l' -> l' ≡ₚ x :: l.
Proof.
  revert l'. induction l as [|y l IH]; intros l'; cbn; [by intros [= <-]|].
  destruct (py_lt x y) as [[]|e'] eqn:E; cbn; [by intros [= <-]| |discriminate].
  destruct (py_insert x l) as [l0|]; cbn; [|discriminate]. intros [= <-].
  rewrite (IH l0 eq_refl). apply perm_swap.
Qed.

(** Inserting into a non-empty list of the other kind raises at the
    first comparison. *)
Lemma py_insert_kind x y l : is_str x <> is_str y -> py_insert x (y :: l) = Err TypeError_compare.
Proof. intros H. cbn. by rewrite py_lt_kind. Qed.

(** A list holding a string and a non-string cannot be sorted. *)
Lemma py_sorted_acc_mixed acc l :
  (forall y z, y ∈ acc -> z ∈ acc -> is_str y = is_str z) ->
  (exists u, u ∈ acc ++ l /\ is_str u = true) -> (exists v, v ∈ acc ++ l /\ is_str v = false) ->
  py_sorted_acc acc l = Err TypeError_compare.
Proof.
  revert acc. induction l as [|x l IH]; intros acc Hh (u & Hu & Hsu) (v & Hv & Hsv); cbn.
  - rewrite app_nil_r in Hu, Hv. specialize (Hh u v Hu Hv). congruence.
  - destruct (py_insert x acc) as [acc'|e] eqn:E; cbn; [|by rewrite (py_insert_err _ _ _ E)].
    pose proof (py_insert_perm _ _ _ E) as Hp.
    assert (Hx : forall y, y ∈ acc -> is_str y = is_str x).
    { intros y Hy. destruct acc as [|y0 acc0]; [by apply elem_of_nil in Hy|].
      destruct (decide (is_str x = is_str y0)) as [Heq|Hne];
        [rewrite Heq; apply Hh; [done|left]|by rewrite py_insert_kind in E]. }
    apply IH.
    + intros y z. rewrite !Hp, !elem_of_cons.
      intros [->|Hy] [->|Hz]; [done|by rewrite (Hx z)|by rewrite (Hx y)|by apply Hh].
    + exists u. split; [|done]. rewrite Hp. apply elem_of_app in Hu as [Hu|Hu]; [by right; apply elem_of_app; left|].
      apply elem_of_cons in Hu as [->|Hu]; [left|right; apply elem_of_app; by right].
    + exists v. split; [|done]. rewrite Hp. apply elem_of_app in Hv as [Hv|Hv]; [by right; apply elem_of_app; left|].
      apply elem_of_cons in Hv as [->|Hv]; [left|right; apply elem_of_app; by right].
Qed.

Lemma str_le_of_lt a b : (a ?= b)%string = Lt -> key_le (CStr a) (CStr b).
Proof. intros H. cbn. unfold String.le, String.leb. by rewrite H. Qed.

Lemma str_le_of_not_lt a b : (a ?= b)%string <> Lt -> key_le (CStr b) (CStr a).
Proof.
  intros H. cbn. unfold String.le, String.leb.
  rewrite String.compare_antisym. by destruct (a ?= b)%string.
Qed.

(** The head of a list after an insertion is the inserted element or
    the old head. *)
Lemma py_insert_HdRel x l l' y :
  py_insert x l = Ok l' -> key_le y x -> HdRel key_le y l -> HdRel key_le y l'.
Proof.
  destruct l as [|z l]; cbn; [intros [= <-]; by constructor|].
  destruct (py_lt x z) as [[]|e] eqn:E; cbn; [intros [= <-]; by constructor| |discriminate].
  destruct (py_insert x l); cbn; [|discriminate]. intros [= <-] _ Hz.
  inversion Hz; by constructor.
Qed.

(** On strings, [py_insert] keeps a sorted list sorted. *)
Lemma py_insert_str x l :
  is_str x = true -> Forall (fun y => is_str y = true) l -> Sorted key_le l ->
  exists l', py_insert x l = Ok l' /\ l' ≡ₚ x :: l /\ Sorted key_le l'.
Proof.
  intros Hx. induction l as [|y l IH]; intros Hl Hs; [exists [x]; cbn; auto|].
  inversion Hl as [|? ? Hy Hl']; subst. inversion Hs as [|? ? Hs' Hhd]; subst.
  destruct x as [| |a]; try discriminate. destruct y as [| |b]; try discriminate.
  cbn. destruct (decide ((a ?= b)%string = Lt)) as [Hlt|Hnlt].
  - rewrite bool_decide_true by done. cbn. eexists. split; [reflexivity|]. split; [done|].
    constructor; [done|]. constructor. by apply str_le_of_lt.
  - rewrite bool_decide_false by done. destruct (IH Hl' Hs') as (l0 & Hi & Hp & Hs0).
    rewrite Hi. cbn. eexists. split; [reflexivity|]. split; [rewrite Hp; apply perm_swap|].
    constructor; [done|]. apply (py_insert_HdRel _ _ _ _ Hi); [by apply str_le_of_not_lt|done].
Qed.

(** [sorted] of a list of strings is the sorted permutation. *)
Lemma py_sorted_acc_str acc l :
  Forall (fun y => is_str y = true) acc -> Sorted key_le acc -> Forall (fun y => is_str y = true) l ->
  exists r, py_sorted_acc acc l = Ok r /\ r ≡ₚ l ++ acc /\ Sorted key_le r.
Proof.
  revert acc. induction l as [|x l IH]; intros acc Ha Hs Hl; cbn; [eauto|].
  inversion Hl as [|? ? Hx Hl']; subst.
  destruct (py_insert_str x acc Hx Ha Hs) as (acc' & Hi & Hp & Hs').
  rewrite Hi. cbn.
  destruct (IH acc') as (r & Hr & Hpr & Hsr); [|done|done|].
  - rewrite Hp. by constructor.
  - exists r. split; [done|]. split; [|done]. rewrite Hpr, Hp. by rewrite <- Permutation_middle.
Qed.

Lemma uniques_from_Forall {K} (P : K -> Prop) keq seen (l : list K) :
  Forall P l -> Forall P (uniques_from keq seen l).
Proof.
  intros H. revert seen. induction H as [|x l Hx _ IH]; intros seen; cbn; [constructor|].
  destruct (existsb (keq x) seen); [apply IH|by constructor].
Qed.

(** ** Sums that do not raise *)

(** [sum] raises only on a string. *)
Lemma nansum_total vs : Forall (fun v => is_str v = false) vs -> exists s, nansum vs = Ok s.
Proof.
  induction 1 as [|v vs Hv _ [s IH]]; cbn; [by eexists|].
  rewrite IH, bind_Ok. destruct v; cbn; [by eexists|by eexists|discriminate].
Qed.

Lemma group_sum_total {K} (keq : K -> K -> bool) keys vals k :
  Forall (fun v => is_str v = false) vals -> exists s, group_sum_col keq keys vals k = Ok s.
Proof.
  intros Hv. unfold group_sum_col, group_sum.
  replace (existsb is_str vals) with false
    by (symmetry; apply not_true_iff_false; rewrite existsb_exists;
        intros (v & Hin%list_elem_of_In & Hs); by rewrite (proj1 (Forall_forall _ _) Hv v Hin) in Hs).
  destruct (nansum_total _ (Forall_mask_filter _ (group_mask keq keys k) vals Hv)) as [s ->].
  by eexists.
Qed.

Lemma existsb_mask_filter_false {A} (p : A -> bool) mask l :
  existsb p l = false -> existsb p (mask_filter mask l) = false.
Proof.
  revert l. induction mask as [|b mask IH]; intros [|x l]; cbn; try done.
  intros [Hx Hl]%orb_false_elim. destruct b; cbn; [rewrite Hx|]; by apply IH.
Qed.

(** On a column without strings (dtype float64) every group sum is a
    float. *)
Lemma mapM_group_sum_col_float {K G0} (keq : K -> K -> bool) (h : G0 -> K) keys vals (G : list G0) gs :
  existsb is_str vals = false ->
  mapM (fun g => s ← group_sum_col keq keys vals (h g); mret (g, s)) G = Ok gs ->
  Forall (fun g => is_float g.2 = true) gs.
Proof.
  intros Hs Hm. apply mapM_Ok_iff in Hm.
  induction Hm as [|g x G gs Hx _ IH]; constructor; [|exact IH].
  unfold group_sum_col in Hx. rewrite Hs in Hx.
  destruct (group_sum keq keys vals (h g)); cbn in Hx; [by injection Hx as <- | discriminate].
Qed.

Lemma groupby_sum_ok {K} (keq : K -> K -> bool) kle `{!RelDecision kle} kna keys vals :
  Forall (fun v => is_str v = false) vals -> exists gs, groupby_sum_col keq kle kna keys vals = Ok gs.
Proof.
  intros Hv. apply mapM_total. intros k _.
  destruct (group_sum_total keq keys vals k Hv) as [s Hs]. rewrite Hs. by eexists.
Qed.

(** ** [unique] *)

Lemma key_eq_refl_all u : key_eq u u = true.
Proof.
  destruct u as [|[p|s|]|a]; cbn; try done.
  - apply Qeq_bool_refl.
  - by destruct s.
  - by apply bool_decide_eq_true.
Qed.

(** Equal keys are both strings or both not. *)
Lemma key_eq_is_str u v : key_eq u v = true -> is_str u = is_str v.
Proof. destruct u as [|[p|s|]|a], v as [|[q|t|]|b]; cbn; done. Qed.

(** Every value has an equal representative among the unique values. *)
Lemma uniques_from_complete seen l x :
  x ∈ l -> existsb (key_eq x) seen = true \/ exists u, u ∈ uniques_from key_eq seen l /\ key_eq x u = true.
Proof.
  revert seen. induction l as [|y l IH]; intros seen; [by intros ?%elem_of_nil|].
  intros [->|Hx]%elem_of_cons; cbn.
  - destruct (existsb (key_eq y) seen) eqn:E; [by left|].
    right. exists y. split; [left|apply key_eq_refl_all].
  - destruct (existsb (key_eq y) seen); [by apply IH|].
    destruct (IH (y :: seen) Hx) as [E|(u & Hu & Hxu)]; cbn in *.
    + apply orb_true_iff in E as [E|E]; [right; exists y; split; [left|done]|by left].
    + right. exists u. split; [by right|done].
Qed.

Lemma uniques_complete l x : x ∈ l -> exists u, u ∈ uniques l /\ key_eq x u = true.
Proof. intros Hx. by destruct (uniques_from_complete [] l x Hx) as [?|?]. Qed.

(** ** Theorems *)

(** On a list of strings, [sorted] (the insertion sort above) and
    the merge sort by [key_le] that orders the group keys give the same
    list: the two sorts of the development agree wherever the code uses
    both, so any stable comparison sort, CPython's included, would
    give this result. *)
Theorem py_sorted_merge_sort l :
  Forall (fun y => is_str y = true) l -> py_sorted l = Ok (merge_sort key_le l).
Proof.
  intros Hl. destruct (py_sorted_acc_str [] l) as (r & Hr & Hp & Hs); [constructor|constructor|done|].
  unfold py_sorted. rewrite Hr. f_equal. rewrite app_nil_r in Hp.
  apply (Sorted_unique_strong key_le); [|done|apply (Sorted_merge_sort key_le)|by rewrite merge_sort_Permutation].
  intros x1 x2 Hx1 Hx2 H12 H21.
  rewrite Forall_forall in Hl. rewrite Hp in Hx1. rewrite merge_sort_Permutation in Hx2.
  pose proof (Hl _ Hx1) as Hs1. pose proof (Hl _ Hx2) as Hs2.
  destruct x1 as [| |a], x2 as [| |b]; try discriminate. cbn in H12, H21.
  rewrite string_le_compare in H12, H21. f_equal. by apply string_compare_antisym.
Qed.

End Groupby.
