(* ===== verification/GroupSum64.v ===== *)
(** * GroupSum64: pandas' [group_sum] in binary64

    The dashboards' [df.groupby(keys)[col].sum()] (storm and states
    dashboards, lines 33-46; map dashboard, lines 19-24) run pandas'
    [group_sum] ([pandas/_libs/groupby.pyx]) on a float64 column.  For
    each row, in row order, whose label is a group and whose value is
    not NaN, it updates the group's running sum [sumx] and compensation
    with Kahan's compensated summation, every operation rounded to the
    nearest double:

      y = val - compensation
      t = sumx + y
      compensation = t - sumx - y
      if compensation != compensation: compensation = 0
      sumx = t

    [Groupby] models the sums as exact rationals ([nansum]).  This file
    models the binary64 computation ([kahan_step], [kahan_sum],
    [groupby_sum64]) and shows that on columns of whole numbers
    (casualty counts, whole-dollar damages) whose magnitudes add up to
    less than [2^53], every operation is exact: the binary64 group sums
    are the exact sums of [groupby_sum]. *)

From Stdlib Require Import QArith Qabs Qpower ZArith Lia Lqa.
From stdpp Require Import base list strings decidable sorting.
From S2P Require Import Prelude PyFloat Frame Binary64 Merge Groupby.

Module GroupSum64.
Import Binary64.Binary64 Merge.Merge Groupby.Groupby.

Local Open Scope Q_scope.

(** ** Float arithmetic in binary64 *)

(** [-x]. *)
Definition pf_neg (x : PyFloat) : PyFloat :=
  match x with PFin q => PFin (- q) | PInf b => PInf (negb b) | PNaN => PNaN end.

(** [x + y] and [x - y] on doubles: the exact result, rounded. *)
Definition add64 (x y : PyFloat) : PyFloat := round_pf (pf_add x y).

Definition sub64 (x y : PyFloat) : PyFloat := round_pf (pf_add x (pf_neg y)).

(** ** [group_sum] *)

(** One row of [group_sum]: the new running sum and compensation of
    the row's group. *)
Definition kahan_step (acc : PyFloat * PyFloat) (val : PyFloat) : PyFloat * PyFloat :=
  let '(sumx, comp) := acc in
  let y := sub64 val comp in
  let t := add64 sumx y in
  let c := sub64 (sub64 t sumx) y in
  (t, if pf_isnan c then PFin 0 else c).

(** The value of a cell of a float64 column: a missing value is NaN. *)
Definition cell_float (v : Cell) : PyFloat :=
  match v with CFloat x => x | _ => PNaN end.

(** The sum of one group's values, in row order, NaN skipped
    ([_treat_as_na]); an empty group sums to 0 ([min_count=0]). *)
Definition kahan_sum (vals : list Cell) : PyFloat :=
  (foldl (fun acc v => let x := cell_float v in if pf_isnan x then acc else kahan_step acc x)
     (PFin 0, PFin 0) vals).1.

Section GroupBy64.
Context {K : Type} (keq : K -> K -> bool) (kle : relation K) `{!RelDecision kle}
        (kna : K -> bool).

Definition group_sum64 (keys : list K) (vals : list Cell) (k : K) : PyFloat :=
  kahan_sum (mask_filter (group_mask keq keys k) vals).

(** [groupby(keys)[col].sum()] on a float64 column: each group key with
    its binary64 sum, in key order. *)
Definition groupby_sum64 (keys : list K) (vals : list Cell) : list (K * PyFloat) :=
  (fun k => (k, group_sum64 keys vals k)) <$> group_keys keq kle kna keys.

End GroupBy64.

(** ** Whole numbers are added exactly *)

(** A cell of a whole-number float64 column: missing, NaN, or a finite
    value that is an integer. *)
Definition whole_cell (v : Cell) : Prop :=
  match v with
  | CNone | CFloat PNaN => True
  | CFloat (PFin q) => exists z, q == inject_Z z
  | _ => False
  end.

Lemma qsum_abs_nonneg vals : 0 <= qsum ((fun v => Qabs (cell_q v)) <$> vals).
Proof.
  induction vals as [|v vals IH]; [apply Qle_refl|]. rewrite fmap_cons, qsum_cons.
  pose proof (Qabs_nonneg (cell_q v)). lra.
Qed.

Lemma qsum_abs_mask_filter mask vals :
  qsum ((fun v => Qabs (cell_q v)) <$> mask_filter mask vals) <= qsum ((fun v => Qabs (cell_q v)) <$> vals).
Proof.
  revert vals. induction mask as [|b mask IH]; intros [|v vals]; cbn [mask_filter];
    try (apply qsum_abs_nonneg || apply Qle_refl).
  rewrite !fmap_cons, !qsum_cons. pose proof (IH vals). pose proof (Qabs_nonneg (cell_q v)).
  destruct b; rewrite ?fmap_cons, ?qsum_cons; lra.
Qed.

(** An operation whose exact result is an integer below [2^53] in
    magnitude returns it. *)
Lemma round64_int q z :
  q == inject_Z z -> Qabs (inject_Z z) < 2 ^ 53 -> exists r, round64 q = PFin r /\ r == inject_Z z.
Proof.
  intros Hq Hz. rewrite inject_Z_abs in Hz. change (2 ^ 53) with (inject_Z (2 ^ 53)) in Hz.
  rewrite <- Zlt_Qlt in Hz. destruct (round64_double q) as (r & Hr & Hrq).
  - rewrite Hq. by apply is_double_int.
  - exists r. split; [done|]. by rewrite Hrq.
Qed.

Lemma Qabs_int_add z x :
  Qabs (inject_Z (z + x)) <= Qabs (inject_Z z) + Qabs (inject_Z x).
Proof. rewrite inject_Z_plus. apply Qabs_triangle. Qed.

(** One Kahan step on a whole number [x], from an exact running sum [z]
    and a zero compensation: the new sum is [z + x], exact, and the
    compensation stays zero. *)
Lemma kahan_step_int s1 c1 q z x :
  s1 == inject_Z z -> c1 == 0 -> q == inject_Z x ->
  Qabs (inject_Z z) + Qabs (inject_Z x) < 2 ^ 53 ->
  exists t c, kahan_step (PFin s1, PFin c1) (PFin q) = (PFin t, PFin c) /\
    t == inject_Z (z + x) /\ c == 0.
Proof.
  intros Hs Hc Hq Hb. pose proof (Qabs_nonneg (inject_Z z)). pose proof (Qabs_nonneg (inject_Z x)).
  pose proof (Qabs_int_add z x).
  unfold kahan_step, sub64, add64, pf_neg, pf_add, round_pf.
  destruct (round64_int (q + - c1) x) as (y & -> & Hy); [rewrite Hq, Hc; ring | lra|].
  destruct (round64_int (s1 + y) (z + x)) as (t & -> & Ht); [rewrite Hs, Hy, inject_Z_plus; ring | lra|].
  destruct (round64_int (t + - s1) x) as (c2 & -> & Hc2); [rewrite Ht, Hs, inject_Z_plus; ring | lra|].
  destruct (round64_int (c2 + - y) 0) as (c3 & -> & Hc3); [rewrite Hc2, Hy; ring | vm_compute; reflexivity|].
  exists t, c3. split; [reflexivity|]. split; [done|]. exact Hc3.
Qed.

Lemma kahan_fold_int vals :
  Forall whole_cell vals ->
  forall s1 c1 z, s1 == inject_Z z -> c1 == 0 ->
  Qabs (inject_Z z) + qsum ((fun v => Qabs (cell_q v)) <$> vals) < 2 ^ 53 ->
  exists t, (foldl (fun acc v => let x := cell_float v in if pf_isnan x then acc else kahan_step acc x)
               (PFin s1, PFin c1) vals).1 = PFin t /\
            t == inject_Z z + qsum (cell_q <$> vals).
Proof.
  induction 1 as [|v vals Hv Hvals IH]; intros s1 c1 z Hs Hc Hb.
  - exists s1. split; [done|]. rewrite Hs. cbn. ring.
  - rewrite fmap_cons, qsum_cons in Hb. rewrite fmap_cons, qsum_cons. cbn [foldl].
    destruct v as [|[q| |]|]; cbn [whole_cell] in Hv; try done;
      cbn [cell_float pf_isnan cell_q] in *.
    1,3: destruct (IH s1 c1 z Hs Hc) as (t & Ht & Htq); [assert (Qabs 0 == 0) by reflexivity; lra|];
      exists t; split; [done|]; rewrite Htq; ring.
    destruct Hv as [x Hx]. rewrite Hx in Hb.
    pose proof (Qabs_nonneg (inject_Z x)). pose proof (Qabs_int_add z x).
    pose proof (qsum_abs_nonneg vals).
    destruct (kahan_step_int s1 c1 q z x Hs Hc Hx) as (t1 & c2 & -> & Ht1 & Hc2); [lra|].
    destruct (IH t1 c2 (z + x)%Z Ht1 Hc2) as (t & Ht & Htq); [lra|].
    exists t. split; [done|]. rewrite Htq, Hx, inject_Z_plus. ring.
Qed.

Lemma whole_num_cell vals : Forall whole_cell vals -> forallb num_cell vals = true.
Proof.
  induction 1 as [|v vals Hv _ IH]; [done|]. cbn. rewrite IH, andb_true_r.
  by destruct v as [|[]|].
Qed.

(** One group: the binary64 Kahan sum is the exact [nansum]. *)
Lemma kahan_sum_int vals :
  Forall whole_cell vals -> qsum ((fun v => Qabs (cell_q v)) <$> vals) < 2 ^ 53 ->
  exists q, nansum vals = Ok (PFin q) /\ kahan_sum vals ≡ PFin q.
Proof.
  intros Hw Hb. destruct (nansum_num vals (whole_num_cell vals Hw)) as (q & Hq & Hqs).
  destruct (kahan_fold_int vals Hw 0 0 0%Z) as (t & Ht & Htq);
    [reflexivity | reflexivity | assert (Qabs (inject_Z 0) == 0) by reflexivity; lra|].
  assert (E : kahan_sum vals = PFin t) by exact Ht.
  exists q. split; [exact Hq|]. rewrite E. cbn. rewrite Htq, Hqs. cbn. ring.
Qed.

(** On a float64 column of whole numbers (with missing values)
    whose magnitudes add up to less than [2^53], pandas' binary64
    [groupby(...).sum()], Kahan-compensated and rounded at every step,
    gives exactly the groups and the exact sums of [groupby_sum], the
    model the dashboard theorems are stated on. *)
Theorem groupby_sum64_exact {K} (keq : K -> K -> bool) (kle : relation K) `{!RelDecision kle}
    (kna : K -> bool) keys vals :
  Forall whole_cell vals -> qsum ((fun v => Qabs (cell_q v)) <$> vals) < 2 ^ 53 ->
  exists gs, groupby_sum keq kle kna keys vals = Ok gs /\
    Forall2 (fun g g64 => g.1 = g64.1 /\ g.2 ≡ g64.2) gs (groupby_sum64 keq kle kna keys vals).
Proof.
  intros Hw Hb.
  assert (Hk : forall k, exists q, group_sum keq keys vals k = Ok (PFin q) /\
                                    group_sum64 keq keys vals k ≡ PFin q).
  { intros k. apply kahan_sum_int; [by apply Forall_mask_filter|].
    eapply Qle_lt_trans; [apply qsum_abs_mask_filter | exact Hb]. }
  destruct (mapM_total (fun k => s ← group_sum keq keys vals k; mret (k, s))
              (group_keys keq kle kna keys)) as [gs Hgs].
  { intros k _. destruct (Hk k) as (q & -> & _). by eexists. }
  exists gs. split; [exact Hgs|]. apply mapM_Ok_iff in Hgs. unfold groupby_sum64.
  apply Forall2_fmap_r, Forall2_flip. eapply Forall2_impl; [exact Hgs|].
  intros k g Hg. cbv beta in Hg. destruct (Hk k) as (q & Hq & H64). rewrite Hq in Hg. injection Hg as <-.
  split; [done|]. symmetry. exact H64.
Qed.

(** The compensation at work: [2^53 + 1] rounds to [2^53] (a tie, to
    even), so adding [1] twice in plain binary64 gives [2^53]; Kahan's
    compensation keeps the lost [1] and the sum is exact. *)
Example kahan_sum_compensates :
  kahan_sum [CFloat (PFin (inject_Z (2 ^ 53))); CFloat (PFin 1); CFloat (PFin 1)]
    ≡ PFin (inject_Z (2 ^ 53 + 2)) /\
  add64 (add64 (PFin (inject_Z (2 ^ 53))) (PFin 1)) (PFin 1) ≡ PFin (inject_Z (2 ^ 53)).
Proof. split; vm_compute; reflexivity. Qed.

End GroupSum64.
