(* ===== verification/Dashboards.v ===== *)
(** * Dashboards: the three dashboard scripts

    Each script reads the saved table ([pd.read_csv], line 6), takes
    the values of its sidebar widgets, and reduces the table to the
    summaries it charts.  The model is the script as a function from
    (table, widget values) to those summaries; drawing the charts
    (altair, plotly) and laying out the page (streamlit) are not
    modelled.
    - [storm_dashboard] ([src/code/storm_dashboard.py]): event types
      offered sorted (line 9), rows of the chosen event types (line 22),
      months made categorical (line 29), monthly sums per event type
      (lines 32-38), totals per event type (lines 41-46);
    - [states_dashboard] ([src/code/states_dashboard.py]): the same by
      state, the states offered in order of appearance (line 9);
    - [map_dashboard] ([src/code/map_dashboard.py]): totals per
      ([state], [STATE]) pair (lines 19-24).

    [pd.Categorical] with [ordered=True] and the default
    [observed=False] of pandas 2 make the monthly summary list every
    observed key with each of the twelve months, a month without rows
    summing to 0. *)

From Stdlib Require Import QArith Qfield ZArith Ascii String.
From stdpp Require Import base list strings decidable sorting.
From S2P Require Import Prelude PyStr PyFloat Frame Fips Merge Groupby.

Module Dashboards.
Import Fips.Fips Merge.Merge Groupby.Groupby.

(** [save_filtered_data(df, path)] writes the table with [index=False]
    (get_data.py lines 27-37) and each dashboard reads it back (line 6):
    the cells come back as they were written and the rows get the labels
    0..n-1.  [Csv.v] models the text of the file and shows when this
    abstraction is exact ([Csv.to_csv_read_csv]): up to [None] read back
    as [NaN], for columns of numbers or of strings that are not all
    numbers. *)
Definition save_and_reload (df : Frame) : Frame :=
  mkFrame (seq 0 (length df.(f_index))) df.(f_cols).

(** [month_order], lines 25-28 of the storm and states dashboards. *)
Definition month_order : list string :=
  ["January"; "February"; "March"; "April"; "May"; "June";
   "July"; "August"; "September"; "October"; "November"; "December"].

Definition month_name (m : nat) : string := default "" (month_order !! m).

(** ** The shared steps *)

(** [df[df[c].isin(selected)].copy()], line 22. *)
Definition select_rows (df : Frame) (c : string) (selected : list Cell) : Result Frame :=
  col ← get_col df c;
  mret (filter_rows df (isin col.(s_values) selected)).

(** [df.groupby(key)[col].sum().reset_index().rename(columns={col: "TOTAL"})],
    lines 41-46. *)
Definition total_summary (df : Frame) (key col : string) : Result Frame :=
  ks ← get_col df key;
  vs ← get_col df col;
  gs ← groupby_sum_col key_eq key_le cell_isna ks.(s_values) vs.(s_values);
  mret (mkFrame (seq 0 (length gs)) [(key, gs.*1); ("TOTAL", gs.*2)]).

(** [pd.Categorical(df["MONTH_NAME"], categories=month_order, ordered=True)],
    line 29: a month outside [month_order] becomes missing. *)
Definition month_codes (months : list Cell) : list (option nat) :=
  cat_code month_order <$> months.

(** The key of a row of [groupby([key, "MONTH_NAME"])]. *)
Definition month_key_eq (g r : Cell * option nat) : bool :=
  key_eq g.1 r.1 && bool_decide (g.2 = r.2).

(** The groups with [observed=False]: each group key of the [key]
    column with each category, in order. *)
Definition monthly_groups (keys : list Cell) : list (Cell * nat) :=
  group_keys key_eq key_le cell_isna keys ≫= fun k => (fun m => (k, m)) <$> seq 0 (length month_order).

(** [groupby([key, "MONTH_NAME"])[col].sum()]. *)
Definition monthly_sums (keys : list Cell) (codes : list (option nat)) (vals : list Cell)
    : Result (list ((Cell * nat) * Cell)) :=
  mapM (fun g => s ← group_sum_col month_key_eq (zip keys codes) vals (g.1, Some g.2); mret (g, s))
       (monthly_groups keys).

(** [.sort_values("MONTH_NAME")] compares the category codes. *)
Definition month_row_le (r1 r2 : nat * ((Cell * nat) * Cell)) : Prop := r1.2.1.2 <= r2.2.1.2.

#[export] Instance month_row_le_dec : RelDecision month_row_le.
Proof. intros r1 r2. unfold month_row_le. apply _. Defined.

(** Lines 32-38: the grouped sums, [reset_index()] (labels 0..k-1),
    sorted by month (the rows keep their labels), the sum column renamed
    [VALUE].  pandas' default sort is not stable: rows of the same month
    may come in another order than here. *)
Definition monthly_summary (df : Frame) (key col : string) : Result Frame :=
  ks ← get_col df key;
  ms ← get_col df "MONTH_NAME";
  vs ← get_col df col;
  gs ← monthly_sums ks.(s_values) (month_codes ms.(s_values)) vs.(s_values);
  let rows := merge_sort month_row_le (zip (seq 0 (length gs)) gs) in
  mret (mkFrame rows.*1
          [(key, (fun r => r.2.1.1) <$> rows);
           ("MONTH_NAME", (fun r => CStr (month_name r.2.1.2)) <$> rows);
           ("VALUE", (fun r => r.2.2) <$> rows)]).

(** Lines 21-46, the same in the storm and states dashboards: the rows
    whose [key] is selected, then the monthly and the total summaries of
    [col]. *)
Definition summaries (df : Frame) (key : string) (selected : list Cell) (col : string)
    : Result (Frame * Frame) :=
  filtered ← select_rows df key selected;
  monthly ← monthly_summary filtered key col;
  total ← total_summary filtered key col;
  mret (monthly, total).

(** ** storm_dashboard.py *)

(** Lines 9-10: [all_events = sorted(df["EVENT_TYPE"].unique().tolist())]
    and [default_event = all_events[0]]. *)
Definition storm_event_options (df : Frame) : Result (list Cell * Cell) :=
  ev ← get_col df "EVENT_TYPE";
  all_events ← py_sorted (uniques ev.(s_values));
  match all_events with
  | [] => raise IndexError_list
  | d :: _ => mret (all_events, d)
  end.

(** The script for the widgets' values: [selected_events] is what the
    multiselect returns ([None] until the user changes it, when it
    returns its default [[default_event]]), [selected_column] the
    selectbox's choice.  The result is ([monthly_summary],
    [total_summary]). *)
Definition storm_dashboard (df : Frame) (selected_events : option (list Cell))
    (selected_column : string) : Result (Frame * Frame) :=
  opts ← storm_event_options df;
  summaries df "EVENT_TYPE" (default [opts.2] selected_events) selected_column.

(** ** states_dashboard.py *)

(** Lines 9-10: [all_states = df["STATE"].unique().tolist()] and
    [default_state = all_states[0]]. *)
Definition states_options (df : Frame) : Result (list Cell * Cell) :=
  st ← get_col df "STATE";
  match uniques st.(s_values) with
  | [] => raise IndexError_list
  | d :: l => mret (d :: l, d)
  end.

Definition states_dashboard (df : Frame) (selected_states : option (list Cell))
    (selected_column : string) : Result (Frame * Frame) :=
  opts ← states_options df;
  summaries df "STATE" (default [opts.2] selected_states) selected_column.

(** ** map_dashboard.py *)

(** Lines 19-24: [df.groupby(["state", "STATE"])[metric].sum()
    .reset_index().rename(columns={metric: "VALUE"})]. *)
Definition map_dashboard (df : Frame) (metric : string) : Result Frame :=
  s ← get_col df "state";
  st ← get_col df "STATE";
  v ← get_col df metric;
  gs ← groupby_sum_col pair_eq pair_le pair_na (zip s.(s_values) st.(s_values)) v.(s_values);
  mret (mkFrame (seq 0 (length gs))
          [("state", (fun g => g.1.1) <$> gs); ("STATE", (fun g => g.1.2) <$> gs);
           ("VALUE", (fun g => g.2) <$> gs)]).

(** ** Lemmas *)

(** The frame of a [reset_index()] of grouped sums. *)
Lemma zip_fst_snd_PFin {A} (G : list A) (qs : list Q) :
  length G = length qs ->
  (zip G ((fun q => CFloat (PFin q)) <$> qs)).*1 = G /\
  (zip G ((fun q => CFloat (PFin q)) <$> qs)).*2 = (fun q => CFloat (PFin q)) <$> qs /\
  length (zip G ((fun q => CFloat (PFin q)) <$> qs)) = length qs.
Proof.
  intros Hl. rewrite fst_zip, snd_zip by (rewrite length_fmap; lia).
  rewrite length_zip, length_fmap. split; [done|]. split; [done|]. lia.
Qed.

(** [total_summary] on a numeric column: one row per group key, in
    order, with the exact sum of its rows; the sums add up to the rows
    whose key is present. *)
Lemma total_summary_num df key col ks vs :
  assoc key df.(f_cols) = Some ks -> assoc col df.(f_cols) = Some vs ->
  length ks = length vs -> forallb num_cell vs = true ->
  exists qs, total_summary df key col =
      Ok (mkFrame (seq 0 (length qs)) [(key, group_keys key_eq key_le cell_isna ks);
                                       ("TOTAL", (fun q => CFloat (PFin q)) <$> qs)]) /\
    Forall2 (fun k q => q == qsum (cell_q <$> mask_filter (group_mask key_eq ks k) vs))%Q
            (group_keys key_eq key_le cell_isna ks) qs /\
    (qsum qs == qsum (cell_q <$> mask_filter ((fun k => negb (cell_isna k)) <$> ks) vs))%Q.
Proof.
  intros Hk Hv Hlen Hn. unfold total_summary, get_col. rewrite Hk, Hv, !bind_Ok. cbn [s_values].
  destruct (groupby_sum_total key_eq key_le cell_isna key_eq_sym key_eq_trans key_eq_refl key_eq_na
              ks vs Hlen Hn) as (qs & Hg & Hf & Hs).
  rewrite Hg, bind_Ok. exists qs.
  assert (HL : length (group_keys key_eq key_le cell_isna ks) = length qs)
    by (eapply Forall2_length; exact Hf).
  destruct (zip_fst_snd_PFin _ qs HL) as (H1 & H2 & H3).
  by rewrite H1, H2, H3.
Qed.

(** A row of the monthly grouping is left out when its key or its month
    is missing. *)
Definition month_row_na (r : Cell * option nat) : bool :=
  cell_isna r.1 || negb (bool_decide (is_Some r.2)).

(** How many of [n] months a row's month code is. *)
Definition month_hit (n : nat) (c : option nat) : nat :=
  match c with Some m => if bool_decide (m < n) then 1 else 0 | None => 0 end.

Lemma length_filter_fmap {A B} (P : B -> Prop) `{!forall x, Decision (P x)} (f : A -> B) (l : list A) :
  length (filter P (f <$> l)) = length (filter (fun x => P (f x)) l).
Proof.
  induction l as [|x l IH]; [done|]. rewrite fmap_cons, !filter_cons.
  case_decide; cbn; by rewrite IH.
Qed.

Lemma count_seq_code n c : length (filter (fun m => Some m = c) (seq 0 n)) = month_hit n c.
Proof.
  induction n as [|n IH]; [by destruct c as [m|]; cbn; [case_bool_decide; lia|]|].
  rewrite seq_S, filter_app, length_app, IH. cbn [plus].
  destruct c as [m|]; cbn [month_hit]; [|rewrite filter_cons_False by done; cbn; lia].
  destruct (decide (m = n)) as [->|Hne].
  - rewrite filter_cons_True by done. cbn. rewrite bool_decide_false, bool_decide_true by lia. done.
  - rewrite filter_cons_False by congruence. cbn. repeat case_bool_decide; lia.
Qed.

(** A row [(x, c)] falls in [count_eq key_eq G x] key groups times
    [month_hit n c] month groups. *)
Lemma count_monthly_groups (G : list Cell) n x c :
  count_eq month_key_eq ((fun g => (g.1, Some g.2)) <$> (G ≫= fun k => (fun m => (k, m)) <$> seq 0 n)) (x, c)
  = count_eq key_eq G x * month_hit n c.
Proof.
  unfold count_eq. induction G as [|k G IH]; [done|].
  rewrite bind_cons, fmap_app, filter_app, length_app, IH, filter_cons.
  rewrite <- list_fmap_compose, length_filter_fmap. unfold compose, month_key_eq; cbn [fst snd].
  destruct (key_eq k x) eqn:Hk; cbn.
  - rewrite decide_True by done. cbn [length]. rewrite <- count_seq_code.
    rewrite (list_filter_iff _ (fun m => Some m = c)); [rewrite Nat.mul_succ_l; lia|].
    intros m. apply bool_decide_eq_true.
  - rewrite decide_False by done. cbn [length].
    replace (length (filter (fun _ : nat => false = true) (seq 0 n))) with 0; [done|].
    clear IH. induction (seq 0 n) as [|m l IHl]; [done|]. rewrite filter_cons_False; [done|congruence].
Qed.

Lemma cat_code_lt cats v m : cat_code cats v = Some m -> m < length cats.
Proof.
  destruct v as [| |s]; cbn; try discriminate.
  destruct (list_find _ cats) as [[i c]|] eqn:E; cbn; [|discriminate]. intros [= <-].
  apply list_find_Some in E as (Hi & _). by eapply lookup_lt_Some.
Qed.

Lemma elem_of_zip_inv {A B} (l1 : list A) (l2 : list B) x y :
  (x, y) ∈ zip l1 l2 -> x ∈ l1 /\ y ∈ l2.
Proof.
  revert l2; induction l1 as [|a l1 IH]; intros [|b l2]; cbn; try by intros ?%elem_of_nil.
  intros [[= -> ->]|H]%elem_of_cons; [split; left|].
  destruct (IH _ H). split; by right.
Qed.

(** The monthly sums on a numeric column: one per (key, month) group,
    adding up to the rows whose key is present and whose month is one
    of the twelve names. *)
Lemma monthly_sums_num ks ms vs :
  length ks = length vs -> length ms = length vs -> forallb num_cell vs = true ->
  exists qs, monthly_sums ks (month_codes ms) vs = Ok (zip (monthly_groups ks) ((fun q => CFloat (PFin q)) <$> qs)) /\
    Forall2 (fun g q => q == qsum (cell_q <$> mask_filter
               (group_mask month_key_eq (zip ks (month_codes ms)) (g.1, Some g.2)) vs))%Q
            (monthly_groups ks) qs /\
    (qsum qs == qsum (cell_q <$> mask_filter ((fun r => negb (month_row_na r)) <$> zip ks (month_codes ms)) vs))%Q.
Proof.
  intros Hk Hm Hn.
  destruct (mapM_group_sums month_key_eq (fun g : Cell * nat => (g.1, Some g.2)) (monthly_groups ks)
              (zip ks (month_codes ms)) vs Hn) as (qs & Hq & Hf).
  exists qs. split; [exact Hq|]. split; [exact Hf|].
  rewrite (qsum_Forall2 _ _ _ Hf).
  set (f := fun k => qsum (cell_q <$> mask_filter (group_mask month_key_eq (zip ks (month_codes ms)) k) vs)).
  change (qsum ((f ∘ (fun g : Cell * nat => (g.1, Some g.2))) <$> monthly_groups ks) ==
          qsum (cell_q <$> mask_filter ((fun r => negb (month_row_na r)) <$> zip ks (month_codes ms)) vs))%Q.
  rewrite list_fmap_compose. subst f.
  assert (Hz : length (zip ks (month_codes ms)) = length vs)
    by (unfold month_codes; rewrite length_zip, length_fmap; lia).
  rewrite qsum_group_sums by exact Hz.
  apply qsum_counts; [exact Hz|]. intros [x c] [Hx Hc]%elem_of_zip_inv.
  unfold monthly_groups. rewrite count_monthly_groups.
  rewrite (count_group_keys key_eq key_le cell_isna key_eq_sym key_eq_trans key_eq_refl key_eq_na ks x Hx).
  unfold month_row_na; cbn [fst snd]. destruct (cell_isna x); [done|]. cbn.
  destruct c as [m|]; cbn; [|done].
  apply list_elem_of_fmap in Hc as (v & Hv & _).
  rewrite bool_decide_true by (by apply (cat_code_lt month_order v)). done.
Qed.

#[export] Instance qsum_Permutation : Proper ((≡ₚ) ==> Qeq) qsum.
Proof.
  induction 1 as [|q l1 l2 _ IH|q1 q2 l|l1 l2 l3 _ IH1 _ IH2]; rewrite ?qsum_cons.
  - reflexivity.
  - by rewrite IH.
  - ring.
  - by rewrite IH1, IH2.
Qed.

Lemma length_monthly_groups ks :
  length (monthly_groups ks) = 12 * length (group_keys key_eq key_le cell_isna ks).
Proof.
  unfold monthly_groups. induction (group_keys key_eq key_le cell_isna ks) as [|k G IH]; [done|].
  rewrite bind_cons, length_app, length_fmap, length_seq, IH. change (length month_order) with 12.
  cbn [length]. lia.
Qed.

Lemma select_rows_Ok df key selected ks :
  assoc key df.(f_cols) = Some ks ->
  select_rows df key selected = Ok (filter_rows df (isin ks selected)).
Proof. intros Hk. unfold select_rows, get_col. by rewrite Hk. Qed.

Lemma filter_rows_col df mask c vs :
  assoc c df.(f_cols) = Some vs -> assoc c (filter_rows df mask).(f_cols) = Some (mask_filter mask vs).
Proof. intros H. cbn. by rewrite assoc_fmap_snd, H. Qed.

#[export] Instance month_row_le_total : Total month_row_le.
Proof. intros r1 r2. unfold month_row_le. lia. Qed.

(** The monthly summary on a numeric column: its rows are the grouped
    sums (labelled 0..k-1) sorted by month. *)
Lemma monthly_summary_num df key col ks ms vs :
  assoc key df.(f_cols) = Some ks -> assoc "MONTH_NAME" df.(f_cols) = Some ms ->
  assoc col df.(f_cols) = Some vs ->
  length ks = length vs -> length ms = length vs -> forallb num_cell vs = true ->
  exists qs rows, monthly_summary df key col =
      Ok (mkFrame rows.*1 [(key, (fun r => r.2.1.1) <$> rows);
                           ("MONTH_NAME", (fun r => CStr (month_name r.2.1.2)) <$> rows);
                           ("VALUE", (fun r => r.2.2) <$> rows)]) /\
    rows ≡ₚ zip (seq 0 (length qs)) (zip (monthly_groups ks) ((fun q => CFloat (PFin q)) <$> qs)) /\
    Sorted month_row_le rows /\
    length qs = length (monthly_groups ks) /\
    (qsum qs == qsum (cell_q <$> mask_filter ((fun r => negb (month_row_na r)) <$> zip ks (month_codes ms)) vs))%Q.
Proof.
  intros Hk Hm Hv Hlk Hlm Hn. unfold monthly_summary, get_col. rewrite Hk, Hm, Hv, !bind_Ok. cbn [s_values].
  destruct (monthly_sums_num ks ms vs Hlk Hlm Hn) as (qs & Hq & Hf & Hs).
  rewrite Hq, bind_Ok.
  assert (HL : length (monthly_groups ks) = length qs) by (eapply Forall2_length; exact Hf).
  destruct (zip_fst_snd_PFin _ qs HL) as (_ & _ & H3). rewrite H3.
  eexists qs, _. split; [reflexivity|].
  split; [apply merge_sort_Permutation|]. split; [apply (Sorted_merge_sort month_row_le)|].
  split; [lia|exact Hs].
Qed.

Lemma values_zip_seq {G0} (G : list G0) qs n :
  length G = length qs ->
  (fun r : nat * (G0 * Cell) => r.2.2) <$> zip (seq n (length qs)) (zip G ((fun q => CFloat (PFin q)) <$> qs))
  = (fun q => CFloat (PFin q)) <$> qs.
Proof.
  revert G n. induction qs as [|q qs IH]; intros [|g G] n Hl; try done.
  cbn. f_equal. apply IH. cbn in Hl. lia.
Qed.

(** The values column of the sorted rows adds up to the sums. *)
Lemma qsum_rows_values {G0} (rows : list (nat * (G0 * Cell))) (G : list G0) qs :
  rows ≡ₚ zip (seq 0 (length qs)) (zip G ((fun q => CFloat (PFin q)) <$> qs)) -> length G = length qs ->
  (qsum (cell_q <$> ((fun r => r.2.2) <$> rows)) == qsum qs)%Q.
Proof.
  intros Hp Hl. rewrite <- list_fmap_compose, Hp, list_fmap_compose, values_zip_seq by done.
  rewrite <- list_fmap_compose. unfold compose; cbn. by rewrite list_fmap_id.
Qed.

Lemma wf_same_length df a b xs ys :
  frame_wf df -> assoc a df.(f_cols) = Some xs -> assoc b df.(f_cols) = Some ys -> length xs = length ys.
Proof.
  intros Hwf Ha Hb. by rewrite (wf_col_length df a xs Hwf Ha), (wf_col_length df b ys Hwf Hb).
Qed.

(** Lines 21-46 on a well-formed table with a numeric [col]: the
    summaries of the selected rows. *)
Lemma summaries_num df key sel col ks ms vs :
  frame_wf df -> assoc key df.(f_cols) = Some ks -> assoc "MONTH_NAME" df.(f_cols) = Some ms ->
  assoc col df.(f_cols) = Some vs -> forallb num_cell vs = true ->
  let m := isin ks sel in
  exists qs qm rows,
    summaries df key sel col =
      Ok (mkFrame rows.*1 [(key, (fun r => r.2.1.1) <$> rows);
                           ("MONTH_NAME", (fun r => CStr (month_name r.2.1.2)) <$> rows);
                           ("VALUE", (fun r => r.2.2) <$> rows)],
          mkFrame (seq 0 (length qs))
                  [(key, group_keys key_eq key_le cell_isna (mask_filter m ks));
                   ("TOTAL", (fun q => CFloat (PFin q)) <$> qs)]) /\
    Forall2 (fun k q => q == qsum (cell_q <$> mask_filter (group_mask key_eq (mask_filter m ks) k)
                                                         (mask_filter m vs)))%Q
            (group_keys key_eq key_le cell_isna (mask_filter m ks)) qs /\
    (qsum qs == qsum (cell_q <$> mask_filter ((fun k => negb (cell_isna k)) <$> mask_filter m ks)
                                             (mask_filter m vs)))%Q /\
    rows ≡ₚ zip (seq 0 (length qm)) (zip (monthly_groups (mask_filter m ks)) ((fun q => CFloat (PFin q)) <$> qm)) /\
    Sorted month_row_le rows /\ length qm = length (monthly_groups (mask_filter m ks)) /\
    (qsum qm == qsum (cell_q <$> mask_filter ((fun r => negb (month_row_na r)) <$>
                        zip (mask_filter m ks) (month_codes (mask_filter m ms))) (mask_filter m vs)))%Q.
Proof.
  intros Hwf Hk Hm Hv Hn. cbv zeta. set (m := isin ks sel).
  assert (Hlk : length (mask_filter m ks) = length (mask_filter m vs))
    by (apply length_mask_filter; exact (wf_same_length df _ _ _ _ Hwf Hk Hv)).
  assert (Hlm : length (mask_filter m ms) = length (mask_filter m vs))
    by (apply length_mask_filter; exact (wf_same_length df _ _ _ _ Hwf Hm Hv)).
  assert (Hn' : forallb num_cell (mask_filter m vs) = true) by (by apply forallb_mask_filter).
  destruct (monthly_summary_num (filter_rows df m) key col _ _ _ (filter_rows_col _ m _ _ Hk)
              (filter_rows_col _ m _ _ Hm) (filter_rows_col _ m _ _ Hv) Hlk Hlm Hn')
    as (qm & rows & Hmon & Hp & Hs & Hl & Hsum).
  destruct (total_summary_num (filter_rows df m) key col _ _ (filter_rows_col _ m _ _ Hk)
              (filter_rows_col _ m _ _ Hv) Hlk Hn') as (qs & Htot & Hf & Hq).
  exists qs, qm, rows. unfold summaries. rewrite (select_rows_Ok df key sel ks Hk), bind_Ok.
  fold m. rewrite Hmon, bind_Ok, Htot, bind_Ok.
  auto 10.
Qed.

Lemma qsum_mask_split {A} (p q : A -> bool) (l : list A) vs :
  length l = length vs ->
  (qsum (cell_q <$> mask_filter (p <$> l) vs) ==
   qsum (cell_q <$> mask_filter ((fun x => p x && q x) <$> l) vs) +
   qsum (cell_q <$> mask_filter ((fun x => p x && negb (q x)) <$> l) vs))%Q.
Proof.
  revert vs. induction l as [|x l IH]; intros [|v vs] Hl; try discriminate; [cbn; ring|].
  injection Hl as Hl. rewrite !fmap_cons. cbn [mask_filter].
  destruct (p x), (q x); cbn [andb negb]; rewrite ?fmap_cons, ?qsum_cons, IH by done; ring.
Qed.

Lemma qsum_totals qs : qsum (cell_q <$> ((fun q => CFloat (PFin q)) <$> qs)) = qsum qs.
Proof. rewrite <- list_fmap_compose. unfold compose; cbn. by rewrite list_fmap_id. Qed.

(** The month column and the values of the monthly summary's rows. *)
Lemma monthly_rows_facts (rows : list (nat * ((Cell * nat) * Cell))) G qm :
  rows ≡ₚ zip (seq 0 (length qm)) (zip G ((fun q => CFloat (PFin q)) <$> qm)) -> Sorted month_row_le rows ->
  length qm = length G ->
  length rows = length G /\
  (fun r => CStr (month_name r.2.1.2)) <$> rows = (fun c => CStr (month_name c)) <$> ((fun r => r.2.1.2) <$> rows) /\
  Sorted le ((fun r => r.2.1.2) <$> rows) /\
  (qsum (cell_q <$> ((fun r => r.2.2) <$> rows)) == qsum qm)%Q.
Proof.
  intros Hp Hs Hl. split; [|split; [by rewrite <- list_fmap_compose|split]].
  - rewrite Hp, length_zip, length_zip, length_fmap, length_seq. lia.
  - apply (Sorted_fmap _ month_row_le); [by intros ??|done].
  - by apply (qsum_rows_values _ G).
Qed.

Lemma fmap_zip_fst {A B C} (f : A -> C) (G : list A) (l : list B) :
  length G <= length l -> (fun g => f g.1) <$> zip G l = f <$> G.
Proof.
  revert l. induction G as [|g G IH]; intros [|b l] Hl; cbn in *; try done; [lia|].
  f_equal. apply IH. lia.
Qed.

Lemma fmap_zip_snd {A B C} (f : B -> C) (G : list A) (l : list B) :
  length l <= length G -> (fun g => f g.2) <$> zip G l = f <$> l.
Proof.
  revert l. induction G as [|g G IH]; intros [|b l] Hl; cbn in *; try done; [lia|].
  f_equal. apply IH. lia.
Qed.

(** The rows with a present key are those with a recognised month and
    those with a missing one. *)
Lemma notna_rows_split ks codes vs :
  length ks = length vs -> length codes = length vs ->
  (qsum (cell_q <$> mask_filter ((fun k => negb (cell_isna k)) <$> ks) vs) ==
   qsum (cell_q <$> mask_filter ((fun r => negb (month_row_na r)) <$> zip ks codes) vs) +
   qsum (cell_q <$> mask_filter ((fun r => negb (cell_isna r.1) && bool_decide (r.2 = None)) <$>
                                 zip ks codes) vs))%Q.
Proof.
  intros Hk Hc.
  assert (E : (fun k => negb (cell_isna k)) <$> ks =
              (fun r : Cell * option nat => negb (cell_isna r.1)) <$> zip ks codes).
  { symmetry. apply (fmap_zip_fst (fun k => negb (cell_isna k))). lia. }
  rewrite E, (qsum_mask_split _ (fun r => bool_decide (is_Some r.2))) by (rewrite length_zip; lia).
  rewrite (list_fmap_ext (fun x => negb (cell_isna x.1) && bool_decide (is_Some x.2))
                         (fun r => negb (month_row_na r))),
          (list_fmap_ext (fun x => negb (cell_isna x.1) && negb (bool_decide (is_Some x.2)))
                         (fun r => negb (cell_isna r.1) && bool_decide (r.2 = None))).
  - reflexivity.
  - intros _ [x [c|]] _; reflexivity.
  - intros _ [x c] _. unfold month_row_na. cbn. by destruct (cell_isna x), (bool_decide (is_Some c)).
Qed.

(** ** Dashboards that do not raise *)

Lemma monthly_sums_total ks codes vs :
  Forall (fun v => is_str v = false) vs -> exists gs, monthly_sums ks codes vs = Ok gs.
Proof.
  intros Hv. apply mapM_total. intros g _.
  destruct (group_sum_total month_key_eq (zip ks codes) vs (g.1, Some g.2) Hv) as [s Hs].
  rewrite Hs. by eexists.
Qed.

(** The summaries raise only when a column is absent or a value to sum
    is a string. *)
Lemma summaries_total df key sel col ks ms vs :
  assoc key df.(f_cols) = Some ks -> assoc "MONTH_NAME" df.(f_cols) = Some ms ->
  assoc col df.(f_cols) = Some vs -> Forall (fun v => is_str v = false) vs ->
  exists mt, summaries df key sel col = Ok mt.
Proof.
  intros Hk Hm Hc Hv. unfold summaries. rewrite (select_rows_Ok _ _ _ _ Hk), bind_Ok.
  unfold monthly_summary, total_summary, get_col.
  rewrite (filter_rows_col _ _ _ _ Hk), (filter_rows_col _ _ _ _ Hm), (filter_rows_col _ _ _ _ Hc).
  cbv beta iota. rewrite !bind_Ok. cbn [s_values].
  destruct (monthly_sums_total (mask_filter (isin ks sel) ks) (month_codes (mask_filter (isin ks sel) ms))
              _ (Forall_mask_filter _ (isin ks sel) _ Hv)) as [gs Hgs].
  rewrite Hgs, bind_Ok.
  destruct (groupby_sum_ok key_eq key_le cell_isna (mask_filter (isin ks sel) ks) _
              (Forall_mask_filter _ (isin ks sel) _ Hv)) as [gs' Hgs'].
  rewrite Hgs', !bind_Ok. by eexists.
Qed.

Lemma states_dashboard_total df sel col st ms vs :
  assoc "STATE" df.(f_cols) = Some st -> st <> [] -> assoc "MONTH_NAME" df.(f_cols) = Some ms ->
  assoc col df.(f_cols) = Some vs -> Forall (fun v => is_str v = false) vs ->
  exists mt, states_dashboard df sel col = Ok mt.
Proof.
  intros Hs Hne Hm Hc Hv. unfold states_dashboard, states_options, get_col. rewrite Hs.
  cbv beta iota. rewrite bind_Ok. cbn [s_values].
  destruct st as [|x l]; [done|]. cbn [uniques uniques_from existsb]. rewrite !bind_Ok.
  by apply (summaries_total _ _ _ _ (x :: l) ms vs).
Qed.

(** The storm dashboard raises nothing when every event type is a
    string and there is one: [sorted] then compares strings only. *)
Lemma storm_dashboard_total df sel col ev ms vs :
  assoc "EVENT_TYPE" df.(f_cols) = Some ev -> ev <> [] -> Forall (fun v => is_str v = true) ev ->
  assoc "MONTH_NAME" df.(f_cols) = Some ms ->
  assoc col df.(f_cols) = Some vs -> Forall (fun v => is_str v = false) vs ->
  exists mt, storm_dashboard df sel col = Ok mt.
Proof.
  intros He Hne Hs Hm Hc Hv. unfold storm_dashboard, storm_event_options, get_col. rewrite He.
  cbv beta iota. rewrite bind_Ok. cbn [s_values].
  destruct (py_sorted_acc_str [] (uniques ev)) as (r & Hr & Hp & _);
    [constructor|constructor|by apply uniques_from_Forall|].
  unfold py_sorted. rewrite Hr, bind_Ok. destruct r as [|d r].
  - exfalso. destruct ev as [|x l]; [done|]. cbn in Hp. apply Permutation_nil_l in Hp. done.
  - rewrite bind_Ok. by apply (summaries_total _ _ _ _ ev ms vs).
Qed.

Lemma map_dashboard_total_ok df metric s st vs :
  assoc "state" df.(f_cols) = Some s -> assoc "STATE" df.(f_cols) = Some st ->
  assoc metric df.(f_cols) = Some vs -> Forall (fun v => is_str v = false) vs ->
  exists r, map_dashboard df metric = Ok r.
Proof.
  intros Hs Hst Hc Hv. unfold map_dashboard, get_col. rewrite Hs, Hst, Hc.
  cbv beta iota. rewrite !bind_Ok. cbn [s_values].
  destruct (groupby_sum_ok pair_eq pair_le pair_na (zip s st) vs Hv) as [gs Hgs].
  rewrite Hgs, bind_Ok. by eexists.
Qed.

(** ** Theorems *)

(** C18: The storm dashboard's totals chart ([total_summary], lines
    41-46): on a well-formed table whose chosen metric holds numbers or
    missing values, it has one row per distinct event type present among
    the selected rows, in sorted order, and that row's TOTAL is the exact
    sum of the metric over the selected rows of that type, missing
    values counting 0; the totals add up to the metric summed over the
    selected rows whose event type is present. *)
Theorem storm_dashboard_totals df sel col opts evs ms vs :
  frame_wf df -> storm_event_options df = Ok opts ->
  assoc "EVENT_TYPE" df.(f_cols) = Some evs -> assoc "MONTH_NAME" df.(f_cols) = Some ms ->
  assoc col df.(f_cols) = Some vs -> forallb num_cell vs = true ->
  let m := isin evs (default [opts.2] sel) in
  exists monthly qs,
    storm_dashboard df sel col =
      Ok (monthly, mkFrame (seq 0 (length qs))
                     [("EVENT_TYPE", group_keys key_eq key_le cell_isna (mask_filter m evs));
                      ("TOTAL", (fun q => CFloat (PFin q)) <$> qs)]) /\
    Sorted key_le (group_keys key_eq key_le cell_isna (mask_filter m evs)) /\
    Forall2 (fun k q => q == qsum (cell_q <$> mask_filter (group_mask key_eq (mask_filter m evs) k)
                                                         (mask_filter m vs)))%Q
            (group_keys key_eq key_le cell_isna (mask_filter m evs)) qs /\
    (qsum qs == qsum (cell_q <$> mask_filter ((fun k => negb (cell_isna k)) <$> mask_filter m evs)
                                             (mask_filter m vs)))%Q.
Proof.
  intros Hwf Ho He Hm Hv Hn m.
  destruct (summaries_num df "EVENT_TYPE" (default [opts.2] sel) col evs ms vs Hwf He Hm Hv Hn)
    as (qs & qm & rows & Hs & Hf & Hq & _).
  eexists _, qs. unfold storm_dashboard. rewrite Ho, bind_Ok, Hs.
  split; [reflexivity|]. split; [apply group_keys_sorted, key_le_total|]. done.
Qed.

(** C19: The storm dashboard's monthly chart (lines 32-38) lists each
    selected event type with each of the twelve months ([observed=False]
    on the categorical month), so it has twelve rows per event type; its
    rows are in calendar order; and its values add up to the metric over
    the selected rows whose event type is present and whose month is one
    of the twelve names of [month_order]. *)
Theorem storm_dashboard_monthly df sel col opts evs ms vs :
  frame_wf df -> storm_event_options df = Ok opts ->
  assoc "EVENT_TYPE" df.(f_cols) = Some evs -> assoc "MONTH_NAME" df.(f_cols) = Some ms ->
  assoc col df.(f_cols) = Some vs -> forallb num_cell vs = true ->
  let m := isin evs (default [opts.2] sel) in
  exists monthly total codes vals,
    storm_dashboard df sel col = Ok (monthly, total) /\
    length monthly.(f_index) = 12 * length (group_keys key_eq key_le cell_isna (mask_filter m evs)) /\
    assoc "MONTH_NAME" monthly.(f_cols) = Some ((fun c => CStr (month_name c)) <$> codes) /\
    Sorted le codes /\
    assoc "VALUE" monthly.(f_cols) = Some vals /\
    (qsum (cell_q <$> vals) ==
     qsum (cell_q <$> mask_filter ((fun r => negb (month_row_na r)) <$>
                                   zip (mask_filter m evs) (month_codes (mask_filter m ms)))
                                  (mask_filter m vs)))%Q.
Proof.
  intros Hwf Ho He Hm Hv Hn m.
  destruct (summaries_num df "EVENT_TYPE" (default [opts.2] sel) col evs ms vs Hwf He Hm Hv Hn)
    as (qs & qm & rows & Hs & _ & _ & Hp & Hsort & Hl & Hq).
  destruct (monthly_rows_facts rows _ qm Hp Hsort Hl) as (Hlen & Hcol & Hsc & Hval).
  eexists _, _, ((fun r => r.2.1.2) <$> rows), _. unfold storm_dashboard. rewrite Ho, bind_Ok, Hs.
  split; [reflexivity|]. cbn [f_index f_cols].
  split; [by rewrite length_fmap, Hlen, length_monthly_groups|].
  split; [by rewrite <- Hcol|]. split; [done|]. split; [reflexivity|]. by rewrite Hval.
Qed.

(** C20: The two charts of the storm dashboard disagree on rows whose
    month name is not one of the twelve names of [month_order] (for
    instance "may"): the categorical month makes them missing, so the
    monthly chart leaves them out while the totals chart counts them.
    The sum of the TOTAL column is the sum of the VALUE column plus the
    metric over the selected rows with a present event type and an
    unrecognised month. *)
Theorem storm_dashboard_month_gap df sel col opts evs ms vs :
  frame_wf df -> storm_event_options df = Ok opts ->
  assoc "EVENT_TYPE" df.(f_cols) = Some evs -> assoc "MONTH_NAME" df.(f_cols) = Some ms ->
  assoc col df.(f_cols) = Some vs -> forallb num_cell vs = true ->
  let m := isin evs (default [opts.2] sel) in
  exists monthly total vals tots,
    storm_dashboard df sel col = Ok (monthly, total) /\
    assoc "VALUE" monthly.(f_cols) = Some vals /\ assoc "TOTAL" total.(f_cols) = Some tots /\
    (qsum (cell_q <$> tots) ==
     qsum (cell_q <$> vals) +
     qsum (cell_q <$> mask_filter ((fun r => negb (cell_isna r.1) && bool_decide (r.2 = None)) <$>
                                   zip (mask_filter m evs) (month_codes (mask_filter m ms)))
                                  (mask_filter m vs)))%Q.
Proof.
  intros Hwf Ho He Hm Hv Hn m.
  destruct (summaries_num df "EVENT_TYPE" (default [opts.2] sel) col evs ms vs Hwf He Hm Hv Hn)
    as (qs & qm & rows & Hs & _ & Hq & Hp & Hsort & Hl & Hqm).
  destruct (monthly_rows_facts rows _ qm Hp Hsort Hl) as (_ & _ & _ & Hval).
  eexists _, _, _, _. unfold storm_dashboard. rewrite Ho, bind_Ok, Hs.
  split; [reflexivity|]. split; [reflexivity|]. split; [reflexivity|]. cbv zeta in *.
  rewrite qsum_totals, Hq, Hval, Hqm. apply notna_rows_split.
  - apply length_mask_filter. exact (wf_same_length df _ _ _ _ Hwf He Hv).
  - unfold month_codes. rewrite length_fmap. apply length_mask_filter.
    exact (wf_same_length df _ _ _ _ Hwf Hm Hv).
Qed.

(** C21: On a non-empty column of event-type strings, the storm
    dashboard offers the distinct event types sorted by code point
    ([sorted(df["EVENT_TYPE"].unique().tolist())], line 9) and
    preselects the first of them (line 10). *)
Theorem storm_event_options_sorted df evs :
  assoc "EVENT_TYPE" df.(f_cols) = Some evs -> evs <> [] -> Forall (fun v => is_str v = true) evs ->
  exists d rest, storm_event_options df = Ok (d :: rest, d) /\
    d :: rest ≡ₚ uniques evs /\ Sorted key_le (d :: rest).
Proof.
  intros He Hne Hs. unfold storm_event_options, get_col. rewrite He, bind_Ok. cbn [s_values].
  assert (Hu : Forall (fun v => is_str v = true) (uniques evs)).
  { apply list.Forall_forall. intros u Hu%uniques_from_sub. rewrite list.Forall_forall in Hs. by apply Hs. }
  destruct (py_sorted_acc_str [] (uniques evs) ltac:(constructor) ltac:(constructor) Hu)
    as (r & Hr & Hp & Hsr).
  unfold py_sorted. rewrite Hr, bind_Ok, app_nil_r in *.
  destruct r as [|d rest].
  - destruct evs as [|e evs]; [done|]. by apply Permutation_nil_cons in Hp.
  - by exists d, rest.
Qed.

(** C22: If the event-type column holds both a string and a value that
    is not a string (a missing event type is a float NaN), [sorted]
    compares them and raises [TypeError], so the storm dashboard fails
    before drawing anything. *)
Theorem storm_dashboard_type_error df sel col evs s v :
  assoc "EVENT_TYPE" df.(f_cols) = Some evs -> CStr s ∈ evs -> v ∈ evs -> is_str v = false ->
  storm_dashboard df sel col = Err TypeError_compare.
Proof.
  intros He Hs Hv Hnv. unfold storm_dashboard, storm_event_options, get_col. rewrite He, bind_Ok.
  cbn [s_values]. unfold py_sorted.
  destruct (uniques_complete _ _ Hs) as (u & Hu & Hsu). destruct (uniques_complete _ _ Hv) as (w & Hw & Hvw).
  rewrite py_sorted_acc_mixed; [reflexivity|by intros ?? ?%elem_of_nil| |].
  - exists u. split; [exact Hu|]. by rewrite <- (key_eq_is_str _ _ Hsu).
  - exists w. split; [exact Hw|]. by rewrite <- (key_eq_is_str _ _ Hvw).
Qed.

(** C23: On a table with no rows both the storm and the states
    dashboards raise [IndexError]: the list of options is empty and the
    default is taken as its first element (line 10). *)
Theorem dashboards_empty_table df sel sel' col :
  frame_wf df -> df.(f_index) = [] -> "EVENT_TYPE" ∈ col_names df -> "STATE" ∈ col_names df ->
  storm_dashboard df sel col = Err IndexError_list /\ states_dashboard df sel' col = Err IndexError_list.
Proof.
  intros Hwf Hi He Hs.
  destruct (assoc_is_Some _ _ He) as [evs Hevs]. destruct (assoc_is_Some _ _ Hs) as [sts Hsts].
  pose proof (wf_col_length df _ _ Hwf Hevs) as L1. pose proof (wf_col_length df _ _ Hwf Hsts) as L2.
  rewrite Hi in L1, L2. destruct evs; [|discriminate]. destruct sts; [|discriminate].
  unfold storm_dashboard, states_dashboard, storm_event_options, states_options, get_col.
  rewrite Hevs, Hsts. split; reflexivity.
Qed.

(** C24: The map ([map_dashboard.py], lines 19-24) has one row per
    distinct ([state], [STATE]) pair with both parts present, in sorted
    order, valued at the exact sum of the metric over its rows; the
    values add up to the metric over the rows whose two codes are both
    present, so a storm row whose state found no reference row (its
    [state] is missing after the join) is on no part of the map. *)
Theorem map_dashboard_total df metric ss sts vs :
  frame_wf df -> assoc "state" df.(f_cols) = Some ss -> assoc "STATE" df.(f_cols) = Some sts ->
  assoc metric df.(f_cols) = Some vs -> forallb num_cell vs = true ->
  exists qs, map_dashboard df metric =
      Ok (mkFrame (seq 0 (length qs))
            [("state", (group_keys pair_eq pair_le pair_na (zip ss sts)).*1);
             ("STATE", (group_keys pair_eq pair_le pair_na (zip ss sts)).*2);
             ("VALUE", (fun q => CFloat (PFin q)) <$> qs)]) /\
    Sorted pair_le (group_keys pair_eq pair_le pair_na (zip ss sts)) /\
    Forall2 (fun g q => q == qsum (cell_q <$> mask_filter (group_mask pair_eq (zip ss sts) g) vs))%Q
            (group_keys pair_eq pair_le pair_na (zip ss sts)) qs /\
    (qsum qs == qsum (cell_q <$> mask_filter ((fun g => negb (pair_na g)) <$> zip ss sts) vs))%Q.
Proof.
  intros Hwf Hs Hst Hv Hn. unfold map_dashboard, get_col. rewrite Hs, Hst, Hv, !bind_Ok. cbn [s_values].
  assert (Hl : length (zip ss sts) = length vs).
  { rewrite length_zip, (wf_same_length df _ _ _ _ Hwf Hs Hv), (wf_same_length df _ _ _ _ Hwf Hst Hv). lia. }
  destruct (groupby_sum_total pair_eq pair_le pair_na pair_eq_sym pair_eq_trans pair_eq_refl pair_eq_na
              (zip ss sts) vs Hl Hn) as (qs & Hg & Hf & Hq).
  rewrite Hg, bind_Ok. exists qs.
  assert (HL : length (group_keys pair_eq pair_le pair_na (zip ss sts)) = length qs)
    by (eapply Forall2_length; exact Hf).
  rewrite length_zip, length_fmap, (fmap_zip_fst (fun g => g.1)), (fmap_zip_fst (fun g => g.2)),
          (fmap_zip_snd (fun c : Cell => c)), list_fmap_id by (rewrite ?length_fmap; lia).
  split; [by replace (min _ _) with (length qs) by lia|].
  split; [apply group_keys_sorted, pair_le_total|]. done.
Qed.

(** ** Witnesses *)

(** Five storm rows: a lower-case month ("may"), a missing death count,
    a row whose state found no reference row (its [state] is missing). *)
Definition dash_events : list Cell :=
  [CStr "Hail"; CStr "Flood"; CStr "Hail"; CStr "Tornado"; CStr "Hail"].
Definition dash_months : list Cell :=
  [CStr "May"; CStr "June"; CStr "may"; CStr "May"; CStr "December"].
Definition dash_deaths : list Cell :=
  [CFloat (PFin 1); CFloat (PFin 2); CFloat (PFin 4); CFloat (PFin 8); NaN].
Definition dash_states : list Cell :=
  [CStr "OHIO"; CStr "IOWA"; CStr "OHIO"; CStr "TEXAS"; CStr "IOWA"].
Definition dash_codes : list Cell := [CStr "OH"; CStr "IA"; CStr "OH"; NaN; CStr "IA"].

Definition dash_table : Frame :=
  mkFrame [0; 1; 2; 3; 4]
    [("STATE", dash_states); ("MONTH_NAME", dash_months); ("EVENT_TYPE", dash_events);
     ("DEATHS_DIRECT", dash_deaths); ("state", dash_codes)].

Definition dash_opts : list Cell * Cell := ([CStr "Flood"; CStr "Hail"; CStr "Tornado"], CStr "Flood").

Definition dash_sel : option (list Cell) := Some [CStr "Hail"; CStr "Flood"].

Lemma storm_dashboard_totals_witness :
  let m := isin dash_events (default [dash_opts.2] dash_sel) in
  exists monthly qs,
    storm_dashboard dash_table dash_sel "DEATHS_DIRECT" =
      Ok (monthly, mkFrame (seq 0 (length qs))
                     [("EVENT_TYPE", group_keys key_eq key_le cell_isna (mask_filter m dash_events));
                      ("TOTAL", (fun q => CFloat (PFin q)) <$> qs)]) /\
    Sorted key_le (group_keys key_eq key_le cell_isna (mask_filter m dash_events)) /\
    Forall2 (fun k q => q == qsum (cell_q <$> mask_filter (group_mask key_eq (mask_filter m dash_events) k)
                                                         (mask_filter m dash_deaths)))%Q
            (group_keys key_eq key_le cell_isna (mask_filter m dash_events)) qs /\
    (qsum qs == qsum (cell_q <$> mask_filter ((fun k => negb (cell_isna k)) <$> mask_filter m dash_events)
                                             (mask_filter m dash_deaths)))%Q.
Proof.
  apply (storm_dashboard_totals dash_table dash_sel "DEATHS_DIRECT" dash_opts dash_events dash_months dash_deaths);
    [decide_true | vm_compute; reflexivity | reflexivity | reflexivity | reflexivity | reflexivity].
Defined.

Lemma storm_dashboard_monthly_witness :
  let m := isin dash_events (default [dash_opts.2] dash_sel) in
  exists monthly total codes vals,
    storm_dashboard dash_table dash_sel "DEATHS_DIRECT" = Ok (monthly, total) /\
    length monthly.(f_index) = 12 * length (group_keys key_eq key_le cell_isna (mask_filter m dash_events)) /\
    assoc "MONTH_NAME" monthly.(f_cols) = Some ((fun c => CStr (month_name c)) <$> codes) /\
    Sorted le codes /\
    assoc "VALUE" monthly.(f_cols) = Some vals /\
    (qsum (cell_q <$> vals) ==
     qsum (cell_q <$> mask_filter ((fun r => negb (month_row_na r)) <$>
                                   zip (mask_filter m dash_events) (month_codes (mask_filter m dash_months)))
                                  (mask_filter m dash_deaths)))%Q.
Proof.
  apply (storm_dashboard_monthly dash_table dash_sel "DEATHS_DIRECT" dash_opts dash_events dash_months dash_deaths);
    [decide_true | vm_compute; reflexivity | reflexivity | reflexivity | reflexivity | reflexivity].
Defined.

Lemma storm_dashboard_month_gap_witness :
  let m := isin dash_events (default [dash_opts.2] dash_sel) in
  exists monthly total vals tots,
    storm_dashboard dash_table dash_sel "DEATHS_DIRECT" = Ok (monthly, total) /\
    assoc "VALUE" monthly.(f_cols) = Some vals /\ assoc "TOTAL" total.(f_cols) = Some tots /\
    (qsum (cell_q <$> tots) ==
     qsum (cell_q <$> vals) +
     qsum (cell_q <$> mask_filter ((fun r => negb (cell_isna r.1) && bool_decide (r.2 = None)) <$>
                                   zip (mask_filter m dash_events) (month_codes (mask_filter m dash_months)))
                                  (mask_filter m dash_deaths)))%Q.
Proof.
  apply (storm_dashboard_month_gap dash_table dash_sel "DEATHS_DIRECT" dash_opts dash_events dash_months dash_deaths);
    [decide_true | vm_compute; reflexivity | reflexivity | reflexivity | reflexivity | reflexivity].
Defined.

Lemma storm_event_options_sorted_witness :
  exists d rest, storm_event_options dash_table = Ok (d :: rest, d) /\
    d :: rest ≡ₚ uniques dash_events /\ Sorted key_le (d :: rest).
Proof.
  apply storm_event_options_sorted; [reflexivity | discriminate | repeat constructor].
Defined.

Definition dash_bad : Frame :=
  mkFrame [0; 1] [("EVENT_TYPE", [CStr "Hail"; NaN]); ("MONTH_NAME", [CStr "May"; CStr "May"]);
                  ("DEATHS_DIRECT", [CFloat (PFin 1); CFloat (PFin 1)])].

Lemma storm_dashboard_type_error_witness :
  storm_dashboard dash_bad None "DEATHS_DIRECT" = Err TypeError_compare.
Proof.
  apply (storm_dashboard_type_error dash_bad None "DEATHS_DIRECT" [CStr "Hail"; NaN] "Hail" NaN);
    [reflexivity | left | right; left | reflexivity].
Defined.

Definition dash_empty : Frame :=
  mkFrame [] [("STATE", []); ("MONTH_NAME", []); ("EVENT_TYPE", []); ("DEATHS_DIRECT", [])].

Lemma dashboards_empty_table_witness :
  storm_dashboard dash_empty None "DEATHS_DIRECT" = Err IndexError_list /\
  states_dashboard dash_empty None "DEATHS_DIRECT" = Err IndexError_list.
Proof. apply dashboards_empty_table; [decide_true | reflexivity | decide_true | decide_true]. Defined.

Lemma map_dashboard_total_witness :
  exists qs, map_dashboard dash_table "DEATHS_DIRECT" =
      Ok (mkFrame (seq 0 (length qs))
            [("state", (group_keys pair_eq pair_le pair_na (zip dash_codes dash_states)).*1);
             ("STATE", (group_keys pair_eq pair_le pair_na (zip dash_codes dash_states)).*2);
             ("VALUE", (fun q => CFloat (PFin q)) <$> qs)]) /\
    Sorted pair_le (group_keys pair_eq pair_le pair_na (zip dash_codes dash_states)) /\
    Forall2 (fun g q => q == qsum (cell_q <$> mask_filter (group_mask pair_eq (zip dash_codes dash_states) g)
                                                         dash_deaths))%Q
            (group_keys pair_eq pair_le pair_na (zip dash_codes dash_states)) qs /\
    (qsum qs == qsum (cell_q <$> mask_filter ((fun g => negb (pair_na g)) <$> zip dash_codes dash_states)
                                             dash_deaths))%Q.
Proof.
  apply (map_dashboard_total dash_table "DEATHS_DIRECT" dash_codes dash_states dash_deaths);
    [decide_true | reflexivity | reflexivity | reflexivity | reflexivity].
Defined.

End Dashboards.
