(* ===== verification/Csv.v ===== *)
(** * Csv: the saved table as text

    [save_filtered_data] writes the cleaned table with
    [df.to_csv(path, index=False)] (get_data.py, lines 27-37), and each
    dashboard reads it back with [pd.read_csv(path)] (line 6 of the
    three dashboards).  This file models both ends as functions on the
    text of the file:
    - the writer ([to_csv_text]): the header line and one line per row,
      fields joined by commas and ended by a newline, each field quoted
      as Python's [csv] module does with [QUOTE_MINIMAL]; floats are
      written by [repr] ([float_repr]), missing values as the empty
      string ([na_rep='']);
    - the reader ([read_csv_text]): pandas' C tokenizer as a state
      machine over the characters ([tok]), the renaming of duplicate
      column names ([dedup_names]), the default NA strings, and the
      inference of a column's type ([read_column]).

    The theorems show that reading back what was written gives the
    records ([tok_write_lines]), that a written decimal float reads back
    as the same number ([float_repr_roundtrip]), and when the whole text
    round trip is the abstraction [save_and_reload] used by the rest of
    the development. *)

From Stdlib Require Import QArith Qfield Qpower Qreduction ZArith Ascii String.
From stdpp Require Import base list strings decidable gmap pretty.
From S2P Require Import Prelude PyStr PyFloat Frame Dashboards.

Module Csv.
Import Dashboards.Dashboards.

(** ** Floats as [repr] writes them *)

(** Python's [repr] of a float is the shortest decimal that reads back as
    the same double.  For a value that is itself a short decimal (every
    float the pipeline saves: damage amounts, FIPS codes, counts) that
    is the decimal itself, so the model writes the exact decimal
    expansion of the rational: its sign, its significant digits
    [D = d1 ... dn] (no leading or trailing zero) and the position
    [decpt] of the decimal point, [|x| = 0.D * 10^decpt].  [repr] uses
    fixed notation when the exponent [decpt - 1] is in [-4, 16) and
    scientific notation ([1e+16], [1.5e-05]) otherwise. *)

(** The scales tried when looking for a decimal expansion: a double's
    shortest [repr] has at most 17 significant digits and an exponent
    of at least -324, so its value is [m / 10^k] with [k < 342]. *)
Definition repr_scale_bound : nat := 342.

(** The smallest [k] below the bound with [d] dividing [10^k]. *)
Fixpoint dec_scale_from (d : Z) (k fuel : nat) : option nat :=
  match fuel with
  | O => None
  | S f => if (10 ^ Z.of_nat k mod d =? 0)%Z then Some k else dec_scale_from d (S k) f
  end.

(** The number of decimal digits of a positive integer, bounded. *)
Definition digit_fuel (m : Z) : nat := S (Z.to_nat (Z.log2 m)).

(** [(m, e)] with [m * 10^e] unchanged and [m] not a multiple of ten. *)
Fixpoint strip_zeros (fuel : nat) (m e : Z) : Z * Z :=
  match fuel with
  | O => (m, e)
  | S f => if (m mod 10 =? 0)%Z then strip_zeros f (m / 10) (e + 1) else (m, e)
  end.

(** The decimal digits of a positive integer, most significant first. *)
Fixpoint z_digits_aux (fuel : nat) (m : Z) (acc : list nat) : list nat :=
  match fuel with
  | O => acc
  | S f => if (m <=? 0)%Z then acc else z_digits_aux f (m / 10) (Z.to_nat (m mod 10) :: acc)
  end.

Definition z_digits (m : Z) : list nat := z_digits_aux (digit_fuel m) m [].

(** A nonzero value as [(negative, m, e)] with [|x| = m * 10^e], [m > 0]
    not a multiple of ten; [None] when the rational is not a decimal
    fraction within the bound. *)
Definition decimal_of (q : Q) : option (bool * Z * Z) :=
  let r := Qred q in
  match dec_scale_from (Zpos (Qden r)) 0 (S repr_scale_bound) with
  | Some k =>
      let m := (Qnum r * (10 ^ Z.of_nat k / Zpos (Qden r)))%Z in
      let '(m', e) := strip_zeros (digit_fuel (Z.abs m)) (Z.abs m) (- Z.of_nat k) in
      Some (m <? 0, m', e)%Z
  | None => None
  end.

(** The exponent of scientific notation: a sign and at least two digits. *)
Definition exp_digits (x : Z) : list nat :=
  let ds := z_digits (Z.abs x) in if (Z.abs x <? 10)%Z then 0 :: ds else ds.

(** [repr] from the sign, the significant digits and [decpt]. *)
Definition repr_digits (neg : bool) (D : list nat) (decpt : Z) : string :=
  let n := Z.of_nat (length D) in
  let x := (decpt - 1)%Z in
  ((if neg then "-" else "") ++
  (if (-4 <=? x)%Z && (x <? 16)%Z then
     if (decpt <=? 0)%Z then
       fixed_literal [0] (replicate (Z.to_nat (- decpt)) 0 ++ D)
     else if (decpt <? n)%Z then
       fixed_literal (take (Z.to_nat decpt) D) (drop (Z.to_nat decpt) D)
     else fixed_literal (D ++ replicate (Z.to_nat (decpt - n)) 0) [0]
   else
     digits_str (take 1 D) ++
     (if (n =? 1)%Z then "" else String "." (digits_str (drop 1 D))) ++
     String "e" (String (if (x <? 0)%Z then "-" else "+") (digits_str (exp_digits x)))))%string.

(** [repr] of a finite value.  A rational that is no decimal fraction
    within the bound is not a value the program makes; it is written as
    its expansion rounded down to 17 places, the precision of a double. *)
Definition repr_Q (q : Q) : string :=
  let q' := match decimal_of q with
            | Some _ => q
            | None => Qmake (Qnum q * 10 ^ 17 / Zpos (Qden q)) (10 ^ 17)
            end in
  match decimal_of q' with
  | Some (neg, m, e) =>
      if (m =? 0)%Z then "0.0"%string
      else let D := z_digits m in repr_digits neg D (Z.of_nat (length D) + e)
  | None => "0.0"%string
  end.

(** [repr] of a float: [inf], [-inf], [nan]. *)
Definition float_repr (x : PyFloat) : string :=
  match x with
  | PFin q => repr_Q q
  | PInf neg => if neg then "-inf" else "inf"
  | PNaN => "nan"
  end.

(** A cell as [to_csv] writes it: missing values ([None], [NaN]) as
    [na_rep = ''], floats by [repr], strings as they are. *)
Definition cell_text (v : Cell) : string :=
  match v with
  | CNone | CFloat PNaN => ""
  | CFloat x => float_repr x
  | CStr s => s
  end.

(** ** Fields and lines as [csv.writer] writes them *)

(** The quote character, character 34. *)
Definition dq : ascii := ascii_of_nat 34.

Definition nl : ascii := ascii_of_nat 10.

Definition cr : ascii := ascii_of_nat 13.

(** The characters that make [QUOTE_MINIMAL] quote a field: the
    delimiter, the quote character and the line-break characters
    ([Modules/_csv.c], [join_append_data]). *)
Definition special_char (c : ascii) : bool :=
  bool_decide (c = ","%char) || bool_decide (c = dq) || bool_decide (c = nl) || bool_decide (c = cr).

Fixpoint double_quotes (s : string) : string :=
  match s with
  | EmptyString => EmptyString
  | String c s' => if bool_decide (c = dq) then String dq (String dq (double_quotes s'))
                   else String c (double_quotes s')
  end.

(** A field between quotes, each quote inside doubled. *)
Definition quoted (s : string) : string := String dq (double_quotes s ++ String dq EmptyString).

Definition quote_field (s : string) : string :=
  if str_all (fun c => negb (special_char c)) s then s else quoted s.

(** The fields of a record joined by commas.  A record of one empty
    field is written [""], so that it is not read as a blank line. *)
Fixpoint join_fields (fs : list string) : string :=
  match fs with
  | [] => EmptyString
  | [f] => quote_field f
  | f :: fs' => quote_field f ++ String "," (join_fields fs')
  end.

Definition write_record (fs : list string) : string :=
  match fs with
  | [f] => if bool_decide (f = EmptyString) then quoted EmptyString else quote_field f
  | _ => join_fields fs
  end.

(** Each record on its own line, ended by [lineterminator = os.linesep],
    a newline on the platforms the dashboards run on. *)
Fixpoint write_lines (recs : list (list string)) : string :=
  match recs with
  | [] => EmptyString
  | r :: recs' => write_record r ++ String nl (write_lines recs')
  end.

(** The records of [df.to_csv(index=False)]: the column names, then for
    each row its cells in column order. *)
Definition frame_records (df : Frame) : list (list string) :=
  (fst <$> df.(f_cols)) ::
  ((fun i => (fun c => cell_text (cell_at c.2 i)) <$> df.(f_cols)) <$> seq 0 (length df.(f_index))).

(** The text of the file [save_filtered_data] writes. *)
Definition to_csv_text (df : Frame) : string := write_lines (frame_records df).

(** ** The tokenizer of [pd.read_csv]

    The states of pandas' C tokenizer ([pandas/_libs/src/parser/
    tokenizer.c], [tokenize_bytes]) with the default dialect: comma
    delimiter, double-quote quoting, no escape character, blank lines
    skipped.  A carriage return ends a line as a newline does; the
    newline of a [\r\n] pair then starts a blank line, which is
    skipped. *)
Inductive tstate : Type :=
  | StartRecord
  | StartField
  | InField
  | InQuoted
  | QuoteInQuoted.

(** What a character does in a state: move to a state ([Keep]), add a
    character to the field ([Push]), end the field ([EndField]) or end
    the field and the record ([EndRecord]). *)
Inductive taction : Type :=
  | Keep (st : tstate)
  | Push (c : ascii) (st : tstate)
  | EndField
  | EndRecord.

Definition is_eol (c : ascii) : bool := bool_decide (c = nl) || bool_decide (c = cr).

Definition step_field (c : ascii) : taction :=
  if bool_decide (c = dq) then Keep InQuoted
  else if bool_decide (c = ","%char) then EndField
  else if is_eol c then EndRecord
  else Push c InField.

Definition step (st : tstate) (c : ascii) : taction :=
  match st with
  | StartRecord => if is_eol c then Keep StartRecord else step_field c
  | StartField => step_field c
  | InField =>
      if bool_decide (c = ","%char) then EndField
      else if is_eol c then EndRecord
      else Push c InField
  | InQuoted => if bool_decide (c = dq) then Keep QuoteInQuoted else Push c InQuoted
  | QuoteInQuoted =>
      if bool_decide (c = dq) then Push dq InQuoted
      else if bool_decide (c = ","%char) then EndField
      else if is_eol c then EndRecord
      else Push c InField
  end.

(** The field read so far is kept reversed. *)
Definition flush (fld : list ascii) : string := string_of_list_ascii (rev fld).

(** The records of a text, from a state, the current field and the
    fields of the current record (reversed).  The end of the text ends
    the current record; inside a quoted field it is an error. *)
Fixpoint tok (st : tstate) (fld : list ascii) (rec : list string) (s : string)
    : Result (list (list string)) :=
  match s with
  | EmptyString =>
      match st with
      | StartRecord => mret []
      | InQuoted => Err ParserError_eof
      | _ => mret [rev (flush fld :: rec)]
      end
  | String c s' =>
      match step st c with
      | Keep st' => tok st' fld rec s'
      | Push d st' => tok st' (d :: fld) rec s'
      | EndField => tok StartField [] (flush fld :: rec) s'
      | EndRecord => cons (rev (flush fld :: rec)) <$> tok StartRecord [] [] s'
      end
  end.

Definition tokenize (s : string) : Result (list (list string)) := tok StartRecord [] [] s.

(** ** From records to a table *)

(** The default missing-value strings of [read_csv]
    ([pandas._libs.parsers.STR_NA_VALUES]), matched exactly, quoted or
    not. *)
Definition na_strings : list string :=
  [""; "#N/A"; "#N/A N/A"; "#NA"; "-1.#IND"; "-1.#QNAN"; "-NaN"; "-nan";
   "1.#IND"; "1.#QNAN"; "<NA>"; "N/A"; "NA"; "NULL"; "NaN"; "None";
   "n/a"; "nan"; "null"].

Definition is_na_string (s : string) : bool := bool_decide (s ∈ na_strings).

(** A field as a number ([_try_double]): [xstrtod], then the words
    [inf] and [infinity] with their signs, as [pd.to_numeric] reads a
    string ([floatify]). *)
Definition csv_number (s : string) : option PyFloat := floatify s.

Definition number_or_na (s : string) : bool := is_na_string s || bool_decide (is_Some (csv_number s)).

(** The column of a field list.  When every field is a missing-value
    string or a number the column is numeric (an integer column is a
    column of integral floats here), missing values [NaN]; otherwise it
    is a column of strings with [NaN] for the missing values.  (A
    column of [True]/[False] strings, which pandas reads as booleans,
    has no counterpart among the cells of this development.) *)
Definition read_number (f : string) : Cell :=
  if is_na_string f then NaN else CFloat (default PNaN (csv_number f)).

Definition read_text (f : string) : Cell := if is_na_string f then NaN else CStr f.

Definition read_column (fs : list string) : list Cell :=
  if forallb number_or_na fs then read_number <$> fs else read_text <$> fs.

(** An empty header name becomes ["Unnamed: i"], [i] the column's
    position. *)
Definition header_name (i : nat) (s : string) : string :=
  if bool_decide (s = EmptyString) then ("Unnamed: " +:+ pretty (N.of_nat i))%string else s.

(** The renaming of duplicate names ([pandas.io.common.dedup_names]):
    [counts] is the [defaultdict(int)] of the source, the [while] loop
    appends [.k] until the name has count 0.  The loop is given [fuel]
    iterations ([dedup_names_total] shows it needs no more). *)
Definition count_of (counts : gmap string nat) (c : string) : nat := default 0 (counts !! c).

Fixpoint dedup_loop (fuel : nat) (counts : gmap string nat) (col : string) (cur : nat)
    : option (gmap string nat * string * nat) :=
  match fuel with
  | O => None
  | S f =>
      if bool_decide (cur = 0) then Some (counts, col, cur)
      else let counts' := <[col := S cur]> counts in
           let col' := (col +:+ "." +:+ pretty (N.of_nat cur))%string in
           dedup_loop f counts' col' (count_of counts' col')
  end.

Fixpoint dedup_from (fuel : nat) (counts : gmap string nat) (names : list string)
    : option (list string) :=
  match names with
  | [] => Some []
  | col :: names' =>
      '(counts', col', cur) ← dedup_loop fuel counts col (count_of counts col);
      cons col' <$> dedup_from fuel (<[col' := S cur]> counts') names'
  end.

Definition dedup_names (names : list string) : option (list string) :=
  dedup_from (S (length names)) ∅ names.

(** The column names of a header record. *)
Definition header_names (hdr : list string) : list string :=
  let hs := zip_with header_name (seq 0 (length hdr)) hdr in
  default hs (dedup_names hs).

(** [pd.read_csv(text)] with the default arguments.  A text without a
    line has no columns ([EmptyDataError]); a line with more fields than
    the header is a [ParserError]; a shorter line is completed with
    missing values.  The rows get the labels [0..n-1].  (When the first
    line after the header has exactly one field more, pandas takes the
    first column as the index; [to_csv] never writes such a file, and
    the model raises the [ParserError] there.) *)
Definition read_records (hdr : list string) (rows : list (list string)) : Result Frame :=
  let n := length hdr in
  match list_find (fun r => n < length r) rows with
  | Some (_, r) => Err (ParserError_fields n (length r))
  | None =>
      let rows' := (fun r => r ++ replicate (n - length r) EmptyString) <$> rows in
      mret (mkFrame (seq 0 (length rows))
              (zip (header_names hdr)
                   ((fun j => read_column ((fun r => default EmptyString (r !! j)) <$> rows')) <$> seq 0 n)))
  end.

Definition read_csv_text (s : string) : Result Frame :=
  recs ← tokenize s;
  match recs with
  | [] => Err EmptyDataError
  | hdr :: rows => read_records hdr rows
  end.

(** ** The tokenizer reads back what the writer writes *)

Definition plain (s : string) : bool := str_all (fun c => negb (special_char c)) s.

(** What the separator after a field does: a comma starts the next field
    of the record, a newline ends the record. *)
Definition after_field (c : ascii) (f : string) (rec : list string) (rest : string)
    : Result (list (list string)) :=
  if bool_decide (c = ","%char) then tok StartField [] (f :: rec) rest
  else cons (rev (f :: rec)) <$> tok StartRecord [] [] rest.

Definition separator (c : ascii) : Prop := c = ","%char \/ c = nl.

(** Decide the character comparisons of a tokenizer step. *)
Ltac bdec :=
  repeat ((rewrite bool_decide_eq_true_2 by done) || (rewrite bool_decide_eq_false_2 by done));
  cbn [orb andb].

Ltac tok_simp := cbn [tok step]; unfold step_field, is_eol; bdec.

Lemma special_char_false c :
  special_char c = false -> c <> ","%char /\ c <> dq /\ is_eol c = false.
Proof.
  unfold special_char, is_eol. intros H.
  repeat rewrite orb_false_iff in H. destruct H as [[[H1 H2] H3] H4].
  apply bool_decide_eq_false in H1, H2, H3, H4. repeat split; try done.
  by rewrite !bool_decide_eq_false_2.
Qed.

Lemma flush_rev s : flush (rev (list_ascii_of_string s)) = s.
Proof. unfold flush. by rewrite rev_involutive, string_of_list_ascii_of_string. Qed.

Lemma tok_plain fld rec s rest :
  plain s = true ->
  tok InField fld rec (s ++ rest) = tok InField (rev (list_ascii_of_string s) ++ fld) rec rest.
Proof.
  revert fld. induction s as [|c s IH]; intros fld Hs; [done|].
  cbn in Hs. apply andb_prop in Hs as [Hc Hs]. apply negb_true_iff in Hc.
  destruct (special_char_false c Hc) as (H1 & H2 & H3).
  rewrite str_app_cons. cbn [tok step]. rewrite bool_decide_eq_false_2 by done. rewrite H3.
  rewrite IH by done. cbn [list_ascii_of_string rev]. by rewrite <- app_assoc.
Qed.

Lemma tok_double_quotes fld rec s rest :
  tok InQuoted fld rec (double_quotes s ++ String dq rest)
  = tok QuoteInQuoted (rev (list_ascii_of_string s) ++ fld) rec rest.
Proof.
  revert fld. induction s as [|c s IH]; intros fld.
  - rewrite str_app_nil_l. cbn [tok step]. by rewrite bool_decide_eq_true_2.
  - cbn [double_quotes list_ascii_of_string rev]. rewrite <- app_assoc.
    case_bool_decide as Hc.
    + subst c. rewrite !str_app_cons. cbn [tok step].
      rewrite !bool_decide_eq_true_2 by done. apply IH.
    + rewrite str_app_cons. cbn [tok step]. rewrite bool_decide_eq_false_2 by done. apply IH.
Qed.

Lemma tok_end st fld rec c rest :
  st = InField \/ st = QuoteInQuoted -> separator c ->
  tok st fld rec (String c rest) = after_field c (flush fld) rec rest.
Proof.
  intros Hst [-> | ->]; unfold after_field; destruct Hst as [-> | ->]; tok_simp; done.
Qed.

Lemma tok_quoted st f rec c rest :
  st = StartField \/ st = StartRecord -> separator c ->
  tok st [] rec (quoted f ++ String c rest) = after_field c f rec rest.
Proof.
  intros Hst Hc. unfold quoted. rewrite str_app_cons, <- str_app_assoc, str_app_cons, str_app_nil_l.
  assert (Hq : tok st [] rec (String dq (double_quotes f ++ String dq (String c rest)))
               = tok InQuoted [] rec (double_quotes f ++ String dq (String c rest))).
  { destruct Hst as [-> | ->]; cbn [tok step step_field is_eol];
      by rewrite ?bool_decide_eq_true_2, ?bool_decide_eq_false_2. }
  rewrite Hq, tok_double_quotes, tok_end by auto.
  by rewrite app_nil_r, flush_rev.
Qed.

Lemma tok_field st f rec c rest :
  st = StartField \/ (st = StartRecord /\ (f <> EmptyString \/ c = ","%char)) -> separator c ->
  tok st [] rec (quote_field f ++ String c rest) = after_field c f rec rest.
Proof.
  intros Hst Hc. unfold quote_field. destruct (str_all _ f) eqn:Hp.
  2: { apply tok_quoted; [tauto | done]. }
  destruct f as [|c0 f'].
  - rewrite str_app_nil_l. unfold after_field.
    destruct Hc as [-> | ->]; destruct Hst as [-> | [-> [? | ?]]]; try done; tok_simp; done.
  - cbn in Hp. apply andb_prop in Hp as [H0 Hp]. apply negb_true_iff in H0.
    destruct (special_char_false c0 H0) as (H1 & H2 & H3).
    rewrite str_app_cons.
    assert (Hs : tok st [] rec (String c0 (f' ++ String c rest))
                 = tok InField [c0] rec (f' ++ String c rest)).
    { destruct Hst as [-> | [-> _]]; cbn [tok step]; rewrite ?H3; unfold step_field;
        rewrite H3; bdec; done. }
    rewrite Hs, tok_plain, tok_end by auto.
    by rewrite <- (flush_rev (String c0 f')).
Qed.

Lemma tok_join fs st rec rest :
  fs <> [] -> st = StartField \/ (st = StartRecord /\ fs <> [EmptyString]) ->
  tok st [] rec (join_fields fs ++ String nl rest) = cons (rev rec ++ fs) <$> tok StartRecord [] [] rest.
Proof.
  revert st rec. induction fs as [|f fs IH]; intros st rec Hfs Hst; [done|].
  destruct fs as [|f' fs'].
  - cbn [join_fields]. rewrite tok_field by (right; reflexivity) || (destruct Hst as [|[? ?]]; [by left|right; split; [done|left; congruence]]).
    unfold after_field. by rewrite bool_decide_eq_false_2.
  - cbn [join_fields]. rewrite <- str_app_assoc, str_app_cons.
    change (quote_field f ++ String "," (join_fields (f' :: fs') ++ String nl rest))%string
      with (quote_field f ++ String "," (join_fields (f' :: fs') ++ String nl rest))%string.
    rewrite tok_field by (destruct Hst as [|[? ?]]; [by left | right; split; [done | by right]]) || (left; done).
    unfold after_field. rewrite bool_decide_eq_true_2 by done.
    rewrite IH by (done || by left). cbn [rev]. by rewrite <- app_assoc.
Qed.

Lemma tok_write_record r rest :
  r <> [] ->
  tok StartRecord [] [] (write_record r ++ String nl rest) = cons r <$> tok StartRecord [] [] rest.
Proof.
  intros Hr. destruct r as [|f [|f' fs]]; [done| |].
  - cbn [write_record]. case_bool_decide as Hf.
    + subst f. rewrite tok_quoted by (by right) || (by right). unfold after_field.
      by rewrite bool_decide_eq_false_2.
    + apply (tok_join [f] StartRecord [] rest); [done | right; split; [done | congruence]].
  - apply (tok_join (f :: f' :: fs) StartRecord [] rest); [done | right; split; done].
Qed.

(** ** [repr] reads back as the same number *)

(** The shapes of what [repr] writes: an optional sign, digits, an
    optional fraction and an optional exponent. *)
Definition sign_str (neg : bool) : string := if neg then "-" else "".

Definition frac_str (fs : list nat) : string :=
  match fs with [] => EmptyString | _ => String "." (digits_str fs) end.

Definition exp_str (neg : bool) (es : list nat) : string :=
  String "e" (String (if neg then "-" else "+") (digits_str es)).

Inductive exp_part : string -> Z -> Prop :=
  | exp_none : exp_part EmptyString 0
  | exp_some en es : es <> [] -> is_digits es ->
      exp_part (exp_str en es) (if en then - digits_val 0 es else digits_val 0 es)%Z.

(** The characters of a written number. *)
Definition lit_char (c : ascii) : bool :=
  is_digit c || bool_decide (c = "."%char) || bool_decide (c = "e"%char)
  || bool_decide (c = "+"%char) || bool_decide (c = "-"%char).

Lemma lit_char_facts c :
  lit_char c = true -> c_isspace c = false /\ negb (bool_decide (c = "_"%char)) = true.
Proof. ascii_cases c. Qed.

Lemma c_skip_space_lit s : str_all lit_char s = true -> c_skip_space s = s.
Proof.
  destruct s as [|c s]; [done|]. cbn. intros [Hc _]%andb_prop.
  by rewrite (proj1 (lit_char_facts c Hc)).
Qed.

Lemma digits_str_lit ds : is_digits ds -> str_all lit_char (digits_str ds) = true.
Proof.
  intros H. apply (str_all_impl is_digit); [|by apply digits_str_digits].
  intros c Hc. unfold lit_char. by rewrite Hc.
Qed.

Lemma exp_part_facts rest e2 :
  exp_part rest e2 ->
  digit_boundary rest = true /\ skip_char "." rest = None /\
  parse_exponent rest = Some (e2, EmptyString) /\ str_all lit_char rest = true.
Proof.
  destruct 1 as [|en es Hne Hes]; [done|].
  destruct es as [|d es']; [done|]. inversion Hes as [|? ? Hd _]; subst.
  repeat split.
  - cbn [exp_str parse_exponent]. rewrite bool_decide_eq_true_2 by done. cbn [orb].
    assert (Hsg : parse_sign (String (if en then "-" else "+") (digits_str (d :: es')))
                  = (en, digits_str (d :: es'))) by (destruct en; done).
    rewrite Hsg, <- (str_app_nil_r (digits_str (d :: es'))), digitpart_str by done.
    by destruct en.
  - cbn [exp_str str_all]. rewrite digits_str_lit by done. by destruct en.
Qed.

Lemma parse_number_lit ds fs rest :
  ds <> [] -> is_digits ds -> is_digits fs -> digit_boundary rest = true -> skip_char "." rest = None ->
  parse_number (digits_str ds ++ frac_str fs ++ rest)
  = Some (digits_val 0 (ds ++ fs), (- Z.of_nat (length fs))%Z, rest).
Proof.
  intros Hne Hds Hfs Hb Hdot. destruct ds as [|d ds']; [done|].
  unfold parse_number. destruct fs as [|f fs'].
  - rewrite str_app_nil_l, digitpart_str, Hdot by done. by rewrite app_nil_r.
  - cbn [frac_str]. rewrite str_app_cons.
    rewrite digitpart_str by done. rewrite skip_char_same, digitpart_str by done.
    rewrite digits_val_app, (digits_val_acc (digits_val 0 (d :: ds'))). cbn [length]. do 3 f_equal; lia.
Qed.

Definition sgn (neg : bool) (x : Z) : Z := if neg then (- x)%Z else x.

(** [xstrtod] reads a literal of that shape as [±I.F * 10^e]. *)
Lemma csv_number_lit neg ds fs rest e2 :
  ds <> [] -> is_digits ds -> is_digits fs -> exp_part rest e2 ->
  let M := digits_val 0 (ds ++ fs) in
  csv_number (sign_str neg ++ digits_str ds ++ frac_str fs ++ rest)
  = Some (PFin (dec_to_Q (sgn neg M) (- Z.of_nat (length fs) + e2))).
Proof.
  intros Hne Hds Hfs He M. destruct (exp_part_facts _ _ He) as (Hb & Hdot & Hexp & Hlit).
  assert (Hall : str_all lit_char (sign_str neg ++ digits_str ds ++ frac_str fs ++ rest) = true).
  { assert (Hf : str_all lit_char (frac_str fs) = true).
    { destruct fs; [done|]. cbn [frac_str str_all]. rewrite (digits_str_lit _ Hfs). reflexivity. }
    rewrite !str_all_app, digits_str_lit, Hlit, Hf by done. by destruct neg. }
  unfold csv_number, floatify, xstrtod.
  rewrite (str_all_impl lit_char _ _ (fun c Hc => proj2 (lit_char_facts c Hc)) Hall).
  cbn [negb]. rewrite c_skip_space_lit by done.
  destruct ds as [|d ds']; [done|]. inversion Hds as [|? ? Hd _]; subst.
  assert (Hsg : parse_sign (sign_str neg ++ digits_str (d :: ds') ++ frac_str fs ++ rest)
                = (neg, digits_str (d :: ds') ++ frac_str fs ++ rest)%string).
  { destruct neg; cbn [sign_str digits_str]; rewrite ?str_app_nil_l, ?str_app_cons; [done|].
    apply parse_sign_digit, is_digit_char, Hd. }
  rewrite Hsg. cbv beta iota zeta. rewrite parse_number_lit, Hexp by done.
  cbn [c_skip_space]. by rewrite bool_decide_eq_true_2.
Qed.

(** [m * 10^e] as a power of ten. *)
Lemma dec_to_Q_pow m e : dec_to_Q m e == inject_Z m * (inject_Z 10 ^ e).
Proof.
  unfold dec_to_Q. destruct (Z.leb_spec 0 e) as [He|He].
  - by rewrite inject_Z_mult, Zpower_Qpower.
  - rewrite <- (Z.opp_involutive e) at 2. rewrite Qpower_opp, <- Zpower_Qpower by lia.
    assert (Hp : (0 < 10 ^ (- e))%Z) by (apply Z.pow_pos_nonneg; lia).
    unfold Qeq, Qmult, Qinv, inject_Z. simpl.
    destruct (10 ^ (- e))%Z eqn:E; [lia| |lia]. simpl. lia.
Qed.

Lemma ten_nonzero : ~ inject_Z 10 == 0.
Proof. done. Qed.

(** Moving a factor [10^j] of the mantissa into the exponent. *)
Lemma dec_value_shift neg m j E E' :
  (0 <= j)%Z -> E' = (E + j)%Z ->
  dec_to_Q (sgn neg (m * 10 ^ j)) E == inject_Z (sgn neg m) * inject_Z 10 ^ E'.
Proof.
  intros Hj ->. rewrite dec_to_Q_pow, Qpower_plus by apply ten_nonzero.
  rewrite <- (Zpower_Qpower 10 j) by done. unfold sgn.
  destruct neg; rewrite ?inject_Z_opp, inject_Z_mult; ring.
Qed.

Lemma digits_val_zeros j : digits_val 0 (replicate j 0) = 0%Z.
Proof. induction j as [|j IH]; [done|]. exact IH. Qed.

Lemma digits_val_zeros_l j D : digits_val 0 (replicate j 0 ++ D) = digits_val 0 D.
Proof. by rewrite digits_val_app, digits_val_zeros. Qed.

Lemma digits_val_zeros_r D j :
  digits_val 0 (D ++ replicate j 0) = (digits_val 0 D * 10 ^ Z.of_nat j)%Z.
Proof. rewrite digits_val_app, digits_val_acc, digits_val_zeros, length_replicate. lia. Qed.

Lemma is_digits_app ds fs : is_digits ds -> is_digits fs -> is_digits (ds ++ fs).
Proof. apply Forall_app_2. Qed.

Lemma is_digits_zeros j : is_digits (replicate j 0).
Proof. apply Forall_replicate. lia. Qed.

Lemma is_digits_take k D : is_digits D -> is_digits (take k D).
Proof. apply Forall_take. Qed.

Lemma is_digits_drop k D : is_digits D -> is_digits (drop k D).
Proof. apply Forall_drop. Qed.

#[local] Hint Resolve is_digits_app is_digits_zeros is_digits_take is_digits_drop : core.

(** ** Decimal digits of an integer *)

Lemma z_digits_aux_spec fuel m acc :
  (0 <= m)%Z -> (m < 10 ^ Z.of_nat fuel)%Z -> is_digits acc ->
  is_digits (z_digits_aux fuel m acc) /\
  digits_val 0 (z_digits_aux fuel m acc) = (m * 10 ^ Z.of_nat (length acc) + digits_val 0 acc)%Z /\
  ((0 < m)%Z -> length acc < length (z_digits_aux fuel m acc)).
Proof.
  revert m acc. induction fuel as [|f IH]; intros m acc H0 Hlt Hacc; cbn [z_digits_aux].
  - assert (m = 0%Z) as -> by (cbn in Hlt; lia). split_and!; [done|lia|lia].
  - destruct (Z.leb_spec m 0) as [Hm|Hm].
    + assert (m = 0%Z) as -> by lia. split_and!; [done|lia|lia].
    + pose proof (Z.div_mod m 10 ltac:(lia)) as Hdm. pose proof (Z.mod_pos_bound m 10 ltac:(lia)).
      assert (Hq : (m / 10 < 10 ^ Z.of_nat f)%Z).
      { rewrite Nat2Z.inj_succ, Z.pow_succ_r in Hlt by lia. lia. }
      destruct (IH (m / 10)%Z (Z.to_nat (m mod 10) :: acc)) as (Hd & Hv & Hl);
        [apply Z.div_pos; lia | done | constructor; [lia | done] |].
      split_and!; [done| |].
      * rewrite Hv. cbn [length].
        replace (digits_val 0 (Z.to_nat (m mod 10) :: acc))
          with (digits_val (Z.of_nat (Z.to_nat (m mod 10))) acc) by reflexivity.
        rewrite digits_val_acc, Nat2Z.inj_succ, Z.pow_succ_r, Z2Nat.id by lia. nia.
      * intros _. destruct (Z.ltb_spec 0 (m / 10)) as [Hp|Hp].
        -- specialize (Hl Hp). cbn [length] in Hl. lia.
        -- assert (m / 10 = 0)%Z as Hz by (pose proof (Z.div_pos m 10); lia).
           rewrite Hz. destruct f; cbn; lia.
Qed.

Lemma digit_fuel_bound m : (0 <= m)%Z -> (m < 10 ^ Z.of_nat (digit_fuel m))%Z.
Proof.
  intros Hm. unfold digit_fuel. rewrite Nat2Z.inj_succ, Z2Nat.id by apply Z.log2_nonneg.
  destruct (Z.eq_dec m 0%Z) as [->|Hm0]; [reflexivity|].
  destruct (Z.log2_spec m) as [_ H2]; [lia|].
  eapply Z.lt_le_trans; [exact H2|]. apply Z.pow_le_mono_l. split; [lia|]. lia.
Qed.

Lemma z_digits_spec m :
  (0 <= m)%Z ->
  is_digits (z_digits m) /\ digits_val 0 (z_digits m) = m /\ ((0 < m)%Z -> z_digits m <> []).
Proof.
  intros Hm. unfold z_digits.
  destruct (z_digits_aux_spec (digit_fuel m) m [] Hm (digit_fuel_bound m Hm) ltac:(constructor))
    as (Hd & Hv & Hl).
  split_and!; [done | rewrite Hv; cbn; lia |].
  intros Hp Hnil. specialize (Hl Hp). rewrite Hnil in Hl. cbn in Hl. lia.
Qed.

(** ** The decimal expansion of a rational *)

Lemma strip_zeros_spec fuel m e :
  (0 <= m)%Z ->
  let '(m', e') := strip_zeros fuel m e in
  (0 <= m')%Z /\ ((0 < m)%Z -> (0 < m')%Z) /\
  inject_Z m' * inject_Z 10 ^ e' == inject_Z m * inject_Z 10 ^ e.
Proof.
  revert m e. induction fuel as [|f IH]; intros m e Hm; cbn [strip_zeros]; [done|].
  destruct (Z.eqb_spec (m mod 10) 0) as [H0|H0]; [|done].
  pose proof (Z.div_mod m 10 ltac:(lia)) as Hdm. rewrite H0, Z.add_0_r in Hdm.
  specialize (IH (m / 10)%Z (e + 1)%Z ltac:(apply Z.div_pos; lia)).
  destruct (strip_zeros f (m / 10) (e + 1)) as [m' e']. destruct IH as (H1 & H2 & H3).
  split_and!; [done | intros Hp; apply H2; lia |].
  rewrite H3, Qpower_plus by apply ten_nonzero.
  rewrite Hdm at 2. rewrite inject_Z_mult, Qpower_1_r. ring.
Qed.

Lemma dec_scale_from_spec d k0 fuel k :
  dec_scale_from d k0 fuel = Some k -> (10 ^ Z.of_nat k mod d = 0)%Z.
Proof.
  revert k0. induction fuel as [|f IH]; intros k0; cbn; [done|].
  destruct (Z.eqb_spec (10 ^ Z.of_nat k0 mod d) 0); [congruence | apply IH].
Qed.

Lemma dec_scale_from_found d k0 fuel k :
  (d <> 0)%Z -> (d | 10 ^ Z.of_nat k)%Z -> k0 <= k < k0 + fuel ->
  is_Some (dec_scale_from d k0 fuel).
Proof.
  intros Hd Hdiv. revert k0. induction fuel as [|f IH]; intros k0 Hk; cbn; [lia|].
  destruct (Z.eqb_spec (10 ^ Z.of_nat k0 mod d) 0); [by eexists|].
  destruct (decide (k0 = k)) as [->|Hne]; [by apply Z.mod_divide in Hdiv|].
  apply IH. lia.
Qed.

(** The reduced denominator of [z / p] divides [p]. *)
Lemma Qred_den_divide z p : (Zpos (Qden (Qred (z # p))) | Zpos p)%Z.
Proof.
  unfold Qred. pose proof (Z.ggcd_correct_divisors z (Zpos p)) as Hc.
  pose proof (Z.ggcd_gcd z (Zpos p)) as Hg.
  destruct (Z.ggcd z (Zpos p)) as [g [a b]]. cbn in Hg |- *. destruct Hc as [_ Hb].
  assert (0 <= g)%Z by (rewrite Hg; apply Z.gcd_nonneg).
  assert (0 < b)%Z by nia.
  rewrite Z2Pos.id by done. exists g. lia.
Qed.

Lemma decimal_of_spec q neg m e :
  decimal_of q = Some (neg, m, e) ->
  (0 <= m)%Z /\ q == inject_Z (sgn neg m) * inject_Z 10 ^ e.
Proof.
  unfold decimal_of. intros H. rewrite <- (Qred_correct q). revert H.
  destruct (Qred q) as [n dn]. cbn [Qnum Qden].
  destruct (dec_scale_from _ 0 _) as [k|] eqn:Hk; [|done].
  apply dec_scale_from_spec in Hk.
  set (d := Zpos dn) in *. set (m0 := (n * (10 ^ Z.of_nat k / d))%Z).
  pose proof (strip_zeros_spec (digit_fuel (Z.abs m0)) (Z.abs m0) (- Z.of_nat k) ltac:(lia)) as Hs.
  destruct (strip_zeros _ _ _) as [m' e']. intros [= <- <- <-]. destruct Hs as (H1 & _ & H3).
  split; [done|].
  assert (Hsg : inject_Z (sgn (m0 <? 0)%Z m') * inject_Z 10 ^ e'
                == inject_Z m0 * inject_Z 10 ^ (- Z.of_nat k)).
  { unfold sgn. destruct (Z.ltb_spec m0 0).
    - transitivity (- (inject_Z m' * inject_Z 10 ^ e')); [rewrite inject_Z_opp; ring|].
      rewrite H3, Z.abs_neq, inject_Z_opp by lia. ring.
    - by rewrite H3, Z.abs_eq by lia. }
  rewrite Hsg, Qpower_opp, <- Zpower_Qpower by lia.
  assert (Hp : (0 < 10 ^ Z.of_nat k)%Z) by (apply Z.pow_pos_nonneg; lia).
  pose proof (Z_div_exact_full_2 (10 ^ Z.of_nat k) d ltac:(lia) Hk) as Hex.
  assert (Hc : (0 < 10 ^ Z.of_nat k / d)%Z) by (apply Z.div_str_pos; split; [lia|apply Z.mod_divide in Hk; [apply Z.divide_pos_le in Hk; lia|lia]]).
  rewrite Qmake_Qdiv. subst m0. rewrite Hex at 2. rewrite !inject_Z_mult.
  unfold d in *. field. split; unfold Qeq; cbn; lia.
Qed.

Lemma decimal_of_exists q z k :
  k <= repr_scale_bound -> q == inject_Z z / inject_Z (10 ^ Z.of_nat k) ->
  is_Some (decimal_of q).
Proof.
  intros Hk Hq. unfold decimal_of.
  assert (Hp : (0 < 10 ^ Z.of_nat k)%Z) by (apply Z.pow_pos_nonneg; lia).
  assert (Hr : Qred q = Qred (z # Z.to_pos (10 ^ Z.of_nat k))).
  { apply Qred_complete. rewrite Hq, Qmake_Qdiv, Z2Pos.id by done. reflexivity. }
  destruct (dec_scale_from_found (Zpos (Qden (Qred q))) 0 (S repr_scale_bound) k) as [k' Hk'];
    [done | | lia |].
  - rewrite Hr. rewrite <- (Z2Pos.id (10 ^ Z.of_nat k)) at 2 by done. apply Qred_den_divide.
  - rewrite Hk'. destruct (strip_zeros _ _ _). by eexists.
Qed.

(** ** What [repr] writes reads back *)

(** A list is not empty because of its length. *)
Ltac nonempty_len :=
  rewrite <- length_zero_iff_nil; rewrite ?length_app, ?length_take, ?length_drop, ?length_replicate;
  cbn [length]; lia.

Lemma fixed_literal_frac ds fs :
  fs <> [] -> fixed_literal ds fs = (digits_str ds ++ frac_str fs ++ EmptyString)%string.
Proof. intros Hfs. destruct fs; [done|]. by rewrite str_app_nil_r. Qed.

Lemma exp_digits_spec x :
  is_digits (exp_digits x) /\ exp_digits x <> [] /\ digits_val 0 (exp_digits x) = Z.abs x.
Proof.
  destruct (z_digits_spec (Z.abs x) ltac:(lia)) as (Hd & Hv & Hne).
  unfold exp_digits. destruct (Z.ltb_spec (Z.abs x) 10).
  - split_and!; [by constructor; [lia|] | done | exact Hv].
  - split_and!; [done | apply Hne; lia | exact Hv].
Qed.

Lemma exp_part_repr x : exp_part (exp_str (x <? 0)%Z (exp_digits x)) x.
Proof.
  destruct (exp_digits_spec x) as (Hd & Hne & Hv).
  pose proof (exp_some (x <? 0)%Z (exp_digits x) Hne Hd) as H. rewrite Hv in H.
  replace (if (x <? 0)%Z then - Z.abs x else Z.abs x)%Z with x in H
    by (destruct (Z.ltb_spec x 0); lia).
  exact H.
Qed.

(** The side conditions of [csv_number_lit]. *)
Ltac lit_side :=
  first [done | apply exp_part_repr | (by constructor) | nonempty_len
        | (apply Forall_singleton; lia) | auto].

(** The literal [repr] writes from [D] and [decpt] reads back as
    [±0.D * 10^decpt]. *)
Lemma repr_digits_value neg D decpt :
  D <> [] -> is_digits D ->
  exists v, csv_number (repr_digits neg D decpt) = Some (PFin v) /\
    v == inject_Z (sgn neg (digits_val 0 D)) * inject_Z 10 ^ (decpt - Z.of_nat (length D)).
Proof.
  intros Hne HD. assert (Hn : 0 < length D) by (destruct D; [done|cbn; lia]).
  unfold repr_digits. change (if neg then "-" else "")%string with (sign_str neg).
  destruct ((-4 <=? decpt - 1)%Z && (decpt - 1 <? 16)%Z).
  - destruct (Z.leb_spec decpt 0) as [H0|H0]; [|destruct (Z.ltb_spec decpt (Z.of_nat (length D))) as [H1|H1]].
    + rewrite fixed_literal_frac by nonempty_len.
      rewrite (csv_number_lit _ _ _ _ 0%Z) by lit_side. eexists; split; [reflexivity|].
      rewrite dec_to_Q_pow. cbn [app]. change (digits_val 0 (0 :: ?l)) with (digits_val 0 l).
      rewrite digits_val_zeros_l, length_app, length_replicate. do 2 f_equiv; lia.
    + rewrite fixed_literal_frac by nonempty_len.
      rewrite (csv_number_lit _ _ _ _ 0%Z) by lit_side.
      eexists; split; [reflexivity|].
      rewrite dec_to_Q_pow, take_drop, length_drop. do 2 f_equiv; lia.
    + rewrite fixed_literal_frac by done.
      rewrite (csv_number_lit _ _ _ _ 0%Z) by lit_side.
      eexists; split; [reflexivity|].
      rewrite <- app_assoc, <- (replicate_S_end (Z.to_nat (decpt - Z.of_nat (length D))) 0).
      rewrite digits_val_zeros_r. apply dec_value_shift; [lia|]. cbn [length]. lia.
  - assert (Hfr : (if (Z.of_nat (length D) =? 1)%Z then EmptyString else String "." (digits_str (drop 1 D)))
                  = frac_str (drop 1 D)).
    { destruct D as [|d [|d' D']]; [done|done|]. cbn [length]. by rewrite (proj2 (Z.eqb_neq _ 1)) by lia. }
    rewrite Hfr. change (String "e" (String (if (?x <? 0)%Z then "-" else "+") ?s))
      with (exp_str (x <? 0)%Z (exp_digits (decpt - 1))).
    rewrite (csv_number_lit _ _ _ _ (decpt - 1)%Z) by lit_side.
    eexists; split; [reflexivity|].
    rewrite dec_to_Q_pow, take_drop, length_drop. do 2 f_equiv; lia.
Qed.

Lemma repr_Q_decimal q :
  is_Some (decimal_of q) -> exists v, csv_number (repr_Q q) = Some (PFin v) /\ v == q.
Proof.
  intros [[[neg m] e] Hd]. destruct (decimal_of_spec q neg m e Hd) as [Hm Hq].
  unfold repr_Q. rewrite Hd, Hd. destruct (Z.eqb_spec m 0) as [->|Hm0].
  - eexists; split; [vm_compute; reflexivity|]. rewrite Hq. destruct neg; vm_compute; reflexivity.
  - destruct (z_digits_spec m Hm) as (HD & Hv & Hne).
    destruct (repr_digits_value neg (z_digits m) (Z.of_nat (length (z_digits m)) + e))
      as (v & Hv' & Heq); [apply Hne; lia | done |].
    exists v. split; [done|]. rewrite Heq, Hq, Hv. do 2 f_equiv. lia.
Qed.

(** ** Reading back a column *)

(** The missing-value strings are no numbers, except the spellings of
    [nan]. *)
Lemma na_string_number s :
  is_na_string s = true -> csv_number s = None \/ csv_number s = Some PNaN.
Proof.
  unfold is_na_string. intros H%bool_decide_eq_true_1.
  repeat (apply elem_of_cons in H as [->|H]; [vm_compute; auto|]). by apply elem_of_nil in H.
Qed.

Lemma number_not_na s x : csv_number s = Some x -> x <> PNaN -> is_na_string s = false.
Proof.
  intros Hs Hx. destruct (is_na_string s) eqn:Hna; [|done].
  destruct (na_string_number s Hna); congruence.
Qed.

(** A value [to_csv] writes in a numeric column: a missing value, an
    infinity, or a finite decimal within the bound of [repr]. *)
Definition decimal_Q (q : Q) : Prop :=
  exists z k, k <= repr_scale_bound /\ q == inject_Z z / inject_Z (10 ^ Z.of_nat k).

Definition numeric_cell (v : Cell) : Prop :=
  match v with
  | CNone => True
  | CFloat (PFin q) => decimal_Q q
  | CFloat _ => True
  | CStr _ => False
  end.

(** A value of a text column: a missing value or a string that is not a
    missing-value string. *)
Definition text_cell (v : Cell) : Prop :=
  match v with
  | CNone | CFloat PNaN => True
  | CFloat _ => False
  | CStr s => is_na_string s = false
  end.

(** What reading back can give at best: [None] comes back as [NaN]. *)
Definition na_norm (v : Cell) : Cell := match v with CNone => NaN | _ => v end.

Lemma read_number_cell v :
  numeric_cell v -> number_or_na (cell_text v) = true /\ read_number (cell_text v) ≡ na_norm v.
Proof.
  destruct v as [|[q|[]|]|s]; cbn [numeric_cell]; intros Hv; [| | | | |done];
    try (split; [reflexivity | unfold read_number; vm_compute; done]).
  destruct Hv as (z & k & Hk & Hq).
  destruct (repr_Q_decimal q (decimal_of_exists q z k Hk Hq)) as (v & Hr & Hvq).
  cbn [cell_text float_repr]. unfold number_or_na, read_number.
  rewrite (number_not_na _ _ Hr) by done. rewrite Hr. split; [done|]. exact Hvq.
Qed.

Lemma read_text_cell v : text_cell v -> read_text (cell_text v) = na_norm v.
Proof.
  destruct v as [|[q|b|]|s]; cbn [text_cell]; intros Hv; try done.
  cbn [cell_text]. unfold read_text. by rewrite Hv.
Qed.

(** A column [to_csv] writes and [read_csv] reads back: all numbers and
    missing values, or strings and missing values with at least one
    string that is not a number (otherwise pandas reads the column as
    numbers). *)
Definition csv_column (vs : list Cell) : Prop :=
  Forall numeric_cell vs \/ (Forall text_cell vs /\ exists s, CStr s ∈ vs /\ csv_number s = None).

Lemma read_column_text vs : csv_column vs -> read_column (cell_text <$> vs) ≡ na_norm <$> vs.
Proof.
  unfold read_column. intros [Hn | [Ht (s & Hs & Hnum)]].
  - assert (Hall : forallb number_or_na (cell_text <$> vs) = true).
    { apply forallb_forall. intros f (v & -> & Hv)%list_elem_of_In%list_elem_of_fmap.
      apply read_number_cell. by eapply Forall_forall. }
    rewrite Hall. clear Hall. induction Hn as [|v vs Hv _ IH]; [done|].
    cbn. constructor; [apply read_number_cell, Hv | exact IH].
  - assert (Hall : forallb number_or_na (cell_text <$> vs) = false).
    { apply not_true_iff_false. intros Hall. rewrite forallb_forall in Hall.
      assert (Hts : text_cell (CStr s)) by (eapply Forall_forall; eauto).
      specialize (Hall (cell_text (CStr s)) ltac:(apply list_elem_of_In, list_elem_of_fmap; eauto)).
      cbn in Hall, Hts. unfold number_or_na in Hall. rewrite Hts, Hnum in Hall. done. }
    rewrite Hall. clear -Ht. induction Ht as [|v vs Hv _ IH]; [done|].
    cbn. rewrite read_text_cell by done. by constructor.
Qed.

(** ** Reading back the header *)

Lemma header_name_nonempty i s : s <> EmptyString -> header_name i s = s.
Proof. intros Hs. unfold header_name. by rewrite bool_decide_eq_false_2. Qed.

Lemma zip_header_names k names :
  Forall (fun s => s <> EmptyString) names ->
  zip_with header_name (seq k (length names)) names = names.
Proof.
  intros H. revert k. induction H as [|s names Hs _ IH]; intros k; [done|].
  cbn. by rewrite header_name_nonempty, IH.
Qed.

(** Distinct names are not renamed. *)
Lemma dedup_from_nodup fuel counts names :
  NoDup names -> (forall c, c ∈ names -> counts !! c = None) ->
  dedup_from (S fuel) counts names = Some names.
Proof.
  intros Hnd. revert counts. induction Hnd as [|c names Hc _ IH]; intros counts Hfree; [done|].
  cbn [dedup_from]. unfold count_of. rewrite (Hfree c) by set_solver. cbn.
  rewrite bool_decide_eq_true_2 by done. cbn. rewrite IH; [done|]. intros c' Hc'. rewrite lookup_insert_ne by set_solver.
  apply Hfree. set_solver.
Qed.

Lemma header_names_nodup names :
  NoDup names -> Forall (fun s => s <> EmptyString) names -> header_names names = names.
Proof.
  intros Hnd Hne. unfold header_names. rewrite zip_header_names by done.
  unfold dedup_names. by rewrite dedup_from_nodup.
Qed.

(** ** Reading back a whole file *)

Lemma tok_lines recs :
  Forall (fun r => r <> []) recs -> tok StartRecord [] [] (write_lines recs) = Ok recs.
Proof.
  induction 1 as [|r recs Hr _ IH]; [done|].
  cbn [write_lines]. by rewrite tok_write_record, IH.
Qed.

(** A function of the position [j] that is a function of the [j]-th
    element. *)
Lemma fmap_seq_lookup {A B} (l : list A) (F : nat -> B) (G : A -> B) :
  (forall j x, l !! j = Some x -> F j = G x) -> F <$> seq 0 (length l) = G <$> l.
Proof.
  intros H. apply list_eq. intros j. rewrite !list_lookup_fmap.
  destruct (l !! j) as [x|] eqn:E.
  - rewrite lookup_seq_lt by (by eapply lookup_lt_Some). cbn. f_equal. by apply H.
  - rewrite lookup_seq_ge by (by apply lookup_ge_None). done.
Qed.

Lemma zip_fst_fmap {A B C} (l : list (A * B)) (g : A * B -> C) :
  zip (fst <$> l) (g <$> l) = (fun c => (c.1, g c)) <$> l.
Proof. induction l as [|c l IH]; [done|]. cbn. by rewrite IH. Qed.

(** The rows of [to_csv]: row [i] holds the [i]-th cell of each column. *)
Definition table_rows (cols : list (string * list Cell)) (m : nat) : list (list string) :=
  (fun i => (fun c => cell_text (cell_at c.2 i)) <$> cols) <$> seq 0 m.

Lemma table_rows_column cols m j c :
  Forall (fun c => length c.2 = m) cols -> cols !! j = Some c ->
  (fun r => default EmptyString (r !! j)) <$> table_rows cols m = cell_text <$> c.2.
Proof.
  intros Hlen Hj. unfold table_rows. rewrite <- list_fmap_compose.
  assert (Hm : length c.2 = m) by exact (Forall_lookup_1 (fun c => length c.2 = m) cols j c Hlen Hj).
  subst m.
  rewrite <- (cell_at_seq c.2) at 2. rewrite <- list_fmap_compose.
  apply list_fmap_ext. intros i x _. cbn. by rewrite list_lookup_fmap, Hj.
Qed.

Lemma read_records_table cols m :
  Forall (fun c => length c.2 = m) cols ->
  read_records (fst <$> cols) (table_rows cols m)
  = Ok (mkFrame (seq 0 m) (zip (header_names (fst <$> cols))
                               ((fun c => read_column (cell_text <$> c.2)) <$> cols))).
Proof.
  intros Hlen. unfold read_records.
  assert (Hrow : Forall (fun r => length r = length (fst <$> cols)) (table_rows cols m)).
  { apply Forall_forall. intros r (i & -> & _)%list_elem_of_fmap. by rewrite !length_fmap. }
  destruct (list_find _ _) as [[i r]|] eqn:Hf.
  { apply list_find_Some in Hf as (Hr & Hlt & _).
    apply (Forall_lookup_1 _ _ _ _ Hrow) in Hr. lia. }
  assert (Hpad : (fun r => r ++ replicate (length (fst <$> cols) - length r) EmptyString)
                   <$> table_rows cols m = table_rows cols m).
  { rewrite <- (list_fmap_id (table_rows cols m)) at 2. apply list_fmap_ext.
    intros i r Hr. apply (Forall_lookup_1 _ _ _ _ Hrow) in Hr. rewrite Hr, Nat.sub_diag.
    apply app_nil_r. }
  rewrite Hpad. unfold table_rows at 1. rewrite length_fmap, length_seq.
  rewrite length_fmap, (fmap_seq_lookup cols _ (fun c => read_column (cell_text <$> c.2))); [done|].
  intros j c Hj. by rewrite (table_rows_column cols m j c Hlen Hj).
Qed.

(** What [read_csv] gives back from the text [to_csv] writes, for any
    table with a column: the rows labelled [0..n-1], the header names as
    [read_csv] reads them, and each column as its cells' text reads
    back. *)
Lemma read_to_csv_text df :
  Forall (fun c => length c.2 = length df.(f_index)) df.(f_cols) -> df.(f_cols) <> [] ->
  read_csv_text (to_csv_text df)
  = Ok (mkFrame (seq 0 (length df.(f_index)))
          (zip (header_names (col_names df)) ((fun c => read_column (cell_text <$> c.2)) <$> df.(f_cols)))).
Proof.
  intros Hlen Hne.
  assert (Hrecs : Forall (fun r => r <> []) (frame_records df)).
  { constructor; [by intros ?%fmap_nil_inv|].
    apply Forall_forall. intros r (i & -> & _)%list_elem_of_fmap. by intros ?%fmap_nil_inv. }
  unfold read_csv_text, tokenize, to_csv_text. rewrite tok_lines by done.
  change (frame_records df) with ((fst <$> df.(f_cols)) :: table_rows df.(f_cols) (length df.(f_index))).
  cbn [mbind Result_bind]. by rewrite read_records_table.
Qed.

(** ** The renaming loop ends, and renames to distinct names *)

(** The keys at least as long as [col]: each turn of the [while] loop
    moves to a longer name that is already a key, so this number
    decreases. *)
Definition longer_keys (counts : gmap string nat) (col : string) : nat :=
  size (filter (fun k => String.length col <= String.length k) (dom counts)).

Lemma longer_keys_lt counts col col' :
  col ∈ dom counts -> String.length col < String.length col' -> longer_keys counts col' < longer_keys counts col.
Proof.
  intros Hc Hlt. apply subset_size. split.
  - intros k. rewrite !elem_of_filter. intros [Hk Hd]. split; [lia|done].
  - intros Hsub. assert (Hin : col ∈ filter (fun k => String.length col <= String.length k) (dom counts))
      by (apply elem_of_filter; split; [lia|done]).
    apply Hsub, elem_of_filter in Hin. lia.
Qed.

Lemma longer_keys_le counts col : longer_keys counts col <= size (dom counts).
Proof. apply subseteq_size. intros k. rewrite elem_of_filter. tauto. Qed.

Lemma count_of_pos counts c : count_of counts c <> 0 -> c ∈ dom counts.
Proof. unfold count_of. rewrite elem_of_dom. destruct (counts !! c); cbn; [by eexists|done]. Qed.

Lemma count_of_zero counts c :
  map_Forall (fun _ v => 0 < v) counts -> count_of counts c = 0 -> c ∉ dom counts.
Proof.
  unfold count_of. intros Hpos Hz [v Hv]%elem_of_dom. rewrite Hv in Hz. cbn in Hz.
  specialize (Hpos c v Hv). cbn in Hpos. lia.
Qed.

Lemma length_dot_suffix col k : String.length col < String.length (col +:+ "." +:+ k)%string.
Proof. induction col as [|c col IH]; rewrite ?str_app_nil_l, str_app_cons; cbn; lia. Qed.

(** The loop returns within [fuel] turns, at a name of count 0, having
    only raised the counts of existing keys. *)
Lemma dedup_loop_spec fuel counts col :
  longer_keys counts col < fuel ->
  exists counts' col', dedup_loop fuel counts col (count_of counts col) = Some (counts', col', 0) /\
    dom counts' = dom counts /\ count_of counts' col' = 0 /\
    (map_Forall (fun _ v => 0 < v) counts -> map_Forall (fun _ v => 0 < v) counts').
Proof.
  revert counts col. induction fuel as [|f IH]; intros counts col Hf; [lia|].
  cbn [dedup_loop]. case_bool_decide as Hz.
  { exists counts, col. rewrite <- Hz. by split_and!. }
  apply count_of_pos in Hz as Hin.
  set (col' := (col +:+ "." +:+ pretty (N.of_nat (count_of counts col)))%string).
  set (counts' := <[col := S (count_of counts col)]> counts).
  assert (Hdom : dom counts' = dom counts) by (unfold counts'; rewrite dom_insert_L; set_solver).
  destruct (IH counts' col') as (c2 & col2 & Hl & Hd & Hc & Hp).
  { unfold longer_keys at 1. rewrite Hdom. fold (longer_keys counts col').
    pose proof (longer_keys_lt counts col col' Hin (length_dot_suffix _ _)). lia. }
  exists c2, col2. split_and!; [done | congruence | done |].
  intros Hpos. apply Hp, map_Forall_insert_2; [lia | done].
Qed.

Lemma dedup_from_spec fuel counts names :
  size (dom counts) + length names < fuel -> map_Forall (fun _ v => 0 < v) counts ->
  exists out, dedup_from fuel counts names = Some out /\ length out = length names /\
    NoDup out /\ Forall (fun c => c ∉ dom counts) out.
Proof.
  revert counts. induction names as [|col names IH]; intros counts Hf Hpos.
  { exists []. split_and!; [done | done | constructor | constructor]. }
  destruct (dedup_loop_spec fuel counts col) as (c1 & col1 & Hl & Hd & Hc & Hp).
  { pose proof (longer_keys_le counts col). cbn in Hf. lia. }
  assert (Hout : col1 ∉ dom counts) by (rewrite <- Hd; exact (count_of_zero c1 col1 (Hp Hpos) Hc)).
  destruct (IH (<[col1 := 1]> c1)) as (out & Hr & Hlen & Hnd & Hfr).
  { rewrite dom_insert_L, size_union, size_singleton, Hd by set_solver. cbn in Hf. lia. }
  { apply map_Forall_insert_2; [lia | by apply Hp]. }
  exists (col1 :: out). cbn [dedup_from]. rewrite Hl. cbn. rewrite Hr.
  split_and!; [done | cbn; lia | |].
  - constructor; [|done]. intros Hin. eapply Forall_forall in Hfr; [|exact Hin].
    rewrite dom_insert_L in Hfr. set_solver.
  - constructor; [done|]. eapply Forall_impl; [exact Hfr|]. intros c Hc'.
    rewrite dom_insert_L, Hd in Hc'. set_solver.
Qed.

(** ** The table [read_csv] builds *)

Lemma length_read_column fs : length (read_column fs) = length fs.
Proof. unfold read_column. destruct (forallb _ _); apply length_fmap. Qed.

Lemma header_names_spec hdr :
  length (header_names hdr) = length hdr /\ NoDup (header_names hdr).
Proof.
  unfold header_names, dedup_names.
  set (hs := zip_with header_name (seq 0 (length hdr)) hdr).
  assert (Hl : length hs = length hdr) by (unfold hs; rewrite length_zip_with, length_seq; lia).
  destruct (dedup_from_spec (S (length hs)) ∅ hs) as (out & -> & Hlen & Hnd & _).
  - rewrite dom_empty_L, size_empty. lia.
  - apply map_Forall_empty.
  - cbn. split; [lia | done].
Qed.

(** ** Names without a dot survive the renaming *)

(** The renamed names all hold a dot, so a name without one is in the
    renamed header exactly when it is in the header. *)
Definition no_dot (s : string) : Prop := str_all (fun c => negb (bool_decide (c = "."%char))) s = true.

Lemma dot_suffix_not_no_dot x y : ~ no_dot (x +:+ "." +:+ y)%string.
Proof.
  unfold no_dot. rewrite str_all_app, str_app_cons. cbn [str_all].
  rewrite bool_decide_eq_true_2 by done. cbn. by rewrite andb_false_r.
Qed.

Lemma dedup_loop_Some fuel counts col c1 col1 cur1 :
  dedup_loop fuel counts col (count_of counts col) = Some (c1, col1, cur1) ->
  dom c1 = dom counts /\
  ((count_of counts col = 0 /\ col1 = col) \/
   (count_of counts col <> 0 /\ exists x y, col1 = (x +:+ "." +:+ y)%string)).
Proof.
  revert counts col. induction fuel as [|f IH]; intros counts col H; [done|].
  cbn [dedup_loop] in H. case_bool_decide as Hz.
  { injection H as <- <- <-. split; [done|]. by left. }
  apply count_of_pos in Hz as Hin. apply IH in H as [Hd Hcase]. split.
  - rewrite Hd, dom_insert_L. set_solver.
  - right. split; [done|]. destruct Hcase as [[_ ->] | [_ Hxy]]; [by eexists _, _ | done].
Qed.

Lemma dedup_from_mem fuel counts names out c :
  dedup_from fuel counts names = Some out -> no_dot c ->
  (c ∈ out \/ c ∈ dom counts) <-> (c ∈ names \/ c ∈ dom counts).
Proof.
  revert counts out. induction names as [|col names IH]; intros counts out H Hc.
  { injection H as <-. set_solver. }
  cbn [dedup_from] in H.
  destruct (dedup_loop fuel counts col (count_of counts col)) as [[[c1 col1] cur1]|] eqn:Hl;
    [|discriminate].
  cbn in H. destruct (dedup_from fuel (<[col1 := S cur1]> c1) names) as [out'|] eqn:Hr;
    [|discriminate].
  injection H as <-. apply dedup_loop_Some in Hl as [Hd Hcase].
  specialize (IH _ _ Hr Hc). rewrite dom_insert_L, Hd in IH.
  destruct Hcase as [[_ ->] | [Hnz (x & y & ->)]].
  - set_solver.
  - assert (c <> (x +:+ "." +:+ y)%string) by (intros ->; by apply (dot_suffix_not_no_dot x y)).
    apply count_of_pos in Hnz. set_solver.
Qed.

Lemma header_names_mem names c :
  Forall (fun s => s <> EmptyString) names -> no_dot c ->
  c ∈ header_names names <-> c ∈ names.
Proof.
  intros Hne Hc. unfold header_names. rewrite zip_header_names by done. unfold dedup_names.
  destruct (dedup_from_spec (S (length names)) ∅ names) as (out & Hr & _).
  - rewrite dom_empty_L, size_empty. lia.
  - apply map_Forall_empty.
  - rewrite Hr. cbn. pose proof (dedup_from_mem _ _ _ _ c Hr Hc) as H.
    rewrite dom_empty_L in H. set_solver.
Qed.

(** Each renamed name is a name of the header or holds a dot. *)
Lemma dedup_from_origin fuel counts names out :
  dedup_from fuel counts names = Some out ->
  Forall (fun c => c ∈ names \/ exists x y, c = (x +:+ "." +:+ y)%string) out.
Proof.
  revert counts out. induction names as [|col names IH]; intros counts out H.
  { by injection H as <-. }
  cbn [dedup_from] in H.
  destruct (dedup_loop fuel counts col (count_of counts col)) as [[[c1 col1] cur1]|] eqn:Hl;
    [|discriminate].
  cbn in H. destruct (dedup_from fuel (<[col1 := S cur1]> c1) names) as [out'|] eqn:Hr;
    [|discriminate].
  injection H as <-. apply dedup_loop_Some in Hl as [_ Hcase]. constructor.
  - destruct Hcase as [[_ ->] | [_ Hxy]]; [left; constructor | by right].
  - eapply Forall_impl; [exact (IH _ _ Hr)|]. intros c [Hc|Hc]; [left; by constructor | by right].
Qed.

Lemma header_name_not_empty i s : header_name i s <> EmptyString.
Proof. unfold header_name. case_bool_decide; [|done]. by rewrite str_app_cons. Qed.

(** [read_csv] never names a column with the empty string. *)
Lemma header_names_nonempty hdr : Forall (fun c => c <> EmptyString) (header_names hdr).
Proof.
  unfold header_names, dedup_names.
  set (hs := zip_with header_name (seq 0 (length hdr)) hdr).
  assert (Hhs : Forall (fun c => c <> EmptyString) hs).
  { unfold hs. generalize 0. induction hdr as [|h hdr IH]; intros k; cbn; constructor; auto.
    apply header_name_not_empty. }
  destruct (dedup_from_spec (S (length hs)) ∅ hs) as (out & Hr & _).
  - rewrite dom_empty_L, size_empty. lia.
  - apply map_Forall_empty.
  - rewrite Hr. cbn. eapply Forall_impl; [exact (dedup_from_origin _ _ _ _ Hr)|].
    intros c [Hc | (x & y & ->)].
    + by eapply Forall_forall in Hhs.
    + intros Hxy. destruct x; rewrite ?str_app_nil_l, str_app_cons in Hxy; discriminate.
Qed.

(** The tables [read_csv] returns: well formed, no empty column name. *)
Lemma read_csv_text_shape s df :
  read_csv_text s = Ok df -> frame_wf df /\ Forall (fun c => c <> EmptyString) (col_names df).
Proof.
  unfold read_csv_text. destruct (tokenize s) as [recs|e]; cbn; [|discriminate].
  destruct recs as [|hdr rows]; [discriminate|]. unfold read_records.
  destruct (list_find _ _) as [[i r]|]; [discriminate|]. intros [= <-].
  destruct (header_names_spec hdr) as [Hl Hnd]. unfold frame_wf, col_names. cbn [f_index f_cols].
  rewrite fst_zip by (rewrite length_fmap, length_seq, Hl; lia).
  split; [split|]; [| done | apply header_names_nonempty].
  apply (Forall_zip_snd (fun v => length v = length (seq 0 (length rows)))).
  apply Forall_fmap, Forall_forall. intros j _. cbn.
  by rewrite length_read_column, !length_fmap, length_seq.
Qed.

(** ** Where reading back is not the identity

    Outside the conditions of [to_csv_read_csv] the table the dashboards
    read differs from the one the pipeline saved: a string column whose
    values all look like numbers comes back as numbers (["001"] as
    [1.0]), a string that is a missing-value string comes back as
    [NaN], and a column mixing numbers and strings comes back as
    strings (the float [1.0] as ["1.0"]). *)
Example reload_changes_values :
  read_csv_text (to_csv_text
    (mkFrame [4; 7] [("CZ_NAME", [CStr "001"; CStr "2"]);
                     ("EVENT_TYPE", [CStr "None"; CStr "Hail"]);
                     ("MIXED", [CFloat (PFin 1); CStr "x"])]))
  = Ok (mkFrame [0; 1] [("CZ_NAME", [CFloat (PFin 1); CFloat (PFin 2)]);
                        ("EVENT_TYPE", [NaN; CStr "Hail"]);
                        ("MIXED", [CStr "1.0"; CStr "x"])]).
Proof. vm_compute. reflexivity. Qed.

(** ** Theorems *)

(** Reading back the text [save_filtered_data] writes gives the
    table the dashboards are modelled to read ([save_and_reload]): the
    same row labels [0..n-1], the same column names in the same order,
    and each column's values, up to [None] coming back as [NaN] and
    floats compared as numbers, provided the table is well formed, has a
    column, has no empty column name, and each column is either numbers
    (finite decimals, infinities) and missing values, or strings that
    are not missing-value strings with missing values and at least one
    string that is not a number.  This is a statement on the model of
    [read_csv]: a column whose strings are all [True] or [False] comes
    back from pandas as booleans, which [read_column] keeps as
    strings. *)
Theorem to_csv_read_csv (df : Frame) :
  frame_wf df -> df.(f_cols) <> [] ->
  Forall (fun c => c.1 <> EmptyString /\ csv_column c.2) df.(f_cols) ->
  exists df', read_csv_text (to_csv_text df) = Ok df' /\
    df'.(f_index) = (save_and_reload df).(f_index) /\
    Forall2 (fun c c' => c.1 = c'.1 /\ c.2 ≡ na_norm <$> c'.2) df'.(f_cols) (save_and_reload df).(f_cols).
Proof.
  intros [Hlen Hnd] Hne Hcols. rewrite read_to_csv_text by done. unfold col_names.
  rewrite header_names_nodup by (done || by apply Forall_fmap; eapply Forall_impl; [exact Hcols|]; intros c [? ?]).
  rewrite zip_fst_fmap. eexists; split; [reflexivity|]. split; [done|]. cbn [save_and_reload f_cols].
  apply Forall2_fmap_l, Forall_Forall2_diag. eapply Forall_impl; [exact Hcols|].
  intros c [_ Hc]. split; [done|]. by apply read_column_text.
Qed.

Definition example_table : Frame :=
  mkFrame [2; 5; 9]
    [("EVENT_TYPE", [CStr "Hail"; CStr ("Flood, " +:+ String dq "flash" +:+ String dq EmptyString); CNone]);
     ("DAMAGE_PROPERTY", [CFloat (PFin 1500); CFloat PNaN; CFloat (PFin (25 # 100))]);
     ("YEAR", [CFloat (PFin 2020); CNone; CFloat (PInf false)])].

(** A float written by [repr] and read back by [read_csv]'s number
    parser is the same number, for every finite decimal with at most
    [repr_scale_bound] places (every float the pipeline saves). *)
Theorem float_repr_roundtrip q z k :
  k <= repr_scale_bound -> q == inject_Z z / inject_Z (10 ^ Z.of_nat k) ->
  exists q', csv_number (float_repr (PFin q)) = Some (PFin q') /\ q' == q.
Proof. intros Hk Hq. exact (repr_Q_decimal q (decimal_of_exists q z k Hk Hq)). Qed.

(** [read_csv]'s tokenizer reads back the records [csv.writer]
    writes, whatever the fields hold (commas, quotes, line breaks, empty
    fields), provided no record is empty. *)
Theorem tokenize_write_lines recs :
  Forall (fun r => r <> []) recs -> tokenize (write_lines recs) = Ok recs.
Proof. apply tok_lines. Qed.

(** The [while] loop of pandas' renaming of duplicate column names
    always ends within its fuel, and the names it gives are distinct:
    [dedup_names] returns a list of the same length without
    duplicates, for every header. *)
Theorem dedup_names_total names :
  exists out, dedup_names names = Some out /\ length out = length names /\ NoDup out.
Proof.
  destruct (dedup_from_spec (S (length names)) ∅ names) as (out & Hr & Hl & Hnd & _).
  - rewrite dom_empty_L, size_empty. lia.
  - apply map_Forall_empty.
  - by exists out.
Qed.

(** Every table [read_csv] returns is well formed: each column has
    one value per row, and the column names are distinct (duplicates in
    the header are renamed). *)
Theorem read_csv_text_wf s df : read_csv_text s = Ok df -> frame_wf df.
Proof. intros H. exact (proj1 (read_csv_text_shape s df H)). Qed.

End Csv.
