(* ===== verification/Pages.v ===== *)
(** * Pages: what each dashboard script puts on its page

    The dashboards of [Dashboards] reduce the table to the summaries they
    chart; this file models the rest of each script: the sidebar widgets
    and their values (streamlit's [multiselect] and [selectbox]), the
    title and headings ([st.title], [st.markdown]), and the charts with
    their specification (altair's [Chart(...).mark_*().encode(...)
    .properties(...)], plotly's [px.choropleth] and [update_layout]).  A
    page is the list of its elements, in the order the script emits
    them.  Rendering is not modelled: a chart is the record of what the
    script asks the library to draw. *)

From Stdlib Require Import QArith ZArith Ascii String.
From stdpp Require Import base list strings decidable sets sorting.
From S2P Require Import Prelude PyStr PyFloat Frame Fips Merge Groupby Dashboards.

Module Pages.
Import Merge.Merge Groupby.Groupby Dashboards.Dashboards.

(** ** Page elements *)

(** [mark_line(point=True)] and [mark_bar()]. *)
Inductive Mark := MarkLine (point : bool) | MarkBar.

(** An encoding channel: [alt.X(field, sort=..., title=...)],
    [alt.Color(field, legend=None)]. *)
Record Channel := mkChannel {
  ch_field : string;
  ch_title : option string;
  ch_sort : option string;
  ch_legend : bool
}.

(** [alt.Chart(data).mark().encode(x, y, color, tooltip)
    .properties(width, height)]. *)
Record AltChart := mkAltChart {
  ac_data : Frame;
  ac_mark : Mark;
  ac_x : Channel;
  ac_y : Channel;
  ac_color : Channel;
  ac_tooltip : list string;
  ac_width : nat;
  ac_height : nat
}.

(** [px.choropleth(data, locations, locationmode, color, hover_name,
    color_continuous_scale, scope, labels)] with the layout of
    [fig.update_layout(geo=dict(bgcolor=...), margin=...)]. *)
Record Choropleth := mkChoropleth {
  cp_data : Frame;
  cp_locations : string;
  cp_locationmode : string;
  cp_color : string;
  cp_hover_name : string;
  cp_scale : string;
  cp_scope : string;
  cp_labels : list (string * string);
  cp_geo_bgcolor : string;
  cp_margin : list (string * nat)
}.

Inductive Element :=
  | ETitle (s : string)                                     (** [st.title] *)
  | EMarkdown (s : string)                                  (** [st.markdown] *)
  | EMultiselect (label : string) (options dflt : list Cell) (** [st.sidebar.multiselect] *)
  | ESelectbox (label : string) (options : list string)     (** [st.sidebar.selectbox] *)
  | EAltairChart (c : AltChart) (use_container_width : bool)  (** [st.altair_chart] *)
  | EPlotlyChart (c : Choropleth) (use_container_width : bool). (** [st.plotly_chart] *)

Definition Page := list Element.

(** ** Widgets *)

(** [st.multiselect(label, options, default=dflt)]: streamlit refuses a
    default value that is not among the options (Python's [in], which
    finds a missing value by identity, as [key_eq] does); the value is
    the default until the user changes the selection ([chosen]). *)
Definition st_multiselect (label : string) (options dflt : list Cell)
    (chosen : option (list Cell)) : Result (Element * list Cell) :=
  if forallb (fun d => existsb (key_eq d) options) dflt
  then mret (EMultiselect label options dflt, default dflt chosen)
  else raise StreamlitAPIException_default.

(** [st.selectbox(label, options)]: the value is the option at the index
    the user picked, the first one ([choice = 0]) until then. *)
Definition st_selectbox (label : string) (options : list string) (choice : nat)
    : Result (Element * string) :=
  match options !! choice with
  | Some v => mret (ESelectbox label options, v)
  | None => raise StreamlitAPIException_index
  end.

(** Lines 14-19 of the storm and states dashboards. *)
Definition numeric_columns : list string :=
  ["INJURIES_DIRECT"; "INJURIES_INDIRECT"; "DEATHS_DIRECT"; "DEATHS_INDIRECT";
   "DAMAGE_PROPERTY"; "DAMAGE_CROPS"].

(** map_dashboard.py lines 11-15. *)
Definition map_metrics : list string :=
  ["DAMAGE_PROPERTY"; "DAMAGE_CROPS"; "INJURIES_DIRECT"; "INJURIES_INDIRECT";
   "DEATHS_DIRECT"; "DEATHS_INDIRECT"].

(** ** The two altair charts (storm and states dashboards) *)

(** Lines 53-61 (storm) and 52-60 (states): the monthly line chart. *)
Definition line_chart (monthly : Frame) (key key_title col : string) : AltChart :=
  mkAltChart monthly (MarkLine true)
    (mkChannel "MONTH_NAME" (Some "Month") None true)
    (mkChannel "VALUE" (Some col) None true)
    (mkChannel key (Some key_title) None true)
    [key; "MONTH_NAME"; "VALUE"] 800 400.

(** Lines 67-75 (storm) and 66-74 (states): the bar chart of totals. *)
Definition bar_chart (total : Frame) (key key_title col : string) : AltChart :=
  mkAltChart total MarkBar
    (mkChannel key (Some key_title) (Some "-y") true)
    (mkChannel "TOTAL" (Some ("Total " ++ col)%string) None true)
    (mkChannel key None None false)
    [key; "TOTAL"] 800 300.

(** Lines 48-76 (storm) and 47-76 (states): title, headings and charts;
    [key_title] is "Event Type" or "State". *)
Definition summary_page (heading key key_title col : string) (monthly total : Frame) : Page :=
  [ETitle heading;
   EMarkdown ("### Monthly " ++ col ++ " by " ++ key_title)%string;
   EAltairChart (line_chart monthly key key_title col) true;
   EMarkdown ("### Total " ++ col ++ " by " ++ key_title)%string;
   EAltairChart (bar_chart total key key_title col) true].

(** ** The three pages *)

(** storm_dashboard.py as a whole: the options (lines 9-10), the widgets
    (lines 11 and 19), the summaries (lines 21-46) and the page (lines
    48-76).  [selected_events] and [choice] are what the user did with
    the two widgets. *)
Definition storm_page (df : Frame) (selected_events : option (list Cell)) (choice : nat)
    : Result Page :=
  opts ← storm_event_options df;
  '(w1, sel) ← st_multiselect "Select event types (storm types):" opts.1 [opts.2] selected_events;
  '(w2, col) ← st_selectbox "Select a variable to visualize:" numeric_columns choice;
  '(monthly, total) ← summaries df "EVENT_TYPE" sel col;
  mret ([w1; w2] ++ summary_page "Storm Events Dashboard by Event Type" "EVENT_TYPE"
                      "Event Type" col monthly total).

(** states_dashboard.py as a whole. *)
Definition states_page (df : Frame) (selected_states : option (list Cell)) (choice : nat)
    : Result Page :=
  opts ← states_options df;
  '(w1, sel) ← st_multiselect "Select states:" opts.1 [opts.2] selected_states;
  '(w2, col) ← st_selectbox "Select a variable to visualize:" numeric_columns choice;
  '(monthly, total) ← summaries df "STATE" sel col;
  mret ([w1; w2] ++ summary_page "Storm Events Dashboard" "STATE" "State" col monthly total).

(** [metric.replace('_', ' ').title()], map_dashboard.py lines 28 and 39. *)
Definition metric_label (metric : string) : string :=
  py_title (py_replace_char "_" " " metric).

(** map_dashboard.py lines 31-45: the choropleth of the state summary. *)
Definition map_figure (state_summary : Frame) (metric : string) : Choropleth :=
  mkChoropleth state_summary "state" "USA-states" "VALUE" "STATE" "Reds" "usa"
    [("VALUE", metric_label metric)] "rgba(0,0,0,0)" [("r", 0); ("t", 30); ("l", 0); ("b", 0)].

(** map_dashboard.py as a whole: the metric (lines 9-16), the summary
    (lines 19-24) and the page (lines 27-48). *)
Definition map_page (df : Frame) (choice : nat) : Result Page :=
  '(w, metric) ← st_selectbox "Select a metric to visualize on the US map:" map_metrics choice;
  state_summary ← map_dashboard df metric;
  mret [w; ETitle "Storm Impact by US State";
        EMarkdown ("### Total " ++ metric_label metric ++ " by State (2024)")%string;
        EPlotlyChart (map_figure state_summary metric) true].

(** ** Well-formed pages *)

(** The data a page charts, in order. *)
Definition page_charts (p : Page) : list Frame :=
  omap (fun e => match e with
                 | EAltairChart c _ => Some c.(ac_data)
                 | EPlotlyChart c _ => Some c.(cp_data)
                 | _ => None
                 end) p.

Definition has_col (df : Frame) (f : string) : bool := bool_decide (f ∈ col_names df).

(** A column of numbers: a chart's quantitative channel. *)
Definition numeric_col (df : Frame) (f : string) : bool :=
  match assoc f df.(f_cols) with
  | Some vs => forallb is_float vs
  | None => false
  end.

(** What the libraries need of an element: every field a chart encodes
    or shows is a column of its data, the quantitative channel (the y
    axis, the map's colour) holds numbers, and a multiselect's defaults
    are among its options. *)
Definition element_ok (e : Element) : bool :=
  match e with
  | EMultiselect _ opts d => forallb (fun x => existsb (key_eq x) opts) d
  | ESelectbox _ opts => negb (bool_decide (opts = []))
  | EAltairChart c _ =>
      forallb (has_col c.(ac_data))
        ([c.(ac_x).(ch_field); c.(ac_y).(ch_field); c.(ac_color).(ch_field)] ++ c.(ac_tooltip)) &&
      numeric_col c.(ac_data) c.(ac_y).(ch_field)
  | EPlotlyChart c _ =>
      forallb (has_col c.(cp_data))
        ([c.(cp_locations); c.(cp_color); c.(cp_hover_name)] ++ c.(cp_labels).*1) &&
      numeric_col c.(cp_data) c.(cp_color)
  | _ => true
  end.

Definition page_ok (p : Page) : bool := forallb element_ok p.

(** The metric columns the selectboxes offer hold no string, so pandas
    reads them as float64 and sums them as numbers; a column holding a
    string has dtype object, and [sum] concatenates its strings. *)
Definition float_metrics (df : Frame) : bool :=
  forallb (fun c => match assoc c df.(f_cols) with
                    | Some vs => negb (existsb is_str vs)
                    | None => true
                    end) numeric_columns.

(** ** Lemmas *)

(** Destruct the results a page is built from, the tuple patterns
    included. *)
Ltac page_inv :=
  repeat (result_inv; repeat match goal with x : _ * _ |- _ => destruct x end; cbn beta iota in *).

Lemma forallb_fmap_true {A B} (p : B -> bool) (f : A -> B) (l : list A) :
  Forall (fun x => p (f x) = true) l -> forallb p (f <$> l) = true.
Proof. induction 1; cbn; [done|]. by apply andb_true_intro. Qed.

Lemma float_metrics_col df c vs :
  float_metrics df = true -> c ∈ numeric_columns -> assoc c df.(f_cols) = Some vs ->
  existsb is_str vs = false.
Proof.
  unfold float_metrics. rewrite forallb_forall. intros H Hc Hv.
  specialize (H c (proj1 (list_elem_of_In _ _) Hc)). rewrite Hv in H. by apply negb_true_iff.
Qed.

(** A column without strings, read back through [get_col]. *)
Definition no_str_col (df : Frame) (c : string) : Prop :=
  forall vs, assoc c df.(f_cols) = Some vs -> existsb is_str vs = false.

Lemma get_col_no_str df c s : no_str_col df c -> get_col df c = Ok s -> existsb is_str s.(s_values) = false.
Proof. unfold get_col. intros Hn. destruct (assoc c _) eqn:E; [|discriminate]. intros [= <-]. by apply Hn. Qed.

Lemma monthly_summary_ok df key col m :
  key <> "VALUE" -> no_str_col df col -> monthly_summary df key col = Ok m ->
  col_names m = [key; "MONTH_NAME"; "VALUE"] /\ numeric_col m "VALUE" = true.
Proof.
  intros Hk Hn H. unfold monthly_summary in H. page_inv. split; [done|].
  unfold numeric_col; cbn. rewrite bool_decide_false by congruence. apply forallb_fmap_true.
  unfold monthly_sums in Ha2.
  apply (mapM_group_sum_col_float _ _ _ _ _ _ (get_col_no_str _ _ _ Hn Ha1)) in Ha2.
  rewrite merge_sort_Permutation. by apply (Forall_zip_snd (fun g => is_float g.2 = true)).
Qed.

Lemma total_summary_ok df key col t :
  key <> "TOTAL" -> no_str_col df col -> total_summary df key col = Ok t ->
  col_names t = [key; "TOTAL"] /\ numeric_col t "TOTAL" = true.
Proof.
  intros Hk Hn H. unfold total_summary in H. page_inv. split; [done|].
  unfold numeric_col; cbn. rewrite bool_decide_false by congruence. apply forallb_fmap_true.
  unfold groupby_sum_col in Ha1.
  exact (mapM_group_sum_col_float _ (fun k => k) _ _ _ _ (get_col_no_str _ _ _ Hn Ha0) Ha1).
Qed.

Lemma no_str_col_filter df mask c : no_str_col df c -> no_str_col (filter_rows df mask) c.
Proof.
  intros Hn vs Hv. cbn in Hv. rewrite assoc_fmap_snd in Hv.
  destruct (assoc c df.(f_cols)) eqn:E; [|discriminate]. injection Hv as <-.
  by apply existsb_mask_filter_false, Hn.
Qed.

Lemma summaries_ok df key sel col m t heading key_title :
  key <> "VALUE" -> key <> "TOTAL" -> no_str_col df col -> summaries df key sel col = Ok (m, t) ->
  page_ok (summary_page heading key key_title col m t) = true.
Proof.
  intros Hv Ht Hn H. unfold summaries, select_rows in H. page_inv.
  pose proof (no_str_col_filter df (isin a2.(s_values) sel) col Hn) as Hf.
  destruct (monthly_summary_ok _ _ _ _ Hv Hf Ha0) as [Hm Hmv].
  destruct (total_summary_ok _ _ _ _ Ht Hf Ha1) as [Htn Htv].
  cbn. unfold has_col. rewrite Hm, Htn, Hmv, Htv. by rewrite !bool_decide_true by set_solver.
Qed.

Lemma st_multiselect_ok label opts d chosen w v :
  st_multiselect label opts d chosen = Ok (w, v) -> element_ok w = true.
Proof.
  unfold st_multiselect. destruct (forallb _ d) eqn:E; intros H; [|discriminate H].
  injection H as <- _. exact E.
Qed.

Lemma st_selectbox_ok label opts i w v :
  st_selectbox label opts i = Ok (w, v) -> element_ok w = true /\ opts !! i = Some v.
Proof.
  unfold st_selectbox. destruct (opts !! i) eqn:E; intros H; [|discriminate H].
  injection H as <- <-. split; [|done]. cbn. rewrite bool_decide_false; [done|].
  intros ->. done.
Qed.

(** The default of both multiselects is the first option. *)
Lemma st_multiselect_first label d l chosen :
  st_multiselect label (d :: l) [d] chosen = Ok (EMultiselect label (d :: l) [d], default [d] chosen).
Proof. unfold st_multiselect. cbn. by rewrite key_eq_refl_all. Qed.

Lemma storm_event_options_first df opts :
  storm_event_options df = Ok opts -> exists l, opts.1 = opts.2 :: l.
Proof.
  unfold storm_event_options. intros H. page_inv.
  destruct a0; [discriminate H|]. injection H as <- <-. by eexists.
Qed.

Lemma states_options_first df opts :
  states_options df = Ok opts -> exists l, opts.1 = opts.2 :: l.
Proof.
  unfold states_options. intros H. page_inv.
  destruct (uniques _); [discriminate H|]. injection H as <- <-. by eexists.
Qed.

Lemma map_dashboard_ok df metric m :
  no_str_col df metric -> map_dashboard df metric = Ok m ->
  col_names m = ["state"; "STATE"; "VALUE"] /\ numeric_col m "VALUE" = true.
Proof.
  intros Hn H. unfold map_dashboard in H. page_inv. split; [done|].
  unfold numeric_col; cbn. apply forallb_fmap_true. unfold groupby_sum_col in Ha2.
  exact (mapM_group_sum_col_float _ (fun k => k) _ _ _ _ (get_col_no_str _ _ _ Hn Ha1) Ha2).
Qed.

(** ** Theorems *)

Lemma map_metrics_numeric c : c ∈ map_metrics -> c ∈ numeric_columns.
Proof. unfold map_metrics, numeric_columns. set_solver. Qed.

(** C25: On a table whose metric columns hold no string (float64
    columns), every page the three scripts draw is well formed: each
    field a chart encodes or lists in its tooltip is a column of the
    chart's data, the y axis of both altair charts and the colour of
    the map hold numbers, each multiselect's default is among its
    options, and each selectbox has options. *)
Theorem pages_wf df sel i p :
  float_metrics df = true ->
  (storm_page df sel i = Ok p -> page_ok p = true) /\
  (states_page df sel i = Ok p -> page_ok p = true) /\
  (map_page df i = Ok p -> page_ok p = true).
Proof.
  intros Hf. split; [|split]; intros H.
  - unfold storm_page in H. page_inv.
    apply st_multiselect_ok in Ha0. apply st_selectbox_ok in Ha1 as [Ha1 Hc].
    unfold page_ok. cbn [app forallb]. rewrite Ha0, Ha1.
    apply (summaries_ok df "EVENT_TYPE" l); try done.
    intros vs. apply float_metrics_col; [done|]. by eapply list_elem_of_lookup_2.
  - unfold states_page in H. page_inv.
    apply st_multiselect_ok in Ha0. apply st_selectbox_ok in Ha1 as [Ha1 Hc].
    unfold page_ok. cbn [app forallb]. rewrite Ha0, Ha1.
    apply (summaries_ok df "STATE" l); try done.
    intros vs. apply float_metrics_col; [done|]. by eapply list_elem_of_lookup_2.
  - unfold map_page in H. page_inv.
    apply st_selectbox_ok in Ha as [Ha Hc].
    assert (Hm : no_str_col df s).
    { intros vs. apply float_metrics_col; [done|]. apply map_metrics_numeric. by eapply list_elem_of_lookup_2. }
    destruct (map_dashboard_ok _ _ _ Hm Ha0) as [Hn Hv].
    cbn. unfold has_col. rewrite Ha, Hn, Hv. by rewrite !bool_decide_true by set_solver.
Qed.

(** C26: The map's heading and legend name a metric written in capital
    letters with words joined by underscores ([DAMAGE_PROPERTY]) by its
    words, each capitalized, joined by spaces ([Damage Property]):
    [replace('_', ' ')] then [title()] is word-wise [capitalize()]. *)
Theorem metric_label_words ws :
  Forall (fun w => upper_word w = true) ws ->
  metric_label (String.concat "_" ws) = String.concat " " (py_capitalize <$> ws).
Proof.
  intros Hws. unfold metric_label. by rewrite py_replace_char_concat, title_concat_words.
Qed.

(** Each page charts exactly the summaries its dashboard computes,
    and fails exactly when the dashboard fails, with the same exception:
    the widgets add no failure of their own for an option the user can
    pick (the default of each multiselect is its first option). *)
Theorem pages_refine_dashboards df sel i col j metric :
  numeric_columns !! i = Some col -> map_metrics !! j = Some metric ->
  page_charts <$> storm_page df sel i = (fun mt => [mt.1; mt.2]) <$> storm_dashboard df sel col /\
  page_charts <$> states_page df sel i = (fun mt => [mt.1; mt.2]) <$> states_dashboard df sel col /\
  page_charts <$> map_page df j = (fun m => [m]) <$> map_dashboard df metric.
Proof.
  intros Hi Hj. split; [|split].
  - unfold storm_page, storm_dashboard. destruct (storm_event_options df) as [opts|e] eqn:E; [|done].
    rewrite !bind_Ok. destruct (storm_event_options_first _ _ E) as [l ->].
    rewrite st_multiselect_first, bind_Ok. cbv beta iota.
    unfold st_selectbox. rewrite Hi, bind_Ok. cbv beta iota.
    by destruct (summaries _ _ _ _) as [[m t]|e].
  - unfold states_page, states_dashboard. destruct (states_options df) as [opts|e] eqn:E; [|done].
    rewrite !bind_Ok. destruct (states_options_first _ _ E) as [l ->].
    rewrite st_multiselect_first, bind_Ok. cbv beta iota.
    unfold st_selectbox. rewrite Hi, bind_Ok. cbv beta iota.
    by destruct (summaries _ _ _ _) as [[m t]|e].
  - unfold map_page, st_selectbox. rewrite Hj, bind_Ok. cbv beta iota.
    by destruct (map_dashboard df metric).
Qed.

(** ** Witnesses, on the table of [Dashboards] *)

Lemma pages_wf_witness :
  float_metrics dash_table = true /\
  exists p1 p2 p3,
    storm_page dash_table dash_sel 2 = Ok p1 /\ page_ok p1 = true /\
    states_page dash_table None 2 = Ok p2 /\ page_ok p2 = true /\
    map_page dash_table 4 = Ok p3 /\ page_ok p3 = true.
Proof.
  assert (Hf : float_metrics dash_table = true) by (vm_compute; reflexivity).
  split; [exact Hf|]. eexists _, _, _.
  split; [vm_compute; reflexivity|].
  split; [apply (proj1 (pages_wf dash_table dash_sel 2 _ Hf)); vm_compute; reflexivity|].
  split; [vm_compute; reflexivity|].
  split; [apply (proj1 (proj2 (pages_wf dash_table None 2 _ Hf))); vm_compute; reflexivity|].
  split; [vm_compute; reflexivity|].
  apply (proj2 (proj2 (pages_wf dash_table None 4 _ Hf))); vm_compute; reflexivity.
Defined.

Lemma metric_label_words_witness :
  Forall (fun w => upper_word w = true) ["DAMAGE"; "PROPERTY"] /\
  metric_label "DAMAGE_PROPERTY" = "Damage Property".
Proof.
  split; [repeat constructor|].
  exact (metric_label_words ["DAMAGE"; "PROPERTY"] ltac:(repeat constructor)).
Defined.

(** Why C25 needs [float_metrics]: a casualty column holding a string
    has dtype object (read_csv makes every value of such a column a
    string), and [groupby(...).sum()] concatenates the strings of a
    group: two Hail rows with 1 and 2 injuries total "12", which altair
    plots as the number 12; a string next to a number raises
    [TypeError]. *)
Definition obj_table : Frame :=
  mkFrame [0; 1]
    [("EVENT_TYPE", [CStr "Hail"; CStr "Hail"]); ("MONTH_NAME", [CStr "May"; CStr "June"]);
     ("INJURIES_DIRECT", [CStr "1"; CStr "2"])].

Example object_sum_concatenates :
  float_metrics obj_table = false /\
  total_summary obj_table "EVENT_TYPE" "INJURIES_DIRECT" =
    Ok (mkFrame [0] [("EVENT_TYPE", [CStr "Hail"]); ("TOTAL", [CStr "12"])]) /\
  (exists p, storm_page obj_table None 0 = Ok p /\ page_ok p = false) /\
  obj_sum [CStr "1"; NaN; CFloat (PFin 2)] = Err TypeError_sum.
Proof.
  split; [vm_compute; reflexivity|]. split; [vm_compute; reflexivity|].
  split; [eexists; split; vm_compute; reflexivity|]. vm_compute. reflexivity.
Qed.

End Pages.
