(* ===== verification/Tests.v ===== *)
(** * Tests: [src/tests/test_get_data.py] and the session that runs it

    The two tests import [load_and_filter_storm_data] and
    [convert_damage_column] from [code.get_data].  Importing that module
    runs its last line, [get_storm_data_pipeline()] (get_data.py line
    144): the pipeline reads [cache/storm_data_2024.csv] and
    [cache/states.csv] and writes [cache/storm_data_2024_filtered.csv]
    before any test runs, and [test_load_and_filter_storm_data] reads that
    file back.  The files are a map from path to the text a file holds
    ([FS]): [pd.read_csv] parses a file's text ([Csv.read_csv_text]) and
    [save_filtered_data] writes the text of [df.to_csv(index=False)]
    ([Csv.to_csv_text]); a session is the import followed by the two
    tests.

    [pd.testing.assert_series_equal] is modelled with the defaults the
    test uses (lengths, then index, then dtype, then the values with
    [check_exact=False], [rtol=1e-5], [atol=1e-8]), and pandas' [assert]
    messages by their heading. *)

From Stdlib Require Import QArith Qabs Qminmax ZArith Ascii String.
From stdpp Require Import base list strings decidable gmap pretty.
From S2P Require Import Prelude PyStr PyFloat Frame Damage Loader Fips Merge Pipeline Dashboards Csv.

Module Tests.
Import Convert Load Merge.Merge Pipeline.Pipeline Dashboards.Dashboards Csv.Csv.

(** ** Files *)

(** The files, each holding its text. *)
Abbreviation FS := (gmap string string).

(** get_data.py lines 117-119. *)
Definition raw_path : string := "cache/storm_data_2024.csv".
Definition filtered_path : string := "cache/storm_data_2024_filtered.csv".
Definition state_csv_path : string := "cache/states.csv".

(** [pd.read_csv(path)]: the file's text parsed. *)
Definition read_csv (fs : FS) (path : string) : Result Frame :=
  match fs !! path with
  | Some txt => read_csv_text txt
  | None => raise (FileNotFoundError path)
  end.

(** [save_filtered_data(df, output_path)], get_data.py lines 27-37: the
    file then holds the text [df.to_csv(output_path, index=False)]
    writes ([os.makedirs] only makes sure the directory exists). *)
Definition save_filtered_data (fs : FS) (df : Frame) (output_path : string) : FS :=
  <[output_path := to_csv_text df]> fs.

(** [get_storm_data_pipeline()], get_data.py lines 106-140, with its
    files, read where the code reads them: the raw table in step 1
    (inside [load_and_filter_storm_data]), the state table in step 4
    (inside [merge_state_coordinates]). *)
Definition run_pipeline (fs : FS) : Result FS :=
  raw ← read_csv fs raw_path;
  df ← clean_storm_data raw;
  states ← read_csv fs state_csv_path;
  merged ← merge_state_coordinates df states;
  mret (save_filtered_data fs merged filtered_path).

(** ** The tests *)









(** The dtype pandas infers: [float64] for floats only, else [object]. *)
Inductive dtype := Float64 | Object.

#[export] Instance dtype_eq_dec : EqDecision dtype.
Proof. solve_decision. Defined.





(** ** Lemmas *)











(** The pipeline reads no file it writes: the raw and state tables read
    the same after [save_filtered_data]. *)
Lemma read_csv_save fs df p :
  p <> filtered_path -> read_csv (save_filtered_data fs df filtered_path) p = read_csv fs p.
Proof. intros Hp. unfold read_csv, save_filtered_data. by rewrite lookup_insert_ne. Qed.

(** ** Theorems *)

(** C17: Running the pipeline twice on unchanged inputs leaves the files
    as one run leaves them (the idempotence the specification asks for):
    the second run reads the same raw and state tables, which the first
    did not touch, and writes the same text over the filtered file; a
    run that raises writes nothing, and the second raises the same
    exception. *)
Theorem run_pipeline_idempotent fs : (run_pipeline fs ≫= run_pipeline) = run_pipeline fs.
Proof.
  destruct (run_pipeline fs) as [fs'|e] eqn:H; [cbn|done].
  unfold run_pipeline in H |- *. result_inv.
  rewrite !read_csv_save by (unfold raw_path, state_csv_path, filtered_path; discriminate).
  rewrite Ha, bind_Ok, Ha0, bind_Ok, Ha1, bind_Ok, Ha2, bind_Ok.
  unfold save_filtered_data. by rewrite insert_insert_eq.
Qed.



(** ** Witnesses, on the end-to-end scenario of [Pipeline] *)









End Tests.
