(* ===== verification/System.v ===== *)
(** * System: the saved table as the dashboards see it

    [get_storm_data_pipeline] ([src/code/get_data.py]) writes the table
    that the three dashboards read ([save_and_reload]).  The theorems
    here compose the two programs: the type of the saved damage columns
    and the dashboards' success on the saved table, and the
    specification's end-to-end scenario through both programs (what the
    pipeline's defects look like on the charts). *)

From Stdlib Require Import QArith ZArith Ascii String.
From stdpp Require Import base list strings decidable.
From S2P Require Import Prelude PyStr PyFloat Frame Damage Loader Fips Merge Pipeline Groupby Dashboards.

Module System.
Import Fips.Fips Merge.Merge Pipeline.Pipeline Dashboards.Dashboards Groupby.Groupby.

(** A reference table with the two-letter codes the map needs; it has
    no row for Iowa. *)
Definition scenario_states_codes : Frame :=
  mkFrame [0; 1] [("state", [CStr "OH"; CStr "TX"]); ("name", [CStr "Ohio"; CStr "Texas"]);
                  ("latitude", [CFloat (PFin 40); CFloat (PFin 31)])].

(** A required column that the state table does not share is saved
    under its name, with the cleaned column's values read through the
    join rows; the saved table has one label per join row. *)
Lemma pipeline_column raw states m n :
  frame_wf raw -> get_storm_data_pipeline raw states = Ok m ->
  n ∈ required_columns -> n ∉ col_names states ->
  exists df lks names v, clean_storm_data raw = Ok df /\ assoc "STATE" df.(f_cols) = Some lks /\
    assoc n df.(f_cols) = Some v /\ m.(f_index) = seq 0 (length (join_rows lks names)) /\
    assoc n m.(f_cols) = Some (gather_left (join_rows lks names) v).
Proof.
  intros Hwf Hp Hn Hs. unfold get_storm_data_pipeline in Hp. result_inv. rename a into df.
  destruct (merge_state_coordinates_assoc _ _ _ Hp) as (lks & names & st' & Hl & Hidx & _ & Hass).
  destruct (required_no_suffix n Hn) as [Hx Hy].
  destruct (assoc_is_Some n df.(f_cols)) as [v Hv].
  { change (n ∈ col_names df). by rewrite (clean_storm_data_names _ _ Hwf Ha). }
  exists df, lks, names, v. rewrite ((proj1 (Hass n Hx Hy)) Hs), Hv. done.
Qed.

(** A gathered column is as long as the join: not empty when the saved
    table has a row. *)
Lemma gather_left_nonempty (m : Frame) pairs v :
  m.(f_index) = seq 0 (length pairs) -> m.(f_index) <> [] -> gather_left pairs v <> [].
Proof.
  intros Hidx Hne Hnil. apply Hne. rewrite Hidx. apply (f_equal length) in Hnil.
  unfold gather_left in Hnil. rewrite length_fmap in Hnil. by rewrite Hnil.
Qed.

Lemma Forall_float_no_str vs :
  Forall (fun v => is_float v = true) vs -> Forall (fun v => is_str v = false) vs.
Proof. apply Forall_impl. by intros [| |]. Qed.

(** C29: The saved table is typed as the dashboards need it: each
    damage column the state table does not also have is saved under its
    name, one value per row, and holds floats only (NaN where the
    misaligned assignment found no value), never a string. *)
Theorem saved_damage_columns_float raw states m c :
  frame_wf raw -> get_storm_data_pipeline raw states = Ok m ->
  c = DAMAGE_PROPERTY \/ c = DAMAGE_CROPS -> c ∉ col_names states ->
  exists vs, assoc c (save_and_reload m).(f_cols) = Some vs /\
    length vs = length (save_and_reload m).(f_index) /\ Forall (fun v => is_float v = true) vs.
Proof.
  intros Hwf Hp Hc Hs.
  destruct (pipeline_column raw states m c Hwf Hp) as (df & lks & names & v & Hdf & _ & Hv & Hidx & Hm);
    [by apply damage_required|done|].
  destruct (clean_storm_data_damage_float raw df c Hwf Hdf Hc) as (v' & Hv' & Hf).
  rewrite Hv in Hv'. injection Hv' as <-.
  exists (gather_left (join_rows lks names) v). cbn [save_and_reload f_cols f_index]. split; [done|]. split.
  - unfold gather_left. by rewrite Hidx, !length_seq, length_fmap.
  - by apply gather_left_float.
Qed.

(** C30: The three dashboards render the pipeline's output for a damage
    metric.  Once the saved table has a row and the state table shares
    none of the names [STATE], [MONTH_NAME], [EVENT_TYPE] or the metric,
    the states dashboard raises no exception whatever the selection; the
    storm dashboard raises none when every event type of the raw table
    is a string (a missing one makes [sorted] raise, C23); the map raises
    none when the state table has its [state] column. *)
Theorem pipeline_dashboards_render raw states m sel c :
  frame_wf raw -> get_storm_data_pipeline raw states = Ok m -> m.(f_index) <> [] ->
  c = DAMAGE_PROPERTY \/ c = DAMAGE_CROPS ->
  Forall (fun n => n ∉ col_names states) ["STATE"; "MONTH_NAME"; "EVENT_TYPE"; c] ->
  (exists mt, states_dashboard (save_and_reload m) sel c = Ok mt) /\
  ((forall ev, assoc "EVENT_TYPE" raw.(f_cols) = Some ev -> Forall (fun v => is_str v = true) ev) ->
   exists mt, storm_dashboard (save_and_reload m) sel c = Ok mt) /\
  ("state" ∈ col_names states -> exists r, map_dashboard (save_and_reload m) c = Ok r).
Proof.
  intros Hwf Hp Hne Hc Hs. inversion_clear Hs as [|? ? HS Hs1].
  inversion_clear Hs1 as [|? ? HM Hs2]. inversion_clear Hs2 as [|? ? HE Hs3].
  inversion_clear Hs3 as [|? ? Hcs _].
  destruct (pipeline_column raw states m "STATE" Hwf Hp)
    as (df & lks & names & st & Hdf & _ & _ & Hidx & Hst); [decide_true|done|].
  destruct (pipeline_column raw states m "MONTH_NAME" Hwf Hp)
    as (? & ? & ? & ms & _ & _ & _ & _ & Hms); [decide_true|done|].
  destruct (pipeline_column raw states m c Hwf Hp) as (? & lc & nc & v & Hdf' & _ & Hv & _ & Hm);
    [by apply damage_required|done|].
  rewrite Hdf in Hdf'. injection Hdf' as <-.
  destruct (clean_storm_data_damage_float raw df c Hwf Hdf Hc) as (v' & Hv' & Hf).
  rewrite Hv in Hv'. injection Hv' as <-.
  assert (Hns : Forall (fun x => is_str x = false) (gather_left (join_rows lc nc) v))
    by (apply Forall_float_no_str, gather_left_float, Hf).
  split; [|split].
  - eapply (states_dashboard_total _ sel c _ _ _); [exact Hst| |exact Hms|exact Hm|exact Hns].
    by apply (gather_left_nonempty m).
  - intros Hraw.
    destruct (pipeline_column raw states m "EVENT_TYPE" Hwf Hp)
      as (? & lks' & names' & ev & Hdf' & Hl' & Hev & Hidx' & Hevm); [decide_true|done|].
    rewrite Hdf in Hdf'. injection Hdf' as <-.
    destruct (clean_storm_data_other_col raw df "EVENT_TYPE" Hwf Hdf)
      as (fips & evr & _ & Hevr & Hevdf); [decide_true|done|done|done|].
    rewrite Hev in Hevdf. injection Hevdf as ->.
    pose proof (clean_storm_data_wf _ _ Hwf Hdf) as Hwdf.
    eapply (storm_dashboard_total _ sel c _ _ _); [exact Hevm| | |exact Hms|exact Hm|exact Hns].
    + by apply (gather_left_nonempty m).
    + apply gather_left_Forall.
      * by rewrite (wf_col_length _ _ _ Hwdf Hev), (wf_col_length _ _ _ Hwdf Hl').
      * by apply Forall_mask_filter, Hraw.
  - intros Hstate. unfold get_storm_data_pipeline in Hp. rewrite Hdf, bind_Ok in Hp.
    destruct (merge_state_coordinates_assoc _ _ _ Hp) as (? & ? & st' & _ & _ & Hsn & Hass).
    assert (Hr : "state" ∉ col_names df)
      by (rewrite (clean_storm_data_names _ _ Hwf Hdf); decide_true).
    destruct (assoc_is_Some "state" st'.(f_cols)) as [sv Hsv];
      [change ("state" ∈ col_names st'); by rewrite Hsn|].
    eapply (map_dashboard_total_ok _ c _ _ _); [|exact Hst|exact Hm|exact Hns].
    cbn [save_and_reload f_cols].
    rewrite (proj2 (Hass "state" ltac:(vm_compute; congruence) ltac:(vm_compute; congruence)) Hr), Hsv.
    reflexivity.
Qed.

(** On the specification's end-to-end scenario, the states
    dashboard with both surviving states selected charts a total
    property damage of 0.0 for IOWA, whose only event caused 1.50K, and
    of 1500.0 for OHIO, whose only event's damage "abc" reads 0.0: the
    misaligned assignment of the pipeline (C1) reaches the charts, and
    the NaN it leaves is summed as 0. *)
Example scenario_states_dashboard :
  exists m monthly total,
    get_storm_data_pipeline scenario_raw scenario_states = Ok m /\
    states_dashboard (save_and_reload m) (Some [CStr "OHIO"; CStr "IOWA"]) "DAMAGE_PROPERTY"
      = Ok (monthly, total) /\
    assoc "STATE" total.(f_cols) = Some [CStr "IOWA"; CStr "OHIO"] /\
    assoc "TOTAL" total.(f_cols) ≡ Some [CFloat (PFin 0); CFloat (PFin 1500)].
Proof.
  eexists _, _, _. split; [vm_compute; reflexivity|]. split; [vm_compute; reflexivity|].
  split; [reflexivity|]. vm_compute. repeat constructor.
Qed.

(** A storm row whose state has no row in the reference table is
    kept by the left join with a missing [state] code, and the map's
    [groupby(["state", "STATE"])] then drops it: on the scenario with a
    reference table that lacks Iowa, the map shows OHIO alone. *)
Theorem scenario_map_unmatched :
  exists m map,
    get_storm_data_pipeline scenario_raw scenario_states_codes = Ok m /\
    assoc "STATE" m.(f_cols) = Some [CStr "OHIO"; CStr "IOWA"] /\
    assoc "state" m.(f_cols) = Some [CStr "OH"; NaN] /\
    map_dashboard (save_and_reload m) "DAMAGE_PROPERTY" = Ok map /\
    assoc "STATE" map.(f_cols) = Some [CStr "OHIO"] /\
    assoc "state" map.(f_cols) = Some [CStr "OH"].
Proof.
  eexists _, _. split; [vm_compute; reflexivity|].
  split; [reflexivity|]. split; [reflexivity|]. split; [vm_compute; reflexivity|].
  split; reflexivity.
Qed.

(** ** Witnesses *)

Lemma saved_damage_columns_float_witness :
  exists m, get_storm_data_pipeline scenario_raw scenario_states_codes = Ok m /\
    exists vs, assoc DAMAGE_PROPERTY (save_and_reload m).(f_cols) = Some vs /\
      length vs = length (save_and_reload m).(f_index) /\ Forall (fun v => is_float v = true) vs.
Proof.
  eexists. split; [vm_compute; reflexivity|].
  apply (saved_damage_columns_float scenario_raw scenario_states_codes);
    [decide_true | vm_compute; reflexivity | by left | decide_true].
Defined.

Lemma pipeline_dashboards_render_witness :
  exists m, get_storm_data_pipeline scenario_raw scenario_states_codes = Ok m /\
    (exists mt, states_dashboard (save_and_reload m) None DAMAGE_CROPS = Ok mt) /\
    ((forall ev, assoc "EVENT_TYPE" scenario_raw.(f_cols) = Some ev -> Forall (fun v => is_str v = true) ev) ->
     exists mt, storm_dashboard (save_and_reload m) None DAMAGE_CROPS = Ok mt) /\
    ("state" ∈ col_names scenario_states_codes ->
     exists r, map_dashboard (save_and_reload m) DAMAGE_CROPS = Ok r).
Proof.
  eexists. split; [vm_compute; reflexivity|].
  apply (pipeline_dashboards_render scenario_raw scenario_states_codes);
    [decide_true | vm_compute; reflexivity | decide_true | by right | decide_true].
Defined.

End System.
